(** * cf-worker-ws-dev: the data plane, embedded and verified

    A shallow embedding of the header parsers (VLESS, Trojan), the nested
    tunnel's request-header builder, the proxy resolver and its rotation
    cursor, the stream relay with its one-shot retry, the DNS fallback and
    the UDP length-prefix framing, followed by the properties the
    specification states about them.

    Conventions.  A [Uint8Array] / [ArrayBuffer] is a [list byte]; a
    JavaScript string is the list of its UTF-16 code units ([list Z]); a
    JavaScript number that is used as an integer is a [Z], with [NaN]
    written out where the source can produce it; 32-bit operators wrap as
    ECMAScript says.  A call that can throw returns a [completion]. *)

From Stdlib Require Import ZArith List Bool Lia String Ascii.
From Stdlib Require Import Strings.Byte.
From stdpp Require Import prelude.

Local Open Scope Z_scope.

(* ================================================================== *)
(** * The JavaScript platform                                          *)
(* ================================================================== *)

Module JS.

(** ** Completions *)

(** [TypeError] and [RangeError] come from the platform and from fixed
    messages; [Error] carries the message computed by the program, as code
    units. *)
Inductive exn : Type :=
| TypeError (msg : string)
| RangeError (msg : string)
| Error (msg : list Z).

Inductive completion (A : Type) : Type :=
| Return (a : A)
| Throw (e : exn).
Arguments Return {A} a.
Arguments Throw {A} e.

Definition cbind {A B} (c : completion A) (k : A -> completion B) : completion B :=
  match c with
  | Return a => k a
  | Throw e => Throw e
  end.

#[global] Instance completion_ret : MRet completion := @Return.
#[global] Instance completion_bind : MBind completion :=
  fun A B k c => cbind c k.

(** ** Numbers: integers and NaN *)

Inductive num : Type :=
| Int (z : Z)
| NaN.

Definition num_add (a b : num) : num :=
  match a, b with
  | Int x, Int y => Int (x + y)
  | _, _ => NaN
  end.

(** [a < b]; every comparison with NaN is false. *)
Definition num_lt (a b : num) : bool :=
  match a, b with
  | Int x, Int y => x <? y
  | _, _ => false
  end.

(** ToIntegerOrInfinity: NaN becomes 0. *)
Definition toInteger (n : num) : Z :=
  match n with
  | Int z => z
  | NaN => 0
  end.

(** ** 32-bit integer operators *)

Definition toInt32 (z : Z) : Z := (z + 2 ^ 31) mod 2 ^ 32 - 2 ^ 31.
Definition toUint32 (z : Z) : Z := z mod 2 ^ 32.

(** The shift count is taken modulo 32. *)
Definition shiftCount (n : Z) : Z := toUint32 n mod 32.

(** [x << n] *)
Definition shl (x n : Z) : Z := toInt32 (Z.shiftl (toInt32 x) (shiftCount n)).
(** [x >> n] *)
Definition sar (x n : Z) : Z := Z.shiftr (toInt32 x) (shiftCount n).
(** [x >>> n] *)
Definition shr (x n : Z) : Z := Z.shiftr (toUint32 x) (shiftCount n).
(** [x | y], [x & y], [x ^ y], [~x] *)
Definition bor (x y : Z) : Z := toInt32 (Z.lor (toInt32 x) (toInt32 y)).
Definition band (x y : Z) : Z := toInt32 (Z.land (toInt32 x) (toInt32 y)).
Definition bxor (x y : Z) : Z := toInt32 (Z.lxor (toInt32 x) (toInt32 y)).
Definition bnot (x : Z) : Z := toInt32 (Z.lnot (toInt32 x)).

(** ** Bytes and typed arrays *)

(** The unsigned value of a byte. *)
Definition u8 (b : byte) : Z := Z.of_N (Byte.to_N b).

(** Storing a number into a [Uint8Array] element (ToUint8: modulo 256). *)
Definition toUint8 (z : Z) : byte :=
  match Byte.of_N (Z.to_N (z mod 256)) with
  | Some b => b
  | None => x00
  end.

(** Storing NaN (or undefined) stores 0. *)
Definition numToUint8 (n : num) : byte := toUint8 (toInteger n).

Definition bytes (l : list Z) : list byte := map toUint8 l.

(** [arr[i]] on a typed array: [undefined] (here [None]) out of range. *)
Definition index (arr : list byte) (i : Z) : option byte :=
  if i <? 0 then None else arr !! Z.to_nat i.

(** [arr[i]] where the index itself may be NaN: the property "NaN" does
    not exist on a typed array. *)
Definition indexNum (arr : list byte) (i : num) : option byte :=
  match i with
  | Int z => index arr z
  | NaN => None
  end.

(** [arr[i] = v] on a typed array: ignored out of range. *)
Definition store (arr : list byte) (i : Z) (v : byte) : list byte :=
  if i <? 0 then arr else <[Z.to_nat i := v]> arr.

(** [new Uint8Array(n)]: [n] zero bytes. *)
Definition newUint8Array (n : Z) : list byte := replicate (Z.to_nat n) x00.

(** A relative index of [slice], clamped to [0 .. len]. *)
Definition relativeIndex (len : Z) (i : num) : Z :=
  let z := toInteger i in
  if z <? 0 then Z.max (len + z) 0 else Z.min z len.

(** [arr.slice(start, end)], for typed arrays, array buffers and strings. *)
Definition slice {A} (arr : list A) (start stop : num) : list A :=
  let len := Z.of_nat (length arr) in
  let k := relativeIndex len start in
  let f := relativeIndex len stop in
  take (Z.to_nat (f - k)) (drop (Z.to_nat k) arr).

(** [arr.slice(start)] *)
Definition sliceFrom {A} (arr : list A) (start : num) : list A :=
  slice arr start (Int (Z.of_nat (length arr))).

(** [target.set(source, offset)]: RangeError when it does not fit. *)
Definition setArray (target source : list byte) (offset : Z) : completion (list byte) :=
  if (offset <? 0) || (Z.of_nat (length target) <? offset + Z.of_nat (length source))
  then Throw (RangeError "offset is out of bounds")
  else Return (take (Z.to_nat offset) target ++ source
               ++ drop (Z.to_nat offset + length source) target).

(** [joinUint8Array], [new Uint8Array(a.length + b.length)] filled by two
    [set] calls. *)
Definition concatBytes (a b : list byte) : list byte := a ++ b.

(** ** DataView *)

(** ToIndex of a view offset: NaN is 0, a negative offset is a RangeError. *)
Definition getUint8 (buf : list byte) (i : num) : completion Z :=
  let z := toInteger i in
  if z <? 0 then Throw (RangeError "Offset is outside the bounds of the DataView")
  else match buf !! Z.to_nat z with
       | Some b => Return (u8 b)
       | None => Throw (RangeError "Offset is outside the bounds of the DataView")
       end.

(** Big-endian 16-bit read. *)
Definition getUint16 (buf : list byte) (i : num) : completion Z :=
  let z := toInteger i in
  if z <? 0 then Throw (RangeError "Offset is outside the bounds of the DataView")
  else match buf !! Z.to_nat z, buf !! S (Z.to_nat z) with
       | Some hi, Some lo => Return (u8 hi * 256 + u8 lo)
       | _, _ => Throw (RangeError "Offset is outside the bounds of the DataView")
       end.

(** ** Strings *)

Definition jsstring : Type := list Z.

(** A literal. *)
Definition str (s : string) : jsstring :=
  map (fun a => Z.of_N (N_of_ascii a)) (list_ascii_of_string s).

Fixpoint eqb (a b : jsstring) : bool :=
  match a, b with
  | [], [] => true
  | x :: a', y :: b' => (x =? y) && eqb a' b'
  | _, _ => false
  end.

(** [s.startsWith(p)] *)
Fixpoint startsWith (p s : jsstring) : bool :=
  match p, s with
  | [], _ => true
  | x :: p', y :: s' => (x =? y) && startsWith p' s'
  | _ :: _, [] => false
  end.

(** [s.endsWith(p)] *)
Definition endsWith (p s : jsstring) : bool := startsWith (rev p) (rev s).

(** [s.includes(p)] *)
Fixpoint includes (p s : jsstring) : bool :=
  startsWith p s ||
  match s with
  | [] => false
  | _ :: s' => includes p s'
  end.

(** [s.split(sep)] for a non-empty separator; [n] counts the code units
    of a separator occurrence that are still to be skipped. *)
Fixpoint split_go (sep : jsstring) (n : nat) (s : jsstring) : list jsstring :=
  match s with
  | [] => [[]]
  | c :: s' =>
      match n with
      | S n' => split_go sep n' s'
      | O =>
          if startsWith sep s
          then [] :: split_go sep (length sep - 1) s'
          else match split_go sep 0 s' with
               | h :: t => (c :: h) :: t
               | [] => [[c]]
               end
      end
  end.

Definition split (sep s : jsstring) : list jsstring := split_go sep 0 s.

(** [parts.join(sep)] on an array of strings. *)
Fixpoint join (sep : jsstring) (parts : list jsstring) : jsstring :=
  match parts with
  | [] => []
  | [p] => p
  | p :: rest => p ++ sep ++ join sep rest
  end.

(** [s.replace(/pat/g, rep)] for a literal, non-empty pattern. *)
Definition replaceAll (pat rep s : jsstring) : jsstring := join rep (split pat s).

(** [s.lastIndexOf(c)] for one code unit; -1 when absent. *)
Fixpoint lastIndexOf_go (c : Z) (s : jsstring) (i : Z) (found : Z) : Z :=
  match s with
  | [] => found
  | x :: s' => lastIndexOf_go c s' (i + 1) (if x =? c then i else found)
  end.

Definition lastIndexOf (c : Z) (s : jsstring) : Z := lastIndexOf_go c s 0 (-1).

(** WhiteSpace and LineTerminator code units (what [trim] and [parseInt] skip). *)
Definition isWhiteSpace (c : Z) : bool :=
  (c =? 9) || (c =? 10) || (c =? 11) || (c =? 12) || (c =? 13) || (c =? 32)
  || (c =? 160) || (c =? 5760) || ((8192 <=? c) && (c <=? 8202))
  || (c =? 8232) || (c =? 8233) || (c =? 8239) || (c =? 8287)
  || (c =? 12288) || (c =? 65279).

Fixpoint trimStart (s : jsstring) : jsstring :=
  match s with
  | c :: s' => if isWhiteSpace c then trimStart s' else s
  | [] => []
  end.

Definition trim (s : jsstring) : jsstring := rev (trimStart (rev (trimStart s))).

(** [s.toLowerCase()], exact on ASCII; code units outside ASCII are left
    as they are. *)
Definition toLowerCase (s : jsstring) : jsstring :=
  map (fun c => if (65 <=? c) && (c <=? 90) then c + 32 else c) s.

(** [s.padStart(n, "0")] *)
Definition padStart0 (n : nat) (s : jsstring) : jsstring :=
  replicate (n - length s) 48 ++ s.

(** [s.substr(i, n)] for a non-negative start. *)
Definition substr (s : jsstring) (i n : nat) : jsstring := take n (drop i s).

(** ** Numbers and strings *)

(** The digit for a value below 36, lower case. *)
Definition digitChar (d : Z) : Z := if d <? 10 then 48 + d else 87 + d.

(** The value of a digit in any case, or [None]. *)
Definition digitValue (c : Z) : option Z :=
  if (48 <=? c) && (c <=? 57) then Some (c - 48)
  else if (97 <=? c) && (c <=? 122) then Some (c - 87)
  else if (65 <=? c) && (c <=? 90) then Some (c - 55)
  else None.

Fixpoint digits (fuel : nat) (radix n : Z) : jsstring :=
  match fuel with
  | O => [digitChar (n mod radix)]
  | S f =>
      (if n / radix =? 0 then [] else digits f radix (n / radix))
      ++ [digitChar (n mod radix)]
  end.

(** [n.toString(radix)] of an integer. *)
Definition toStringRadix (radix n : Z) : jsstring :=
  if n <? 0 then 45 :: digits (Z.to_nat (Z.log2 (- n))) radix (- n)
  else digits (Z.to_nat (Z.log2 n)) radix n.

(** String(n) *)
Definition toString (n : Z) : jsstring := toStringRadix 10 n.

(** The longest prefix of digits of the radix, as their values. *)
Fixpoint digitPrefix (radix : Z) (s : jsstring) : list Z :=
  match s with
  | [] => []
  | c :: s' =>
      match digitValue c with
      | Some d => if d <? radix then d :: digitPrefix radix s' else []
      | None => []
      end
  end.

Definition digitsValue (radix : Z) (ds : list Z) : Z :=
  fold_left (fun acc d => acc * radix + d) ds 0.

Definition has0x (s : jsstring) : bool :=
  match s with
  | 48 :: x :: _ => (x =? 120) || (x =? 88)
  | _ => false
  end.

(** [parseInt(s, radix)] for radix 10, 16 or absent ([None]): leading white
    space, a sign, a [0x] prefix when the radix is 16 or absent, then the
    longest run of digits; NaN when there is none.  Exact below 2^53. *)
Definition parseInt (s : jsstring) (radix : option Z) : num :=
  let s1 := trimStart s in
  let '(sign, s2) :=
    match s1 with
    | 45 :: r => (-1, r)
    | 43 :: r => (1, r)
    | _ => (1, s1)
    end in
  let strip := match radix with None => true | Some r => r =? 16 end in
  let '(r, s3) :=
    if strip && has0x s2 then (16, drop 2 s2)
    else (match radix with None => 10 | Some r => r end, s2) in
  match digitPrefix r s3 with
  | [] => NaN
  | ds => Int (sign * digitsValue r ds)
  end.

(** ** TextEncoder and TextDecoder (UTF-8) *)

(** The code points of a string: surrogate pairs are combined, a lone
    surrogate becomes U+FFFD. *)
Fixpoint codePoints (s : jsstring) : list Z :=
  match s with
  | [] => []
  | c :: s' =>
      if (55296 <=? c) && (c <=? 56319) then
        match s' with
        | d :: s'' =>
            if (56320 <=? d) && (d <=? 57343)
            then (65536 + (c - 55296) * 1024 + (d - 56320)) ::
                 codePoints s''
            else 65533 :: codePoints s'
        | [] => [65533]
        end
      else if (56320 <=? c) && (c <=? 57343) then 65533 :: codePoints s'
      else c :: codePoints s'
  end.

(** UTF-8 bytes of one code point. *)
Definition utf8Bytes (cp : Z) : list byte :=
  if cp <? 128 then [toUint8 cp]
  else if cp <? 2048 then
    [toUint8 (Z.lor 192 (Z.shiftr cp 6)); toUint8 (Z.lor 128 (Z.land cp 63))]
  else if cp <? 65536 then
    [toUint8 (Z.lor 224 (Z.shiftr cp 12));
     toUint8 (Z.lor 128 (Z.land (Z.shiftr cp 6) 63));
     toUint8 (Z.lor 128 (Z.land cp 63))]
  else
    [toUint8 (Z.lor 240 (Z.shiftr cp 18));
     toUint8 (Z.lor 128 (Z.land (Z.shiftr cp 12) 63));
     toUint8 (Z.lor 128 (Z.land (Z.shiftr cp 6) 63));
     toUint8 (Z.lor 128 (Z.land cp 63))].

(** [new TextEncoder().encode(s)] *)
Definition textEncode (s : jsstring) : list byte :=
  flat_map utf8Bytes (codePoints s).

(** The state of the UTF-8 decoder of the Encoding Standard: idle, or inside
    a sequence with the code point so far, the number of continuation bytes
    still needed and the bounds for the next byte. *)
Inductive utf8State : Type :=
| Idle
| Pending (cp needed lower upper : Z).

(** A byte met in the idle state: what is emitted and the next state. *)
Definition utf8Lead (b : Z) : list Z * utf8State :=
  if b <=? 127 then ([b], Idle)
  else if (194 <=? b) && (b <=? 223) then ([], Pending (Z.land b 31) 1 128 191)
  else if (224 <=? b) && (b <=? 239) then
    ([], Pending (Z.land b 15) 2 (if b =? 224 then 160 else 128)
                                 (if b =? 237 then 159 else 191))
  else if (240 <=? b) && (b <=? 244) then
    ([], Pending (Z.land b 7) 3 (if b =? 240 then 144 else 128)
                                (if b =? 244 then 143 else 191))
  else ([65533], Idle).

(** The decoder proper: malformed input yields U+FFFD (the decoder is not
    fatal), and the byte that ended a malformed sequence is read again. *)
Fixpoint utf8Decode (st : utf8State) (bs : list byte) : list Z :=
  match bs with
  | [] =>
      match st with
      | Idle => []
      | Pending _ _ _ _ => [65533]
      end
  | b :: bs' =>
      match st with
      | Idle =>
          let '(out, st') := utf8Lead (u8 b) in
          out ++ utf8Decode st' bs'
      | Pending cp needed lower upper =>
          if (lower <=? u8 b) && (u8 b <=? upper) then
            let cp' := Z.lor (Z.shiftl cp 6) (Z.land (u8 b) 63) in
            if needed =? 1 then cp' :: utf8Decode Idle bs'
            else utf8Decode (Pending cp' (needed - 1) 128 191) bs'
          else
            let '(out, st') := utf8Lead (u8 b) in
            65533 :: out ++ utf8Decode st' bs'
      end
  end.

(** Code points back to UTF-16 code units. *)
Definition utf16Units (cp : Z) : jsstring :=
  if cp <? 65536 then [cp]
  else [55296 + (cp - 65536) / 1024; 56320 + (cp - 65536) mod 1024].

(** A leading byte order mark is dropped ([ignoreBOM] is false by default). *)
Definition stripBOM (cps : list Z) : list Z :=
  match cps with
  | 65279 :: rest => rest
  | _ => cps
  end.

(** [new TextDecoder().decode(bytes)] *)
Definition textDecode (bs : list byte) : jsstring :=
  flat_map utf16Units (stripBOM (utf8Decode Idle bs)).

(** [Array.from(bytes).join(sep)]: the elements as decimal numbers. *)
Definition joinBytes (sep : jsstring) (bs : list byte) : jsstring :=
  join sep (map (fun b => toString (u8 b)) bs).

End JS.

Import JS.

(* ================================================================== *)
(** * config/constants.js                                              *)
(* ================================================================== *)

Definition WS_READY_STATE_OPEN : Z := 1.
Definition WS_READY_STATE_CLOSING : Z := 2.
Definition TROJAN_CMD_TCP : Z := 1.
Definition TROJAN_CMD_UDP : Z := 3.
Definition VLESS_CMD_TCP : Z := 1.
Definition VLESS_CMD_UDP : Z := 2.
Definition VLESS_ADDR_IPV4 : Z := 1.
Definition VLESS_ADDR_DOMAIN : Z := 2.
Definition VLESS_ADDR_IPV6 : Z := 3.

(** [byteToHex[i]], that is [(i + 0x100).toString(16).slice(1)]. *)
Definition byteToHex (i : Z) : jsstring :=
  sliceFrom (toStringRadix 16 (i + 256)) (Int 1).

(* ================================================================== *)
(** * utils/crypto.js: SHA-224                                         *)
(* ================================================================== *)

Module Crypto.

Definition rightRotate (value amount : Z) : Z :=
  bor (shr value amount) (shl value (32 - amount)).

Definition initialHash : list Z :=
  [ 0xc105_9ed8; 0x367c_d507; 0x3070_dd17; 0xf70e_5939;
    0xffc0_0b31; 0x6858_1511; 0x64f9_8fa7; 0xbefa_4fa4 ].

Definition k : list Z :=
  [ 0x428a_2f98; 0x7137_4491; 0xb5c0_fbcf; 0xe9b5_dba5; 0x3956_c25b; 0x59f1_11f1; 0x923f_82a4; 0xab1c_5ed5;
    0xd807_aa98; 0x1283_5b01; 0x2431_85be; 0x550c_7dc3; 0x72be_5d74; 0x80de_b1fe; 0x9bdc_06a7; 0xc19b_f174;
    0xe49b_69c1; 0xefbe_4786; 0x0fc1_9dc6; 0x240c_a1cc; 0x2de9_2c6f; 0x4a74_84aa; 0x5cb0_a9dc; 0x76f9_88da;
    0x983e_5152; 0xa831_c66d; 0xb003_27c8; 0xbf59_7fc7; 0xc6e0_0bf3; 0xd5a7_9147; 0x06ca_6351; 0x1429_2967;
    0x27b7_0a85; 0x2e1b_2138; 0x4d2c_6dfc; 0x5338_0d13; 0x650a_7354; 0x766a_0abb; 0x81c2_c92e; 0x9272_2c85;
    0xa2bf_e8a1; 0xa81a_664b; 0xc24b_8b70; 0xc76c_51a3; 0xd192_e819; 0xd699_0624; 0xf40e_3585; 0x106a_a070;
    0x19a4_c116; 0x1e37_6c08; 0x2748_774c; 0x34b0_bcb5; 0x391c_0cb3; 0x4ed8_aa4a; 0x5b9c_ca4f; 0x682e_6ff3;
    0x748f_82ee; 0x78a5_636f; 0x84c8_7814; 0x8cc7_0208; 0x90be_fffa; 0xa450_6ceb; 0xbef9_a3f7; 0xc671_78f2 ].

(** [while (str.length % 64 - 56) str += '\x00']; 63 rounds always suffice. *)
Fixpoint padZeros (fuel : nat) (s : jsstring) : jsstring :=
  match fuel with
  | O => s
  | S f =>
      if Z.rem (Z.of_nat (length s)) 64 - 56 =? 0 then s
      else padZeros f (s ++ [0])
  end.

(** [words[idx] |= v]; the loop below visits the indices in order, so the
    slot is either the last one or the next one ([undefined | v] is [v | 0]). *)
Definition orAssign (words : list Z) (idx v : Z) : list Z :=
  match words !! Z.to_nat idx with
  | Some w => <[Z.to_nat idx := bor w v]> words
  | None => words ++ [bor 0 v]
  end.

(** The packing loop; [None] is the [return;] of the ASCII check. *)
Fixpoint packWords (s : jsstring) (i : Z) (words : list Z) : option (list Z) :=
  match s with
  | [] => Some words
  | j :: s' =>
      if sar j 8 =? 0
      then packWords s' (i + 1) (orAssign words (sar i 2) (shl j (Z.rem (3 - i) 4 * 8)))
      else None
  end.

(** [w[i]] for [i >= 16]. *)
Definition expand (w : list Z) (i : nat) : Z :=
  let w15 := nth (i - 15) w 0 in
  let w2 := nth (i - 2) w 0 in
  bor (nth (i - 16) w 0
       + bxor (bxor (rightRotate w15 7) (rightRotate w15 18)) (shr w15 3)
       + nth (i - 7) w 0
       + bxor (bxor (rightRotate w2 17) (rightRotate w2 19)) (shr w2 10)) 0.

(** One iteration of the compression loop, on the schedule and the hash. *)
Definition round (i : nat) (w hash : list Z) : list Z * list Z :=
  let w := if (16 <=? i)%nat then w ++ [expand w i] else w in
  let h n := nth n hash 0 in
  let a := h 0%nat in
  let e := h 4%nat in
  let temp1 :=
    h 7%nat
    + bxor (bxor (rightRotate e 6) (rightRotate e 11)) (rightRotate e 25)
    + bxor (band e (h 5%nat)) (band (bnot e) (h 6%nat))
    + nth i k 0
    + nth i w 0 in
  let temp2 :=
    bxor (bxor (rightRotate a 2) (rightRotate a 13)) (rightRotate a 22)
    + bxor (bxor (band a (h 1%nat)) (band a (h 2%nat))) (band (h 1%nat) (h 2%nat)) in
  let hash1 := bor (temp1 + temp2) 0 :: hash in
  let hash2 := <[4%nat := bor (nth 4 hash1 0 + temp1) 0]> hash1 in
  (w, removelast hash2).

Fixpoint rounds (n : nat) (i : nat) (w hash : list Z) : list Z :=
  match n with
  | O => hash
  | S n' => let '(w', hash') := round i w hash in rounds n' (S i) w' hash'
  end.

(** One 16-word chunk. *)
Definition compress (w hash : list Z) : list Z :=
  let oldHash := hash in
  let hash := rounds 64 0 w hash in
  map (fun '(x, y) => bor (x + y) 0) (zip hash oldHash).

Fixpoint chunks (fuel : nat) (words hash : list Z) : list Z :=
  match fuel with
  | O => hash
  | S f =>
      match words with
      | [] => hash
      | _ => chunks f (drop 16 words) (compress (take 16 words) hash)
      end
  end.

(** Eight hexadecimal digits of one hash word. *)
Definition hexWord (hex : Z) : jsstring :=
  toStringRadix 16 (band (sar hex 28) 15) ++
  toStringRadix 16 (band (sar hex 24) 15) ++
  toStringRadix 16 (band (sar hex 20) 15) ++
  toStringRadix 16 (band (sar hex 16) 15) ++
  toStringRadix 16 (band (sar hex 12) 15) ++
  toStringRadix 16 (band (sar hex 8) 15) ++
  toStringRadix 16 (band (sar hex 4) 15) ++
  toStringRadix 16 (band hex 15).

(** [sha224(str)]; [None] is [undefined]. *)
Definition sha224 (s : jsstring) : option jsstring :=
  let asciiBitLength := Z.of_nat (length s) * 8 in
  let padded := padZeros 64 (s ++ [128]) in
  match packWords padded 0 [] with
  | None => None
  | Some words =>
      let words := words ++ [bor (asciiBitLength / 2 ^ 32) 0] in
      let words := words ++ [asciiBitLength] in
      let hash := chunks (length words) words initialHash in
      Some (flat_map hexWord (take 7 hash))
  end.

End Crypto.

(* ================================================================== *)
(** * utils/validation.js and utils/encoding.js                        *)
(* ================================================================== *)

(** A regular expression that is a fixed sequence of character classes,
    anchored at both ends. *)
Fixpoint matchClasses (pat : list (Z -> bool)) (s : jsstring) : bool :=
  match pat, s with
  | [], [] => true
  | p :: pat', c :: s' => p c && matchClasses pat' s'
  | _, _ => false
  end.

Definition inRange (lo hi c : Z) : bool := (lo <=? c) && (c <=? hi).

(** [[0-9a-f]] under the [i] flag. *)
Definition hexClass (c : Z) : bool :=
  inRange 48 57 c || inRange 97 102 c || inRange 65 70 c.
Definition dashClass (c : Z) : bool := c =? 45.
(** [[1-5]] *)
Definition versionClass (c : Z) : bool := inRange 49 53 c.
(** [[89ab]] under the [i] flag. *)
Definition variantClass (c : Z) : bool :=
  inRange 56 57 c || inRange 97 98 c || inRange 65 66 c.

Definition uuidRegex : list (Z -> bool) :=
  replicate 8 hexClass ++ [dashClass] ++
  replicate 4 hexClass ++ [dashClass] ++
  [versionClass] ++ replicate 3 hexClass ++ [dashClass] ++
  [variantClass] ++ replicate 3 hexClass ++ [dashClass] ++
  replicate 12 hexClass.

Definition isValidUUID (uuid : jsstring) : bool := matchClasses uuidRegex uuid.

(** [byteToHex[arr[i]]]; an absent element joins as the empty string. *)
Definition hexAt (arr : list byte) (i : Z) : jsstring :=
  match index arr i with
  | Some b => byteToHex (u8 b)
  | None => []
  end.

Definition unsafeStringify (arr : list byte) (offset : Z) : jsstring :=
  toLowerCase
    (hexAt arr offset ++ hexAt arr (offset + 1) ++
     hexAt arr (offset + 2) ++ hexAt arr (offset + 3) ++
     str "-" ++
     hexAt arr (offset + 4) ++ hexAt arr (offset + 5) ++
     str "-" ++
     hexAt arr (offset + 6) ++ hexAt arr (offset + 7) ++
     str "-" ++
     hexAt arr (offset + 8) ++ hexAt arr (offset + 9) ++
     str "-" ++
     hexAt arr (offset + 10) ++ hexAt arr (offset + 11) ++
     hexAt arr (offset + 12) ++ hexAt arr (offset + 13) ++
     hexAt arr (offset + 14) ++ hexAt arr (offset + 15)).

Definition stringify (arr : list byte) (offset : Z) : completion jsstring :=
  let uuid := unsafeStringify arr offset in
  if negb (isValidUUID uuid)
  then Throw (TypeError "Stringified UUID is invalid")
  else Return uuid.

(* ================================================================== *)
(** * The result object of both header parsers                         *)
(* ================================================================== *)

Record header : Type := Header {
  addressRemote : jsstring;
  addressType : Z;
  portRemote : Z;
  rawDataIndex : num;
  protocolVersion : option (list byte);
  isUDP : bool
}.

(** [{hasError: true, message}] or [{hasError: false, ...}]. *)
Inductive result : Type :=
| Failure (message : jsstring)
| Success (h : header).

Definition hasError (r : result) : bool :=
  match r with
  | Failure _ => true
  | Success _ => false
  end.

(* ================================================================== *)
(** * protocol/vless.js                                                *)
(* ================================================================== *)

Module Vless.

(** The address of type 3: eight big-endian groups, each in hexadecimal. *)
Fixpoint readGroups (buf : list byte) (addressValueIndex : Z) (ixs : list Z)
  : completion (list jsstring) :=
  match ixs with
  | [] => Return []
  | i :: ixs' =>
      g ← getUint16 buf (Int (addressValueIndex + i * 2));
      gs ← readGroups buf addressValueIndex ixs';
      Return (toStringRadix 16 g :: gs)
  end.

Definition processProtocolHeader (protocolBuffer : list byte) (userID : jsstring)
  : completion result :=
  if Z.of_nat (length protocolBuffer) <? 24
  then Return (Failure (str "invalid data"))
  else
    version ← getUint8 protocolBuffer (Int 0);
    slicedBufferString ← stringify (slice protocolBuffer (Int 1) (Int 17)) 0;
    let uuids := if includes (str ",") userID then split (str ",") userID else [userID] in
    let isValidUser :=
      existsb (fun uuid => eqb slicedBufferString (trim uuid)) uuids
      || ((length uuids =? 1)%nat && eqb slicedBufferString (trim (nth 0 uuids []))) in
    if negb isValidUser
    then Return (Failure (str "invalid user"))
    else
      optLength ← getUint8 protocolBuffer (Int 17);
      command ← getUint8 protocolBuffer (Int (18 + optLength));
      if negb (command =? 1) && negb (command =? 2)
      then Return (Failure (str "command " ++ toString command ++
                            str " is not supported, command 01-tcp,02-udp,03-mux"))
      else
        let portIndex := 18 + optLength + 1 in
        portRemote ← getUint16 protocolBuffer (Int portIndex);
        addressType ← getUint8 protocolBuffer (Int (portIndex + 2));
        parsed ←
          (if addressType =? 1 then
             let addressLength := 4 in
             let addressValueIndex := portIndex + 3 in
             Return (Some (joinBytes (str ".")
                             (slice protocolBuffer (Int addressValueIndex)
                                    (Int (addressValueIndex + addressLength))),
                           addressLength, addressValueIndex))
           else if addressType =? 2 then
             addressLength ← getUint8 protocolBuffer (Int (portIndex + 3));
             let addressValueIndex := portIndex + 4 in
             Return (Some (textDecode
                             (slice protocolBuffer (Int addressValueIndex)
                                    (Int (addressValueIndex + addressLength))),
                           addressLength, addressValueIndex))
           else if addressType =? 3 then
             let addressLength := 16 in
             let addressValueIndex := portIndex + 3 in
             groups ← readGroups protocolBuffer addressValueIndex [0; 1; 2; 3; 4; 5; 6; 7];
             Return (Some (join (str ":") groups, addressLength, addressValueIndex))
           else Return None);
        match parsed with
        | None => Return (Failure (str "invalid addressType: " ++ toString addressType))
        | Some (addressValue, addressLength, addressValueIndex) =>
            match addressValue with
            | [] => Return (Failure (str "addressValue is empty, addressType is "
                                     ++ toString addressType))
            | _ =>
                Return (Success {|
                  addressRemote := addressValue;
                  addressType := addressType;
                  portRemote := portRemote;
                  rawDataIndex := Int (addressValueIndex + addressLength);
                  protocolVersion := Some [toUint8 version];
                  isUDP := command =? 2
                |})
            end
        end.

End Vless.

(* ================================================================== *)
(** * proxy/vless.js: the request header of the nested tunnel           *)
(* ================================================================== *)

Module VlessOutbound.

(** [ipv6.replace(/^\[|\]$/g, '')] *)
Definition stripBrackets (s : jsstring) : jsstring :=
  let s1 := match s with 91 :: r => r | _ => s end in
  match rev s1 with
  | 93 :: r => rev r
  | _ => s1
  end.

(** [Array(n).fill('0')]; a negative length is a RangeError. *)
Definition arrayFill0 (n : Z) : completion (list jsstring) :=
  if n <? 0 then Throw (RangeError "Invalid array length")
  else Return (replicate (Z.to_nat n) (str "0")).

(** [parts[i] ? parts[i].split(':') : []] *)
Definition splitPart (parts : list jsstring) (i : nat) : list jsstring :=
  match parts !! i with
  | Some (c :: p) => split (str ":") (c :: p)
  | _ => []
  end.

Definition expandIPv6 (ipv6 : jsstring) : completion jsstring :=
  let ipv6 := stripBrackets ipv6 in
  if includes (str "::") ipv6 then
    let parts := split (str "::") ipv6 in
    let left := splitPart parts 0 in
    let right := splitPart parts 1 in
    let missing := 8 - Z.of_nat (length left) - Z.of_nat (length right) in
    middle ← arrayFill0 missing;
    Return (join (str ":") (map (padStart0 4) (left ++ middle ++ right)))
  else
    Return (join (str ":") (map (padStart0 4) (split (str ":") ipv6))).

(** [parseInt(parts[i], radix)]; an absent element reads as "undefined",
    which has no digit in radix 10 or 16. *)
Definition parseIntAt (parts : list jsstring) (i : nat) (radix : option Z) : num :=
  match parts !! i with
  | Some p => parseInt p radix
  | None => NaN
  end.

(** The loop over the UUID's digit pairs. *)
Fixpoint writeUuid (fuel : nat) (uuidString : jsstring) (i : nat) (vlessHeader : list byte)
  : list byte :=
  match fuel with
  | O => vlessHeader
  | S f =>
      if (i <? length uuidString)%nat
      then writeUuid f uuidString (i + 2)
             (store vlessHeader (1 + Z.of_nat i / 2)
                (numToUint8 (parseInt (substr uuidString i 2) (Some 16))))
      else vlessHeader
  end.

(** The four octets of an IPv4 address. *)
Fixpoint writeOctets (octets : list jsstring) (ixs : list nat) (vlessHeader : list byte)
  : list byte :=
  match ixs with
  | [] => vlessHeader
  | i :: ixs' =>
      writeOctets octets ixs'
        (store vlessHeader (22 + Z.of_nat i) (numToUint8 (parseIntAt octets i None)))
  end.

(** [NaN >> 8] and [NaN & 0xff] are 0. *)
Fixpoint writeGroups (groups : list jsstring) (ixs : list nat) (vlessHeader : list byte)
  : list byte :=
  match ixs with
  | [] => vlessHeader
  | i :: ixs' =>
      let hexGroup := toInteger (parseIntAt groups i (Some 16)) in
      let h1 := store vlessHeader (22 + Z.of_nat i * 2) (toUint8 (sar hexGroup 8)) in
      let h2 := store h1 (23 + Z.of_nat i * 2) (toUint8 (band hexGroup 255)) in
      writeGroups groups ixs' h2
  end.

Definition makeVlessRequestHeader
  (command addressType : Z) (addressRemote : jsstring) (portRemote : Z) (uuid : jsstring)
  : completion (list byte) :=
  let addressEncoded := textEncode addressRemote in
  addressFieldLength ←
    (if addressType =? VLESS_ADDR_IPV4 then Return 4
     else if addressType =? VLESS_ADDR_DOMAIN then Return (Z.of_nat (length addressEncoded) + 1)
     else if addressType =? VLESS_ADDR_IPV6 then Return 16
     else Throw (Error (str "Unknown address type: " ++ toString addressType)));
  let uuidString := replaceAll (str "-") [] uuid in
  let vlessHeader := newUint8Array (22 + addressFieldLength) in
  let vlessHeader := store vlessHeader 0 (toUint8 0) in
  let vlessHeader := writeUuid (length uuidString) uuidString 0 vlessHeader in
  let vlessHeader := store vlessHeader 17 (toUint8 0) in
  let vlessHeader := store vlessHeader 18 (toUint8 command) in
  let vlessHeader := store vlessHeader 19 (toUint8 (sar portRemote 8)) in
  let vlessHeader := store vlessHeader 20 (toUint8 (band portRemote 255)) in
  let vlessHeader := store vlessHeader 21 (toUint8 addressType) in
  if addressType =? VLESS_ADDR_IPV4 then
    let octets := split (str ".") addressRemote in
    Return (writeOctets octets [0; 1; 2; 3]%nat vlessHeader)
  else if addressType =? VLESS_ADDR_DOMAIN then
    let vlessHeader := store vlessHeader 22 (toUint8 (Z.of_nat (length addressEncoded))) in
    setArray vlessHeader addressEncoded 23
  else
    fullIPv6 ← expandIPv6 addressRemote;
    let groups := split (str ":") fullIPv6 in
    Return (writeGroups groups [0; 1; 2; 3; 4; 5; 6; 7]%nat vlessHeader).

End VlessOutbound.

(* ================================================================== *)
(** * protocol/trojan.js                                               *)
(* ================================================================== *)

Module Trojan.

(** [a !== b] between a possibly undefined element and a number. *)
Definition differs (o : option byte) (v : Z) : bool :=
  match o with
  | Some b => negb (u8 b =? v)
  | None => true
  end.

(** An element in a template literal. *)
Definition display (o : option byte) : jsstring :=
  match o with
  | Some b => toString (u8 b)
  | None => str "undefined"
  end.

(** An element used as a number: undefined becomes NaN. *)
Definition toNumber (o : option byte) : num :=
  match o with
  | Some b => Int (u8 b)
  | None => NaN
  end.

(** [received === expected], where [expected] may be undefined. *)
Definition sameHash (received : jsstring) (expected : option jsstring) : bool :=
  match expected with
  | Some e => eqb received e
  | None => false
  end.

Definition isTrojanProtocol (buffer : list byte) (password : jsstring) : bool :=
  if Z.of_nat (length buffer) <? 58 then false
  else
    let bytes := buffer in
    if differs (index bytes 56) 13 || differs (index bytes 57) 10 then false
    else
      let receivedPasswordHash := textDecode (slice bytes (Int 0) (Int 56)) in
      let expectedPasswordHash := Crypto.sha224 password in
      sameHash receivedPasswordHash expectedPasswordHash.

(** The eight groups of an IPv6 address. *)
Fixpoint readGroups (buf : list byte) (addressValueIndex : num) (ixs : list Z)
  : completion (list jsstring) :=
  match ixs with
  | [] => Return []
  | i :: ixs' =>
      g ← getUint16 buf (num_add addressValueIndex (Int (i * 2)));
      gs ← readGroups buf addressValueIndex ixs';
      Return (toStringRadix 16 g :: gs)
  end.

Definition processTrojanHeader (buffer : list byte) (password : jsstring)
  : completion result :=
  let byteLength := Int (Z.of_nat (length buffer)) in
  if num_lt byteLength (Int 58)
  then Return (Failure (str "Invalid Trojan data: too short"))
  else
    let bytes := buffer in
    let receivedPasswordHash := textDecode (slice bytes (Int 0) (Int 56)) in
    let expectedPasswordHash := Crypto.sha224 password in
    if negb (sameHash receivedPasswordHash expectedPasswordHash)
    then Return (Failure (str "Invalid Trojan password"))
    else if differs (index bytes 56) 13 || differs (index bytes 57) 10
    then Return (Failure (str "Invalid Trojan header: missing CRLF"))
    else
      let command := index bytes 58 in
      if differs command TROJAN_CMD_TCP && differs command TROJAN_CMD_UDP
      then Return (Failure (str "Unsupported Trojan command: " ++ display command))
      else
        let addressType := index bytes 59 in
        parsed ←
          match option_map u8 addressType with
          | Some 1 =>
              let addressLength := Int 4 in
              let addressValueIndex := Int 60 in
              if num_lt byteLength (num_add (num_add addressValueIndex addressLength) (Int 2))
              then Return (inl (str "Invalid Trojan header: IPv4 address truncated"))
              else Return (inr (joinBytes (str ".")
                                  (slice bytes addressValueIndex
                                         (num_add addressValueIndex addressLength)),
                                addressLength, addressValueIndex))
          | Some 3 =>
              let addressLength := toNumber (index bytes 60) in
              let addressValueIndex := Int 61 in
              if num_lt byteLength (num_add (num_add addressValueIndex addressLength) (Int 2))
              then Return (inl (str "Invalid Trojan header: domain name truncated"))
              else Return (inr (textDecode
                                  (slice bytes addressValueIndex
                                         (num_add addressValueIndex addressLength)),
                                addressLength, addressValueIndex))
          | Some 4 =>
              let addressLength := Int 16 in
              let addressValueIndex := Int 60 in
              if num_lt byteLength (num_add (num_add addressValueIndex addressLength) (Int 2))
              then Return (inl (str "Invalid Trojan header: IPv6 address truncated"))
              else
                groups ← readGroups buffer addressValueIndex [0; 1; 2; 3; 4; 5; 6; 7];
                Return (inr (join (str ":") groups, addressLength, addressValueIndex))
          | _ => Return (inl (str "Invalid Trojan address type: " ++ display addressType))
          end;
        match parsed with
        | inl message => Return (Failure message)
        | inr (addressValue, addressLength, addressValueIndex) =>
            let portIndex := num_add addressValueIndex addressLength in
            if num_lt byteLength (num_add portIndex (Int 2))
            then Return (Failure (str "Invalid Trojan header: port truncated"))
            else
              portRemote ← getUint16 buffer portIndex;
              let crlfIndex := num_add portIndex (Int 2) in
              if num_lt byteLength (num_add crlfIndex (Int 2))
              then Return (Failure (str "Invalid Trojan header: missing final CRLF"))
              else if differs (indexNum bytes crlfIndex) 13
                      || differs (indexNum bytes (num_add crlfIndex (Int 1))) 10
              then Return (Failure (str "Invalid Trojan header: invalid final CRLF"))
              else
                let rawDataIndex := num_add crlfIndex (Int 2) in
                match addressValue with
                | [] => Return (Failure (str "Address value is empty, address type is "
                                         ++ display addressType))
                | _ =>
                    Return (Success {|
                      addressRemote := addressValue;
                      addressType :=
                        (let t := toInteger (toNumber addressType) in
                         if t =? 3 then 2 else t);
                      portRemote := portRemote;
                      rawDataIndex := rawDataIndex;
                      protocolVersion := None;
                      isUDP := negb (differs command TROJAN_CMD_UDP)
                    |})
                end
        end.

End Trojan.

(* ================================================================== *)
(** * utils/proxyResolver.js                                           *)
(* ================================================================== *)

Module ProxyResolver.

(** [[address, port]] *)
Abbreviation entry := (jsstring * Z)%type.

(** The module-level variables. *)
Record cache : Type := Cache {
  cachedProxyIP : option jsstring;
  cachedProxyAddresses : option (list entry);
  cachedProxyIndex : nat
}.

Definition initialCache : cache :=
  {| cachedProxyIP := None; cachedProxyAddresses := None; cachedProxyIndex := 0 |}.

(** One record of a DNS-over-HTTPS answer. *)
Record answer : Type := Answer { type : Z; data : jsstring }.

(** [parseInt(s, 10) || port] *)
Definition parsePortOr (s : jsstring) (port : Z) : Z :=
  match parseInt s (Some 10) with
  | Int 0 | NaN => port
  | Int n => n
  end.

Definition parseAddressPort (s : jsstring) : entry :=
  let address := s in
  let port := 443 in
  if includes (str "]:") s then
    let parts := split (str "]:") s in
    (nth 0 parts [] ++ str "]",
     match parts !! 1%nat with
     | Some p => parsePortOr p port
     | None => port
     end)
  else if includes (str ":") s && negb (startsWith (str "[") s) then
    let colonIndex := lastIndexOf 58 s in
    (slice s (Int 0) (Int colonIndex),
     parsePortOr (sliceFrom s (Int (colonIndex + 1))) port)
  else (address, port).

(** The elements of [[...s]]: a surrogate pair is one element, whose
    [charCodeAt(0)] is the high surrogate. *)
Fixpoint spreadFirstUnits (s : jsstring) : list Z :=
  match s with
  | [] => []
  | c :: s' =>
      if inRange 55296 56319 c then
        match s' with
        | d :: s'' => if inRange 56320 57343 d then c :: spreadFirstUnits s''
                      else c :: spreadFirstUnits s'
        | [] => [c]
        end
      else c :: spreadFirstUnits s'
  end.

Definition generateSeed (targetDomain userID : jsstring) : Z :=
  let rootDomain :=
    if includes (str ".") targetDomain
    then join (str ".") (sliceFrom (split (str ".") targetDomain) (Int (-2)))
    else targetDomain in
  fold_left (fun acc char => acc + char) (spreadFirstUnits (rootDomain ++ userID)) 0.

(** The double nearest to an integer (ties to even): products of the
    generator below exceed 2^53. *)
Definition roundDouble (z : Z) : Z :=
  let a := Z.abs z in
  if a <? 2 ^ 53 then z
  else
    let e := Z.log2 a - 52 in
    let q := a / 2 ^ e in
    let r := a mod 2 ^ e in
    let half := 2 ^ (e - 1) in
    let q' := if r <? half then q
              else if half <? r then q + 1
              else if Z.even q then q else q + 1 in
    Z.sgn z * q' * 2 ^ e.

(** The comparator of [seededShuffle]: the next seed, then the sign of
    [currentSeed / 0x7fffffff - 0.5]. *)
Definition shuffleCompare (currentSeed : Z) (a b : entry) : Z * Z :=
  let currentSeed :=
    band (roundDouble (roundDouble (currentSeed * 1103515245) + 12345)) 0x7fffffff in
  (if 2 * currentSeed <? 0x7fffffff then -1 else 1, currentSeed).

(** [/\.tp(\d+)/]: the digits after the first ".tp" that has one. *)
Fixpoint tpMatch (s : jsstring) : option jsstring :=
  match s with
  | [] => None
  | _ :: s' =>
      if startsWith (str ".tp") s then
        match digitPrefix 10 (drop 3 s) with
        | [] => tpMatch s'
        | ds => Some (map digitChar ds)
        end
      else tpMatch s'
  end.

Definition allDigits (p : jsstring) : bool := forallb (inRange 48 57) p.

(** [25[0-5]|2[0-4]\d|[01]?\d\d?] *)
Definition octetOk (p : jsstring) : bool :=
  allDigits p &&
  match p with
  | [_] | [_; _] => true
  | [a; b; c] => digitsValue 10 [a - 48; b - 48; c - 48] <=? 255
  | _ => false
  end.

Definition ipv4Regex (address : jsstring) : bool :=
  match split (str ".") address with
  | [a; b; c; d] => octetOk a && octetOk b && octetOk c && octetOk d
  | _ => false
  end.

(** [/^\[?([a-fA-F0-9:]+)\]?$/] *)
Definition ipv6Regex (address : jsstring) : bool :=
  let s1 := match address with 91 :: r => r | _ => address end in
  let s2 := match rev s1 with 93 :: r => rev r | _ => s1 end in
  match s2 with
  | [] => false
  | _ => forallb (fun c => hexClass c || (c =? 58)) s2
  end.

Section Platform.

(** What the platform decides: the answers of the resolver at 1.1.1.1
    ([[]] when the query fails), the collation of [localeCompare], and the
    order in which [Array.prototype.sort] calls a comparator that carries
    state and need not be consistent. *)
Variable dohQuery : jsstring -> jsstring -> list answer.
Variable localeCompare : jsstring -> jsstring -> Z.
Variable arraySort : forall S : Type, (S -> entry -> entry -> Z * S) -> S -> list entry -> list entry.

Definition seededShuffle (array : list entry) (seed : Z) : list entry :=
  let shuffled := array in
  arraySort Z shuffleCompare seed shuffled.

(** The addresses of a TXT record. *)
Definition txtAddresses (normalizedProxyIP : jsstring) : list entry :=
  let txtRecords := dohQuery normalizedProxyIP (str "TXT") in
  let txtData := map data (filter (fun r => type r = 16) txtRecords) in
  match txtData with
  | [] => []
  | data :: _ =>
      let data :=
        if startsWith [34] data && endsWith [34] data
        then slice data (Int 1) (Int (-1)) else data in
      let addresses :=
        filter (fun a => a <> [])
          (map trim
             (split (str ",")
                (replaceAll [10] (str ",")
                   (replaceAll [92; 48; 49; 48] (str ",") data)))) in
      map parseAddressPort addresses
  end.

(** The addresses of a [host[:port]] specification. *)
Definition hostAddresses (normalizedProxyIP : jsstring) : list entry :=
  let '(address, port) := parseAddressPort normalizedProxyIP in
  let port :=
    match tpMatch normalizedProxyIP with
    | Some ds => toInteger (parseInt ds (Some 10))
    | None => port
    end in
  if negb (ipv4Regex address) && negb (ipv6Regex address) then
    let aRecords := dohQuery address (str "A") in
    let aaaaRecords := dohQuery address (str "AAAA") in
    let ipv4List := map data (filter (fun r => type r = 1) aRecords) in
    let ipv6List :=
      map (fun r => str "[" ++ data r ++ str "]")
          (filter (fun r => type r = 28) aaaaRecords) in
    let ipAddresses := ipv4List ++ ipv6List in
    match ipAddresses with
    | [] => [(address, port)]
    | _ => map (fun ip => (ip, port)) ipAddresses
    end
  else [(address, port)].

(** [cachedProxyIP && cachedProxyAddresses && cachedProxyIP === proxyIP] *)
Definition cacheHit (st : cache) (proxyIP : jsstring) : option (list entry) :=
  match cachedProxyIP st, cachedProxyAddresses st with
  | Some (c :: ip), Some addresses =>
      if eqb (c :: ip) proxyIP then Some addresses else None
  | _, _ => None
  end.

Definition resolveProxyAddresses (st : cache) (proxyIP targetDomain userID : jsstring)
  : list entry * cache :=
  match cacheHit st proxyIP with
  | Some addresses => (addresses, st)
  | None =>
      let normalizedProxyIP := toLowerCase proxyIP in
      let proxyAddresses :=
        if includes (str ".william") normalizedProxyIP
        then txtAddresses normalizedProxyIP
        else hostAddresses normalizedProxyIP in
      let sortedAddresses :=
        arraySort unit (fun _ a b => (localeCompare a.1 b.1, tt)) tt proxyAddresses in
      let seed := generateSeed targetDomain userID in
      let shuffled := seededShuffle sortedAddresses seed in
      let addresses := slice shuffled (Int 0) (Int 8) in
      (addresses,
       {| cachedProxyIP := Some proxyIP;
          cachedProxyAddresses := Some addresses;
          cachedProxyIndex := cachedProxyIndex st |})
  end.

End Platform.

Definition getCachedProxyIndex (st : cache) : nat := cachedProxyIndex st.

Definition updateCachedProxyIndex (st : cache) (index : nat) : cache :=
  {| cachedProxyIP := cachedProxyIP st;
     cachedProxyAddresses := cachedProxyAddresses st;
     cachedProxyIndex := index |}.

Definition resetProxyCache (st : cache) : cache := initialCache.

(** How one connection attempt ends: [connect] throws; [socket.opened]
    rejects or loses the race against the timeout; the socket opens and the
    write of the initial data rejects; or the write is accepted. *)
Inductive attempt : Type :=
| ConnectThrows
| OpenFails
| WriteFails
| Established.

(** A socket is known by the attempt that made it. *)
Record socket : Type := Socket {
  hostname : jsstring;
  port : Z;
  madeBy : nat
}.

(** What a call does to the outside, in order: the calls of [connect]
    and the writes of the initial data. *)
Inductive effect : Type :=
| Connect (index : nat) (address : jsstring) (port : Z)
| Write (index : nat) (initialData : list byte).

(** The loop [for (let i = 0; i < proxyAddresses.length; i++)], with
    [remaining = proxyAddresses.length - i]. *)
Fixpoint rotate (connect : nat -> entry -> attempt)
    (proxyAddresses : list entry) (initialData : list byte)
    (startIndex : nat) (remaining i : nat) (st : cache)
  : completion (option (socket * nat) * cache * list effect) :=
  match remaining with
  | O => Return (None, st, [])
  | S remaining' =>
      let index := ((startIndex + i) mod length proxyAddresses)%nat in
      match proxyAddresses !! index with
      | None => Throw (TypeError "undefined is not iterable")
      | Some (address, port) =>
          match connect i (address, port) with
          | ConnectThrows
          | OpenFails =>
              '(r, st', effects) ← rotate connect proxyAddresses initialData
                                     startIndex remaining' (S i) st;
              Return (r, st', Connect index address port :: effects)
          | WriteFails =>
              '(r, st', effects) ← rotate connect proxyAddresses initialData
                                     startIndex remaining' (S i) st;
              Return (r, st', Connect index address port :: Write index initialData :: effects)
          | Established =>
              Return (Some ({| hostname := address; port := port; madeBy := i |}, index),
                      updateCachedProxyIndex st index,
                      [Connect index address port; Write index initialData])
          end
      end
  end.

Definition connectWithRotation (connect : nat -> entry -> attempt)
    (st : cache) (proxyAddresses : list entry) (initialData : list byte)
  : completion (option (socket * nat) * cache * list effect) :=
  let startIndex := cachedProxyIndex st in
  rotate connect proxyAddresses initialData startIndex (length proxyAddresses) 0 st.

End ProxyResolver.

(* ================================================================== *)
(** * proxy/stream.js: the relay from the outbound to the WebSocket     *)
(* ================================================================== *)

(** What a session does to the outside. *)
Inductive event : Type :=
| WsSend (frame : list byte)
| WsClose
| CloseWithSocket
| Relay (retrySupplied : bool)
| Retry
| ConnectFailed.

Module Stream.

(** How the readable side of an outbound socket ends. *)
Inductive ending : Type :=
| Closed
| Errored.

(** The run of an outbound socket: the chunks it delivers, each with the
    [readyState] the WebSocket has when the chunk arrives, and the way its
    readable side ends. *)
Record remote : Type := Remote {
  chunks : list (list byte * Z);
  ends : ending
}.

(** The [write] handler over the chunks.  The result is the frames sent,
    [hasIncomingData], and whether [write] threw (which ends the pipe). *)
Fixpoint pipeTo (chunks : list (list byte * Z))
    (protocolResponseHeader : option (list byte)) (hasIncomingData : bool)
  : list event * bool * bool :=
  match chunks with
  | [] => ([], hasIncomingData, false)
  | (chunk, readyState) :: rest =>
      if negb (readyState =? WS_READY_STATE_OPEN) then ([], hasIncomingData, true)
      else
        let hasIncomingData := true in
        match protocolResponseHeader with
        | Some header =>
            let '(sent, d, threw) := pipeTo rest None hasIncomingData in
            (WsSend (concatBytes header chunk) :: sent, d, threw)
        | None =>
            let '(sent, d, threw) := pipeTo rest protocolResponseHeader hasIncomingData in
            (WsSend chunk :: sent, d, threw)
        end
  end.

(** [retry] is what the retry function does when it is called, or [None]
    for [null]. *)
Definition remoteSocketToWS (remoteSocket : remote)
    (protocolResponseHeader : option (list byte)) (retry : option (list event))
  : list event :=
  let '(sent, hasIncomingData, threw) :=
    pipeTo (chunks remoteSocket) protocolResponseHeader false in
  let failed := threw || match ends remoteSocket with Errored => true | Closed => false end in
  Relay (bool_decide (retry <> None)) :: sent
  ++ (if failed then [WsClose] else [])
  ++ (if negb hasIncomingData
      then match retry with
           | Some r => r
           | None => []
           end
      else []).

End Stream.

(* ================================================================== *)
(** * proxy/tcp.js                                                     *)
(* ================================================================== *)

Module Tcp.

Import Stream.

(** The part of the configuration the dispatcher reads. *)
Record config : Type := Config {
  globalProxy : bool;
  proxyType : option jsstring;
  hasProxyConfig : bool;
  proxyIP : option jsstring;
  enableProxyFallback : bool
}.

(** What the network answers: each way of connecting yields a socket with
    its run, or fails ([None]: the call throws or returns null).  [direct]
    is the first direct connection, [directAgain] the direct connection
    made inside the retry function. *)
Record network : Type := Network {
  direct : option remote;
  viaProxy : option remote;
  viaRotation : option remote;
  directAgain : option remote
}.

Definition truthy (s : option jsstring) : bool :=
  match s with
  | Some (_ :: _) => true
  | _ => false
  end.

Definition globalMode (cfg : config) : bool :=
  globalProxy cfg && truthy (proxyType cfg) && hasProxyConfig cfg.

(** [connectWithProxyRotation(enableFallback)] *)
Definition connectWithProxyRotation (net : network) (enableFallback : bool)
  : option remote :=
  match viaRotation net with
  | Some s => Some s
  | None => if enableFallback then directAgain net else None
  end.

(** The retry function of one call of [handleTCPOutBound]; it relays the
    socket it obtains with [null] for the retry function. *)
Definition retry (cfg : config) (net : network)
    (protocolResponseHeader : option (list byte)) : list event :=
  let tcpSocket :=
    if globalMode cfg then viaProxy net
    else if truthy (proxyIP cfg) then connectWithProxyRotation net (enableProxyFallback cfg)
    else directAgain net in
  Retry ::
  match tcpSocket with
  | None => [ConnectFailed]
  | Some tcpSocket =>
      CloseWithSocket :: remoteSocketToWS tcpSocket protocolResponseHeader None
  end.

Definition handleTCPOutBound (cfg : config) (net : network)
    (protocolResponseHeader : option (list byte)) : list event :=
  if globalMode cfg then
    match viaProxy net with
    | None => [ConnectFailed]
    | Some tcpSocket =>
        CloseWithSocket :: remoteSocketToWS tcpSocket protocolResponseHeader None
    end
  else
    match direct net with
    | Some tcpSocket =>
        remoteSocketToWS tcpSocket protocolResponseHeader
          (Some (retry cfg net protocolResponseHeader))
    | None => retry cfg net protocolResponseHeader
    end.

End Tcp.

(* ================================================================== *)
(** * The UDP stream utilities                                         *)
(* ================================================================== *)

Module Udp.

Definition joinUint8Array (arr1 arr2 : list byte) : list byte := concatBytes arr1 arr2.

(** The chunk [makeReadableUDPStream] enqueues for one message. *)
Definition encodeDatagram (message : list byte) (size : Z) : list byte :=
  let header := [toUint8 (band (sar size 8) 255); toUint8 (band size 255)] in
  joinUint8Array header message.

(** The [while] loop of the [write] handler of [makeWritableUDPStream]:
    the datagrams sent and the new [leftoverData]. *)
Fixpoint unpack (fuel : nat) (byteArray : list byte) (offset : nat) (leftoverData : list byte)
  : list (list byte) * list byte :=
  match fuel with
  | O => ([], leftoverData)
  | S fuel' =>
      if (offset <? length byteArray)%nat then
        match byteArray !! offset, byteArray !! S offset with
        | Some hi, Some lo =>
            let datagramLen := bor (shl (u8 hi) 8) (u8 lo) in
            if Z.of_nat (length byteArray) <? Z.of_nat offset + 2 + datagramLen
            then ([], drop offset byteArray)
            else
              let datagram :=
                slice byteArray (Int (Z.of_nat offset + 2))
                      (Int (Z.of_nat offset + 2 + datagramLen)) in
              let '(sent, leftoverData) :=
                unpack fuel' byteArray (offset + 2 + Z.to_nat datagramLen) leftoverData in
              (datagram :: sent, leftoverData)
        | _, _ => ([], drop offset byteArray)
        end
      else ([], leftoverData)
  end.

(** One call of [write]: the datagrams handed to [udpClient.send], and
    the [leftoverData] kept for the next call. *)
Definition write (leftoverData chunk : list byte) : list (list byte) * list byte :=
  let byteArray := chunk in
  let '(byteArray, leftoverData) :=
    if (0 <? length leftoverData)%nat
    then (joinUint8Array leftoverData byteArray, [])
    else (byteArray, leftoverData) in
  unpack (length byteArray) byteArray 0 leftoverData.

(** The stream fed with a sequence of chunks, from an empty
    [leftoverData]. *)
Fixpoint writeAll (leftoverData : list byte) (chunks : list (list byte))
  : list (list byte) * list byte :=
  match chunks with
  | [] => ([], leftoverData)
  | chunk :: rest =>
      let '(sent, leftoverData) := write leftoverData chunk in
      let '(sent', leftoverData) := writeAll leftoverData rest in
      (sent ++ sent', leftoverData)
  end.

End Udp.

(* ================================================================== *)
(** * protocol/dns.js                                                  *)
(* ================================================================== *)

Module Dns.

Inductive effect : Type :=
| Connect (hostname : jsstring) (port : Z)
| Write (udpChunk : list byte)
| Send (frame : list byte).

(** The run of the resolver's socket: whether connecting and writing work,
    and the chunks it answers with, each with the [readyState] of the
    WebSocket on arrival. *)
Record resolver : Type := Resolver {
  reachable : bool;
  answers : list (list byte * Z)
}.

Fixpoint relay (answers : list (list byte * Z)) (vlessHeader : option (list byte))
  : list effect :=
  match answers with
  | [] => []
  | (chunk, readyState) :: rest =>
      if readyState =? WS_READY_STATE_OPEN then
        match vlessHeader with
        | Some h => Send (h ++ chunk) :: relay rest None
        | None => Send chunk :: relay rest vlessHeader
        end
      else relay rest vlessHeader
  end.

Definition handleDNSQuery (net : resolver) (udpChunk : list byte)
    (protocolResponseHeader : option (list byte)) : list effect :=
  let dnsServer := str "8.8.4.4" in
  let dnsPort := 53 in
  let vlessHeader := protocolResponseHeader in
  Connect dnsServer dnsPort ::
  if reachable net
  then Write udpChunk :: relay (answers net) vlessHeader
  else [].

End Dns.

(* ================================================================== *)
(** * handlers/websocket.js                                            *)
(* ================================================================== *)

Module WebSocket.

Inductive protocol : Type :=
| vless
| trojan.

(** The part of the configuration the handler reads; [canHandleUDP] is
    [proxyType === 'vless' && parsedVlessOutbound]. *)
Record config : Type := Config {
  userID : jsstring;
  trojanPassword : jsstring;
  canHandleUDP : bool
}.

(** The variables the [write] handler closes over. *)
Record session : Type := Session {
  isDns : bool;
  remoteSocketWrapper : bool
}.

Definition initialSession : session :=
  {| isDns := false; remoteSocketWrapper := false |}.

(** The calls the [write] handler makes. *)
Inductive call : Type :=
| HandleDNSQuery (udpChunk : list byte) (protocolResponseHeader : option (list byte))
| WriteRemote (chunk : list byte)
| HandleUDPOutbound (protocolResponseHeader : option (list byte))
    (addressType : Z) (addressRemote : jsstring) (portRemote : Z) (rawClientData : list byte)
| HandleTCPOutBound (addressType : Z) (addressRemote : jsstring) (portRemote : Z)
    (rawClientData : list byte) (protocolResponseHeader : option (list byte)).

(** The protocol detection of the first chunk. *)
Definition detect (cfg : config) (chunk : list byte) : protocol * completion result :=
  if Trojan.isTrojanProtocol chunk (trojanPassword cfg)
  then (trojan, Trojan.processTrojanHeader chunk (trojanPassword cfg))
  else (vless, Vless.processProtocolHeader chunk (userID cfg)).

(** [protocolType === 'trojan' ? null : new Uint8Array([protocolVersion[0], 0])],
    with the default [new Uint8Array([0, 0])] for an absent version. *)
Definition responseHeader (protocolType : protocol) (h : header) : option (list byte) :=
  match protocolType with
  | trojan => None
  | vless =>
      let protocolVersion := default [toUint8 0; toUint8 0] (protocolVersion h) in
      Some [nth 0 protocolVersion (toUint8 0); toUint8 0]
  end.

(** One call of the [write] handler of the WebSocket-to-remote pipe, with
    the session as the next call finds it.  [stored] tells whether the
    outbound handler that is started stores a stream in the wrapper
    before the next chunk arrives ([handleUDPOutbound] is awaited and may
    yield null; [handleTCPOutBound] is not awaited). *)
Definition write (cfg : config) (stored : bool) (st : session) (chunk : list byte)
  : completion (session * list call) :=
  if isDns st then Return (st, [HandleDNSQuery chunk None])
  else if remoteSocketWrapper st then Return (st, [WriteRemote chunk])
  else
    let '(protocolType, parsed) := detect cfg chunk in
    protocolResult ← parsed;
    match protocolResult with
    | Failure message => Throw (Error message)
    | Success h =>
        if isUDP h then
          if canHandleUDP cfg then
            let protocolResponseHeader := responseHeader protocolType h in
            let rawClientData := sliceFrom chunk (rawDataIndex h) in
            Return ({| isDns := isDns st; remoteSocketWrapper := stored |},
                    [HandleUDPOutbound protocolResponseHeader (addressType h)
                       (addressRemote h) (portRemote h) rawClientData])
          else if portRemote h =? 53 then
            Return ({| isDns := true; remoteSocketWrapper := remoteSocketWrapper st |}, [])
          else Throw (Error (str "UDP proxy requires VLESS outbound configuration"))
        else
          let protocolResponseHeader := responseHeader protocolType h in
          let rawClientData := sliceFrom chunk (rawDataIndex h) in
          if isDns st
          then Return (st, [HandleDNSQuery rawClientData protocolResponseHeader])
          else Return ({| isDns := isDns st; remoteSocketWrapper := stored |},
                       [HandleTCPOutBound (addressType h) (addressRemote h)
                          (portRemote h) rawClientData protocolResponseHeader])
    end.

(** The handler over the chunks of a session, until it throws. *)
Fixpoint writeAll (cfg : config) (stored : bool) (st : session) (chunks : list (list byte))
  : list call :=
  match chunks with
  | [] => []
  | chunk :: rest =>
      match write cfg stored st chunk with
      | Return (st', calls) => calls ++ writeAll cfg stored st' rest
      | Throw _ => []
      end
  end.

End WebSocket.

(* ================================================================== *)
(** * Notions used in the statements                                   *)
(* ================================================================== *)

(** The byte stream of a sequence of datagrams, each framed as
    [makeReadableUDPStream] frames it ([info.size] is the length of the
    message). *)
Definition encodeAll (datagrams : list (list byte)) : list byte :=
  concat (map (fun d => Udp.encodeDatagram d (Z.of_nat (length d))) datagrams).

(** A buffer that does not hold one whole frame at its start. *)
Definition incomplete (r : list byte) : Prop :=
  match r with
  | hi :: lo :: rest => Z.of_nat (length rest) < u8 hi * 256 + u8 lo
  | _ => True
  end.

(** The classes of parse errors, and the class of a message. *)
Inductive errorClass : Type :=
| TooShort
| InvalidCredential
| UnsupportedCommand
| InvalidAddressType
| TruncatedField
| MissingDelimiter
| EmptyAddress.

Definition classify (message : jsstring) : option errorClass :=
  if eqb message (str "Invalid Trojan data: too short") || eqb message (str "invalid data")
  then Some TooShort
  else if eqb message (str "Invalid Trojan password") || eqb message (str "invalid user")
  then Some InvalidCredential
  else if startsWith (str "Unsupported Trojan command: ") message
          || (startsWith (str "command ") message
              && endsWith (str " is not supported, command 01-tcp,02-udp,03-mux") message)
  then Some UnsupportedCommand
  else if startsWith (str "Invalid Trojan address type: ") message
          || startsWith (str "invalid addressType: ") message
  then Some InvalidAddressType
  else if eqb message (str "Invalid Trojan header: IPv4 address truncated")
          || eqb message (str "Invalid Trojan header: domain name truncated")
          || eqb message (str "Invalid Trojan header: IPv6 address truncated")
          || eqb message (str "Invalid Trojan header: port truncated")
  then Some TruncatedField
  else if eqb message (str "Invalid Trojan header: missing CRLF")
          || eqb message (str "Invalid Trojan header: missing final CRLF")
          || eqb message (str "Invalid Trojan header: invalid final CRLF")
  then Some MissingDelimiter
  else if startsWith (str "Address value is empty, address type is ") message
          || startsWith (str "addressValue is empty, addressType is ") message
  then Some EmptyAddress
  else None.

(** A lower-case hexadecimal digit. *)
Definition lowerHex (c : Z) : Prop := inRange 48 57 c || inRange 97 102 c = true.

(** The UUID string of 32 digits, and the bytes its pairs of digits
    denote. *)
Definition dashed (hs : jsstring) : jsstring :=
  take 8 hs ++ [45] ++ take 4 (drop 8 hs) ++ [45] ++ take 4 (drop 12 hs) ++ [45]
  ++ take 4 (drop 16 hs) ++ [45] ++ drop 20 hs.

Fixpoint pairBytes (hs : jsstring) : list byte :=
  match hs with
  | a :: b :: rest => numToUint8 (parseInt [a; b] (Some 16)) :: pairBytes rest
  | _ => []
  end.

(** The credential set of a configured [userID]. *)
Definition credentials (userID : jsstring) : list jsstring :=
  if includes (str ",") userID then split (str ",") userID else [userID].

(** An address in the text form the parser prints: dotted decimal octets;
    a non-empty ASCII name of at most 255 code units; eight groups in
    lower-case hexadecimal without leading zeros, separated by colons. *)
Inductive canonicalAddress : Z -> jsstring -> Prop :=
| CanonicalIPv4 (o1 o2 o3 o4 : byte) :
    canonicalAddress VLESS_ADDR_IPV4 (joinBytes (str ".") [o1; o2; o3; o4])
| CanonicalDomain (name : jsstring) :
    name <> [] -> (length name <= 255)%nat -> Forall (fun c => 0 <= c < 128) name ->
    canonicalAddress VLESS_ADDR_DOMAIN name
| CanonicalIPv6 (groups : list Z) :
    length groups = 8%nat -> Forall (fun g => 0 <= g < 65536) groups ->
    canonicalAddress VLESS_ADDR_IPV6 (join (str ":") (map (toStringRadix 16) groups)).

(** A datagram the two length bytes can describe. *)
Definition small (d : list byte) : Prop := Z.of_nat (length d) < 65536.

Module Rotation.
Import ProxyResolver.

(** The indices of the [connect] calls among the effects, in order. *)
Definition connects (effects : list effect) : list nat :=
  flat_map (fun e => match e with Connect index _ _ => [index] | Write _ _ => [] end) effects.

(** The index tried in iteration [i]. *)
Definition visit (st : cache) (proxyAddresses : list entry) (i : nat) : nat :=
  ((cachedProxyIndex st + i) mod length proxyAddresses)%nat.

(** Iteration [i] ends with the initial data written. *)
Definition established (connect : nat -> entry -> attempt) (st : cache)
    (proxyAddresses : list entry) (i : nat) : Prop :=
  exists e, proxyAddresses !! visit st proxyAddresses i = Some e /\ connect i e = Established.

(** What iteration [i] does to the outside: the call of [connect], and the
    write of the initial data when the socket has opened. *)
Definition iteration (connect : nat -> entry -> attempt) (st : cache)
    (proxyAddresses : list entry) (initialData : list byte) (i : nat) : list effect :=
  match proxyAddresses !! visit st proxyAddresses i with
  | Some (address, port) =>
      Connect (visit st proxyAddresses i) address port
      :: match connect i (address, port) with
         | WriteFails | Established => [Write (visit st proxyAddresses i) initialData]
         | ConnectThrows | OpenFails => []
         end
  | None => []
  end.

End Rotation.

Module Trace.
(** The chunks of an outbound run that reach the [send] of the relay: those
    that arrive while the WebSocket is open, up to the first that does not. *)
Fixpoint forwarded (chunks : list (list byte * Z)) : list (list byte) :=
  match chunks with
  | [] => []
  | (chunk, readyState) :: rest =>
      if readyState =? WS_READY_STATE_OPEN then chunk :: forwarded rest else []
  end.

(** The response header put before the first chunk only. *)
Definition withHeader (header : option (list byte)) (chunks : list (list byte))
  : list (list byte) :=
  match header, chunks with
  | Some h, first :: rest => (h ++ first) :: rest
  | _, _ => chunks
  end.

(** The frames a trace sends to the WebSocket. *)
Definition frames (trace : list event) : list (list byte) :=
  flat_map (fun e => match e with WsSend f => [f] | _ => [] end) trace.

(** How often the retry function is called in a trace, and how many relays
    are started with a retry function. *)
Definition retries (trace : list event) : nat :=
  length (List.filter (fun e => match e with Retry => true | _ => false end) trace).

Definition relaysWithRetry (trace : list event) : nat :=
  length (List.filter (fun e => match e with Relay true => true | _ => false end) trace).

(** What the relay does with its retry function when nothing was
    forwarded. *)
Definition invoked (retry : option (list event)) : list event :=
  match retry with
  | Some r => r
  | None => []
  end.

(** The chunks a connection forwards; none when it was not made. *)
Definition forwardedBy (s : option Stream.remote) : list (list byte) :=
  match s with
  | Some sock => forwarded (Stream.chunks sock)
  | None => []
  end.

(** The chunks that reach the WebSocket in a run of [handleTCPOutBound]: in
    global mode those of the proxy connection; otherwise those of the
    direct connection and, when it forwards none, those of the second
    connection, made through the rotation (with the direct fallback) when a
    proxy address is configured and directly when not. *)
Definition delivered (cfg : Tcp.config) (net : Tcp.network) : list (list byte) :=
  if Tcp.globalMode cfg then forwardedBy (Tcp.viaProxy net)
  else
    match forwardedBy (Tcp.direct net) with
    | [] =>
        forwardedBy
          (if Tcp.truthy (Tcp.proxyIP cfg)
           then match Tcp.viaRotation net with
                | Some s => Some s
                | None => if Tcp.enableProxyFallback cfg then Tcp.directAgain net else None
                end
           else Tcp.directAgain net)
    | cs => cs
    end.

(** The frames the outbound handlers started by a call of the [write]
    handler send to the WebSocket, over the network [net]. *)
Definition sessionFrames (tcfg : Tcp.config) (net : Tcp.network)
    (outcome : completion (WebSocket.session * list WebSocket.call)) : list (list byte) :=
  match outcome with
  | Return (_, calls) =>
      flat_map (fun c => match c with
                         | WebSocket.HandleTCPOutBound _ _ _ _ protocolResponseHeader =>
                             frames (Tcp.handleTCPOutBound tcfg net protocolResponseHeader)
                         | _ => []
                         end) calls
  | Throw _ => []
  end.
End Trace.

(** The response header the handler hands to the dispatcher. *)
Definition expectedHeader (cfg : WebSocket.config) (chunk : list byte) : option (list byte) :=
  if Trojan.isTrojanProtocol chunk (WebSocket.trojanPassword cfg) then None
  else Some [nth 0 chunk x00; x00].

(** The UUID of config/defaults.js. *)
Definition defaultUserID : jsstring := str "d342d11e-d424-4583-b36e-524ab1f0afa4".

Module Pool.
Import ProxyResolver.
(** What a process does with the resolver's module state. *)
Inductive operation : Type :=
| Resolve (dohQuery : jsstring -> jsstring -> list answer)
    (proxyIP targetDomain userID : jsstring)
| Reset
| UpdateIndex (index : nat)
| Rotate (connect : nat -> entry -> attempt) (proxyAddresses : list entry)
    (initialData : list byte).

(** An operation that leaves the cache entry of the specification
    [proxyIP] in place: a resolve of that specification, a move of the
    cursor, a rotation. *)
Definition keeps (proxyIP : jsstring) (op : operation) : Prop :=
  match op with
  | Resolve _ proxyIP' _ _ => proxyIP' = proxyIP
  | Reset => False
  | UpdateIndex _ | Rotate _ _ _ => True
  end.

Section Run.
Variable localeCompare : jsstring -> jsstring -> Z.
Variable arraySort : forall S : Type, (S -> entry -> entry -> Z * S) -> S -> list entry -> list entry.

(** The pools handed out by the [Resolve] operations of a run, and the
    state it ends in. *)
Fixpoint run (st : cache) (ops : list operation) : list (list entry) * cache :=
  match ops with
  | [] => ([], st)
  | Resolve dohQuery proxyIP targetDomain userID :: rest =>
      let '(pool, st1) :=
        resolveProxyAddresses dohQuery localeCompare arraySort st proxyIP targetDomain userID in
      let '(pools, st2) := run st1 rest in
      (pool :: pools, st2)
  | Reset :: rest => run (resetProxyCache st) rest
  | UpdateIndex index :: rest => run (updateCachedProxyIndex st index) rest
  | Rotate connect proxyAddresses initialData :: rest =>
      match connectWithRotation connect st proxyAddresses initialData with
      | Return (_, st1, _) => run st1 rest
      | Throw _ => run st rest
      end
  end.
End Run.
End Pool.

(** The cached pool, when there is one, has at most 8 entries. *)
Definition poolBounded (st : ProxyResolver.cache) : Prop :=
  match ProxyResolver.cachedProxyAddresses st with
  | Some addresses => (length addresses <= 8)%nat
  | None => True
  end.

(** A configuration without a UDP-capable outbound. *)
Definition dnsConfig : WebSocket.config :=
  {| WebSocket.userID := defaultUserID;
     WebSocket.trojanPassword := defaultUserID;
     WebSocket.canHandleUDP := false |}.

(** Version 0, the default UUID, no addons, command 2 (UDP), port 53,
    address type 1, 8.8.8.8; then a payload. *)
Definition dnsFirstChunk (payload : list byte) : list byte :=
  bytes [0; 0xd3; 0x42; 0xd1; 0x1e; 0xd4; 0x24; 0x45; 0x83; 0xb3; 0x6e; 0x52; 0x4a; 0xb1;
         0xf0; 0xaf; 0xa4; 0; 2; 0; 53; 1; 8; 8; 8; 8] ++ payload.

(** An ASCII code unit. *)
Definition ascii (c : Z) : Prop := 0 <= c < 128.

(** A sequence under way always yields a code point outside ASCII. *)
Definition pendingOk (cp needed lower upper : Z) : Prop :=
  128 <= lower /\ upper <= 191 /\ 0 <= cp /\ 1 <= needed
  /\ (2 <= cp \/ (2 <= needed /\ (1 <= cp \/ 144 <= lower))).

(** What a successful Trojan parse says about the buffer. *)
Definition trojanSuccess (buffer : list byte) (h : header) : Prop :=
  (exists idx, rawDataIndex h = Int idx /\ 62 <= idx <= Z.of_nat (length buffer))
  /\ addressRemote h <> []
  /\ protocolVersion h = None
  /\ exists t, buffer !! 59%nat = Some t
               /\ (u8 t = 1 \/ u8 t = 3 \/ u8 t = 4)
               /\ addressType h = (if u8 t =? 3 then 2 else u8 t).

(** A string without the code unit [c]. *)
Definition without (c : Z) (s : jsstring) : Prop := Forall (fun x => x <> c) s.

(** A digit of the radix, as [toString] prints it. *)
(** The digits of a number: never empty, all below the radix. *)
Definition digitOf (radix : Z) (c : Z) : Prop :=
  exists d, 0 <= d < radix /\ c = digitChar d.

(** The sixteen lower-case hexadecimal digits. *)
Definition hexChars : list Z :=
  [48; 49; 50; 51; 52; 53; 54; 55; 56; 57; 97; 98; 99; 100; 101; 102].

(** The first 22 bytes: version, the UUID, no addons, command, port and
    address type. *)
Definition fixedPart (hs : jsstring) (command port addressType : Z) : list byte :=
  [x00] ++ pairBytes hs
  ++ [x00; toUint8 command; toUint8 (sar port 8); toUint8 (band port 255); toUint8 addressType].

(** The 16 bytes of eight groups. *)
Definition groupBytes (groups : list Z) : list byte :=
  flat_map (fun g => [toUint8 (sar g 8); toUint8 (band g 255)]) groups.

(** SHA-224 of "abc" (FIPS 180-4 test vector). *)
Definition digestAbc : jsstring :=
  str "23097d223405d8228642a477bda255b32aadbce4bda0b3f7e36c9da7".

(** SHA-224 of the two bytes CF 80, the UTF-8 encoding of U+03C0. *)
Definition digestPi : jsstring :=
  str "32154a3bb0c98249184c767df571cc69b1765bcc8737ef301f079ae1".

(* ================================================================== *)
(** * Requests, the tunnel and the UDP outbound                       *)
(* ================================================================== *)

(** The address field of a Trojan request of type [t] and the text the
    parser makes of it: four octets; a length byte and that many bytes of
    UTF-8; eight big-endian groups. *)
Inductive trojanAddress : Z -> list byte -> jsstring -> Prop :=
| TrojanIPv4 (o1 o2 o3 o4 : byte) :
    trojanAddress 1 [o1; o2; o3; o4] (joinBytes (str ".") [o1; o2; o3; o4])
| TrojanDomain (name : list byte) :
    (length name <= 255)%nat ->
    trojanAddress 3 (toUint8 (Z.of_nat (length name)) :: name) (textDecode name)
| TrojanIPv6 (groups : list Z) :
    length groups = 8%nat -> Forall (fun g => 0 <= g < 65536) groups ->
    trojanAddress 4 (groupBytes groups) (join (str ":") (map (toStringRadix 16) groups)).

(** A Trojan request: the digest of the password in hexadecimal, CR LF,
    command, address type, address field, port, CR LF, payload; and the
    header the parser returns for it. *)
Definition trojanRequest (buffer : list byte) (password : jsstring) (h : header)
    (payload : list byte) : Prop :=
  exists (digest : jsstring) (command t hi lo : byte) (field : list byte) (text : jsstring),
    Crypto.sha224 password = Some digest
    /\ buffer = map toUint8 digest ++ [x0d; x0a; command; t] ++ field
                ++ [hi; lo; x0d; x0a] ++ payload
    /\ (u8 command = TROJAN_CMD_TCP \/ u8 command = TROJAN_CMD_UDP)
    /\ trojanAddress (u8 t) field text
    /\ text <> []
    /\ h = {| addressRemote := text;
              addressType := (if u8 t =? 3 then VLESS_ADDR_DOMAIN else u8 t);
              portRemote := u8 hi * 256 + u8 lo;
              rawDataIndex := Int (64 + Z.of_nat (length field));
              protocolVersion := None;
              isUDP := (u8 command =? TROJAN_CMD_UDP) |}.

(** The address field of a VLESS request of type [t] and the text the
    parser makes of it. *)
Inductive vlessAddress : Z -> list byte -> jsstring -> Prop :=
| VlessIPv4 (o1 o2 o3 o4 : byte) :
    vlessAddress 1 [o1; o2; o3; o4] (joinBytes (str ".") [o1; o2; o3; o4])
| VlessDomain (name : list byte) :
    (length name <= 255)%nat ->
    vlessAddress 2 (toUint8 (Z.of_nat (length name)) :: name) (textDecode name)
| VlessIPv6 (groups : list Z) :
    length groups = 8%nat -> Forall (fun g => 0 <= g < 65536) groups ->
    vlessAddress 3 (groupBytes groups) (join (str ":") (map (toStringRadix 16) groups)).

(** A VLESS request: version, the 16 bytes of a UUID of the credential
    list, the addons behind their length, command, port, address type,
    address field, payload; and the header the parser returns for it. *)
Definition vlessRequest (buffer : list byte) (userID : jsstring) (h : header)
    (payload : list byte) : Prop :=
  exists (version command t hi lo : byte) (uuidBytes addons field : list byte)
         (uuid text : jsstring),
    buffer = [version] ++ uuidBytes ++ [toUint8 (Z.of_nat (length addons))] ++ addons
             ++ [command; hi; lo; t] ++ field ++ payload
    /\ length uuidBytes = 16%nat /\ (length addons <= 255)%nat
    /\ stringify uuidBytes 0 = Return uuid
    /\ In uuid (map trim (credentials userID))
    /\ (u8 command = 1 \/ u8 command = 2)
    /\ vlessAddress (u8 t) field text
    /\ text <> []
    /\ h = {| addressRemote := text;
              addressType := u8 t;
              portRemote := u8 hi * 256 + u8 lo;
              rawDataIndex := Int (22 + Z.of_nat (length addons) + Z.of_nat (length field));
              protocolVersion := Some [version];
              isUDP := (u8 command =? 2) |}.

(* ================================================================== *)
(** * proxy/vless.js: the tunnel to the VLESS server                   *)
(* ================================================================== *)

Module VlessTunnel.

(** [firstPacket]: a new array filled by two [set] calls. *)
Definition firstPacket (vlessHeader clientData : list byte) : completion (list byte) :=
  let firstPacket :=
    newUint8Array (Z.of_nat (length vlessHeader) + Z.of_nat (length clientData)) in
  firstPacket ← setArray firstPacket vlessHeader 0;
  setArray firstPacket clientData (Z.of_nat (length vlessHeader)).

(** [if (data.length > 0) controller.enqueue(data)] *)
Definition enqueue (data : list byte) : list (list byte) :=
  if (0 <? length data)%nat then [data] else [].

(** The [message] listener of the readable side: what it enqueues, and
    [headerStripped] afterwards.  The response header (version, length of
    the additional information, additional information) is taken off the
    first message. *)
Definition onMessage (headerStripped : bool) (data : list byte)
  : list (list byte) * bool :=
  if negb headerStripped then
    if (2 <=? length data)%nat then
      match index data 1 with
      | Some b =>
          let additionalBytes := u8 b in
          if 2 + additionalBytes <? Z.of_nat (length data)
          then (enqueue (sliceFrom data (Int (2 + additionalBytes))), true)
          else ([], true)
      | None => ([], true)
      end
    else (enqueue data, true)
  else (enqueue data, headerStripped).

(** The chunks of the readable side for the messages of the server. *)
Fixpoint readable (headerStripped : bool) (messages : list (list byte))
  : list (list byte) :=
  match messages with
  | [] => []
  | data :: rest =>
      let '(chunks, headerStripped) := onMessage headerStripped data in
      chunks ++ readable headerStripped rest
  end.

End VlessTunnel.

(* ================================================================== *)
(** * proxy/tcp.js: the UDP outbound                                    *)
(* ================================================================== *)

Module UdpOutbound.

(** What the handler does to the client's WebSocket. *)
Inductive effect : Type :=
| Send (frame : list byte)
| SafeClose.

(** The [write] handler over the chunks of the tunnel's readable side,
    each with the [readyState] of the WebSocket on arrival. *)
Fixpoint pipe (chunks : list (list byte * Z)) (protocolResponseHeader : option (list byte))
    (headerSent : bool) : list effect :=
  match chunks with
  | [] => []
  | (data, readyState) :: rest =>
      if negb (readyState =? WS_READY_STATE_OPEN)
      then pipe rest protocolResponseHeader headerSent
      else
        match negb headerSent, protocolResponseHeader with
        | true, Some header =>
            Send (header ++ data) :: pipe rest protocolResponseHeader true
        | _, _ => Send data :: pipe rest protocolResponseHeader headerSent
        end
  end.

(** [handleUDPOutbound]: [vlessResult] is what [vlessOutboundConnect]
    yields, null or the chunks of its readable side; the result tells
    whether a writable stream is returned. *)
Definition handleUDPOutbound (canHandleUDP : bool) (vlessResult : option (list (list byte * Z)))
    (protocolResponseHeader : option (list byte)) : list effect * bool :=
  if negb canHandleUDP then ([SafeClose], false)
  else
    match vlessResult with
    | None => ([SafeClose], false)
    | Some chunks => (pipe chunks protocolResponseHeader false ++ [SafeClose], true)
    end.

End UdpOutbound.

(** The chunks that arrive while the WebSocket is open. *)
Definition arrivedOpen (chunks : list (list byte * Z)) : list (list byte) :=
  map fst (List.filter (fun c => snd c =? WS_READY_STATE_OPEN) chunks).

(** The two hexadecimal digits of a byte. *)
Definition hexDigits (b : byte) : jsstring :=
  [digitChar (u8 b / 16); digitChar (u8 b mod 16)].

(** A Trojan request with the password "abc": TCP to 1.2.3.4, port 80, no
    payload; and the header the parser returns for it. *)
Definition trojanAbc : list byte :=
  map toUint8 digestAbc ++ bytes [13; 10; 1; 1; 1; 2; 3; 4; 0; 80; 13; 10].

Definition headerAbc : header :=
  {| addressRemote := str "1.2.3.4"; addressType := 1; portRemote := 80;
     rawDataIndex := Int 68; protocolVersion := None; isUDP := false |}.

(** The header the parser returns for [dnsFirstChunk]. *)
Definition dnsHeader : header :=
  {| addressRemote := str "8.8.8.8"; addressType := 1; portRemote := 53;
     rawDataIndex := Int 26; protocolVersion := Some [x00]; isUDP := true |}.

(** The 32 digits of the default UUID. *)
Definition defaultDigits : jsstring := str "d342d11ed4244583b36e524ab1f0afa4".

(** Version 0, the default UUID, no addons, command 1 (TCP), port 80,
    address type 1, 1.2.3.4; then a payload. *)
Definition tcpFirstChunk (payload : list byte) : list byte :=
  bytes [0; 0xd3; 0x42; 0xd1; 0x1e; 0xd4; 0x24; 0x45; 0x83; 0xb3; 0x6e; 0x52; 0x4a; 0xb1;
         0xf0; 0xaf; 0xa4; 0; 1; 0; 80; 1; 1; 2; 3; 4] ++ payload.

Definition tcpHeader : header :=
  {| addressRemote := str "1.2.3.4"; addressType := 1; portRemote := 80;
     rawDataIndex := Int 26; protocolVersion := Some [x00]; isUDP := false |}.

(** No proxy of any kind: direct first, direct again in the retry. *)
Definition standardMode : Tcp.config :=
  {| Tcp.globalProxy := false; Tcp.proxyType := None; Tcp.hasProxyConfig := false;
     Tcp.proxyIP := None; Tcp.enableProxyFallback := true |}.

(** A network where only the first direct connection is made. *)
Definition directOnly (sock : Stream.remote) : Tcp.network :=
  {| Tcp.direct := Some sock; Tcp.viaProxy := None; Tcp.viaRotation := None;
     Tcp.directAgain := None |}.

(* ================================================================== *)
(** * proxy/http.js: the HTTP CONNECT tunnel                            *)
(* ================================================================== *)

Module HttpConnect.

(** [btoa]: base64 of a string of code units below 256; on any other
    string it throws ([None]). *)
Definition base64Char (n : Z) : Z :=
  if n <? 26 then 65 + n
  else if n <? 52 then 97 + (n - 26)
  else if n <? 62 then 48 + (n - 52)
  else if n =? 62 then 43
  else 47.

Fixpoint base64 (s : jsstring) : jsstring :=
  match s with
  | a :: b :: c :: rest =>
      [base64Char (a / 4); base64Char (a mod 4 * 16 + b / 16);
       base64Char (b mod 16 * 4 + c / 64); base64Char (c mod 64)] ++ base64 rest
  | [a; b] =>
      [base64Char (a / 4); base64Char (a mod 4 * 16 + b / 16); base64Char (b mod 16 * 4); 61]
  | [a] => [base64Char (a / 4); base64Char (a mod 4 * 16); 61; 61]
  | [] => []
  end.

Definition btoa (s : jsstring) : option jsstring :=
  if forallb (fun c => c <? 256) s then Some (base64 s) else None.

(** What the proxy does: whether [connect] throws, whether the write of the
    request and the write of the initial data resolve, and the values the
    reader yields; when they are used up the stream is done or the read
    rejects, and either way the function throws inside its [try]. *)
Record proxy : Type := Proxy {
  connectThrows : bool;
  acceptsRequest : bool;
  reads : list (list byte);
  acceptsInitial : bool
}.

(** What the function does to the outside, in order. *)
Inductive effect : Type :=
| Connect (hostname : jsstring) (port : Z)
| Write (data : list byte)
| Close.

Definition crlf : jsstring := [13; 10].

(** [responseBuffer[i] === v] *)
Definition holds (o : option byte) (v : Z) : bool :=
  match o with
  | Some b => u8 b =? v
  | None => false
  end.

(** The predicate handed to [findIndex]. *)
Definition isHeaderEnd (responseBuffer : list byte) (i : Z) : bool :=
  (i <? Z.of_nat (length responseBuffer) - 3)
  && holds (index responseBuffer i) 13
  && holds (index responseBuffer (i + 1)) 10
  && holds (index responseBuffer (i + 2)) 13
  && holds (index responseBuffer (i + 3)) 10.

(** [findIndex] over the [n] indices from [i] on. *)
Fixpoint findIndex (p : Z -> bool) (n : nat) (i : Z) : Z :=
  match n with
  | O => -1
  | S n' => if p i then i else findIndex p n' (i + 1)
  end.

(** The loop [while (headerEndIndex === -1 && bytesRead < 8192)], entered
    with [headerEndIndex] -1 and [bytesRead] the length of the buffer: the
    buffer, [headerEndIndex] and the values not read, or [None] when an
    error is thrown in the loop or behind it. *)
Fixpoint readHeader (reads : list (list byte)) (responseBuffer : list byte)
  : option (list byte * Z * list (list byte)) :=
  if Z.of_nat (length responseBuffer) <? 8192 then
    match reads with
    | [] => None
    | value :: rest =>
        let responseBuffer := responseBuffer ++ value in
        let crlfcrlf :=
          findIndex (isHeaderEnd responseBuffer) (length responseBuffer) 0 in
        if negb (crlfcrlf =? -1)
        then Some (responseBuffer, crlfcrlf + 4, rest)
        else readHeader rest responseBuffer
    end
  else None.

(** [\d] and [\s] *)
Definition isDigit (c : Z) : bool := inRange 48 57 c.
Definition isSpace (c : Z) : bool := isWhiteSpace c.

Fixpoint takeWhile (p : Z -> bool) (s : jsstring) : jsstring :=
  match s with
  | c :: s' => if p c then c :: takeWhile p s' else []
  | [] => []
  end.

Fixpoint dropWhile (p : Z -> bool) (s : jsstring) : jsstring :=
  match s with
  | c :: s' => if p c then dropWhile p s' else s
  | [] => []
  end.

(** [/HTTP\/\d\.\d\s+(\d+)/] at the head of a string: the capture.  White
    space and digits are disjoint, so the greedy runs need no backtracking. *)
Definition matchAt (s : jsstring) : option jsstring :=
  match s with
  | 72 :: 84 :: 84 :: 80 :: 47 :: d1 :: 46 :: d2 :: rest =>
      if isDigit d1 && isDigit d2 then
        let spaces := takeWhile isSpace rest in
        let digits := takeWhile isDigit (dropWhile isSpace rest) in
        match spaces, digits with
        | _ :: _, _ :: _ => Some digits
        | _, _ => None
        end
      else None
  | _ => None
  end.

(** [s.match(/HTTP\/\d\.\d\s+(\d+)/)]: the leftmost match. *)
Fixpoint statusMatch (s : jsstring) : option jsstring :=
  match matchAt s with
  | Some digits => Some digits
  | None =>
      match s with
      | [] => None
      | _ :: s' => statusMatch s'
      end
  end.

(** [statusCode >= 300] *)
Definition num_ge (a b : num) : bool :=
  match a, b with
  | Int x, Int y => y <=? x
  | _, _ => false
  end.

(** [httpConnect]: [None] when [connect] throws (it is called outside the
    [try]); otherwise the socket returned, as the values still to be read
    from it, or [None] for [undefined], and the effects. *)
Definition httpConnect (net : proxy) (addressRemote : jsstring) (portRemote : Z)
    (username password : option jsstring) (hostname : jsstring) (port : Z)
    (initialData : list byte)
  : option (option (list (list byte)) * list effect) :=
  if connectThrows net then None
  else
    let failed (effects : list effect) :=
      Some (None, Connect hostname port :: effects ++ [Close]) in
    let auth :=
      if Tcp.truthy username && Tcp.truthy password
      then option_map (fun b => str "Proxy-Authorization: Basic " ++ b ++ crlf)
             (btoa (default [] username ++ str ":" ++ default [] password))
      else Some [] in
    match auth with
    | None => failed []
    | Some auth =>
        let request :=
          str "CONNECT " ++ addressRemote ++ str ":" ++ toString portRemote
          ++ str " HTTP/1.1" ++ crlf
          ++ str "Host: " ++ addressRemote ++ str ":" ++ toString portRemote ++ crlf
          ++ auth ++ str "User-Agent: Mozilla/5.0" ++ crlf
          ++ str "Connection: keep-alive" ++ crlf ++ crlf in
        let sent := [Write (textEncode request)] in
        if negb (acceptsRequest net) then failed sent
        else
          match readHeader (reads net) [] with
          | None => failed sent
          | Some (responseBuffer, headerEndIndex, rest) =>
              let headerText :=
                textDecode (slice responseBuffer (Int 0) (Int headerEndIndex)) in
              match statusMatch (nth 0 (split crlf headerText) []) with
              | None => failed sent
              | Some digits =>
                  let statusCode := parseInt digits None in
                  if num_lt statusCode (Int 200) || num_ge statusCode (Int 300)
                  then failed sent
                  else if (0 <? length initialData)%nat then
                    if acceptsInitial net
                    then Some (Some rest,
                               Connect hostname port :: sent ++ [Write initialData])
                    else failed (sent ++ [Write initialData])
                  else Some (Some rest, Connect hostname port :: sent)
              end
          end
    end.

End HttpConnect.

(** The index of the first blank line (CR LF CR LF) of a buffer. *)
Definition startsBlank (rb : list byte) : bool :=
  match rb with
  | a :: b :: c :: d :: _ => (u8 a =? 13) && (u8 b =? 10) && (u8 c =? 13) && (u8 d =? 10)
  | _ => false
  end.

Fixpoint blankLine (rb : list byte) : option nat :=
  match rb with
  | [] => None
  | _ :: rest => if startsBlank rb then Some 0%nat else option_map S (blankLine rest)
  end.

(** The CONNECT request of [httpConnect] without credentials. *)
Definition connectRequest (addressRemote : jsstring) (portRemote : Z) : jsstring :=
  str "CONNECT " ++ addressRemote ++ str ":" ++ toString portRemote
  ++ str " HTTP/1.1" ++ HttpConnect.crlf
  ++ str "Host: " ++ addressRemote ++ str ":" ++ toString portRemote ++ HttpConnect.crlf
  ++ str "User-Agent: Mozilla/5.0" ++ HttpConnect.crlf
  ++ str "Connection: keep-alive" ++ HttpConnect.crlf ++ HttpConnect.crlf.

(** A proxy that answers 200 in one value, with two more bytes behind the
    blank line, and then delivers one more value. *)
Definition okResponse : list byte :=
  map toUint8 (str "HTTP/1.1 200 OK" ++ [13; 10; 13; 10] ++ str "XY").

Definition okProxy : HttpConnect.proxy :=
  {| HttpConnect.connectThrows := false; HttpConnect.acceptsRequest := true;
     HttpConnect.reads := [okResponse; bytes [1; 2; 3]];
     HttpConnect.acceptsInitial := true |}.

(* ================================================================== *)
(** * Bytes, 32-bit operators and strings *)
(* ================================================================== *)

(** ** Bytes *)

Lemma u8_range (b : byte) : 0 <= u8 b < 256.
Proof. unfold u8. pose proof (Byte.to_N_bounded b). lia. Qed.

Lemma u8_toUint8 (z : Z) : u8 (toUint8 z) = z mod 256.
Proof.
  unfold u8, toUint8.
  assert (Hr : 0 <= z mod 256 < 256) by (apply Z.mod_pos_bound; lia).
  destruct (Byte.of_N (Z.to_N (z mod 256))) as [b|] eqn:E.
  - apply Byte.to_of_N in E. rewrite E. lia.
  - apply Byte.of_N_None_iff in E. lia.
Qed.

Lemma toUint8_u8 (b : byte) : toUint8 (u8 b) = b.
Proof.
  unfold toUint8, u8. pose proof (Byte.to_N_bounded b).
  rewrite Z.mod_small by lia. rewrite N2Z.id, Byte.of_to_N. reflexivity.
Qed.

Lemma u8_inj (a b : byte) : u8 a = u8 b -> a = b.
Proof. intros H. rewrite <- (toUint8_u8 a), <- (toUint8_u8 b), H. reflexivity. Qed.

(** ** 32-bit operators on small operands *)

Lemma toInt32_small (z : Z) : -2147483648 <= z < 2147483648 -> toInt32 z = z.
Proof.
  intros H. unfold toInt32. change (2 ^ 31) with 2147483648.
  change (2 ^ 32) with 4294967296. rewrite Z.mod_small; lia.
Qed.

Lemma shiftCount_small (n : Z) : 0 <= n < 32 -> shiftCount n = n.
Proof.
  intros H. unfold shiftCount, toUint32. change (2 ^ 32) with 4294967296.
  rewrite (Z.mod_small n 4294967296) by lia. apply Z.mod_small. lia.
Qed.

Lemma sar_small (x n : Z) :
  -2147483648 <= x < 2147483648 -> 0 <= n < 32 -> sar x n = x / 2 ^ n.
Proof.
  intros Hx Hn. unfold sar. rewrite toInt32_small, shiftCount_small by lia.
  apply Z.shiftr_div_pow2. lia.
Qed.

Lemma band_255 (x : Z) : -2147483648 <= x < 2147483648 -> band x 255 = x mod 256.
Proof.
  intros Hx. unfold band. rewrite (toInt32_small x), (toInt32_small 255) by lia.
  change 255 with (Z.ones 8). rewrite Z.land_ones by lia.
  change (2 ^ 8) with 256.
  pose proof (Z.mod_pos_bound x 256). apply toInt32_small. lia.
Qed.

Lemma band_15 (x : Z) : -2147483648 <= x < 2147483648 -> band x 15 = x mod 16.
Proof.
  intros Hx. unfold band. rewrite (toInt32_small x), (toInt32_small 15) by lia.
  change 15 with (Z.ones 4). rewrite Z.land_ones by lia.
  change (2 ^ 4) with 16.
  pose proof (Z.mod_pos_bound x 16). apply toInt32_small. lia.
Qed.

Lemma lor_shifted (hi lo : Z) :
  0 <= hi -> 0 <= lo < 256 -> Z.lor (hi * 256) lo = hi * 256 + lo.
Proof.
  intros Hhi Hlo. symmetry. apply Z.add_nocarry_lor.
  rewrite <- (Z.mod_small lo 256) by lia.
  change 256 with (2 ^ 8). rewrite <- Z.land_ones, <- Z.shiftl_mul_pow2 by lia.
  rewrite (Z.land_comm lo), Z.land_assoc.
  replace (Z.land (Z.shiftl hi 8) (Z.ones 8)) with 0; [apply Z.land_0_l|].
  rewrite Z.land_ones, Z.shiftl_mul_pow2 by lia. symmetry. apply Z.mod_mul. lia.
Qed.

Lemma shl_8_byte (x : Z) : 0 <= x < 256 -> shl x 8 = x * 256.
Proof.
  intros Hx. unfold shl. rewrite (toInt32_small x), shiftCount_small by lia.
  rewrite Z.shiftl_mul_pow2 by lia. change (2 ^ 8) with 256. apply toInt32_small. lia.
Qed.

Lemma bor_bytes (hi lo : Z) :
  0 <= hi < 256 -> 0 <= lo < 256 -> bor (shl hi 8) lo = hi * 256 + lo.
Proof.
  intros Hhi Hlo. unfold bor. rewrite shl_8_byte by lia.
  rewrite (toInt32_small (hi * 256)), (toInt32_small lo) by lia.
  rewrite lor_shifted by lia. apply toInt32_small. lia.
Qed.

(** The length prefix is read back. *)
Lemma datagramLen_encode (n : Z) :
  0 <= n < 65536 ->
  bor (shl (u8 (toUint8 (band (sar n 8) 255))) 8) (u8 (toUint8 (band n 255))) = n.
Proof.
  intros Hn. rewrite sar_small by lia. change (2 ^ 8) with 256.
  assert (0 <= n / 256 < 256) by (split; [apply Z.div_pos; lia | apply Z.div_lt_upper_bound; lia]).
  rewrite !band_255 by lia. rewrite !u8_toUint8, !Z.mod_mod by lia.
  rewrite (Z.mod_small (n / 256)) by lia.
  pose proof (Z.mod_pos_bound n 256).
  rewrite bor_bytes by lia. pose proof (Z.div_mod n 256). lia.
Qed.

(** ** [slice] inside the array *)

Lemma slice_inside {A} (arr : list A) (a b : Z) :
  0 <= a <= b -> b <= Z.of_nat (length arr) ->
  slice arr (Int a) (Int b) = take (Z.to_nat (b - a)) (drop (Z.to_nat a) arr).
Proof.
  intros Hab Hb. unfold slice, relativeIndex, toInteger.
  destruct (Z.ltb_spec a 0); [lia|]. destruct (Z.ltb_spec b 0); [lia|].
  rewrite !Z.min_l by lia. reflexivity.
Qed.

(** ** Strings *)

Lemma eqb_eq (a b : jsstring) : eqb a b = true <-> a = b.
Proof.
  revert b. induction a as [|x a IH]; intros [|y b]; cbn; try (split; congruence).
  rewrite andb_true_iff, Z.eqb_eq, IH. split; [intros [-> ->]; reflexivity | intros [= -> ->]; auto].
Qed.

Lemma eqb_refl (a : jsstring) : eqb a a = true.
Proof. apply eqb_eq. reflexivity. Qed.

(** Case analysis on the innermost scrutinee of a hypothesis. *)
Ltac destr_in H :=
  match type of H with
  | context [match ?x with _ => _ end] =>
      lazymatch x with
      | context [match _ with _ => _ end] => fail
      | _ => destruct x eqn:?
      end
  end.

Ltac bind_inv H :=
  unfold mbind, mret, completion_bind, completion_ret, cbind in H;
  repeat (destr_in H; cbv beta iota in H; try discriminate H).

(* ================================================================== *)
(** * proxy/udp.js: the length-prefix framing *)
(* ================================================================== *)

(** ** UDP framing *)

Lemma encodeAll_cons d ds :
  encodeAll (d :: ds) =
  toUint8 (band (sar (Z.of_nat (length d)) 8) 255)
  :: toUint8 (band (Z.of_nat (length d)) 255) :: d ++ encodeAll ds.
Proof. reflexivity. Qed.

Lemma unpack_frames (ds : list (list byte)) :
  forall (pre r : list byte) (fuel : nat),
    Forall small ds -> incomplete r -> (length ds < fuel)%nat ->
    Udp.unpack fuel (pre ++ encodeAll ds ++ r) (length pre) [] = (ds, r).
Proof.
  induction ds as [|d ds IH]; intros pre r fuel Hsm Hinc Hfuel.
  - destruct fuel as [|fuel]; [simpl in Hfuel; lia|].
    change (encodeAll [] ++ r) with r. cbn [Udp.unpack].
    destruct r as [|hi [|lo rest]].
    + rewrite app_nil_r. rewrite (proj2 (Nat.ltb_ge _ _)) by lia. reflexivity.
    + rewrite (proj2 (Nat.ltb_lt _ _)) by (rewrite length_app; simpl; lia).
      rewrite lookup_app_r, Nat.sub_diag by lia. cbn [lookup list_lookup].
      rewrite (lookup_ge_None_2 (pre ++ [hi])) by (rewrite length_app; simpl; lia).
      rewrite drop_app_length. reflexivity.
    + rewrite (proj2 (Nat.ltb_lt _ _)) by (rewrite length_app; simpl; lia).
      rewrite lookup_app_r, Nat.sub_diag by lia. cbn [lookup list_lookup].
      rewrite (lookup_app_r pre) by lia.
      replace (S (length pre) - length pre)%nat with 1%nat by lia. cbn [lookup list_lookup].
      pose proof (u8_range hi). pose proof (u8_range lo).
      rewrite bor_bytes by lia. simpl in Hinc.
      rewrite (proj2 (Z.ltb_lt _ _))
        by (rewrite length_app; cbn [length]; lia).
      rewrite drop_app_length. reflexivity.
  - destruct fuel as [|fuel]; [simpl in Hfuel; lia|].
    inversion Hsm as [|? ? Hd Hds]; subst. unfold small in Hd.
    rewrite encodeAll_cons. cbn [Udp.unpack].
    set (hi := toUint8 _). set (lo := toUint8 _).
    rewrite (proj2 (Nat.ltb_lt _ _)) by (rewrite length_app; simpl; lia).
    rewrite lookup_app_r, Nat.sub_diag by lia. cbn [lookup list_lookup app].
    rewrite (lookup_app_r pre) by lia.
    replace (S (length pre) - length pre)%nat with 1%nat by lia. cbn [lookup list_lookup].
    subst hi lo. rewrite datagramLen_encode by lia.
    set (hi := toUint8 _). set (lo := toUint8 _).
    rewrite (proj2 (Z.ltb_ge _ _))
      by (rewrite !length_app; cbn [length]; rewrite !length_app; lia).
    rewrite slice_inside
      by (rewrite ?length_app; cbn [length]; rewrite ?length_app; lia).
    replace (Z.to_nat (Z.of_nat (length pre) + 2 + Z.of_nat (length d)
                       - (Z.of_nat (length pre) + 2))) with (length d) by lia.
    replace (Z.to_nat (Z.of_nat (length pre) + 2)) with (length (pre ++ [hi; lo]))
      by (rewrite length_app; simpl; lia).
    replace (pre ++ hi :: lo :: (d ++ encodeAll ds) ++ r)
      with ((pre ++ [hi; lo]) ++ d ++ encodeAll ds ++ r)
      by (rewrite <- !app_assoc; reflexivity).
    rewrite drop_app_length, take_app_length.
    replace ((pre ++ [hi; lo]) ++ d ++ encodeAll ds ++ r)
      with ((pre ++ [hi; lo] ++ d) ++ encodeAll ds ++ r)
      by (rewrite <- !app_assoc; reflexivity).
    replace (length pre + 2 + Z.to_nat (Z.of_nat (length d)))%nat
      with (length (pre ++ [hi; lo] ++ d))
      by (rewrite !length_app; simpl; lia).
    rewrite IH by (auto; simpl in Hfuel; lia). reflexivity.
Qed.

(** A prefix of a framed stream is some whole frames and the start of the
    next one. *)
Lemma prefix_frames (ds : list (list byte)) :
  forall p q : list byte,
    Forall small ds -> encodeAll ds = p ++ q ->
    exists ds1 ds2 r,
      ds = ds1 ++ ds2 /\ p = encodeAll ds1 ++ r /\ incomplete r /\ r ++ q = encodeAll ds2.
Proof.
  induction ds as [|d ds IH]; intros p q Hsm Heq.
  - symmetry in Heq. apply app_eq_nil in Heq as [-> ->].
    exists [], [], []. repeat split; simpl; auto.
  - inversion Hsm as [|? ? Hd Hds]; subst. unfold small in Hd.
    set (e := Udp.encodeDatagram d (Z.of_nat (length d))).
    assert (He : encodeAll (d :: ds) = e ++ encodeAll ds) by reflexivity.
    assert (Hlen : length e = S (S (length d))) by reflexivity.
    destruct (Nat.le_gt_cases (length e) (length p)) as [Hle|Hgt].
    + (* the first frame lies inside [p] *)
      rewrite He in Heq.
      assert (Hp : p = e ++ drop (length e) p).
      { rewrite <- (take_drop (length e) p) at 1. f_equal.
        apply (f_equal (take (length e))) in Heq.
        rewrite take_app_length in Heq. rewrite take_app_le in Heq by lia. auto. }
      rewrite Hp, <- app_assoc in Heq. apply app_inv_head in Heq.
      destruct (IH _ _ Hds Heq) as (ds1 & ds2 & r & -> & Hp' & Hinc & Hr).
      exists (d :: ds1), ds2, r. repeat split; auto.
      rewrite Hp, Hp'. rewrite (encodeAll_cons d ds1). fold e.
      change (e ++ encodeAll ds1 ++ r = (e ++ encodeAll ds1) ++ r).
      apply app_assoc.
    + (* [p] ends inside the first frame *)
      exists [], (d :: ds), p. repeat split; auto.
      rewrite He in Heq.
      assert (Hp : p = take (length p) e).
      { apply (f_equal (take (length p))) in Heq.
        rewrite take_app_length in Heq. rewrite take_app_le in Heq by lia. auto. }
      destruct p as [|hi [|lo rest]]; simpl; auto.
      unfold e, Udp.encodeDatagram, Udp.joinUint8Array, concatBytes in Hp.
      cbn [app length take] in Hp. injection Hp as -> -> Hrest.
      pose proof (datagramLen_encode (Z.of_nat (length d)) ltac:(lia)) as Hdl.
      rewrite bor_bytes in Hdl by apply u8_range. rewrite Hdl.
      cbn [length] in Hgt. rewrite Hlen in Hgt. lia.
Qed.

Lemma incomplete_encodeAll (ds : list (list byte)) :
  Forall small ds -> incomplete (encodeAll ds) -> ds = [].
Proof.
  destruct ds as [|d ds]; auto. intros Hsm Hinc. exfalso.
  inversion Hsm as [|? ? Hd Hds]; subst. unfold small in Hd.
  rewrite encodeAll_cons in Hinc. cbn [incomplete] in Hinc.
  pose proof (datagramLen_encode (Z.of_nat (length d)) ltac:(lia)) as Hdl.
  rewrite bor_bytes in Hdl by apply u8_range. rewrite Hdl in Hinc.
  rewrite length_app in Hinc. lia.
Qed.

Lemma length_encodeAll (ds : list (list byte)) :
  (2 * length ds <= length (encodeAll ds))%nat.
Proof.
  induction ds as [|d ds IH]; [simpl; lia|].
  rewrite encodeAll_cons. cbn [length]. rewrite length_app. lia.
Qed.

Lemma write_frames (leftoverData chunk : list byte) (ds : list (list byte)) (r : list byte) :
  Forall small ds -> incomplete r ->
  leftoverData ++ chunk = encodeAll ds ++ r ->
  Udp.write leftoverData chunk = (ds, r).
Proof.
  intros Hsm Hinc Heq. unfold Udp.write, Udp.joinUint8Array, concatBytes.
  assert (Hgo : forall arr, arr = encodeAll ds ++ r ->
                 Udp.unpack (length arr) arr 0 [] = (ds, r)).
  { intros arr ->. destruct ds as [|d ds].
    - destruct r as [|x r]; [reflexivity|].
      apply (unpack_frames [] [] (x :: r)); auto. simpl. lia.
    - apply (unpack_frames (d :: ds) [] r); auto.
      pose proof (length_encodeAll (d :: ds)) as Hl.
      rewrite length_app. cbn [length] in *. lia. }
  destruct leftoverData as [|x l].
  - simpl in Heq. simpl. apply Hgo. auto.
  - cbn [length]. replace (0 <? S (length l))%nat with true by (symmetry; apply Nat.ltb_lt; lia).
    apply Hgo. auto.
Qed.

Lemma writeAll_frames (chunks : list (list byte)) :
  forall (leftoverData : list byte) (ds : list (list byte)),
    Forall small ds -> incomplete leftoverData ->
    leftoverData ++ concat chunks = encodeAll ds ->
    Udp.writeAll leftoverData chunks = (ds, []).
Proof.
  induction chunks as [|chunk rest IH]; intros leftoverData ds Hsm Hinc Heq.
  - simpl in *. rewrite app_nil_r in Heq. subst leftoverData.
    apply incomplete_encodeAll in Hinc; auto. subst ds. reflexivity.
  - cbn [concat] in Heq. rewrite app_assoc in Heq.
    destruct (prefix_frames ds _ _ Hsm (eq_sym Heq)) as (ds1 & ds2 & r & -> & Hp & Hr & Hq).
    apply Forall_app in Hsm as [Hs1 Hs2].
    cbn [Udp.writeAll]. rewrite (write_frames _ _ ds1 r); auto.
    rewrite (IH r ds2); auto.
Qed.

(** C6: for datagrams shorter than 65536 bytes, each framed by
    [makeReadableUDPStream] with its two-byte big-endian length, the
    [write] handler of [makeWritableUDPStream], fed the concatenated frames
    cut into chunks in any way, sends exactly the original datagrams, in
    order, and ends with no leftover bytes. *)
Theorem udp_framing_round_trip (datagrams chunks : list (list byte)) :
  Forall (fun d => Z.of_nat (length d) < 65536) datagrams ->
  concat chunks = encodeAll datagrams ->
  Udp.writeAll [] chunks = (datagrams, []).
Proof.
  intros Hsm Heq. apply writeAll_frames; auto. exact I.
Qed.

(** The round trip on three datagrams cut into four chunks. *)
Lemma udp_framing_round_trip_witness :
  Udp.writeAll [] [bytes [0; 3; 65]; []; bytes [66; 67; 0]; bytes [0; 0; 1; 68]]
  = ([bytes [65; 66; 67]; []; bytes [68]], []).
Proof.
  apply udp_framing_round_trip.
  - repeat constructor.
  - reflexivity.
Defined.

(* ================================================================== *)
(** * utils/proxyResolver.js: the rotation *)
(* ================================================================== *)

Section RotationProofs.
Import ProxyResolver Rotation.

Lemma visit_lt st (l : list entry) i : l <> [] -> (visit st l i < length l)%nat.
Proof.
  intros H. unfold visit. apply Nat.mod_upper_bound. destruct l; [congruence|simpl; lia].
Qed.

Lemma visit_inj st (l : list entry) (i j : nat) :
  (i < length l)%nat -> (j < length l)%nat -> visit st l i = visit st l j -> i = j.
Proof.
  unfold visit. intros Hi Hj H. set (n := length l) in *. set (s := cachedProxyIndex st) in *.
  assert (Hn : n <> 0%nat) by lia.
  pose proof (Nat.div_mod (s + i) n Hn) as H1. pose proof (Nat.div_mod (s + j) n Hn) as H2.
  rewrite H in H1. set (q1 := ((s + i) / n)%nat) in *. set (q2 := ((s + j) / n)%nat) in *.
  set (r := ((s + j) mod n)%nat) in *.
  assert (q1 = q2) by nia. subst q1. lia.
Qed.

Lemma visit_NoDup st (l : list entry) (k : nat) :
  (k <= length l)%nat -> NoDup (map (visit st l) (seq 0 k)).
Proof.
  intros Hk. apply NoDup_fmap_2_strong; [|apply NoDup_seq].
  intros i j Hi Hj. apply list_elem_of_In, in_seq in Hi. apply list_elem_of_In, in_seq in Hj.
  apply visit_inj; lia.
Qed.

Lemma rotate_spec (connect : nat -> entry -> attempt) (st : cache)
    (proxyAddresses : list entry) (initialData : list byte) (remaining : nat) :
  forall i : nat,
    (i + remaining = length proxyAddresses)%nat ->
    exists r st' effects k,
      rotate connect proxyAddresses initialData (cachedProxyIndex st) remaining i st
        = Return (r, st', effects)
      /\ (k <= remaining)%nat
      /\ connects effects = map (visit st proxyAddresses) (seq i k)
      /\ match r with
         | Some (socket, index) =>
             exists j address port,
               (i <= j < i + remaining)%nat /\ k = S (j - i) /\ index = visit st proxyAddresses j
               /\ proxyAddresses !! index = Some (address, port)
               /\ connect j (address, port) = Established
               /\ (forall l, (i <= l < j)%nat -> ~ established connect st proxyAddresses l)
               /\ socket = {| hostname := address; port := port; madeBy := j |}
               /\ st' = updateCachedProxyIndex st index
               /\ exists before,
                    effects = before ++ [Connect index address port; Write index initialData]
         | None =>
             k = remaining /\ st' = st
             /\ forall l, (i <= l < i + remaining)%nat -> ~ established connect st proxyAddresses l
         end.
Proof.
  induction remaining as [|remaining IH]; intros i Hlen.
  - exists None, st, [], 0%nat. cbn. repeat split; auto. intros l Hl. lia.
  - assert (Hne : proxyAddresses <> []) by (intros ->; simpl in Hlen; lia).
    pose proof (visit_lt st proxyAddresses i Hne) as Hlt.
    destruct (lookup_lt_is_Some_2 proxyAddresses _ Hlt) as [[address port] Hlk].
    assert (Hstep : rotate connect proxyAddresses initialData (cachedProxyIndex st)
                      (S remaining) i st
                    = match connect i (address, port) with
                      | ConnectThrows | OpenFails =>
                          '(r, st', effects) ← rotate connect proxyAddresses initialData
                                     (cachedProxyIndex st) remaining (S i) st;
                          Return (r, st', Connect (visit st proxyAddresses i) address port
                                          :: effects)
                      | WriteFails =>
                          '(r, st', effects) ← rotate connect proxyAddresses initialData
                                     (cachedProxyIndex st) remaining (S i) st;
                          Return (r, st', Connect (visit st proxyAddresses i) address port
                                          :: Write (visit st proxyAddresses i) initialData
                                          :: effects)
                      | Established =>
                          Return (Some ({| hostname := address; port := port; madeBy := i |},
                                        visit st proxyAddresses i),
                                  updateCachedProxyIndex st (visit st proxyAddresses i),
                                  [Connect (visit st proxyAddresses i) address port;
                                   Write (visit st proxyAddresses i) initialData])
                      end).
    { cbn [rotate]. fold (visit st proxyAddresses i). rewrite Hlk. reflexivity. }
    rewrite Hstep. clear Hstep.
    destruct (connect i (address, port)) eqn:Hc;
      [ | | |
        exists (Some ({| hostname := address; port := port; madeBy := i |},
                      visit st proxyAddresses i)),
               (updateCachedProxyIndex st (visit st proxyAddresses i)),
               [Connect (visit st proxyAddresses i) address port;
                Write (visit st proxyAddresses i) initialData], 1%nat;
        split; [reflexivity|]; split; [lia|]; split; [reflexivity|];
        exists i, address, port;
        replace (i - i)%nat with 0%nat by lia;
        repeat (split; [first [reflexivity | assumption | lia | intros l Hl; lia]|]);
        exists []; reflexivity ].
    all: destruct (IH (S i) ltac:(lia)) as (r & st' & effects & k & Hrun & Hk & Hconn & Hres);
      rewrite Hrun; cbn;
      assert (Hi : ~ established connect st proxyAddresses i)
        by (intros (e & He & Hce); rewrite Hlk in He; injection He as <-; congruence).
    all: match goal with
         | Hk' : (?k0 <= _)%nat |- context [Return (?r0, ?s0, ?eff)] =>
             exists r0, s0, eff, (S k0)
         end.
    all: split; [reflexivity|]; split; [lia|];
      split; [cbn [seq map]; rewrite <- Hconn; reflexivity|].
    all: destruct r as [[socket index]|];
      [ destruct Hres as (j & a & p & Hj & -> & Hidx & Ha & Hcj & Hprev & Hs & Hst & before & ->);
        exists j, a, p;
        split; [lia|]; split; [f_equal; lia|];
        repeat (split; [first [assumption
                              | intros l Hl; destruct (decide (l = i)) as [->|];
                                [assumption | apply Hprev; lia]]|])
      | destruct Hres as (-> & -> & Hall);
        repeat (split; [reflexivity|]);
        intros l Hl; destruct (decide (l = i)) as [->|]; [assumption | apply Hall; lia] ].
    + exists (Connect (visit st proxyAddresses i) address port :: before). reflexivity.
    + exists (Connect (visit st proxyAddresses i) address port :: before). reflexivity.
    + exists (Connect (visit st proxyAddresses i) address port
              :: Write (visit st proxyAddresses i) initialData :: before). reflexivity.
Qed.

(** The effects of a call are those of its iterations, one after the
    other. *)
Lemma rotate_trace (connect : nat -> entry -> attempt) (st : cache)
    (proxyAddresses : list entry) (initialData : list byte) (remaining : nat) :
  forall (i : nat) r st' effects,
    rotate connect proxyAddresses initialData (cachedProxyIndex st) remaining i st
      = Return (r, st', effects) ->
    effects = flat_map (iteration connect st proxyAddresses initialData)
                (seq i (length (connects effects))).
Proof.
  induction remaining as [|remaining IH]; intros i r st' effects; cbn [rotate].
  - intros [= <- <- <-]. reflexivity.
  - fold (visit st proxyAddresses i).
    destruct (proxyAddresses !! visit st proxyAddresses i) as [[address port]|] eqn:Hlk;
      [|discriminate].
    assert (Hit : iteration connect st proxyAddresses initialData i
                  = Connect (visit st proxyAddresses i) address port
                    :: match connect i (address, port) with
                       | WriteFails | Established =>
                           [Write (visit st proxyAddresses i) initialData]
                       | ConnectThrows | OpenFails => []
                       end).
    { unfold iteration. rewrite Hlk. reflexivity. }
    destruct (connect i (address, port)) eqn:Hc.
    4:{ intros [= <- <- <-]. cbn [connects flat_map app length seq]. rewrite Hit.
        reflexivity. }
    all: destruct (rotate connect proxyAddresses initialData (cachedProxyIndex st)
                     remaining (S i) st) as [[[r0 st0] effects0]|e] eqn:Hrun;
      [|discriminate].
    all: cbn; intros [= <- <- <-]; cbn [connects flat_map app length seq].
    all: rewrite Hit; cbn [app]; f_equal; try f_equal; exact (IH _ _ _ _ Hrun).
Qed.

(** C3 (as amended): [connectWithRotation] returns; it makes [k]
    connection attempts, [k] at most the number of candidates, at the
    indices (cursor + i) mod length for i = 0, 1, ... in that order, all
    distinct.  Its effects are, attempt by attempt, the call of [connect]
    followed by the write of the initial data when the socket has opened.
    When it returns a socket, that socket is the one of the first attempt
    that opens and accepts the initial data, the last two effects are that
    connect and the write of the initial data, and the cursor is that
    index; a candidate that opens and rejects the write has been sent the
    initial data and is passed over.  When every attempt fails it returns
    null, after one attempt per candidate, with the state unchanged. *)
Theorem connectWithRotation_visits_each_candidate_once
    (connect : nat -> entry -> attempt) (st : cache)
    (proxyAddresses : list entry) (initialData : list byte) :
  exists r st' effects k,
    connectWithRotation connect st proxyAddresses initialData = Return (r, st', effects)
    /\ (k <= length proxyAddresses)%nat
    /\ connects effects = map (visit st proxyAddresses) (seq 0 k)
    /\ NoDup (connects effects)
    /\ effects = flat_map (iteration connect st proxyAddresses initialData) (seq 0 k)
    /\ cachedProxyIP st' = cachedProxyIP st
    /\ cachedProxyAddresses st' = cachedProxyAddresses st
    /\ match r with
       | Some (socket, index) =>
           exists j address port,
             (j < length proxyAddresses)%nat /\ k = S j
             /\ index = visit st proxyAddresses j
             /\ proxyAddresses !! index = Some (address, port)
             /\ connect j (address, port) = Established
             /\ (forall l, (l < j)%nat -> ~ established connect st proxyAddresses l)
             /\ socket = {| hostname := address; port := port; madeBy := j |}
             /\ cachedProxyIndex st' = index
             /\ exists before,
                  effects = before ++ [Connect index address port; Write index initialData]
       | None =>
           k = length proxyAddresses /\ st' = st
           /\ forall l, (l < length proxyAddresses)%nat ->
                ~ established connect st proxyAddresses l
       end
    /\ ((forall l, (l < length proxyAddresses)%nat -> ~ established connect st proxyAddresses l)
        -> r = None /\ cachedProxyIndex st' = cachedProxyIndex st).
Proof.
  unfold connectWithRotation.
  destruct (rotate_spec connect st proxyAddresses initialData (length proxyAddresses) 0
              ltac:(lia)) as (r & st' & effects & k & Hrun & Hk & Hconn & Hres).
  exists r, st', effects, k.
  split; [exact Hrun|]. split; [exact Hk|]. split; [exact Hconn|].
  split; [rewrite Hconn; apply visit_NoDup; exact Hk|].
  split.
  { pose proof (rotate_trace _ _ _ _ _ _ _ _ _ Hrun) as Htrace.
    rewrite Hconn, length_map, length_seq in Htrace. exact Htrace. }
  destruct r as [[socket index]|].
  - destruct Hres as (j & a & p & Hj & -> & Hidx & Ha & Hc & Hprev & Hs & -> & before & ->).
    split; [reflexivity|]. split; [reflexivity|]. split.
    + exists j, a, p. replace (j - 0)%nat with j by lia.
      repeat (split; [first [reflexivity | assumption | lia | intros l Hl; apply Hprev; lia]|]).
      exists before. reflexivity.
    + intros Hall. exfalso. apply (Hall j); [lia|]. exists (a, p). rewrite <- Hidx. auto.
  - destruct Hres as (-> & -> & Hall).
    split; [reflexivity|]. split; [reflexivity|].
    split; [|intros _; split; reflexivity].
    split; [reflexivity|]. split; [reflexivity|]. intros l Hl. apply Hall. lia.
Qed.

(** C3 as stated fails: the first candidate connects and opens, is sent
    the initial data and rejects the write; the cursor is not set to it
    and its socket is not returned, the loop goes on to the second
    candidate. *)
Lemma rotation_first_connect_counterexample :
  connectWithRotation (fun (i : nat) (e : entry) => if e.2 =? 1 then WriteFails else Established)
    initialCache [(str "a", 1); (str "b", 2)] (bytes [7])
  = Return (Some ({| hostname := str "b"; port := 2; madeBy := 1 |}, 1%nat),
            updateCachedProxyIndex initialCache 1,
            [Connect 0 (str "a") 1; Write 0 (bytes [7]);
             Connect 1 (str "b") 2; Write 1 (bytes [7])]).
Proof. reflexivity. Qed.
Example rotation_wraps_and_sticks :
  let pool := [(str "a", 1); (str "b", 2); (str "c", 3)] in
  let st := updateCachedProxyIndex initialCache 2 in
  let connect := fun (i : nat) (e : entry) => if (e.2 =? 2) then Established else OpenFails in
  connectWithRotation connect st pool (bytes [7])
  = Return (Some ({| hostname := str "b"; port := 2; madeBy := 2 |}, 1%nat),
            updateCachedProxyIndex st 1,
            [Connect 2 (str "c") 3; Connect 0 (str "a") 1; Connect 1 (str "b") 2;
             Write 1 (bytes [7])]).
Proof. reflexivity. Qed.

End RotationProofs.

(* ================================================================== *)
(** * proxy/stream.js and proxy/tcp.js: the relay and its retry *)
(* ================================================================== *)

Section RelayProofs.
Import Trace Stream Tcp.

Lemma pipeTo_spec (chunks : list (list byte * Z)) :
  forall (header : option (list byte)) (seen : bool),
    exists threw,
      pipeTo chunks header seen
      = (map WsSend (withHeader header (forwarded chunks)),
         seen || negb (bool_decide (forwarded chunks = [])), threw).
Proof.
  induction chunks as [|[chunk readyState] rest IH]; intros header seen.
  - exists false. cbn. rewrite orb_false_r. destruct header; reflexivity.
  - cbn [pipeTo forwarded]. destruct (readyState =? WS_READY_STATE_OPEN) eqn:E; cbn [negb].
    + destruct header as [h|].
      * destruct (IH None true) as [threw ->]. exists threw. cbn. rewrite orb_true_r. reflexivity.
      * destruct (IH None true) as [threw ->]. exists threw. cbn. rewrite orb_true_r. reflexivity.
    + exists true. cbn. rewrite orb_false_r. destruct header; reflexivity.
Qed.

Lemma remoteSocketToWS_spec (sock : remote) (header : option (list byte))
    (retry : option (list event)) :
  exists closing,
    (closing = [] \/ closing = [WsClose])
    /\ remoteSocketToWS sock header retry
       = Relay (bool_decide (retry <> None))
         :: map WsSend (withHeader header (forwarded (chunks sock)))
         ++ closing
         ++ (if bool_decide (forwarded (chunks sock) = []) then invoked retry else []).
Proof.
  unfold remoteSocketToWS.
  destruct (pipeTo_spec (chunks sock) header false) as [threw ->]. cbn [orb].
  exists (if threw || match ends sock with Errored => true | Closed => false end
          then [WsClose] else []).
  split; [destruct (threw || _); auto|].
  destruct (bool_decide (forwarded (chunks sock) = [])); cbn [negb];
    destruct retry; reflexivity.
Qed.

Lemma frames_app a b : frames (a ++ b) = frames a ++ frames b.
Proof. unfold frames. apply flat_map_app. Qed.

Lemma frames_sends l : frames (map WsSend l) = l.
Proof. induction l as [|a l IH]; [reflexivity|]. cbn. f_equal. exact IH. Qed.

Lemma retries_app a b : retries (a ++ b) = (retries a + retries b)%nat.
Proof. unfold retries. rewrite List.filter_app, length_app. reflexivity. Qed.

Lemma retries_sends l : retries (map WsSend l) = 0%nat.
Proof. induction l; cbn; auto. Qed.

Lemma relaysWithRetry_app a b :
  relaysWithRetry (a ++ b) = (relaysWithRetry a + relaysWithRetry b)%nat.
Proof. unfold relaysWithRetry. rewrite List.filter_app, length_app. reflexivity. Qed.

Lemma relaysWithRetry_sends l : relaysWithRetry (map WsSend l) = 0%nat.
Proof. induction l; cbn; auto. Qed.

(** A relay without a retry function never retries. *)
Lemma relay_null_retry (sock : remote) (header : option (list byte)) :
  retries (remoteSocketToWS sock header None) = 0%nat
  /\ relaysWithRetry (remoteSocketToWS sock header None) = 0%nat.
Proof.
  destruct (remoteSocketToWS_spec sock header None) as (closing & Hc & ->).
  change (?x :: ?l) with ([x] ++ l).
  rewrite !retries_app, !relaysWithRetry_app, retries_sends, relaysWithRetry_sends.
  destruct (bool_decide (forwarded _ = [])); destruct Hc as [-> | ->]; split; reflexivity.
Qed.

Lemma retry_once (cfg : config) (net : network) (header : option (list byte)) :
  exists rest,
    retry cfg net header = Retry :: rest
    /\ retries rest = 0%nat /\ relaysWithRetry rest = 0%nat.
Proof.
  unfold retry. eexists. split; [reflexivity|].
  destruct (if globalMode cfg then _ else _) as [sock|]; [|split; reflexivity].
  destruct (relay_null_retry sock header) as [H1 H2].
  change (?x :: ?l) with ([x] ++ l).
  rewrite retries_app, relaysWithRetry_app, H1, H2. split; reflexivity.
Qed.

(** In every run of [handleTCPOutBound] the retry function is called at
    most once and at most one relay is started with a retry function.  [remoteSocketToWS] calls its retry function exactly when one
    was supplied and no chunk was forwarded to the WebSocket, and then as
    its last step; [retry] relays the connection it makes with a null
    retry, so nothing it does calls a retry again. *)
Theorem retry_invoked_at_most_once
    (cfg : config) (net : network) (header : option (list byte)) :
  (retries (handleTCPOutBound cfg net header) <= 1)%nat
  /\ (relaysWithRetry (handleTCPOutBound cfg net header) <= 1)%nat
  /\ (forall (sock : remote) (h : option (list byte)) (r : option (list event)),
        exists closing,
          (closing = [] \/ closing = [WsClose])
          /\ remoteSocketToWS sock h r
             = Relay (bool_decide (r <> None))
               :: map WsSend (withHeader h (forwarded (chunks sock)))
               ++ closing
               ++ (if bool_decide (forwarded (chunks sock) = []) then invoked r else []))
  /\ (forall sock h r, chunks sock = [] ->
        exists body, remoteSocketToWS sock h (Some r) = body ++ r)
  /\ (exists rest,
        retry cfg net header = Retry :: rest
        /\ retries rest = 0%nat /\ relaysWithRetry rest = 0%nat).
Proof.
  split; [|split; [|split; [|split]]].
  - unfold handleTCPOutBound.
    destruct (retry_once cfg net header) as (rest & Hr & H1 & H2).
    destruct (globalMode cfg).
    + destruct (viaProxy net) as [sock|]; [|cbn; lia].
      change (?x :: ?l) with ([x] ++ l). rewrite retries_app.
      rewrite (proj1 (relay_null_retry sock header)). cbn. lia.
    + destruct (direct net) as [sock|].
      * destruct (remoteSocketToWS_spec sock header (Some (retry cfg net header)))
          as (closing & Hc & ->).
        change (?x :: ?l) with ([x] ++ l).
        rewrite !retries_app, retries_sends. cbn [invoked].
        destruct (bool_decide (forwarded _ = [])); destruct Hc as [-> | ->]; rewrite ?Hr; cbn;
          change (retries rest) with (retries rest) in *;
          try (unfold retries in H1 |- *; cbn; rewrite ?H1); lia.
      * rewrite Hr. unfold retries in *. cbn. rewrite H1. lia.
  - unfold handleTCPOutBound.
    destruct (retry_once cfg net header) as (rest & Hr & H1 & H2).
    destruct (globalMode cfg).
    + destruct (viaProxy net) as [sock|]; [|cbn; lia].
      change (?x :: ?l) with ([x] ++ l). rewrite relaysWithRetry_app.
      rewrite (proj2 (relay_null_retry sock header)). cbn. lia.
    + destruct (direct net) as [sock|].
      * destruct (remoteSocketToWS_spec sock header (Some (retry cfg net header)))
          as (closing & Hc & ->).
        change (?x :: ?l) with ([x] ++ l).
        rewrite !relaysWithRetry_app, relaysWithRetry_sends. cbn [invoked].
        destruct (bool_decide (forwarded _ = [])); destruct Hc as [-> | ->]; rewrite ?Hr;
          unfold relaysWithRetry in *; cbn; rewrite ?H2; lia.
      * rewrite Hr. unfold relaysWithRetry in *. cbn. rewrite H2. lia.
  - intros sock h r. apply remoteSocketToWS_spec.
  - intros sock h r Hnil.
    destruct (remoteSocketToWS_spec sock h (Some r)) as (closing & _ & ->).
    rewrite Hnil. cbn [forwarded].
    rewrite (bool_decide_eq_true_2 (@nil (list byte) = [])) by reflexivity.
    cbn [invoked]. exists (Relay true :: map WsSend (withHeader h []) ++ closing).
    cbn. rewrite <- app_assoc. reflexivity.
  - apply retry_once.
Qed.

(** ** The response header *)

Lemma getUint8_0 (buf : list byte) (z : Z) :
  getUint8 buf (Int 0) = Return z -> exists v, buf !! 0%nat = Some v /\ z = u8 v.
Proof.
  unfold getUint8, toInteger. change (0 <? 0) with false. cbv iota.
  change (Z.to_nat 0) with 0%nat.
  destruct (buf !! 0%nat) as [v|]; [|discriminate].
  intros H. injection H as <-. eauto.
Qed.

Lemma vless_protocolVersion (buf : list byte) (userID : jsstring) (h : header) :
  Vless.processProtocolHeader buf userID = Return (Success h) ->
  exists v, buf !! 0%nat = Some v /\ protocolVersion h = Some [v].
Proof.
  unfold Vless.processProtocolHeader. intros H.
  destruct (Z.of_nat (length buf) <? 24); [discriminate|].
  destruct (getUint8 buf (Int 0)) as [version|] eqn:Hv; [|discriminate].
  apply getUint8_0 in Hv as (v & Hv & ->). exists v. split; [exact Hv|].
  bind_inv H.
  all: injection H as <-; cbn; rewrite toUint8_u8; reflexivity.
Qed.

Import WebSocket.

Lemma responseHeader_detect (cfg : WebSocket.config) (chunk : list byte)
    (protocolType : protocol) (parsed : completion result) (h : header) :
  detect cfg chunk = (protocolType, parsed) -> parsed = Return (Success h) ->
  responseHeader protocolType h = expectedHeader cfg chunk.
Proof.
  unfold detect, expectedHeader.
  destruct (Trojan.isTrojanProtocol chunk (trojanPassword cfg)).
  - intros [= <- <-] _. reflexivity.
  - intros [= <- <-] Hp. apply vless_protocolVersion in Hp as (v & Hv & Hpv).
    unfold responseHeader. rewrite Hpv. cbn.
    destruct chunk as [|b chunk]; [discriminate|]. cbn in Hv. injection Hv as ->. reflexivity.
Qed.

Lemma write_tcp_header (cfg : WebSocket.config) (stored : bool) (chunk : list byte) :
  match write cfg stored initialSession chunk with
  | Return (_, calls) =>
      Forall (fun c => match c with
                       | HandleTCPOutBound _ _ _ _ protocolResponseHeader
                       | HandleUDPOutbound protocolResponseHeader _ _ _ _ =>
                           protocolResponseHeader = expectedHeader cfg chunk
                       | _ => True
                       end) calls
  | Throw _ => True
  end.
Proof.
  unfold write. cbn [isDns remoteSocketWrapper initialSession].
  destruct (detect cfg chunk) as [protocolType parsed] eqn:Hd.
  destruct parsed as [[message|h]|e] eqn:Hp; cbn; auto.
  pose proof (responseHeader_detect cfg chunk protocolType _ h Hd eq_refl) as Hh.
  destruct (isUDP h).
  - destruct (canHandleUDP cfg); [repeat constructor; exact Hh|].
    destruct (portRemote h =? 53); [constructor | exact I].
  - repeat constructor. exact Hh.
Qed.

Lemma relay_frames (sock : remote) (header : option (list byte)) (r : option (list event)) :
  frames (remoteSocketToWS sock header r)
  = withHeader header (forwarded (chunks sock))
    ++ (if bool_decide (forwarded (chunks sock) = []) then frames (invoked r) else []).
Proof.
  destruct (remoteSocketToWS_spec sock header r) as (closing & Hc & ->).
  change (?x :: ?l) with ([x] ++ l). rewrite !frames_app, frames_sends.
  destruct Hc as [-> | ->]; destruct (bool_decide (forwarded _ = [])); reflexivity.
Qed.

Lemma withHeader_nil h : withHeader h [] = [].
Proof. destruct h; reflexivity. Qed.

Lemma retry_frames (cfg : Tcp.config) (net : network) (header : option (list byte)) :
  exists cs,
    frames (retry cfg net header) = withHeader header cs
    /\ (cs = [] \/
        exists sock, In (Some sock) [viaProxy net; viaRotation net; directAgain net]
                     /\ cs = forwarded (chunks sock)).
Proof.
  unfold retry.
  destruct (if globalMode cfg then _ else _) as [sock|] eqn:E.
  - exists (forwarded (chunks sock)). split.
    + change (frames (remoteSocketToWS sock header None)
              = withHeader header (forwarded (chunks sock))).
      rewrite relay_frames. cbn [invoked frames flat_map].
      destruct (bool_decide _); apply app_nil_r.
    + right. exists sock. split; [|reflexivity].
      destruct (globalMode cfg); [rewrite <- E; cbn; auto|].
      destruct (truthy (proxyIP cfg)); [|rewrite <- E; cbn; auto].
      unfold connectWithProxyRotation in E.
      destruct (viaRotation net) eqn:Er; [rewrite <- E; cbn; auto|].
      destruct (enableProxyFallback cfg); [rewrite <- E; cbn; auto | discriminate].
  - exists []. split; [rewrite withHeader_nil; reflexivity | auto].
Qed.

(** A connection that fails before any chunk hands over to the retry function. *)
Lemma retry_invoked_at_most_once_witness :
  exists body,
    Stream.remoteSocketToWS {| Stream.chunks := []; Stream.ends := Stream.Errored |}
      (Some [x00; x00]) (Some [Retry; ConnectFailed])
    = body ++ [Retry; ConnectFailed].
Proof.
  apply (proj1 (proj2 (proj2 (proj2
           (retry_invoked_at_most_once
              {| Tcp.globalProxy := false; Tcp.proxyType := None; Tcp.hasProxyConfig := false;
                 Tcp.proxyIP := None; Tcp.enableProxyFallback := true |}
              {| Tcp.direct := None; Tcp.viaProxy := None; Tcp.viaRotation := None;
                 Tcp.directAgain := None |}
              None))))).
  reflexivity.
Defined.

(** C4, the code where it departs from the claim.  In standard mode the
    direct connection delivers the chunk 1 2 3 when the WebSocket is
    already closed (readyState 3): the [write] handler throws before
    [hasIncomingData] is set, so the relay calls the retry function
    although the outbound side did send bytes, and the retry function
    makes a second connection.  The same chunk arriving while the
    WebSocket is open is forwarded, and the retry function is not
    called. *)
Theorem retry_called_after_observed_chunk :
  Stream.remoteSocketToWS
    {| Stream.chunks := [(bytes [1; 2; 3], 3)]; Stream.ends := Stream.Closed |}
    None (Some [Retry])
  = [Relay true; WsClose; Retry]
  /\ handleTCPOutBound standardMode
       {| direct := Some {| chunks := [(bytes [1; 2; 3], 3)]; ends := Closed |};
          viaProxy := None; viaRotation := None;
          directAgain := Some {| chunks := [(bytes [4; 5], 3)]; ends := Closed |} |}
       (Some [x00; x00])
     = [Relay true; WsClose; Retry; CloseWithSocket; Relay false; WsClose]
  /\ retries
       (handleTCPOutBound standardMode
          {| direct := Some {| chunks := [(bytes [1; 2; 3], 3)]; ends := Closed |};
             viaProxy := None; viaRotation := None;
             directAgain := Some {| chunks := [(bytes [4; 5], 3)]; ends := Closed |} |}
          (Some [x00; x00]))
     = 1%nat
  /\ handleTCPOutBound standardMode
       {| direct := Some {| chunks := [(bytes [1; 2; 3], WS_READY_STATE_OPEN)];
                            ends := Closed |};
          viaProxy := None; viaRotation := None;
          directAgain := Some {| chunks := [(bytes [4; 5], 3)]; ends := Closed |} |}
       (Some [x00; x00])
     = [Relay true; WsSend (bytes [0; 0; 1; 2; 3])].
Proof.
  split; [vm_compute; reflexivity|].
  split; [vm_compute; reflexivity|].
  split; vm_compute; reflexivity.
Qed.

(** ** The frames of a run *)

Lemma relay_frames_null (sock : remote) (header : option (list byte)) :
  frames (remoteSocketToWS sock header None) = withHeader header (forwarded (chunks sock)).
Proof.
  rewrite relay_frames. cbn [invoked frames flat_map].
  destruct (bool_decide _); apply app_nil_r.
Qed.

Lemma retry_delivers (cfg : Tcp.config) (net : network) (header : option (list byte)) :
  globalMode cfg = false ->
  frames (retry cfg net header)
  = withHeader header
      (forwardedBy (if truthy (proxyIP cfg)
                    then match viaRotation net with
                         | Some s => Some s
                         | None => if enableProxyFallback cfg then directAgain net else None
                         end
                    else directAgain net)).
Proof.
  intros Hg. unfold retry, connectWithProxyRotation. rewrite Hg.
  destruct (if truthy (proxyIP cfg) then _ else _) as [sock|]; cbn [forwardedBy].
  - change (frames (remoteSocketToWS sock header None)
            = withHeader header (forwarded (chunks sock))).
    apply relay_frames_null.
  - rewrite withHeader_nil. reflexivity.
Qed.

Lemma handleTCPOutBound_delivers (cfg : Tcp.config) (net : network)
    (header : option (list byte)) :
  frames (handleTCPOutBound cfg net header) = withHeader header (delivered cfg net).
Proof.
  unfold handleTCPOutBound, delivered.
  destruct (globalMode cfg) eqn:Hg.
  - destruct (viaProxy net) as [sock|]; cbn [forwardedBy].
    + change (frames (remoteSocketToWS sock header None)
              = withHeader header (forwarded (chunks sock))).
      apply relay_frames_null.
    + rewrite withHeader_nil. reflexivity.
  - destruct (direct net) as [sock|]; cbn [forwardedBy].
    + rewrite relay_frames. cbn [invoked].
      destruct (forwarded (chunks sock)) as [|c cs] eqn:Hf.
      * rewrite (bool_decide_eq_true_2 _ eq_refl), withHeader_nil. cbn [app].
        apply retry_delivers. exact Hg.
      * rewrite bool_decide_eq_false_2 by discriminate. apply app_nil_r.
    + apply retry_delivers. exact Hg.
Qed.

End RelayProofs.

(* ================================================================== *)
(** * utils/proxyResolver.js: the pool; handlers/websocket.js: the DNS fallback *)
(* ================================================================== *)

Section PoolProofs.
Import ProxyResolver Pool.

Lemma slice_0_8_length {A} (l : list A) : (length (slice l (Int 0) (Int 8)) <= 8)%nat.
Proof.
  unfold slice, relativeIndex, toInteger. cbn [Z.ltb Z.compare].
  rewrite length_take. lia.
Qed.

Lemma resolve_bounded dohQuery localeCompare arraySort st proxyIP targetDomain userID :
  poolBounded st ->
  let '(pool, st') :=
    resolveProxyAddresses dohQuery localeCompare arraySort st proxyIP targetDomain userID in
  (length pool <= 8)%nat /\ poolBounded st' /\ cachedProxyAddresses st' = Some pool.
Proof.
  intros Hinv. unfold resolveProxyAddresses.
  destruct (cacheHit st proxyIP) as [addresses|] eqn:Hhit.
  - unfold cacheHit in Hhit. unfold poolBounded in Hinv.
    destruct (cachedProxyIP st) as [[|c ip]|]; try discriminate.
    destruct (cachedProxyAddresses st) as [l|] eqn:El; try discriminate.
    destruct (eqb (c :: ip) proxyIP); try discriminate. injection Hhit as <-.
    unfold poolBounded. rewrite El. auto.
  - unfold poolBounded. cbn [cachedProxyAddresses].
    split; [apply slice_0_8_length|]. split; [apply slice_0_8_length|reflexivity].
Qed.

Lemma rotate_keeps_pool connect st proxyAddresses initialData r st' effects :
  connectWithRotation connect st proxyAddresses initialData = Return (r, st', effects) ->
  cachedProxyAddresses st' = cachedProxyAddresses st.
Proof.
  unfold connectWithRotation.
  generalize 0%nat as i. generalize (cachedProxyIndex st) as start.
  revert r st' effects.
  induction (length proxyAddresses) as [|n IH]; intros r st' effects start i H.
  - injection H as <- <- <-. reflexivity.
  - cbn [rotate] in H.
    destruct (proxyAddresses !! _) as [[address port]|]; [|discriminate].
    destruct (connect i (address, port));
      try (destruct (rotate connect proxyAddresses initialData start n (S i) st)
             as [[[r0 st0] e0]|] eqn:E; [|discriminate];
           cbn in H; injection H as <- <- <-; eapply IH; exact E).
    injection H as <- <- <-. reflexivity.
Qed.

Lemma run_bounded localeCompare arraySort (ops : list operation) :
  forall st, poolBounded st ->
    let '(pools, st') := run localeCompare arraySort st ops in
    Forall (fun pool => (length pool <= 8)%nat) pools /\ poolBounded st'.
Proof.
  induction ops as [|op ops IH]; intros st Hinv; [cbn; auto|].
  destruct op as [dohQuery proxyIP targetDomain userID| |index|connect proxyAddresses initialData];
    cbn [run].
  - pose proof (resolve_bounded dohQuery localeCompare arraySort st proxyIP targetDomain userID
                  Hinv) as Hres.
    destruct (resolveProxyAddresses _ _ _ _ _ _ _) as [pool st1].
    destruct Hres as (Hlen & Hinv1 & _).
    specialize (IH st1 Hinv1). destruct (run _ _ st1 ops) as [pools st2].
    destruct IH. split; [constructor|]; auto.
  - apply IH. exact I.
  - apply IH. exact Hinv.
  - destruct (connectWithRotation connect st proxyAddresses initialData)
      as [[[r st1] effects]|] eqn:E; [|apply IH; exact Hinv].
    apply IH. unfold poolBounded. rewrite (rotate_keeps_pool _ _ _ _ _ _ _ E). exact Hinv.
Qed.

(** C9: in every state reached from the initial one by resolving,
    resetting, updating the index and rotating, [resolveProxyAddresses]
    returns at most 8 entries, for every spec string, target and user ID,
    and the pool it caches is the pool it returns; every pool handed out on
    the way has at most 8 entries too. *)
Theorem resolved_pool_has_at_most_8_entries
    (localeCompare : jsstring -> jsstring -> Z)
    (arraySort : forall S : Type, (S -> entry -> entry -> Z * S) -> S -> list entry -> list entry)
    (ops : list operation)
    (dohQuery : jsstring -> jsstring -> list answer) (proxyIP targetDomain userID : jsstring) :
  let '(pools, st) := run localeCompare arraySort initialCache ops in
  let '(pool, st') :=
    resolveProxyAddresses dohQuery localeCompare arraySort st proxyIP targetDomain userID in
  Forall (fun p => (length p <= 8)%nat) pools
  /\ (length pool <= 8)%nat
  /\ cachedProxyAddresses st' = Some pool.
Proof.
  pose proof (run_bounded localeCompare arraySort ops initialCache I) as Hrun.
  destruct (run localeCompare arraySort initialCache ops) as [pools st].
  destruct Hrun as [Hpools Hinv].
  pose proof (resolve_bounded dohQuery localeCompare arraySort st proxyIP targetDomain userID
                Hinv) as Hres.
  destruct (resolveProxyAddresses _ _ _ _ _ _ _) as [pool st'].
  destruct Hres as (Hlen & _ & Hc). auto.
Qed.

(** C7, the code at a UDP request to port 53 without a UDP-capable
    outbound: the header parses, the handler sets [isDns] and returns
    without any call, so the payload after the header is not forwarded;
    the next chunk goes to [handleDNSQuery] with a null response header,
    and the resolver's answer is sent to the WebSocket as it is. *)
Theorem dns_fallback_drops_payload_and_header :
  Vless.processProtocolHeader (dnsFirstChunk (bytes [0; 2; 7; 7])) defaultUserID
  = Return (Success {| addressRemote := str "8.8.8.8"; addressType := 1; portRemote := 53;
                       rawDataIndex := Int 26; protocolVersion := Some [x00];
                       isUDP := true |})
  /\ WebSocket.write dnsConfig false WebSocket.initialSession (dnsFirstChunk (bytes [0; 2; 7; 7]))
     = Return ({| WebSocket.isDns := true; WebSocket.remoteSocketWrapper := false |}, [])
  /\ (forall next : list byte,
        WebSocket.writeAll dnsConfig false WebSocket.initialSession
          [dnsFirstChunk (bytes [0; 2; 7; 7]); next]
        = [WebSocket.HandleDNSQuery next None])
  /\ (forall next answer : list byte,
        Dns.handleDNSQuery {| Dns.reachable := true;
                              Dns.answers := [(answer, WS_READY_STATE_OPEN)] |} next None
        = [Dns.Connect (str "8.8.4.4") 53; Dns.Write next; Dns.Send answer]).
Proof.
  split; [vm_compute; reflexivity|].
  assert (H : WebSocket.write dnsConfig false WebSocket.initialSession
                (dnsFirstChunk (bytes [0; 2; 7; 7]))
              = Return ({| WebSocket.isDns := true; WebSocket.remoteSocketWrapper := false |}, []))
    by (vm_compute; reflexivity).
  split; [exact H|]. split.
  - intros next. cbn [WebSocket.writeAll]. rewrite H. reflexivity.
  - intros next answer. reflexivity.
Qed.

End PoolProofs.

(* ================================================================== *)
(** * protocol/trojan.js: detection *)
(* ================================================================== *)

(** ** The UTF-8 decoder on ASCII *)

Lemma utf8Decode_ascii (bs : list byte) :
  Forall (fun b => u8 b < 128) bs -> utf8Decode Idle bs = map u8 bs.
Proof.
  induction 1 as [|b bs Hb _ IH]; [reflexivity|].
  cbn [utf8Decode map]. unfold utf8Lead.
  rewrite (proj2 (Z.leb_le _ _)) by lia. cbn. f_equal. exact IH.
Qed.

Lemma utf16Units_ascii (cps : list Z) :
  Forall (fun c => c < 128) cps -> flat_map utf16Units cps = cps.
Proof.
  induction 1 as [|c cps Hc _ IH]; [reflexivity|].
  cbn [flat_map]. unfold utf16Units at 1.
  rewrite (proj2 (Z.ltb_lt _ _)) by lia. cbn. f_equal. exact IH.
Qed.

(** Decoding ASCII bytes gives the same code units. *)
Lemma textDecode_ascii (bs : list byte) :
  Forall (fun b => u8 b < 128) bs -> textDecode bs = map u8 bs.
Proof.
  intros H. unfold textDecode. rewrite utf8Decode_ascii by exact H.
  assert (Hs : stripBOM (map u8 bs) = map u8 bs).
  { destruct bs as [|b bs]; [reflexivity|]. cbn [map stripBOM].
    inversion H as [|? ? Hb _]; subst.
    destruct (u8 b) as [|p|p] eqn:E; try reflexivity.
    destruct (decide (p = 65279%positive)) as [->|Hne]; [lia|].
    repeat (destruct p as [p|p|]; try reflexivity). congruence. }
  rewrite Hs. apply utf16Units_ascii.
  apply Forall_fmap. exact H.
Qed.

Lemma land_63 (b : Z) : 128 <= b <= 191 -> Z.land b 63 = b - 128.
Proof.
  intros H. change 63 with (Z.ones 6). rewrite Z.land_ones by lia.
  change (2 ^ 6) with 64.
  rewrite <- (Z.mod_unique_pos b 64 2 (b - 128)); lia.
Qed.

Lemma lor_shiftl_6 (cp x : Z) : 0 <= cp -> 0 <= x < 64 -> Z.lor (Z.shiftl cp 6) x = cp * 64 + x.
Proof.
  intros Hcp Hx. rewrite Z.shiftl_mul_pow2 by lia. change (2 ^ 6) with 64.
  symmetry. apply Z.add_nocarry_lor.
  rewrite <- (Z.mod_small x 64) by lia.
  change 64 with (2 ^ 6). rewrite <- Z.land_ones, <- Z.shiftl_mul_pow2 by lia.
  rewrite (Z.land_comm x), Z.land_assoc.
  replace (Z.land (Z.shiftl cp 6) (Z.ones 6)) with 0; [apply Z.land_0_l|].
  rewrite Z.land_ones, Z.shiftl_mul_pow2 by lia. symmetry. apply Z.mod_mul. lia.
Qed.

Lemma utf8Lead_cases (b : byte) :
  match utf8Lead (u8 b) with
  | (out, Idle) => (out = [u8 b] /\ u8 b < 128) \/ out = [65533]
  | (out, Pending cp needed lower upper) => out = [] /\ pendingOk cp needed lower upper
  end.
Proof.
  destruct b; vm_compute; first [left; split; [reflexivity|reflexivity]
                                | right; reflexivity
                                | repeat split; try discriminate; auto;
                                  first [left; discriminate
                                        | right; split; [discriminate|];
                                          first [left; discriminate | right; discriminate]]].
Qed.

Lemma utf8Decode_pending (bs : list byte) :
  forall cp needed lower upper,
    pendingOk cp needed lower upper ->
    ~ Forall (fun c => c < 128) (utf8Decode (Pending cp needed lower upper) bs).
Proof.
  induction bs as [|b bs IH]; intros cp needed lower upper (Hlo & Hhi & Hcp & Hn & Hinv) Hall.
  - cbn in Hall. inversion Hall; lia.
  - cbn [utf8Decode] in Hall. pose proof (u8_range b) as Hb.
    destruct ((lower <=? u8 b) && (u8 b <=? upper)) eqn:Hin.
    + apply andb_true_iff in Hin as [H1 H2]. apply Z.leb_le in H1, H2.
      rewrite land_63 in Hall by lia. rewrite lor_shiftl_6 in Hall by lia.
      destruct (needed =? 1) eqn:E.
      * apply Z.eqb_eq in E. inversion Hall as [|? ? H3 _]. clear - H3 Hinv E H1 Hlo. lia.
      * apply Z.eqb_neq in E. apply IH in Hall; [exact Hall|].
        unfold pendingOk. lia.
    + destruct (utf8Lead (u8 b)) as [out st']. inversion Hall; lia.
Qed.

(** An ASCII result comes from the same ASCII bytes. *)
Lemma utf8Decode_ascii_inv (bs : list byte) :
  Forall (fun c => c < 128) (utf8Decode Idle bs) -> utf8Decode Idle bs = map u8 bs.
Proof.
  induction bs as [|b bs IH]; [reflexivity|].
  cbn [utf8Decode map]. pose proof (utf8Lead_cases b) as Hlead.
  destruct (utf8Lead (u8 b)) as [out [|cp needed lower upper]].
  - destruct Hlead as [[-> Hb] | ->]; intros Hall.
    + cbn in *. f_equal. apply IH. inversion Hall; auto.
    + inversion Hall; lia.
  - destruct Hlead as [-> Hok]. cbn [app]. intros Hall.
    exfalso. exact (utf8Decode_pending bs _ _ _ _ Hok Hall).
Qed.

(** The decoder never yields more code units than it reads bytes. *)
Lemma utf8Decode_length (bs : list byte) :
  forall st,
    (length (flat_map utf16Units (utf8Decode st bs))
     <= length bs + match st with Idle => 0 | Pending _ _ _ _ => 1 end)%nat.
Proof.
  assert (Hlead : forall b,
             (length (flat_map utf16Units (utf8Lead (u8 b)).1)
              + match (utf8Lead (u8 b)).2 with Idle => 0 | Pending _ _ _ _ => 1 end <= 1)%nat).
  { intros b. destruct b; vm_compute; lia. }
  assert (Hunits : forall cp, cp < 65536 -> length (utf16Units cp) = 1%nat).
  { intros cp H. unfold utf16Units. rewrite (proj2 (Z.ltb_lt _ _)) by lia. reflexivity. }
  induction bs as [|b bs IH]; intros st.
  - destruct st; cbn; lia.
  - cbn [utf8Decode length]. destruct st as [|cp needed lower upper].
    + specialize (Hlead b). destruct (utf8Lead (u8 b)) as [out st'].
      rewrite flat_map_app, length_app. specialize (IH st'). cbn [fst snd] in Hlead. lia.
    + destruct ((lower <=? u8 b) && (u8 b <=? upper)).
      * destruct (needed =? 1).
        -- cbn [flat_map]. rewrite length_app. specialize (IH Idle). cbv beta iota in IH.
           assert (length (utf16Units (Z.lor (Z.shiftl cp 6) (Z.land (u8 b) 63))) <= 2)%nat
             by (unfold utf16Units; destruct (_ <? _); cbn; lia).
           lia.
        -- specialize (IH (Pending (Z.lor (Z.shiftl cp 6) (Z.land (u8 b) 63))
                                   (needed - 1) 128 191)). cbv beta iota in IH. lia.
      * specialize (Hlead b). destruct (utf8Lead (u8 b)) as [out st'].
        cbn [flat_map]. rewrite length_app, flat_map_app, length_app.
        rewrite (Hunits 65533) by lia. specialize (IH st'). cbn [fst snd] in Hlead. lia.
Qed.

Lemma utf16Units_ascii_inv (cps : list Z) :
  Forall (fun c => c < 128) (flat_map utf16Units cps) ->
  Forall (fun c => c < 128) cps /\ flat_map utf16Units cps = cps.
Proof.
  induction cps as [|c cps IH]; [split; [constructor|reflexivity]|].
  cbn [flat_map]. unfold utf16Units at 1 3.
  destruct (Z.ltb_spec c 65536) as [Hc|Hc]; cbn [app]; intros Hall.
  - inversion Hall as [|? ? Hc' Hrest]; subst. destruct (IH Hrest) as [H1 H2].
    split; [constructor; assumption|]. f_equal. exact H2.
  - exfalso. inversion Hall as [|? ? Hc' _]; subst.
    assert (0 <= (c - 65536) / 1024) by (apply Z.div_pos; lia). lia.
Qed.

Lemma stripBOM_cases (cps : list Z) :
  stripBOM cps = cps \/ cps = 65279 :: stripBOM cps.
Proof.
  destruct cps as [|c rest]; [left; reflexivity|].
  destruct (decide (c = 65279)) as [->|Hne]; [right; reflexivity|left].
  cbn. destruct c as [|p|p]; try reflexivity.
  repeat (destruct p as [p|p|]; try reflexivity). congruence.
Qed.

(** Bytes whose decoding is an ASCII string of the same length are that
    string. *)
Lemma textDecode_ascii_inv (bs : list byte) (s : jsstring) :
  Forall (fun c => c < 128) s -> length s = length bs ->
  textDecode bs = s -> map u8 bs = s.
Proof.
  intros Hs Hlen Hdec. unfold textDecode in Hdec.
  rewrite <- Hdec in Hs. apply utf16Units_ascii_inv in Hs as [Hcps Hunits].
  rewrite Hunits in Hdec.
  destruct (stripBOM_cases (utf8Decode Idle bs)) as [Heq|Hbom].
  - rewrite Heq in Hcps, Hdec. rewrite <- Hdec. symmetry. apply utf8Decode_ascii_inv.
    exact Hcps.
  - exfalso. pose proof (utf8Decode_length bs Idle) as Hle.
    rewrite Hbom in Hle. cbn [flat_map] in Hle. rewrite length_app, Hunits, Hdec in Hle.
    cbn in Hle. lia.
Qed.

(** ** The digest is 56 hexadecimal digits *)

Lemma band_15_range (x : Z) : 0 <= band x 15 < 16.
Proof.
  unfold band. change (toInt32 15) with 15. change 15 with (Z.ones 4).
  rewrite Z.land_ones by lia. change (2 ^ 4) with 16.
  pose proof (Z.mod_pos_bound (toInt32 x) 16). rewrite toInt32_small; lia.
Qed.

Lemma nibble_string (v : Z) :
  0 <= v < 16 -> exists c, toStringRadix 16 v = [c] /\ lowerHex c.
Proof.
  intros H.
  assert (Hv : In v [0; 1; 2; 3; 4; 5; 6; 7; 8; 9; 10; 11; 12; 13; 14; 15]) by (cbn; lia).
  cbn in Hv. repeat (destruct Hv as [<-|Hv]; [eexists; split; reflexivity|]). contradiction.
Qed.

Lemma hexWord_hex (x : Z) :
  length (Crypto.hexWord x) = 8%nat /\ Forall lowerHex (Crypto.hexWord x).
Proof.
  unfold Crypto.hexWord.
  repeat match goal with
         | |- context [toStringRadix 16 (band ?y 15)] =>
             let c := fresh "c" in let Hc := fresh "Hc" in let E := fresh "E" in
             destruct (nibble_string (band y 15) (band_15_range y)) as (c & E & Hc);
             rewrite E; clear E
         end.
  split; [reflexivity|]. cbn. repeat constructor; assumption.
Qed.

Lemma hexWords_hex (l : list Z) :
  length (flat_map Crypto.hexWord l) = (8 * length l)%nat
  /\ Forall lowerHex (flat_map Crypto.hexWord l).
Proof.
  induction l as [|x l [IH1 IH2]]; [split; [reflexivity|constructor]|].
  cbn [flat_map]. destruct (hexWord_hex x) as [H1 H2].
  rewrite length_app, H1, IH1. split; [cbn [length]; lia|].
  apply Forall_app. auto.
Qed.

Lemma round_length (i : nat) (w hash : list Z) :
  hash <> [] -> length (Crypto.round i w hash).2 = length hash.
Proof.
  intros Hne. unfold Crypto.round. cbn [snd].
  set (h1 := _ :: hash). set (v := JS.bor _ 0).
  assert (Hlen : length (<[4%nat := v]> h1) = S (length hash))
    by (rewrite length_insert; reflexivity).
  destruct (<[4%nat := v]> h1) as [|x l] eqn:E; [discriminate|].
  rewrite <- E in *. clear E.
  generalize dependent (<[4%nat := v]> h1). intros l0 Hl0.
  pose proof (@app_removelast_last _ l0 0 ltac:(intros ->; discriminate)) as Hsplit.
  apply (f_equal (@length Z)) in Hsplit. rewrite length_app in Hsplit. cbn in Hsplit. lia.
Qed.

Lemma rounds_length (n i : nat) (w hash : list Z) :
  hash <> [] -> length (Crypto.rounds n i w hash) = length hash.
Proof.
  revert i w hash. induction n as [|n IH]; intros i w hash Hne; [reflexivity|].
  cbn [Crypto.rounds]. pose proof (round_length i w hash Hne) as Hr.
  destruct (Crypto.round i w hash) as [w' hash']. cbn [snd] in Hr.
  rewrite IH; [exact Hr|]. intros ->. destruct hash; [congruence|discriminate].
Qed.

Lemma compress_length (w hash : list Z) :
  hash <> [] -> length (Crypto.compress w hash) = length hash.
Proof.
  intros Hne. unfold Crypto.compress.
  rewrite length_map, length_zip_with, rounds_length by exact Hne. lia.
Qed.

Lemma chunks_length (fuel : nat) (words hash : list Z) :
  hash <> [] -> length (Crypto.chunks fuel words hash) = length hash.
Proof.
  revert words hash. induction fuel as [|fuel IH]; intros words hash Hne; [reflexivity|].
  cbn [Crypto.chunks]. destruct words as [|x words]; [reflexivity|].
  rewrite IH.
  - apply compress_length. exact Hne.
  - intros E. apply (f_equal (@length Z)) in E. rewrite compress_length in E by exact Hne.
    destruct hash; [congruence|discriminate].
Qed.

Lemma sha224_hex (password digest : jsstring) :
  Crypto.sha224 password = Some digest ->
  length digest = 56%nat /\ Forall lowerHex digest.
Proof.
  unfold Crypto.sha224. destruct (Crypto.packWords _ 0 []) as [words|]; [|discriminate].
  intros [= <-].
  set (hash := Crypto.chunks _ _ _).
  assert (Hlen : length hash = 8%nat) by (apply chunks_length; discriminate).
  destruct (hexWords_hex (take 7 hash)) as [H1 H2].
  rewrite length_take, Hlen in H1. split; [exact H1 | exact H2].
Qed.

Lemma lowerHex_ascii (c : Z) : lowerHex c -> 0 <= c < 128.
Proof. unfold lowerHex, inRange. lia. Qed.

(** ** Trojan detection *)

Lemma differs_false (o : option byte) (v : Z) :
  Trojan.differs o v = false <-> exists b, o = Some b /\ u8 b = v.
Proof.
  unfold Trojan.differs. destruct o as [b|].
  - rewrite negb_false_iff, Z.eqb_eq. split; [eauto|]. intros (? & [= <-] & ?). assumption.
  - split; [discriminate|]. intros (? & ? & _). discriminate.
Qed.

Lemma index_nat (arr : list byte) (i : nat) : index arr (Z.of_nat i) = arr !! i.
Proof.
  unfold index. rewrite (proj2 (Z.ltb_ge _ _)) by lia. rewrite Nat2Z.id. reflexivity.
Qed.

Lemma isTrojanProtocol_true (buffer : list byte) (password : jsstring) :
  Trojan.isTrojanProtocol buffer password = true <->
  (58 <= length buffer)%nat
  /\ buffer !! 56%nat = Some x0d /\ buffer !! 57%nat = Some x0a
  /\ exists digest,
       Crypto.sha224 password = Some digest
       /\ length digest = 56%nat /\ Forall lowerHex digest
       /\ map u8 (take 56 buffer) = digest.
Proof.
  unfold Trojan.isTrojanProtocol.
  destruct (Z.ltb_spec (Z.of_nat (length buffer)) 58) as [Hlen|Hlen].
  { split; [discriminate|]. intros (H & _). lia. }
  change 56 with (Z.of_nat 56). change 57 with (Z.of_nat 57). rewrite !index_nat.
  rewrite slice_inside by lia. rewrite drop_0.
  replace (Z.to_nat (Z.of_nat 56 - 0)) with 56%nat by lia.
  assert (Hcr : forall b, u8 b = 13 <-> b = x0d).
  { intros b. split; [intros H; apply u8_inj; exact H | intros ->; reflexivity]. }
  assert (Hlf : forall b, u8 b = 10 <-> b = x0a).
  { intros b. split; [intros H; apply u8_inj; exact H | intros ->; reflexivity]. }
  destruct (Trojan.differs (buffer !! 56%nat) 13) eqn:E1.
  { cbn [orb]. split; [discriminate|]. intros (_ & H56 & _).
    rewrite H56 in E1. discriminate. }
  destruct (Trojan.differs (buffer !! 57%nat) 10) eqn:E2.
  { cbn [orb]. split; [discriminate|]. intros (_ & _ & H57 & _).
    rewrite H57 in E2. discriminate. }
  cbn [orb].
  apply differs_false in E1 as (b1 & E1 & Hb1). apply Hcr in Hb1 as ->.
  apply differs_false in E2 as (b2 & E2 & Hb2). apply Hlf in Hb2 as ->.
  assert (Htake : length (take 56 buffer) = 56%nat) by (rewrite length_take; lia).
  unfold Trojan.sameHash. split.
  - destruct (Crypto.sha224 password) as [digest|] eqn:Eh; [|discriminate].
    intros Heq. apply eqb_eq in Heq.
    destruct (sha224_hex _ _ Eh) as [Hd Hhex].
    repeat (split; [first [lia | assumption]|]).
    exists digest. repeat (split; [first [reflexivity | assumption]|]).
    apply textDecode_ascii_inv; [|lia|exact Heq].
    eapply Forall_impl; [exact Hhex|]. intros c Hc. apply lowerHex_ascii in Hc. lia.
  - intros (_ & _ & _ & digest & -> & Hd & Hhex & Hbytes).
    apply eqb_eq. rewrite textDecode_ascii; [exact Hbytes|].
    assert (Hasc : Forall (fun c => c < 128) (map u8 (take 56 buffer))).
    { rewrite Hbytes. eapply Forall_impl; [exact Hhex|].
      intros c Hc. apply lowerHex_ascii in Hc. lia. }
    apply Forall_fmap in Hasc. exact Hasc.
Qed.

(* ================================================================== *)
(** * protocol/trojan.js: the header parser *)
(* ================================================================== *)

(** ** Reading behind a prefix *)

Lemma index_app_r (pre l : list byte) (k : Z) :
  0 <= k -> index (pre ++ l) (Z.of_nat (length pre) + k) = index l k.
Proof.
  intros Hk. unfold index. rewrite !(proj2 (Z.ltb_ge _ _)) by lia.
  rewrite lookup_app_r by lia. f_equal. lia.
Qed.

Lemma getUint16_app_r (pre l : list byte) (k : Z) :
  0 <= k -> getUint16 (pre ++ l) (Int (Z.of_nat (length pre) + k)) = getUint16 l (Int k).
Proof.
  intros Hk. unfold getUint16, toInteger. rewrite !(proj2 (Z.ltb_ge _ _)) by lia.
  rewrite !lookup_app_r by lia.
  replace (Z.to_nat (Z.of_nat (length pre) + k) - length pre)%nat with (Z.to_nat k) by lia.
  replace (S (Z.to_nat (Z.of_nat (length pre) + k)) - length pre)%nat with (S (Z.to_nat k)) by lia.
  reflexivity.
Qed.

Lemma getUint8_app_r (pre l : list byte) (k : Z) :
  0 <= k -> getUint8 (pre ++ l) (Int (Z.of_nat (length pre) + k)) = getUint8 l (Int k).
Proof.
  intros Hk. unfold getUint8, toInteger. rewrite !(proj2 (Z.ltb_ge _ _)) by lia.
  rewrite !lookup_app_r by lia.
  replace (Z.to_nat (Z.of_nat (length pre) + k) - length pre)%nat with (Z.to_nat k) by lia.
  reflexivity.
Qed.

Lemma slice_app_r {A} (pre l : list A) (a b : Z) :
  0 <= a <= b -> b <= Z.of_nat (length l) ->
  slice (pre ++ l) (Int (Z.of_nat (length pre) + a)) (Int (Z.of_nat (length pre) + b))
  = take (Z.to_nat (b - a)) (drop (Z.to_nat a) l).
Proof.
  intros Hab Hb. rewrite slice_inside by (rewrite ?length_app; lia).
  replace (Z.to_nat (Z.of_nat (length pre) + a)) with (length pre + Z.to_nat a)%nat by lia.
  rewrite drop_app_add. f_equal. lia.
Qed.

Lemma slice_prefix {A} (pre l : list A) :
  slice (pre ++ l) (Int 0) (Int (Z.of_nat (length pre))) = pre.
Proof.
  rewrite slice_inside by (rewrite ?length_app; lia).
  rewrite drop_0, Z.sub_0_r, Nat2Z.id. apply take_app_length.
Qed.

Lemma textDecode_toUint8 (s : jsstring) :
  Forall (fun c => 0 <= c < 128) s -> textDecode (map toUint8 s) = s.
Proof.
  intros H. rewrite textDecode_ascii.
  - rewrite map_map. rewrite <- (map_id s) at 2. apply map_ext_Forall.
    eapply Forall_impl; [exact H|]. intros c Hc. cbv beta in *. rewrite u8_toUint8.
    apply Z.mod_small. lia.
  - apply Forall_fmap. eapply Forall_impl; [exact H|]. intros c Hc. cbv beta in *.
    unfold compose. rewrite u8_toUint8. rewrite Z.mod_small; lia.
Qed.

Lemma trojan_ipv4_request (password digest : jsstring) (payload : list byte) :
  Crypto.sha224 password = Some digest ->
  Trojan.processTrojanHeader
    (map toUint8 digest ++ bytes [13; 10; 1; 1; 1; 2; 3; 4; 0; 80; 13; 10] ++ payload)
    password
  = Return (Success {| addressRemote := str "1.2.3.4"; addressType := 1; portRemote := 80;
                       rawDataIndex := Int 68; protocolVersion := None; isUDP := false |}).
Proof.
  intros Hsha. destruct (sha224_hex _ _ Hsha) as [Hlen Hhex].
  set (pre := map toUint8 digest).
  set (l := bytes _ ++ payload).
  assert (Hpre : length pre = 56%nat) by (unfold pre; rewrite length_map; exact Hlen).
  assert (Hl : length l = (12 + length payload)%nat) by reflexivity.
  assert (Hdec : textDecode pre = digest).
  { apply textDecode_toUint8. eapply Forall_impl; [exact Hhex|]. apply lowerHex_ascii. }
  unfold Trojan.processTrojanHeader.
  unfold num_lt at 1.
  rewrite (proj2 (Z.ltb_ge _ _)) by (rewrite length_app; lia).
  change (Int 56) with (Int (Z.of_nat 56)). rewrite <- Hpre at 1. rewrite slice_prefix.
  rewrite Hdec, Hsha. cbn [Trojan.sameHash]. rewrite eqb_refl. cbn [negb].
  assert (Hlt : forall k, k <= 68 -> (Z.of_nat (length (pre ++ l)) <? k) = false)
    by (intros k Hk; apply Z.ltb_ge; rewrite length_app; lia).
  assert (Hi : forall k, 0 <= k -> index (pre ++ l) (56 + k) = index l k).
  { intros k Hk. rewrite <- (index_app_r pre l k Hk), Hpre. reflexivity. }
  assert (H56 : index (pre ++ l) 56 = Some x0d) by (apply (Hi 0); lia).
  assert (H57 : index (pre ++ l) 57 = Some x0a) by (apply (Hi 1); lia).
  assert (H58 : index (pre ++ l) 58 = Some x01) by (apply (Hi 2); lia).
  assert (H59 : index (pre ++ l) 59 = Some x01) by (apply (Hi 3); lia).
  assert (H66 : index (pre ++ l) 66 = Some x0d) by (apply (Hi 10); lia).
  assert (H67 : index (pre ++ l) 67 = Some x0a) by (apply (Hi 11); lia).
  assert (Hs : slice (pre ++ l) (Int 60) (Int 64) = bytes [1; 2; 3; 4]).
  { change 60 with (Z.of_nat 56 + 4). change 64 with (Z.of_nat 56 + 8).
    rewrite <- Hpre. rewrite slice_app_r by (rewrite ?Hl; lia). reflexivity. }
  assert (Hp : getUint16 (pre ++ l) (Int 64) = Return 80).
  { change 64 with (Z.of_nat 56 + 8). rewrite <- Hpre.
    rewrite getUint16_app_r by lia. reflexivity. }
  rewrite H56, H57, H58, H59.
  change (Trojan.differs (Some x0d) 13 || Trojan.differs (Some x0a) 10) with false.
  change (Trojan.differs (Some x01) TROJAN_CMD_TCP && Trojan.differs (Some x01) TROJAN_CMD_UDP)
    with false.
  change (option_map u8 (Some x01)) with (Some 1).
  cbv beta iota. cbn [num_add num_lt].
  rewrite (Hlt (60 + 4 + 2)) by lia. change (60 + 4) with 64. rewrite Hs.
  cbn [mbind completion_bind cbind num_add num_lt].
  rewrite (Hlt (60 + 4 + 2)) by lia. change (60 + 4) with 64. rewrite Hp.
  cbn [mbind completion_bind cbind num_add num_lt indexNum].
  rewrite (Hlt (64 + 2 + 2)) by lia.
  change (64 + 2) with 66. change (66 + 1) with 67. rewrite H66, H67.
  reflexivity.
Qed.

Lemma getUint16_inside (buf : list byte) (k : Z) :
  0 <= k -> k + 2 <= Z.of_nat (length buf) -> exists v, getUint16 buf (Int k) = Return v.
Proof.
  intros Hk Hlen. unfold getUint16, toInteger. rewrite (proj2 (Z.ltb_ge _ _)) by lia.
  destruct (lookup_lt_is_Some_2 buf (Z.to_nat k) ltac:(lia)) as [hi ->].
  destruct (lookup_lt_is_Some_2 buf (S (Z.to_nat k)) ltac:(lia)) as [lo ->].
  eauto.
Qed.

Lemma readGroups_inside (buf : list byte) (start : Z) (ixs : list Z) :
  0 <= start -> Forall (fun i => 0 <= i /\ start + i * 2 + 2 <= Z.of_nat (length buf)) ixs ->
  exists gs, Trojan.readGroups buf (Int start) ixs = Return gs /\ (ixs <> [] -> gs <> []).
Proof.
  intros Hs. induction 1 as [|i ixs [Hi Hb] _ (gs & IH & _)]; [exists []; split; auto|].
  cbn [Trojan.readGroups num_add].
  destruct (getUint16_inside buf (start + i * 2) ltac:(lia) ltac:(lia)) as [v ->].
  cbn [mbind completion_bind cbind]. rewrite IH. cbn [mbind completion_bind cbind].
  eexists. split; [reflexivity|]. discriminate.
Qed.

Lemma join_nonempty (sep : jsstring) (parts : list jsstring) :
  sep <> [] -> (2 <= length parts)%nat -> join sep parts <> [].
Proof.
  intros Hsep Hlen. destruct parts as [|p [|q rest]]; cbn [length] in Hlen; try lia.
  cbn [join]. destruct p; [|discriminate]. cbn [app]. destruct sep; [congruence|discriminate].
Qed.

Lemma processTrojanHeader_total (buffer : list byte) (password : jsstring) :
  exists r,
    Trojan.processTrojanHeader buffer password = Return r
    /\ match r with
       | Success h => trojanSuccess buffer h
       | Failure message => classify message <> None
       end.
Proof.
  unfold Trojan.processTrojanHeader.
  unfold num_lt at 1.
  destruct (Z.ltb_spec (Z.of_nat (length buffer)) 58) as [Hshort|Hlen];
    [eexists; split; [reflexivity|discriminate]|].
  destruct (negb (Trojan.sameHash _ _)); [eexists; split; [reflexivity|discriminate]|].
  destruct (Trojan.differs (index buffer 56) 13 || Trojan.differs (index buffer 57) 10);
    [eexists; split; [reflexivity|discriminate]|].
  destruct (Trojan.differs (index buffer 58) TROJAN_CMD_TCP
            && Trojan.differs (index buffer 58) TROJAN_CMD_UDP).
  { eexists; split; [reflexivity|].
    destruct (index buffer 58); discriminate. }
  change 59 with (Z.of_nat 59). rewrite index_nat.
  destruct (buffer !! 59%nat) as [t|] eqn:Ht; [|eexists; split; [reflexivity|discriminate]].
  cbn [option_map Trojan.toNumber toInteger].
  match goal with
  | |- exists r, mbind ?k0 _ = _ /\ _ => set (k := k0)
  end.
  (* the part after the address, for an address that lies inside the buffer *)
  assert (Hk : forall addressValue alen aidx,
             60 <= aidx -> 0 <= alen ->
             (u8 t = 1 \/ u8 t = 3 \/ u8 t = 4) ->
             exists r,
               k (inr (addressValue, Int alen, Int aidx)) = Return r
               /\ match r with
                  | Success h => trojanSuccess buffer h
                  | Failure message => classify message <> None
                  end).
  { intros addressValue alen aidx Hidx Halen Htype. unfold k. cbn [num_add num_lt].
    destruct (Z.ltb_spec (Z.of_nat (length buffer)) (aidx + alen + 2));
      [eexists; split; [reflexivity|discriminate]|].
    destruct (getUint16_inside buffer (aidx + alen) ltac:(lia) ltac:(lia)) as [port ->].
    cbn [mbind completion_bind cbind].
    destruct (Z.ltb_spec (Z.of_nat (length buffer)) (aidx + alen + 2 + 2));
      [eexists; split; [reflexivity|discriminate]|].
    destruct (_ || _); [eexists; split; [reflexivity|discriminate]|].
    destruct addressValue as [|c addressValue].
    - eexists; split; [reflexivity|]. cbn [Trojan.display].
      unfold classify. discriminate.
    - eexists; split; [reflexivity|]. unfold trojanSuccess. cbn.
      split; [exists (aidx + alen + 2 + 2); split; [reflexivity|lia]|].
      split; [discriminate|]. split; [reflexivity|].
      exists t. split; [exact Ht|]. split; [exact Htype|reflexivity]. }
  assert (Hcases : u8 t = 1 \/ u8 t = 3 \/ u8 t = 4
                   \/ (u8 t <> 1 /\ u8 t <> 3 /\ u8 t <> 4)) by lia.
  destruct Hcases as [E|[E|[E|(E1 & E3 & E4)]]].
  - (* IPv4 *)
    rewrite E. cbn [num_add num_lt].
    destruct (Z.ltb_spec (Z.of_nat (length buffer)) (60 + 4 + 2)).
    + cbn [mbind completion_bind cbind]. unfold k.
      eexists; split; [reflexivity|discriminate].
    + cbn [mbind completion_bind cbind]. apply Hk; lia.
  - (* a domain name *)
    rewrite E. change 60 with (Z.of_nat 60). rewrite index_nat.
    destruct (buffer !! 60%nat) as [n|] eqn:Hn; cbn [Trojan.toNumber num_add num_lt].
    + pose proof (u8_range n).
      destruct (Z.ltb_spec (Z.of_nat (length buffer)) (61 + u8 n + 2)).
      * cbn [mbind completion_bind cbind]. unfold k.
        eexists; split; [reflexivity|discriminate].
      * cbn [mbind completion_bind cbind]. apply Hk; lia.
    + (* the length byte is missing: NaN *)
      cbn [mbind completion_bind cbind]. unfold k. cbn [num_add num_lt indexNum].
      unfold getUint16, toInteger. change (0 <? 0) with false. cbv iota.
      change (Z.to_nat 0) with 0%nat.
      destruct (lookup_lt_is_Some_2 buffer 0 ltac:(lia)) as [hi ->].
      destruct (lookup_lt_is_Some_2 buffer 1 ltac:(lia)) as [lo ->].
      cbn [mbind completion_bind cbind Trojan.differs orb].
      eexists; split; [reflexivity|discriminate].
  - (* IPv6 *)
    rewrite E. cbn [num_add num_lt].
    destruct (Z.ltb_spec (Z.of_nat (length buffer)) (60 + 16 + 2)).
    + cbn [mbind completion_bind cbind]. unfold k.
      eexists; split; [reflexivity|discriminate].
    + destruct (readGroups_inside buffer 60 [0; 1; 2; 3; 4; 5; 6; 7] ltac:(lia))
        as (gs & -> & Hgs).
      { repeat constructor; lia. }
      cbn [mbind completion_bind cbind]. apply Hk; lia.
  - (* any other address type *)
    assert (Hdefault :
              forall (A : Type) (a b c d : A),
                match u8 t with 3 => a | 4 => b | 1 => c | _ => d end = d).
    { intros A a b c d. destruct (u8 t) as [|p|p] eqn:Eu; try reflexivity.
      destruct p as [[p|p|]|[p|[p|p|]|]|]; try reflexivity; lia. }
    rewrite Hdefault. cbn [mbind completion_bind cbind]. unfold k.
    eexists; split; [reflexivity|discriminate].
Qed.

(** ** The VLESS parser *)

Lemma startsWith_app (p s : jsstring) : startsWith p (p ++ s) = true.
Proof. induction p as [|c p IH]; [reflexivity|]. cbn. rewrite Z.eqb_refl. exact IH. Qed.

Lemma endsWith_app (p s : jsstring) : endsWith p (s ++ p) = true.
Proof. unfold endsWith. rewrite rev_app_distr. apply startsWith_app. Qed.

Lemma classify_command (command : Z) :
  classify (str "command " ++ toString command
            ++ str " is not supported, command 01-tcp,02-udp,03-mux")
  = Some UnsupportedCommand.
Proof.
  unfold classify. rewrite (app_assoc (str "command ")), endsWith_app. reflexivity.
Qed.

(** Case analysis on the innermost scrutinee of the goal. *)
Ltac destr_goal :=
  match goal with
  | |- context [match ?x with _ => _ end] =>
      lazymatch x with
      | context [match _ with _ => _ end] => fail
      | _ => destruct x eqn:?
      end
  end.

Lemma getUint8_throws (buf : list byte) (i : num) (e : exn) :
  getUint8 buf i = Throw e -> exists m, e = RangeError m.
Proof. unfold getUint8. repeat destr_goal; intros [= <-]; eauto. Qed.

Lemma getUint16_throws (buf : list byte) (i : num) (e : exn) :
  getUint16 buf i = Throw e -> exists m, e = RangeError m.
Proof. unfold getUint16. repeat destr_goal; intros [= <-]; eauto. Qed.

Lemma vless_readGroups_throws (buf : list byte) (start : Z) (ixs : list Z) (e : exn) :
  Vless.readGroups buf start ixs = Throw e -> exists m, e = RangeError m.
Proof.
  induction ixs as [|i ixs IH]; [discriminate|]. cbn [Vless.readGroups].
  unfold mbind, completion_bind, cbind.
  destruct (getUint16 buf _) eqn:E.
  - destruct (Vless.readGroups buf start ixs); [discriminate|].
    intros [= <-]. apply IH. reflexivity.
  - intros [= <-]. eapply getUint16_throws. exact E.
Qed.

Ltac no_error :=
  match goal with
  | H : getUint8 _ _ = Throw (Error _) |- _ =>
      apply getUint8_throws in H; destruct H; discriminate
  | H : getUint16 _ _ = Throw (Error _) |- _ =>
      apply getUint16_throws in H; destruct H; discriminate
  | H : Vless.readGroups _ _ _ = Throw (Error _) |- _ =>
      apply vless_readGroups_throws in H; destruct H; discriminate
  end.

Lemma existsb_credentials (sliced : jsstring) (uuids : list jsstring) :
  existsb (fun uuid => eqb sliced (trim uuid)) uuids
  || ((length uuids =? 1)%nat && eqb sliced (trim (nth 0 uuids []))) = true
  <-> In sliced (map trim uuids).
Proof.
  assert (H1 : existsb (fun uuid => eqb sliced (trim uuid)) uuids = true
               <-> In sliced (map trim uuids)).
  { rewrite existsb_exists, in_map_iff. split.
    - intros (u & Hin & He). apply eqb_eq in He. eauto.
    - intros (u & He & Hin). exists u. split; [exact Hin|]. apply eqb_eq. auto. }
  rewrite orb_true_iff, H1. split; [|auto]. intros [H|H]; [exact H|].
  apply andb_true_iff in H as [Hl He]. apply eqb_eq in He.
  destruct uuids as [|u [|v rest]]; try discriminate. left. auto.
Qed.

Lemma vless_outcomes (buffer : list byte) (userID : jsstring) :
  ((Z.of_nat (length buffer) < 24 ->
    Vless.processProtocolHeader buffer userID = Return (Failure (str "invalid data")))
   /\ (24 <= Z.of_nat (length buffer) ->
       isValidUUID (unsafeStringify (slice buffer (Int 1) (Int 17)) 0) = false ->
       Vless.processProtocolHeader buffer userID
       = Throw (TypeError "Stringified UUID is invalid"))
   /\ (24 <= Z.of_nat (length buffer) ->
       isValidUUID (unsafeStringify (slice buffer (Int 1) (Int 17)) 0) = true ->
       ~ In (unsafeStringify (slice buffer (Int 1) (Int 17)) 0)
            (map trim (credentials userID)) ->
       Vless.processProtocolHeader buffer userID = Return (Failure (str "invalid user"))))
  /\ match Vless.processProtocolHeader buffer userID with
     | Return (Failure message) => classify message <> None
     | Return (Success h) => addressRemote h <> []
     | Throw (Error _) => False
     | Throw _ => True
     end.
Proof.
  unfold Vless.processProtocolHeader.
  destruct (Z.ltb_spec (Z.of_nat (length buffer)) 24) as [Hshort|Hlen].
  { split; [|discriminate]. split; [reflexivity|]. split; intros; lia. }
  assert (H0 : getUint8 buffer (Int 0) = Return (u8 (nth 0 buffer x00))).
  { unfold getUint8, toInteger. change (0 <? 0) with false. cbv iota.
    destruct buffer; [cbn in Hlen; lia|reflexivity]. }
  rewrite H0. cbn [mbind completion_bind cbind]. unfold stringify.
  fold (credentials userID).
  destruct (isValidUUID _) eqn:Evalid; cbn [negb mbind completion_bind cbind].
  2:{ split; [|exact I]. split; [intros; lia|]. split; [reflexivity|]. discriminate. }
  pose proof (existsb_credentials (unsafeStringify (slice buffer (Int 1) (Int 17)) 0)
                (credentials userID)) as Hcred.
  destruct (_ || _) eqn:Euser; cbn [negb].
  2:{ split; [|discriminate]. split; [intros; lia|]. split; [discriminate|]. reflexivity. }
  apply proj1 in Hcred. specialize (Hcred eq_refl).
  split; [split; [intros; lia|]; split; [discriminate|]; intros _ _ Hn; contradiction|].
  unfold mbind, completion_bind, cbind.
  repeat (destr_goal; subst; try exact I; try discriminate; try no_error;
          try (rewrite classify_command; discriminate)).
Qed.

(* ================================================================== *)
(** * proxy/vless.js and protocol/vless.js: the request header *)
(* ================================================================== *)

(** ** Splitting and joining on one code unit *)

Lemma split_go_without (c : Z) (p : jsstring) :
  without c p -> split_go [c] 0 p = [p].
Proof.
  induction 1 as [|x p Hx _ IH]; [reflexivity|].
  cbn [split_go startsWith]. rewrite (proj2 (Z.eqb_neq c x)) by congruence.
  cbn [andb]. rewrite IH. reflexivity.
Qed.

Lemma split_go_sep (c : Z) (p rest : jsstring) :
  without c p -> split_go [c] 0 (p ++ c :: rest) = p :: split_go [c] 0 rest.
Proof.
  induction 1 as [|x p Hx _ IH].
  - cbn [app split_go startsWith]. rewrite Z.eqb_refl. reflexivity.
  - cbn [app split_go startsWith]. rewrite (proj2 (Z.eqb_neq c x)) by congruence.
    cbn [andb]. rewrite IH. reflexivity.
Qed.

Lemma split_join (c : Z) (parts : list jsstring) :
  parts <> [] -> Forall (without c) parts -> split [c] (join [c] parts) = parts.
Proof.
  unfold split. intros Hne Hall. induction Hall as [|p parts Hp Hall IH]; [congruence|].
  destruct parts as [|q parts].
  - cbn [join]. apply split_go_without. exact Hp.
  - change (join [c] (p :: q :: parts)) with (p ++ c :: join [c] (q :: parts)).
    rewrite split_go_sep by exact Hp. f_equal. apply IH. discriminate.
Qed.

(** No empty part, no doubled separator. *)
Lemma includes_skip (c : Z) (p s : jsstring) :
  without c p -> includes [c; c] (p ++ s) = includes [c; c] s.
Proof.
  induction 1 as [|x p Hx _ IH]; [reflexivity|].
  cbn [app]. cbn [includes startsWith].
  rewrite (proj2 (Z.eqb_neq c x)) by congruence. cbn [andb orb]. exact IH.
Qed.

Lemma includes_join (c : Z) (parts : list jsstring) :
  Forall (fun p => without c p /\ p <> []) parts -> includes [c; c] (join [c] parts) = false.
Proof.
  induction 1 as [|p parts [Hp Hne] Hall IH]; [reflexivity|].
  destruct parts as [|q parts].
  - cbn [join]. rewrite <- (app_nil_r p), includes_skip by exact Hp. reflexivity.
  - change (join [c] (p :: q :: parts)) with (p ++ c :: join [c] (q :: parts)).
    rewrite includes_skip by exact Hp.
    cbn [includes]. rewrite IH, orb_false_r.
    inversion Hall as [|? ? [Hq Hqne] _]; subst.
    destruct q as [|y q]; [congruence|]. inversion Hq as [|? ? Hy _]; subst.
    destruct parts as [|r parts]; cbn [join app startsWith];
      rewrite Z.eqb_refl, (proj2 (Z.eqb_neq c y)) by congruence; reflexivity.
Qed.

(** ** Numbers printed and parsed *)

Lemma digitValue_digitChar (d : Z) : 0 <= d < 36 -> digitValue (digitChar d) = Some d.
Proof.
  intros Hd. unfold digitChar, digitValue.
  destruct (Z.ltb_spec d 10).
  - replace ((48 <=? 48 + d) && (48 + d <=? 57)) with true
      by (symmetry; apply andb_true_iff; split; apply Z.leb_le; lia).
    f_equal. lia.
  - replace ((48 <=? 87 + d) && (87 + d <=? 57)) with false
      by (symmetry; apply andb_false_iff; right; apply Z.leb_gt; lia).
    replace ((97 <=? 87 + d) && (87 + d <=? 122)) with true
      by (symmetry; apply andb_true_iff; split; apply Z.leb_le; lia).
    f_equal. lia.
Qed.

Lemma digits_digitOf (radix : Z) (fuel : nat) :
  2 <= radix -> forall n, digits fuel radix n <> [] /\ Forall (digitOf radix) (digits fuel radix n).
Proof.
  intros Hr. induction fuel as [|fuel IH]; intros n.
  - cbn [digits]. split; [discriminate|]. constructor; [|constructor].
    exists (n mod radix). split; [apply Z.mod_pos_bound; lia|reflexivity].
  - cbn [digits]. split; [destruct (n / radix =? 0); [discriminate|];
      destruct (digits fuel radix (n / radix)); discriminate|].
    apply Forall_app. split.
    + destruct (n / radix =? 0); [constructor|apply IH].
    + constructor; [|constructor].
      exists (n mod radix). split; [apply Z.mod_pos_bound; lia|reflexivity].
Qed.

Lemma digitPrefix_digits (radix : Z) (s : jsstring) :
  2 <= radix <= 36 -> Forall (digitOf radix) s ->
  exists ds, digitPrefix radix s = ds /\ map digitChar ds = s
             /\ Forall (fun d => 0 <= d < radix) ds.
Proof.
  intros Hr. induction 1 as [|c s (d & Hd & ->) _ (ds & IH & Hmap & Hall)].
  - exists []. repeat split. constructor.
  - exists (d :: ds). cbn [digitPrefix]. rewrite digitValue_digitChar by lia.
    rewrite (proj2 (Z.ltb_lt _ _)) by lia. rewrite IH.
    repeat split; [cbn; congruence|constructor; assumption].
Qed.

Lemma digitsValue_app (radix : Z) (a b : list Z) :
  digitsValue radix (a ++ b)
  = fold_left (fun acc d => acc * radix + d) b (digitsValue radix a).
Proof. unfold digitsValue. apply fold_left_app. Qed.

Lemma digitPrefix_app (radix : Z) (a b : jsstring) :
  2 <= radix <= 36 -> Forall (digitOf radix) a ->
  digitPrefix radix (a ++ b)
  = digitPrefix radix a ++ digitPrefix radix b.
Proof.
  intros Hr. induction 1 as [|c s (d & Hd & ->) _ IH]; [reflexivity|].
  cbn [app digitPrefix]. rewrite digitValue_digitChar by lia.
  rewrite (proj2 (Z.ltb_lt _ _)) by lia. rewrite IH. reflexivity.
Qed.

(** Reading the digits of a number gives the number back. *)
Lemma digits_value (radix : Z) (fuel : nat) :
  2 <= radix <= 36 ->
  forall n, 0 <= n < radix ^ (Z.of_nat fuel + 1) ->
    digitsValue radix (digitPrefix radix (digits fuel radix n)) = n.
Proof.
  intros Hr. induction fuel as [|fuel IH]; intros n Hn.
  - cbn [digits digitPrefix]. change (Z.of_nat 0 + 1) with 1 in Hn. rewrite Z.pow_1_r in Hn.
    rewrite Z.mod_small by lia. rewrite digitValue_digitChar by lia.
    rewrite (proj2 (Z.ltb_lt _ _)) by lia. cbn. lia.
  - cbn [digits].
    assert (Hlast : digitPrefix radix [digitChar (n mod radix)] = [n mod radix]).
    { pose proof (Z.mod_pos_bound n radix ltac:(lia)).
      cbn [digitPrefix]. rewrite digitValue_digitChar by lia.
      rewrite (proj2 (Z.ltb_lt _ _)) by lia. reflexivity. }
    destruct (Z.eqb_spec (n / radix) 0) as [Hq|Hq].
    + cbn [app]. rewrite Hlast. cbn.
      pose proof (Z.div_mod n radix ltac:(lia)). lia.
    + rewrite digitPrefix_app by (try lia; apply digits_digitOf; lia).
      rewrite Hlast, digitsValue_app. cbn [fold_left].
      rewrite IH.
      * pose proof (Z.div_mod n radix ltac:(lia)). lia.
      * split; [apply Z.div_pos; lia|].
        apply Z.div_lt_upper_bound; [lia|].
        replace (Z.of_nat (S fuel) + 1) with (Z.succ (Z.of_nat fuel + 1)) in Hn by lia.
        rewrite Z.pow_succ_r in Hn by lia. lia.
Qed.

Lemma log2_fuel (radix n : Z) :
  2 <= radix -> 0 <= n -> n < radix ^ (Z.of_nat (Z.to_nat (Z.log2 n)) + 1).
Proof.
  intros Hr Hn. rewrite Z2Nat.id by apply Z.log2_nonneg.
  destruct (Z.eq_dec n 0) as [->|Hne].
  - cbn. lia.
  - pose proof (Z.log2_spec n ltac:(lia)) as [_ Hup].
    eapply Z.lt_le_trans; [exact Hup|].
    replace (Z.succ (Z.log2 n)) with (Z.log2 n + 1) by lia.
    apply Z.pow_le_mono_l. lia.
Qed.

Lemma toStringRadix_digits (radix n : Z) :
  2 <= radix <= 36 -> 0 <= n ->
  toStringRadix radix n <> [] /\ Forall (digitOf radix) (toStringRadix radix n)
  /\ digitsValue radix (digitPrefix radix (toStringRadix radix n)) = n.
Proof.
  intros Hr Hn. unfold toStringRadix. rewrite (proj2 (Z.ltb_ge _ _)) by lia.
  destruct (digits_digitOf radix (Z.to_nat (Z.log2 n)) ltac:(lia) n) as [H1 H2].
  repeat split; try assumption.
  apply digits_value; [lia|]. split; [lia|]. apply log2_fuel; lia.
Qed.

Lemma inRange_spec (lo hi c : Z) : inRange lo hi c = true <-> lo <= c <= hi.
Proof. unfold inRange. rewrite andb_true_iff, !Z.leb_le. reflexivity. Qed.

Lemma hexChar_range (c : Z) :
  inRange 48 57 c || inRange 97 102 c = true <-> 48 <= c <= 57 \/ 97 <= c <= 102.
Proof. rewrite orb_true_iff, !inRange_spec. reflexivity. Qed.

Lemma digitOf_char (radix c : Z) :
  radix <= 16 -> digitOf radix c -> inRange 48 57 c || inRange 97 102 c = true.
Proof.
  intros Hr (d & Hd & ->). apply orb_true_iff. unfold digitChar.
  destruct (Z.ltb_spec d 10); [left|right]; apply inRange_spec; lia.
Qed.

Lemma hexChar_plain (c : Z) :
  inRange 48 57 c || inRange 97 102 c = true ->
  isWhiteSpace c = false /\ c <> 45 /\ c <> 43 /\ c <> 120 /\ c <> 88
  /\ c <> 46 /\ c <> 58 /\ c <> 91 /\ c <> 93 /\ 0 <= c < 128.
Proof.
  intros H. apply hexChar_range in H as Hc.
  split; [|lia]. unfold isWhiteSpace.
  repeat (apply orb_false_iff; split); try (apply Z.eqb_neq; lia).
  apply andb_false_iff. left. apply Z.leb_gt. lia.
Qed.

(** [parseInt] on a non-empty string of digits, with the radix given (16)
    or absent (10). *)
Lemma parseInt_digits (radix : Z) (given : option Z) (s : jsstring) :
  (given = Some 16 /\ radix = 16) \/ (given = None /\ radix = 10) ->
  s <> [] -> Forall (digitOf radix) s ->
  parseInt s given = Int (digitsValue radix (digitPrefix radix s)).
Proof.
  intros Hradix Hne Hall.
  assert (Hr : 2 <= radix <= 16) by (destruct Hradix as [[_ ->]|[_ ->]]; lia).
  destruct s as [|c s]; [congruence|].
  inversion Hall as [|? ? Hc Hrest]; subst.
  pose proof (hexChar_plain c (digitOf_char radix c ltac:(lia) Hc))
    as (Hws & Hminus & Hplus & _).
  unfold parseInt. cbn [trimStart]. rewrite Hws. cbv iota.
  match goal with
  | |- context [match ?m with (sign, s2) => _ end] =>
      assert (Hsign : m = (1, c :: s));
      [ destruct c as [|p|p]; try reflexivity;
        do 6 (destruct p as [p|p|]; try reflexivity); congruence
      | rewrite Hsign ]
  end.
  assert (Hx : has0x (c :: s) = false).
  { unfold has0x. destruct s as [|x s]; [destruct c as [|p|p]; try reflexivity;
      do 6 (destruct p as [p|p|]; try reflexivity)|].
    inversion Hrest as [|? ? Hxd _]; subst.
    pose proof (hexChar_plain x (digitOf_char radix x ltac:(lia) Hxd))
      as (_ & _ & _ & Hx1 & Hx2 & _).
    replace ((x =? 120) || (x =? 88)) with false
      by (symmetry; apply orb_false_iff; split; apply Z.eqb_neq; assumption).
    destruct c as [|p|p]; try reflexivity.
    do 6 (destruct p as [p|p|]; try reflexivity). }
  rewrite Hx, andb_false_r.
  assert (Hrad : match given with Some r => r | None => 10 end = radix)
    by (destruct Hradix as [[-> ->]|[-> ->]]; reflexivity).
  rewrite Hrad.
  destruct (digitPrefix_digits radix (c :: s) ltac:(lia) Hall) as (ds & Hds & Hmap & _).
  rewrite Hds. destruct ds as [|d ds]; [discriminate|].
  f_equal. lia.
Qed.

Lemma parseInt_toString (n : Z) : 0 <= n -> parseInt (toString n) None = Int n.
Proof.
  intros Hn. destruct (toStringRadix_digits 10 n ltac:(lia) Hn) as (Hne & Hall & Hval).
  unfold toString. rewrite (parseInt_digits 10); auto. rewrite Hval. reflexivity.
Qed.

Lemma digitsValue_zeros (radix : Z) (k : nat) (ds : list Z) :
  digitsValue radix (replicate k 0 ++ ds) = digitsValue radix ds.
Proof.
  induction k as [|k IH]; [reflexivity|].
  cbn [replicate app]. unfold digitsValue in *. cbn [fold_left].
  change (0 * radix + 0) with 0. exact IH.
Qed.

Lemma parseInt_padded (g : Z) :
  0 <= g -> parseInt (padStart0 4 (toStringRadix 16 g)) (Some 16) = Int g.
Proof.
  intros Hg. destruct (toStringRadix_digits 16 g ltac:(lia) Hg) as (Hne & Hall & Hval).
  unfold padStart0. set (k := (4 - length (toStringRadix 16 g))%nat).
  assert (Hzeros : Forall (digitOf 16) (replicate k 48)).
  { apply Forall_replicate. exists 0. split; [lia|reflexivity]. }
  rewrite (parseInt_digits 16); auto.
  - rewrite digitPrefix_app by (try lia; exact Hzeros).
    replace (digitPrefix 16 (replicate k 48)) with (replicate k 0).
    + rewrite digitsValue_zeros, Hval. reflexivity.
    + clear. induction k as [|k IH]; [reflexivity|]. cbn. rewrite <- IH. reflexivity.
  - destruct (replicate k 48); [exact Hne|discriminate].
  - apply Forall_app. auto.
Qed.

(** ** UUID strings *)

Lemma lowerHex_In (c : Z) : lowerHex c -> In c hexChars.
Proof. intros H. apply hexChar_range in H. cbn. lia. Qed.

(** A pair of digits is read as the byte that prints as that pair. *)
Lemma byteToHex_pair (a b : Z) :
  lowerHex a -> lowerHex b ->
  byteToHex (u8 (numToUint8 (parseInt [a; b] (Some 16)))) = [a; b].
Proof.
  intros Ha Hb. apply lowerHex_In in Ha, Hb. cbn in Ha, Hb.
  repeat (destruct Ha as [<-|Ha]; [repeat (destruct Hb as [<-|Hb]; [reflexivity|]); contradiction|]).
  contradiction.
Qed.

Lemma toLowerCase_hex (s : jsstring) : Forall lowerHex s -> toLowerCase s = s.
Proof.
  induction 1 as [|c s Hc _ IH]; [reflexivity|]. cbn [toLowerCase map].
  apply hexChar_range in Hc.
  replace ((65 <=? c) && (c <=? 90)) with false
    by (symmetry; apply andb_false_iff; destruct Hc; [left|right]; apply Z.leb_gt; lia).
  f_equal. exact IH.
Qed.

Lemma matchClasses_cons (p : Z -> bool) (pat : list (Z -> bool)) (s : jsstring) :
  matchClasses (p :: pat) s = true ->
  exists c s', s = c :: s' /\ p c = true /\ matchClasses pat s' = true.
Proof.
  destruct s as [|c s']; cbn; [discriminate|].
  intros [H1 H2]%andb_true_iff. eauto.
Qed.

Lemma matchClasses_nil (s : jsstring) : matchClasses [] s = true -> s = [].
Proof. destruct s; cbn; [reflexivity|discriminate]. Qed.

(** In a lower-case string every class of the UUID pattern allows
    lower-case hexadecimal digits only, the dash apart. *)
Lemma lower_hexClass (c : Z) :
  negb ((65 <=? c) && (c <=? 90)) = true -> hexClass c = true -> lowerHex c.
Proof.
  unfold hexClass, lowerHex, inRange. intros Hl H.
  destruct (65 <=? c) eqn:E1, (c <=? 90) eqn:E2, (48 <=? c) eqn:E3, (c <=? 57) eqn:E4,
    (97 <=? c) eqn:E5, (c <=? 102) eqn:E6, (c <=? 70) eqn:E7;
    cbn in *; try discriminate; try reflexivity; lia.
Qed.

Lemma versionClass_hex (c : Z) : versionClass c = true -> hexClass c = true.
Proof.
  unfold versionClass, hexClass, inRange. intros [H1 H2]%andb_true_iff.
  apply Z.leb_le in H1, H2.
  replace (48 <=? c) with true by (symmetry; apply Z.leb_le; lia).
  replace (c <=? 57) with true by (symmetry; apply Z.leb_le; lia). reflexivity.
Qed.

Lemma variantClass_hex (c : Z) : variantClass c = true -> hexClass c = true.
Proof.
  unfold variantClass, hexClass, inRange. intros H.
  destruct (48 <=? c) eqn:E3, (c <=? 57) eqn:E4,
    (97 <=? c) eqn:E5, (c <=? 102) eqn:E6, (65 <=? c) eqn:E1, (c <=? 70) eqn:E7,
    (56 <=? c) eqn:E8, (c <=? 98) eqn:E9, (c <=? 66) eqn:E10;
    cbn in *; try discriminate; try reflexivity; lia.
Qed.

Lemma toLowerCase_fixed (s : jsstring) :
  toLowerCase s = s -> Forall (fun c => negb ((65 <=? c) && (c <=? 90)) = true) s.
Proof.
  induction s as [|c s IH]; [constructor|]. cbn [toLowerCase map]. intros H.
  injection H as Hc Hs. constructor; [|exact (IH Hs)].
  destruct ((65 <=? c) && (c <=? 90)); [lia|reflexivity].
Qed.

Lemma uuid_decompose (uuid : jsstring) :
  isValidUUID uuid = true -> toLowerCase uuid = uuid ->
  exists hs, length hs = 32%nat /\ Forall lowerHex hs /\ uuid = dashed hs.
Proof.
  intros Hv Hl. apply toLowerCase_fixed in Hl.
  unfold isValidUUID, uuidRegex in Hv. cbn [replicate app] in Hv.
  repeat match type of Hv with
  | matchClasses (_ :: _) _ = true =>
      let c := fresh "c" in let Hc := fresh "Hc" in
      apply matchClasses_cons in Hv as (c & ? & -> & Hc & Hv)
  end.
  apply matchClasses_nil in Hv as ->.
  repeat match goal with
  | H : versionClass _ = true |- _ => apply versionClass_hex in H
  | H : variantClass _ = true |- _ => apply variantClass_hex in H
  | H : dashClass ?c = true |- _ => apply Z.eqb_eq in H; subst c
  end.
  repeat match goal with
  | H : Forall _ (_ :: _) |- _ => apply Forall_cons in H as [? H]
  end.
  repeat match goal with
  | H : hexClass ?c = true, H' : negb _ = true |- _ => apply (lower_hexClass c H') in H; clear H'
  end.
  eexists [_;_;_;_;_;_;_;_;_;_;_;_;_;_;_;_;_;_;_;_;_;_;_;_;_;_;_;_;_;_;_;_].
  split; [reflexivity|]. split; [|reflexivity].
  repeat (constructor; [assumption|]). constructor.
Qed.

Ltac explode hs :=
  repeat (let h := fresh "h" in destruct hs as [|h hs]; [discriminate|]);
  destruct hs; [|discriminate].

Lemma strip_dashed (hs : jsstring) :
  length hs = 32%nat -> Forall lowerHex hs -> replaceAll (str "-") [] (dashed hs) = hs.
Proof.
  intros Hlen Hall. explode hs.
  assert (Hw : Forall (fun c => c <> 45)
                 [h; h0; h1; h2; h3; h4; h5; h6; h7; h8; h9; h10; h11; h12; h13; h14; h15;
                  h16; h17; h18; h19; h20; h21; h22; h23; h24; h25; h26; h27; h28; h29; h30]).
  { eapply Forall_impl; [exact Hall|]. intros c Hc. apply hexChar_plain in Hc. tauto. }
  clear Hall Hlen.
  repeat match goal with
  | H : Forall _ (_ :: _) |- _ => apply Forall_cons in H as [? H]
  end.
  unfold replaceAll.
  change (dashed _) with
    (join [45] [[h; h0; h1; h2; h3; h4; h5; h6]; [h7; h8; h9; h10]; [h11; h12; h13; h14];
                [h15; h16; h17; h18]; [h19; h20; h21; h22; h23; h24; h25; h26; h27; h28; h29; h30]]).
  change (str "-") with [45]. rewrite split_join; [reflexivity|discriminate|].
  unfold without. repeat (constructor; [repeat (constructor; [assumption|]); constructor|]).
  constructor.
Qed.

Lemma toLowerCase_hex_dashed (hs : jsstring) :
  Forall lowerHex hs -> toLowerCase (dashed hs) = dashed hs.
Proof.
  intros Hall. unfold toLowerCase, dashed.
  assert (Hm : forall s, Forall lowerHex s ->
                 map (fun c => if (65 <=? c) && (c <=? 90) then c + 32 else c) s = s)
    by exact toLowerCase_hex.
  rewrite !map_app. cbn [map].
  rewrite !Hm; [reflexivity|..]; auto using Forall_take, Forall_drop.
Qed.

Lemma stringify_pairBytes (hs : jsstring) :
  length hs = 32%nat -> Forall lowerHex hs -> unsafeStringify (pairBytes hs) 0 = dashed hs.
Proof.
  intros Hlen Hall. explode hs.
  rewrite <- (toLowerCase_hex_dashed) by exact Hall.
  repeat match goal with
  | H : Forall _ (_ :: _) |- _ => apply Forall_cons in H as [? H]
  end.
  unfold unsafeStringify. f_equal.
  cbv -[parseInt numToUint8 toUint8 u8 byteToHex].
  rewrite !byteToHex_pair by assumption. reflexivity.
Qed.

(** ** The request header *)

Lemma port_bytes (p : Z) :
  0 <= p < 65536 -> u8 (toUint8 (sar p 8)) * 256 + u8 (toUint8 (band p 255)) = p.
Proof.
  intros Hp. rewrite sar_small, band_255 by lia. rewrite !u8_toUint8.
  change (2 ^ 8) with 256.
  assert (0 <= p / 256 < 256) by (split; [apply Z.div_pos|apply Z.div_lt_upper_bound]; lia).
  rewrite (Z.mod_small (p / 256)) by lia. rewrite Z.mod_mod by lia.
  pose proof (Z.div_mod p 256). lia.
Qed.

Lemma fixedPart_written (hs : jsstring) (command port addressType : Z) (k : nat) :
  length hs = 32%nat ->
  store (store (store (store (store
    (VlessOutbound.writeUuid (length hs) hs 0 (store (newUint8Array (22 + Z.of_nat k)) 0 (toUint8 0)))
    17 (toUint8 0)) 18 (toUint8 command)) 19 (toUint8 (sar port 8)))
    20 (toUint8 (band port 255))) 21 (toUint8 addressType)
  = fixedPart hs command port addressType ++ replicate k x00.
Proof.
  intros Hlen. explode hs. unfold newUint8Array.
  replace (Z.to_nat (22 + Z.of_nat k)) with (22 + k)%nat by lia.
  change (toUint8 0) with x00.
  cbv -[parseInt numToUint8 toUint8 sar band replicate]. fold (@replicate byte).
  reflexivity.
Qed.

Lemma fixedPart_length (hs : jsstring) (command port addressType : Z) :
  length hs = 32%nat -> length (fixedPart hs command port addressType) = 22%nat.
Proof. intros Hlen. explode hs. reflexivity. Qed.

Lemma fixed_version (hs : jsstring) (command port addressType : Z) (rest : list byte) :
  length hs = 32%nat ->
  getUint8 (fixedPart hs command port addressType ++ rest) (Int 0) = Return 0.
Proof. intros Hlen. explode hs. reflexivity. Qed.

Lemma fixed_uuid (hs : jsstring) (command port addressType : Z) (rest : list byte) :
  length hs = 32%nat ->
  slice (fixedPart hs command port addressType ++ rest) (Int 1) (Int 17) = pairBytes hs.
Proof.
  intros Hlen. rewrite slice_inside
    by (rewrite ?length_app, ?fixedPart_length by exact Hlen; lia).
  explode hs. reflexivity.
Qed.

Lemma fixed_addons (hs : jsstring) (command port addressType : Z) (rest : list byte) :
  length hs = 32%nat ->
  getUint8 (fixedPart hs command port addressType ++ rest) (Int 17) = Return 0.
Proof. intros Hlen. explode hs. reflexivity. Qed.

Lemma fixed_command (hs : jsstring) (command port addressType : Z) (rest : list byte) :
  length hs = 32%nat -> 0 <= command < 256 ->
  getUint8 (fixedPart hs command port addressType ++ rest) (Int 18) = Return command.
Proof.
  intros Hlen Hc. explode hs.
  transitivity (Return (u8 (toUint8 command)) : completion Z); [reflexivity|].
  rewrite u8_toUint8, Z.mod_small by lia. reflexivity.
Qed.

Lemma fixed_port (hs : jsstring) (command port addressType : Z) (rest : list byte) :
  length hs = 32%nat -> 0 <= port < 65536 ->
  getUint16 (fixedPart hs command port addressType ++ rest) (Int 19) = Return port.
Proof.
  intros Hlen Hp. explode hs.
  transitivity (Return (u8 (toUint8 (sar port 8)) * 256 + u8 (toUint8 (band port 255)))
                : completion Z); [reflexivity|].
  rewrite port_bytes by lia. reflexivity.
Qed.

Lemma fixed_type (hs : jsstring) (command port addressType : Z) (rest : list byte) :
  length hs = 32%nat -> 0 <= addressType < 256 ->
  getUint8 (fixedPart hs command port addressType ++ rest) (Int 21) = Return addressType.
Proof.
  intros Hlen Ht. explode hs.
  transitivity (Return (u8 (toUint8 addressType)) : completion Z); [reflexivity|].
  rewrite u8_toUint8, Z.mod_small by lia. reflexivity.
Qed.

Lemma fixed_rest_index (hs : jsstring) (command port addressType : Z) (rest : list byte) (k : Z) :
  length hs = 32%nat -> 0 <= k ->
  getUint8 (fixedPart hs command port addressType ++ rest) (Int (22 + k)) = getUint8 rest (Int k).
Proof.
  intros Hlen Hk.
  rewrite <- (getUint8_app_r (fixedPart hs command port addressType) rest k) by lia.
  rewrite fixedPart_length by exact Hlen. reflexivity.
Qed.

Lemma fixed_rest_word (hs : jsstring) (command port addressType : Z) (rest : list byte) (k : Z) :
  length hs = 32%nat -> 0 <= k ->
  getUint16 (fixedPart hs command port addressType ++ rest) (Int (22 + k))
  = getUint16 rest (Int k).
Proof.
  intros Hlen Hk.
  rewrite <- (getUint16_app_r (fixedPart hs command port addressType) rest k) by lia.
  rewrite fixedPart_length by exact Hlen. reflexivity.
Qed.

Lemma fixed_rest_slice (hs : jsstring) (command port addressType : Z) (rest : list byte)
  (a b : Z) :
  length hs = 32%nat -> 0 <= a <= b -> b <= Z.of_nat (length rest) ->
  slice (fixedPart hs command port addressType ++ rest) (Int (22 + a)) (Int (22 + b))
  = take (Z.to_nat (b - a)) (drop (Z.to_nat a) rest).
Proof.
  intros Hlen Hab Hb.
  rewrite <- (slice_app_r (fixedPart hs command port addressType) rest a b) by lia.
  rewrite fixedPart_length by exact Hlen. reflexivity.
Qed.

(** ** Parsing what was built *)

Lemma stringify_dashed (hs : jsstring) :
  length hs = 32%nat -> Forall lowerHex hs -> isValidUUID (dashed hs) = true ->
  stringify (pairBytes hs) 0 = Return (dashed hs).
Proof.
  intros Hlen Hall Hv. unfold stringify. rewrite stringify_pairBytes by assumption.
  rewrite Hv. reflexivity.
Qed.

(** The parser up to the address: the steps shared by the three address
    types. *)
Ltac parse_fixed userID Hlen Hall Hv Hin Hc Hp :=
  unfold Vless.processProtocolHeader;
  rewrite (proj2 (Z.ltb_ge _ _))
    by (rewrite length_app, fixedPart_length by exact Hlen; cbn [length];
        rewrite ?length_map; lia);
  rewrite fixed_version by exact Hlen; cbn [mbind completion_bind cbind];
  rewrite fixed_uuid by exact Hlen;
  rewrite stringify_dashed by assumption; cbn [mbind completion_bind cbind];
  fold (credentials userID);
  rewrite (proj2 (existsb_credentials _ _) Hin); cbn [negb];
  rewrite fixed_addons by exact Hlen; cbn [mbind completion_bind cbind];
  change (18 + 0) with 18;
  rewrite fixed_command by (try exact Hlen; lia); cbn [mbind completion_bind cbind];
  replace (negb (_ =? 1) && negb (_ =? 2)) with false
    by (destruct Hc as [-> | ->]; reflexivity);
  change (18 + 1) with 19;
  rewrite fixed_port by (try exact Hlen; lia); cbn [mbind completion_bind cbind];
  change (19 + 2) with 21;
  rewrite fixed_type by (try exact Hlen; lia); cbn [mbind completion_bind cbind].

Lemma parse_ipv4 (hs userID : jsstring) (command port : Z) (o1 o2 o3 o4 : byte) :
  length hs = 32%nat -> Forall lowerHex hs -> isValidUUID (dashed hs) = true ->
  In (dashed hs) (map trim (credentials userID)) ->
  command = 1 \/ command = 2 -> 0 <= port < 65536 ->
  Vless.processProtocolHeader (fixedPart hs command port 1 ++ [o1; o2; o3; o4]) userID
  = Return (Success {| addressRemote := joinBytes (str ".") [o1; o2; o3; o4];
                       addressType := 1; portRemote := port; rawDataIndex := Int 26;
                       protocolVersion := Some [x00]; isUDP := command =? 2 |}).
Proof.
  intros Hlen Hall Hv Hin Hc Hp. parse_fixed userID Hlen Hall Hv Hin Hc Hp.
  change (1 =? 1) with true. cbv iota.
  change (19 + 3) with (22 + 0). change (22 + 0 + 4) with (22 + 4).
  rewrite fixed_rest_slice by (try exact Hlen; cbn [length]; lia).
  change (take _ _) with [o1; o2; o3; o4].
  cbn [mbind completion_bind cbind].
  destruct (joinBytes _ _) eqn:E; [|reflexivity].
  exfalso. revert E. apply join_nonempty; [discriminate|cbn; lia].
Qed.

Lemma parse_domain (hs userID : jsstring) (command port : Z) (name : jsstring) :
  length hs = 32%nat -> Forall lowerHex hs -> isValidUUID (dashed hs) = true ->
  In (dashed hs) (map trim (credentials userID)) ->
  command = 1 \/ command = 2 -> 0 <= port < 65536 ->
  name <> [] -> (length name <= 255)%nat -> Forall (fun c => 0 <= c < 128) name ->
  Vless.processProtocolHeader
    (fixedPart hs command port 2 ++ toUint8 (Z.of_nat (length name)) :: map toUint8 name) userID
  = Return (Success {| addressRemote := name;
                       addressType := 2; portRemote := port;
                       rawDataIndex := Int (23 + Z.of_nat (length name));
                       protocolVersion := Some [x00]; isUDP := command =? 2 |}).
Proof.
  intros Hlen Hall Hv Hin Hc Hp Hne Hn Hascii.
  assert (1 <= length name)%nat by (destruct name; [congruence|cbn [length]; lia]).
  parse_fixed userID Hlen Hall Hv Hin Hc Hp.
  change (2 =? 1) with false. change (2 =? 2) with true. cbv iota.
  change (19 + 3) with (22 + 0). rewrite fixed_rest_index by (try exact Hlen; lia).
  assert (H0 : getUint8 (toUint8 (Z.of_nat (length name)) :: map toUint8 name) (Int 0)
               = Return (Z.of_nat (length name))).
  { transitivity (Return (u8 (toUint8 (Z.of_nat (length name)))) : completion Z);
      [reflexivity|]. rewrite u8_toUint8, Z.mod_small by lia. reflexivity. }
  rewrite H0. cbn [mbind completion_bind cbind].
  change (19 + 4) with (22 + 1).
  replace (22 + 1 + Z.of_nat (length name)) with (22 + (1 + Z.of_nat (length name))) by lia.
  rewrite fixed_rest_slice by (try exact Hlen; cbn [length]; rewrite ?length_map; lia).
  replace (Z.to_nat (1 + Z.of_nat (length name) - 1)) with (length (map toUint8 name))
    by (rewrite length_map; lia).
  change (Z.to_nat 1) with 1%nat. cbn [drop]. rewrite drop_0, firstn_all.
  rewrite textDecode_toUint8 by exact Hascii.
  replace (22 + (1 + Z.of_nat (length name))) with (23 + Z.of_nat (length name)) by lia.
  destruct name; [congruence|]. reflexivity.
Qed.

Lemma groupBytes_word (groups : list Z) (i : nat) (g : Z) :
  groups !! i = Some g -> 0 <= g < 65536 ->
  getUint16 (groupBytes groups) (Int (Z.of_nat i * 2)) = Return g.
Proof.
  revert i. induction groups as [|g0 groups IH]; intros i Hi Hg; [discriminate|].
  destruct i as [|i].
  - injection Hi as ->.
    transitivity (Return (u8 (toUint8 (sar g 8)) * 256 + u8 (toUint8 (band g 255)))
                  : completion Z); [reflexivity|].
    rewrite port_bytes by lia. reflexivity.
  - rewrite <- (IH i Hi Hg). unfold getUint16, toInteger.
    rewrite !(proj2 (Z.ltb_ge _ _)) by lia.
    replace (Z.to_nat (Z.of_nat (S i) * 2)) with (S (S (Z.to_nat (Z.of_nat i * 2)))) by lia.
    reflexivity.
Qed.

Lemma readGroups_groupBytes (hs : jsstring) (command port : Z) (groups : list Z) :
  length hs = 32%nat -> Forall (fun g => 0 <= g < 65536) groups ->
  forall (ixs : list nat) (gs : list Z),
    Forall2 (fun i g => groups !! i = Some g) ixs gs ->
    Vless.readGroups (fixedPart hs command port 3 ++ groupBytes groups) 22 (map Z.of_nat ixs)
    = Return (map (toStringRadix 16) gs).
Proof.
  intros Hlen Hall. induction 1 as [|i g ixs gs Hi _ IH]; [reflexivity|].
  cbn [map Vless.readGroups]. rewrite fixed_rest_word by (try exact Hlen; lia).
  rewrite (groupBytes_word groups i g Hi)
    by (rewrite Forall_lookup in Hall; exact (Hall i g Hi)).
  cbn [mbind completion_bind cbind]. rewrite IH. reflexivity.
Qed.

Lemma parse_ipv6 (hs userID : jsstring) (command port : Z) (groups : list Z) :
  length hs = 32%nat -> Forall lowerHex hs -> isValidUUID (dashed hs) = true ->
  In (dashed hs) (map trim (credentials userID)) ->
  command = 1 \/ command = 2 -> 0 <= port < 65536 ->
  length groups = 8%nat -> Forall (fun g => 0 <= g < 65536) groups ->
  Vless.processProtocolHeader (fixedPart hs command port 3 ++ groupBytes groups) userID
  = Return (Success {| addressRemote := join (str ":") (map (toStringRadix 16) groups);
                       addressType := 3; portRemote := port; rawDataIndex := Int 38;
                       protocolVersion := Some [x00]; isUDP := command =? 2 |}).
Proof.
  intros Hlen Hall Hv Hin Hc Hp Hg Hr.
  pose proof (readGroups_groupBytes hs command port groups Hlen Hr
                [0; 1; 2; 3; 4; 5; 6; 7]%nat groups) as Hread.
  assert (Hbytes : length (groupBytes groups) = 16%nat) by (clear Hr Hread; explode groups; reflexivity).
  parse_fixed userID Hlen Hall Hv Hin Hc Hp.
  change (3 =? 1) with false. change (3 =? 2) with false. change (3 =? 3) with true.
  cbv iota. change (19 + 3) with 22.
  change [0; 1; 2; 3; 4; 5; 6; 7] with (map Z.of_nat [0; 1; 2; 3; 4; 5; 6; 7]%nat).
  rewrite Hread.
  2:{ clear Hr Hread Hbytes. explode groups. repeat (constructor; [reflexivity|]). constructor. }
  cbn [mbind completion_bind cbind].
  destruct (join _ _) eqn:E; [|reflexivity].
  exfalso. revert E. apply join_nonempty; [discriminate|rewrite length_map; lia].
Qed.

(** ** Building the header *)

Lemma toStringRadix_hex (radix n : Z) :
  2 <= radix <= 16 -> 0 <= n ->
  toStringRadix radix n <> [] /\ Forall lowerHex (toStringRadix radix n).
Proof.
  intros Hr Hn. destruct (toStringRadix_digits radix n ltac:(lia) Hn) as (Hne & Hall & _).
  split; [exact Hne|]. eapply Forall_impl; [exact Hall|].
  intros c Hc. apply (digitOf_char radix); [lia|exact Hc].
Qed.

Lemma padStart0_hex (s : jsstring) :
  s <> [] -> Forall lowerHex s -> padStart0 4 s <> [] /\ Forall lowerHex (padStart0 4 s).
Proof.
  intros Hne Hall. unfold padStart0. split.
  - destruct s; [congruence|]. intros [_ H]%app_eq_nil. discriminate.
  - apply Forall_app. split; [|exact Hall]. apply Forall_replicate. reflexivity.
Qed.

Lemma lowerHex_without (c : Z) (s : jsstring) :
  c = 45 \/ c = 46 \/ c = 58 \/ c = 91 \/ c = 93 -> Forall lowerHex s -> without c s.
Proof.
  intros Hc Hall. eapply Forall_impl; [exact Hall|].
  intros x Hx. apply hexChar_plain in Hx. lia.
Qed.

Lemma store_rest (hs : jsstring) (command port addressType : Z) (rest : list byte)
  (j : Z) (v : byte) :
  length hs = 32%nat -> 22 <= j ->
  store (fixedPart hs command port addressType ++ rest) j v
  = fixedPart hs command port addressType ++ store rest (j - 22) v.
Proof.
  intros Hlen Hj. unfold store. rewrite !(proj2 (Z.ltb_ge _ _)) by lia.
  pose proof (fixedPart_length hs command port addressType Hlen) as Hf.
  rewrite insert_app_r_alt by lia. f_equal. f_equal. lia.
Qed.

Lemma textEncode_ascii (s : jsstring) :
  Forall (fun c => 0 <= c < 128) s -> textEncode s = map toUint8 s.
Proof.
  unfold textEncode. induction 1 as [|c s Hc _ IH]; [reflexivity|].
  cbn [codePoints].
  replace ((55296 <=? c) && (c <=? 56319)) with false
    by (symmetry; apply andb_false_iff; left; apply Z.leb_gt; lia).
  replace ((56320 <=? c) && (c <=? 57343)) with false
    by (symmetry; apply andb_false_iff; left; apply Z.leb_gt; lia).
  cbn [flat_map map]. rewrite IH. unfold utf8Bytes.
  rewrite (proj2 (Z.ltb_lt c 128)) by lia. reflexivity.
Qed.

Lemma build_ipv4 (hs : jsstring) (command port : Z) (o1 o2 o3 o4 : byte) :
  length hs = 32%nat -> Forall lowerHex hs ->
  VlessOutbound.makeVlessRequestHeader command 1 (joinBytes (str ".") [o1; o2; o3; o4]) port
    (dashed hs)
  = Return (fixedPart hs command port 1 ++ [o1; o2; o3; o4]).
Proof.
  intros Hlen Hall. unfold VlessOutbound.makeVlessRequestHeader.
  change (1 =? VLESS_ADDR_IPV4) with true. cbv iota. cbn [mbind completion_bind cbind].
  rewrite strip_dashed by assumption. cbv zeta.
  change (22 + 4) with (22 + Z.of_nat 4). rewrite fixedPart_written by exact Hlen.
  f_equal. unfold joinBytes. change (str ".") with [46]. cbn [map].
  assert (Ho : forall o : byte,
             without 46 (toString (u8 o)) /\ parseInt (toString (u8 o)) None = Int (u8 o)).
  { intros o. assert (0 <= u8 o) by (pose proof (u8_range o); lia). split.
    - apply lowerHex_without; [lia|]. apply toStringRadix_hex; lia.
    - apply parseInt_toString. lia. }
  rewrite split_join; [|discriminate|].
  2:{ repeat (constructor; [apply Ho|]). constructor. }
  cbn [VlessOutbound.writeOctets VlessOutbound.parseIntAt lookup list_lookup].
  rewrite !(proj2 (Ho _)). unfold numToUint8. cbn [toInteger]. rewrite !toUint8_u8.
  rewrite !store_rest by (try exact Hlen; lia). reflexivity.
Qed.

Lemma build_domain (hs : jsstring) (command port : Z) (name : jsstring) :
  length hs = 32%nat -> Forall lowerHex hs ->
  Forall (fun c => 0 <= c < 128) name ->
  VlessOutbound.makeVlessRequestHeader command 2 name port (dashed hs)
  = Return (fixedPart hs command port 2
            ++ toUint8 (Z.of_nat (length name)) :: map toUint8 name).
Proof.
  intros Hlen Hall Hascii. unfold VlessOutbound.makeVlessRequestHeader.
  change (2 =? VLESS_ADDR_IPV4) with false. change (2 =? VLESS_ADDR_DOMAIN) with true.
  cbv iota. cbn [mbind completion_bind cbind].
  rewrite strip_dashed by assumption. cbv zeta.
  rewrite textEncode_ascii by exact Hascii. rewrite length_map.
  replace (Z.of_nat (length name) + 1) with (Z.of_nat (S (length name))) by lia.
  rewrite fixedPart_written by exact Hlen.
  rewrite store_rest by (try exact Hlen; lia).
  change (22 - 22) with 0. cbn [replicate]. unfold store at 1. change (0 <? 0) with false.
  cbv iota. change (Z.to_nat 0) with 0%nat. cbn [insert list_insert].
  pose proof (fixedPart_length hs command port 2 Hlen) as Hf.
  unfold setArray. rewrite !length_app, Hf, length_map. cbn [length]. rewrite length_replicate.
  replace ((23 <? 0) || (Z.of_nat (22 + S (length name)) <? 23 + Z.of_nat (length name)))
    with false by (symmetry; apply orb_false_iff; split; apply Z.ltb_ge; lia).
  f_equal. change (Z.to_nat 23) with (22 + 1)%nat.
  rewrite (take_app_add' _ _ 22 1) by (symmetry; exact Hf). cbn [take].
  replace (22 + 1 + length name)%nat with (22 + S (length name))%nat by lia.
  rewrite (drop_app_add' _ _ 22) by (symmetry; exact Hf). cbn [drop].
  rewrite drop_ge by (rewrite length_replicate; lia).
  rewrite app_nil_r, <- app_assoc. reflexivity.
Qed.

Lemma join_Forall (P : Z -> Prop) (sep : jsstring) (parts : list jsstring) :
  Forall P sep -> Forall (Forall P) parts -> Forall P (join sep parts).
Proof.
  intros Hsep. induction 1 as [|p parts Hp Hall IH]; [constructor|].
  destruct parts as [|q parts]; [exact Hp|].
  change (join sep (p :: q :: parts)) with (p ++ sep ++ join sep (q :: parts)).
  repeat (apply Forall_app; split); assumption.
Qed.

Lemma stripBrackets_plain (s : jsstring) :
  Forall (fun c => c <> 91 /\ c <> 93) s -> VlessOutbound.stripBrackets s = s.
Proof.
  intros Hall. unfold VlessOutbound.stripBrackets.
  assert (H1 : match s with 91 :: r => r | _ => s end = s).
  { destruct Hall as [|c s [Hc _] _]; [reflexivity|].
    destruct c as [|p|p]; try reflexivity.
    do 7 (destruct p as [p|p|]; try reflexivity). congruence. }
  rewrite H1. destruct (rev s) as [|c r] eqn:E; [reflexivity|].
  assert (Hc : c <> 93).
  { rewrite List.Forall_forall in Hall. apply (Hall c). apply in_rev. rewrite E. left. reflexivity. }
  destruct c as [|p|p]; try reflexivity.
  do 7 (destruct p as [p|p|]; try reflexivity). congruence.
Qed.

Lemma build_ipv6 (hs : jsstring) (command port : Z) (groups : list Z) :
  length hs = 32%nat -> Forall lowerHex hs ->
  length groups = 8%nat -> Forall (fun g => 0 <= g < 65536) groups ->
  VlessOutbound.makeVlessRequestHeader command 3
    (join (str ":") (map (toStringRadix 16) groups)) port (dashed hs)
  = Return (fixedPart hs command port 3 ++ groupBytes groups).
Proof.
  intros Hlen Hall Hg Hr. unfold VlessOutbound.makeVlessRequestHeader.
  change (3 =? VLESS_ADDR_IPV4) with false. change (3 =? VLESS_ADDR_DOMAIN) with false.
  change (3 =? VLESS_ADDR_IPV6) with true.
  cbv iota. cbn [mbind completion_bind cbind].
  rewrite strip_dashed by assumption. cbv zeta.
  change (22 + 16) with (22 + Z.of_nat 16). rewrite fixedPart_written by exact Hlen.
  unfold VlessOutbound.expandIPv6.
  change (str ":") with [58]. change (str "::") with [58; 58].
  set (parts := map (toStringRadix 16) groups).
  assert (Hparts : Forall (fun p => p <> [] /\ Forall lowerHex p) parts).
  { unfold parts. apply Forall_map. eapply Forall_impl; [exact Hr|].
    intros g Hgr. cbv beta in Hgr. apply toStringRadix_hex; lia. }
  assert (Hne : parts <> []) by (unfold parts; destruct groups; discriminate).
  rewrite stripBrackets_plain.
  2:{ apply join_Forall; [constructor; [split; discriminate|constructor]|].
      eapply Forall_impl; [exact Hparts|]. intros p [_ Hp].
      eapply Forall_impl; [exact Hp|]. intros c Hc. apply hexChar_plain in Hc. lia. }
  rewrite includes_join.
  2:{ eapply Forall_impl; [exact Hparts|]. intros p [Hp Hh]. split; [|exact Hp].
      apply lowerHex_without; [lia|exact Hh]. }
  rewrite split_join; [|exact Hne|].
  2:{ eapply Forall_impl; [exact Hparts|]. intros p [_ Hh]. apply lowerHex_without; [lia|exact Hh]. }
  cbn [mbind completion_bind cbind].
  rewrite split_join.
  2:{ unfold parts. destruct groups; discriminate. }
  2:{ apply Forall_map. eapply Forall_impl; [exact Hparts|]. intros p [Hp Hh].
      apply lowerHex_without; [lia|]. apply padStart0_hex; assumption. }
  f_equal. unfold parts. clear parts Hparts Hne. explode groups.
  repeat match goal with
  | H : Forall _ (_ :: _) |- _ => apply Forall_cons in H as [? H]
  end.
  cbn [map VlessOutbound.writeGroups VlessOutbound.parseIntAt lookup list_lookup].
  rewrite !parseInt_padded by lia. cbn [toInteger].
  rewrite !store_rest by (try exact Hlen; lia). reflexivity.
Qed.

(** ** The round trip *)

(** C1 (as amended): for command 1 or 2, a port below 65536, an address in
    the text form the parser prints and a lower-case UUID that
    [isValidUUID] accepts and the credential list holds,
    [makeVlessRequestHeader] returns a header that [processProtocolHeader]
    parses without error: bytes 1 to 16 print as the UUID, and the result
    carries the command (as [isUDP]), the address type, the address and the
    port, with the raw data starting where the header ends. *)
Theorem vless_request_header_round_trip
  (command atype port : Z) (address uuid userID : jsstring) :
  command = 1 \/ command = 2 ->
  0 <= port < 65536 ->
  canonicalAddress atype address ->
  isValidUUID uuid = true -> toLowerCase uuid = uuid ->
  In uuid (map trim (credentials userID)) ->
  exists (vlessHeader : list byte) (h : header),
    VlessOutbound.makeVlessRequestHeader command atype address port uuid = Return vlessHeader
    /\ stringify (slice vlessHeader (Int 1) (Int 17)) 0 = Return uuid
    /\ Vless.processProtocolHeader vlessHeader userID = Return (Success h)
    /\ isUDP h = (command =? 2)
    /\ addressType h = atype
    /\ addressRemote h = address
    /\ portRemote h = port
    /\ rawDataIndex h = Int (Z.of_nat (length vlessHeader)).
Proof.
  intros Hc Hp Ha Hv Hl Hin.
  destruct (uuid_decompose uuid Hv Hl) as (hs & Hlen & Hall & ->).
  assert (Hu : forall c t rest,
             stringify (slice (fixedPart hs c port t ++ rest) (Int 1) (Int 17)) 0
             = Return (dashed hs)).
  { intros c t rest. rewrite fixed_uuid by exact Hlen. apply stringify_dashed; assumption. }
  pose proof (fun t => fixedPart_length hs command port t Hlen) as Hf.
  destruct Ha as [o1 o2 o3 o4|name Hne Hn Hascii|groups Hg Hr].
  - eexists _, _. split; [apply build_ipv4; assumption|].
    split; [apply Hu|]. split; [apply parse_ipv4; assumption|].
    cbn [isUDP addressType addressRemote portRemote rawDataIndex].
    rewrite length_app, Hf. repeat split.
  - eexists _, _. split; [apply build_domain; assumption|].
    split; [apply Hu|]. split; [apply parse_domain; assumption|].
    cbn [isUDP addressType addressRemote portRemote rawDataIndex].
    rewrite length_app, Hf. cbn [length]. rewrite length_map. repeat split. f_equal. lia.
  - eexists _, _. split; [apply build_ipv6; assumption|].
    split; [apply Hu|]. split; [apply parse_ipv6; assumption|].
    cbn [isUDP addressType addressRemote portRemote rawDataIndex].
    rewrite length_app, Hf.
    assert (Hb : length (groupBytes groups) = 16%nat) by (clear Hr; explode groups; reflexivity).
    rewrite Hb. repeat split.
Qed.

(** The round trip for a UDP request to example.com:443. *)
Lemma vless_request_header_round_trip_witness :
  exists (vlessHeader : list byte) (h : header),
    VlessOutbound.makeVlessRequestHeader 2 2 (str "example.com") 443
      (str "d342d11e-d424-4583-b36e-524ab1f0afa4") = Return vlessHeader
    /\ stringify (slice vlessHeader (Int 1) (Int 17)) 0
       = Return (str "d342d11e-d424-4583-b36e-524ab1f0afa4")
    /\ Vless.processProtocolHeader vlessHeader
         (str "00000000-0000-4000-8000-000000000000, d342d11e-d424-4583-b36e-524ab1f0afa4")
       = Return (Success h)
    /\ isUDP h = (2 =? 2)
    /\ addressType h = 2
    /\ addressRemote h = str "example.com"
    /\ portRemote h = 443
    /\ rawDataIndex h = Int (Z.of_nat (length vlessHeader)).
Proof.
  apply (vless_request_header_round_trip 2 2 443 (str "example.com")
           (str "d342d11e-d424-4583-b36e-524ab1f0afa4")
           (str "00000000-0000-4000-8000-000000000000, d342d11e-d424-4583-b36e-524ab1f0afa4")).
  - right. reflexivity.
  - lia.
  - apply CanonicalDomain.
    + discriminate.
    + vm_compute. lia.
    + apply (bool_decide_unpack _). vm_compute. exact I.
  - reflexivity.
  - reflexivity.
  - vm_compute. right. left. reflexivity.
Defined.

(** C1 as stated fails: with the UUID 11111111-1111-1111-1111-111111111111
    as the only credential the parser throws, and the address "::1" comes
    back as "0:0:0:0:0:0:0:1". *)
Lemma vless_round_trip_counterexample :
  (exists vlessHeader,
     VlessOutbound.makeVlessRequestHeader 1 2 (str "example.com") 443
       (str "11111111-1111-1111-1111-111111111111") = Return vlessHeader
     /\ In (str "11111111-1111-1111-1111-111111111111")
          (credentials (str "11111111-1111-1111-1111-111111111111"))
     /\ Vless.processProtocolHeader vlessHeader (str "11111111-1111-1111-1111-111111111111")
        = Throw (TypeError "Stringified UUID is invalid"))
  /\ (exists vlessHeader h,
        VlessOutbound.makeVlessRequestHeader 1 3 (str "::1") 443
          (str "d342d11e-d424-4583-b36e-524ab1f0afa4") = Return vlessHeader
        /\ Vless.processProtocolHeader vlessHeader (str "d342d11e-d424-4583-b36e-524ab1f0afa4")
           = Return (Success h)
        /\ addressRemote h = str "0:0:0:0:0:0:0:1"
        /\ addressRemote h <> str "::1").
Proof.
  split.
  - eexists. split; [vm_compute; reflexivity|]. split; [left; reflexivity|].
    vm_compute. reflexivity.
  - eexists _, _. split; [vm_compute; reflexivity|]. split; [vm_compute; reflexivity|].
    split; [reflexivity|discriminate].
Qed.

(* ================================================================== *)
(** * utils/crypto.js: test vectors                                    *)
(* ================================================================== *)

Example sha224_empty :
  Crypto.sha224 [] = Some (str "d14a028c2a3a2bc9476102bb288234c415a2b01f828ea62ac5b3e42f").
Proof. vm_compute. reflexivity. Qed.

Example sha224_abc : Crypto.sha224 (str "abc") = Some digestAbc.
Proof. vm_compute. reflexivity. Qed.

Example sha224_two_blocks :
  Crypto.sha224 (str "abcdbcdecdefdefgefghfghighijhijkijkljklmklmnlmnomnopnopq")
  = Some (str "75388b16512776cc5dba5da1fd890150b0c6455cb4f58b1952522525").
Proof. vm_compute. reflexivity. Qed.

(** Outside Latin-1 the function returns [undefined]. *)
Example sha224_not_latin1 : Crypto.sha224 [8364] = None.
Proof. vm_compute. reflexivity. Qed.

(* ================================================================== *)
(** * Further properties: parsers, tunnel, resolver and sessions *)
(* ================================================================== *)

(** ** The decoder on an arbitrary byte stream *)

(** The two length bytes of a frame are the bytes the encoder writes for
    that length. *)
Lemma encodeDatagram_header (hi lo : byte) (d : list byte) :
  Z.of_nat (length d) = u8 hi * 256 + u8 lo ->
  Udp.encodeDatagram d (Z.of_nat (length d)) = hi :: lo :: d.
Proof.
  intros Hlen. pose proof (u8_range hi). pose proof (u8_range lo).
  unfold Udp.encodeDatagram, Udp.joinUint8Array, concatBytes. cbn [app].
  rewrite Hlen. rewrite sar_small by lia. change (2 ^ 8) with 256.
  assert (Hq : (u8 hi * 256 + u8 lo) / 256 = u8 hi)
    by (symmetry; apply Z.div_unique with (u8 lo); lia).
  assert (Hm : (u8 hi * 256 + u8 lo) mod 256 = u8 lo)
    by (symmetry; apply Z.mod_unique with (u8 hi); lia).
  rewrite Hq. rewrite !band_255 by lia. rewrite Hm.
  rewrite (Z.mod_small (u8 hi)) by lia. rewrite !toUint8_u8. reflexivity.
Qed.

(** Every byte string is, in one way, some whole frames followed by the
    incomplete start of a frame. *)
Lemma frames_of_bytes (n : nat) :
  forall bs : list byte, (length bs <= n)%nat ->
    exists ds r, bs = encodeAll ds ++ r /\ Forall small ds /\ incomplete r.
Proof.
  induction n as [|n IH]; intros bs Hn.
  - destruct bs; [|cbn in Hn; lia]. exists [], []. split; [reflexivity|split; [constructor|exact I]].
  - destruct bs as [|hi [|lo rest]].
    + exists [], []. split; [reflexivity|split; [constructor|exact I]].
    + exists [], [hi]. split; [reflexivity|split; [constructor|exact I]].
    + pose proof (u8_range hi). pose proof (u8_range lo).
      destruct (Z.lt_ge_cases (Z.of_nat (length rest)) (u8 hi * 256 + u8 lo)) as [Hlt|Hge].
      * exists [], (hi :: lo :: rest). split; [reflexivity|split; [constructor|exact Hlt]].
      * set (k := Z.to_nat (u8 hi * 256 + u8 lo)).
        destruct (IH (drop k rest)) as (ds & r & Hd & Hs & Hr).
        { rewrite length_drop. cbn [length] in Hn. lia. }
        exists (take k rest :: ds), r.
        assert (Hk : Z.of_nat (length (take k rest)) = u8 hi * 256 + u8 lo)
          by (rewrite length_take; lia).
        split; [|split; [constructor; [unfold small; lia|exact Hs]|exact Hr]].
        change (encodeAll (take k rest :: ds))
          with (Udp.encodeDatagram (take k rest) (Z.of_nat (length (take k rest)))
                ++ encodeAll ds).
        rewrite (encodeDatagram_header hi lo) by exact Hk.
        cbn [app]. rewrite <- app_assoc, <- Hd, take_drop. reflexivity.
Qed.

Lemma writeAll_consumes (chunks : list (list byte)) :
  forall (leftoverData : list byte), incomplete leftoverData ->
    exists ds r,
      Udp.writeAll leftoverData chunks = (ds, r)
      /\ leftoverData ++ concat chunks = encodeAll ds ++ r
      /\ Forall small ds /\ incomplete r.
Proof.
  induction chunks as [|chunk rest IH]; intros leftoverData Hinc.
  - exists [], leftoverData. cbn. rewrite app_nil_r.
    split; [reflexivity|split; [reflexivity|split; [constructor|exact Hinc]]].
  - destruct (frames_of_bytes _ (leftoverData ++ chunk) (Nat.le_refl _))
      as (ds1 & r1 & Heq & Hs1 & Hr1).
    destruct (IH r1 Hr1) as (ds2 & r2 & Hw & Heq2 & Hs2 & Hr2).
    exists (ds1 ++ ds2), r2. cbn [Udp.writeAll concat].
    rewrite (write_frames _ _ ds1 r1 Hs1 Hr1 Heq), Hw.
    split; [reflexivity|]. split; [|split; [apply Forall_app; auto|exact Hr2]].
    rewrite app_assoc, Heq, <- app_assoc, Heq2.
    unfold encodeAll. rewrite map_app, concat_app, <- app_assoc. reflexivity.
Qed.

(** Whatever bytes arrive, cut into chunks in whatever way, the [write]
    handler of [makeWritableUDPStream] sends whole datagrams only: the
    frames of the datagrams sent, followed by the bytes it keeps, are the
    bytes received, and the bytes kept do not hold a whole frame. *)
Theorem udp_decoder_consumes_whole_frames (chunks : list (list byte)) :
  exists datagrams leftoverData,
    Udp.writeAll [] chunks = (datagrams, leftoverData)
    /\ concat chunks = encodeAll datagrams ++ leftoverData
    /\ Forall (fun d => Z.of_nat (length d) < 65536) datagrams
    /\ incomplete leftoverData.
Proof.
  destruct (writeAll_consumes chunks [] I) as (ds & r & H1 & H2 & H3 & H4).
  exists ds, r. auto.
Qed.

(** ** Requests the Trojan parser accepts *)

Lemma groupBytes_pair (hi lo : byte) (groups : list Z) :
  groupBytes ((u8 hi * 256 + u8 lo) :: groups) = hi :: lo :: groupBytes groups.
Proof.
  pose proof (u8_range hi). pose proof (u8_range lo).
  unfold groupBytes. cbn [flat_map app].
  assert (Hq : (u8 hi * 256 + u8 lo) / 256 = u8 hi)
    by (symmetry; apply Z.div_unique with (u8 lo); lia).
  assert (Hm : (u8 hi * 256 + u8 lo) mod 256 = u8 lo)
    by (symmetry; apply Z.mod_unique with (u8 hi); lia).
  rewrite sar_small by lia. change (2 ^ 8) with 256. rewrite Hq.
  rewrite band_255 by lia. rewrite Hm, !toUint8_u8. reflexivity.
Qed.

Lemma groupBytes_length (groups : list Z) :
  length (groupBytes groups) = (2 * length groups)%nat.
Proof. induction groups as [|g gs IH]; [reflexivity|]. cbn [groupBytes flat_map app length] in *.
  unfold groupBytes in IH. rewrite IH. lia. Qed.

(** The digest in front of a request is read back as it is. *)
Lemma digest_decoded (password digest : jsstring) (l : list byte) :
  Crypto.sha224 password = Some digest ->
  length (map toUint8 digest) = 56%nat
  /\ textDecode (slice (map toUint8 digest ++ l) (Int 0) (Int 56)) = digest.
Proof.
  intros Hsha. destruct (sha224_hex _ _ Hsha) as [Hlen Hhex].
  assert (Hpre : length (map toUint8 digest) = 56%nat) by (rewrite length_map; exact Hlen).
  split; [exact Hpre|].
  change (Int 56) with (Int (Z.of_nat 56)). rewrite <- Hpre at 1. rewrite slice_prefix.
  apply textDecode_toUint8. eapply Forall_impl; [exact Hhex|]. apply lowerHex_ascii.
Qed.

(** Reads behind a prefix of 56 bytes. *)
Lemma behind_digest (pre l : list byte) :
  length pre = 56%nat ->
  (forall k, 0 <= k -> index (pre ++ l) (56 + k) = index l k)
  /\ (forall k, 0 <= k -> getUint16 (pre ++ l) (Int (56 + k)) = getUint16 l (Int k))
  /\ (forall a b, 0 <= a <= b -> b <= Z.of_nat (length l) ->
        slice (pre ++ l) (Int (56 + a)) (Int (56 + b)) = take (Z.to_nat (b - a)) (drop (Z.to_nat a) l)).
Proof.
  intros Hpre. repeat split.
  - intros k Hk. rewrite <- (index_app_r pre l k Hk), Hpre. reflexivity.
  - intros k Hk. rewrite <- (getUint16_app_r pre l k Hk), Hpre. reflexivity.
  - intros a b Hab Hb. rewrite <- (slice_app_r pre l a b Hab Hb), Hpre. reflexivity.
Qed.

(** Reads at the end of the header: port and final CR LF. *)
Lemma behind_field (head payload : list byte) (hi lo : byte) :
  let buffer := head ++ hi :: lo :: x0d :: x0a :: payload in
  let p := Z.of_nat (length head) in
  getUint16 buffer (Int p) = Return (u8 hi * 256 + u8 lo)
  /\ index buffer (p + 2) = Some x0d
  /\ index buffer (p + 2 + 1) = Some x0a
  /\ Z.of_nat (length buffer) = p + 4 + Z.of_nat (length payload).
Proof.
  cbv zeta. repeat split.
  - replace (Z.of_nat (length head)) with (Z.of_nat (length head) + 0) by lia.
    rewrite getUint16_app_r by lia. reflexivity.
  - rewrite index_app_r by lia. reflexivity.
  - replace (Z.of_nat (length head) + 2 + 1) with (Z.of_nat (length head) + 3) by lia.
    rewrite index_app_r by lia. reflexivity.
  - rewrite length_app. cbn [length]. lia.
Qed.

Lemma trojan_domain_parses (password digest : jsstring) (command hi lo : byte)
    (name payload : list byte) :
  Crypto.sha224 password = Some digest ->
  u8 command = 1 \/ u8 command = 3 ->
  (length name <= 255)%nat ->
  Trojan.processTrojanHeader
    (map toUint8 digest ++ [x0d; x0a; command; x03]
     ++ (toUint8 (Z.of_nat (length name)) :: name) ++ [hi; lo; x0d; x0a] ++ payload) password
  = match textDecode name with
    | [] => Return (Failure (str "Address value is empty, address type is 3"))
    | _ =>
        Return (Success {| addressRemote := textDecode name; addressType := 2;
                           portRemote := u8 hi * 256 + u8 lo;
                           rawDataIndex := Int (64 + Z.of_nat (S (length name)));
                           protocolVersion := None; isUDP := (u8 command =? 3) |})
    end.
Proof.
  intros Hsha Hc Hn.
  set (len := toUint8 (Z.of_nat (length name))).
  assert (Hlen : u8 len = Z.of_nat (length name))
    by (unfold len; rewrite u8_toUint8, Z.mod_small; lia).
  set (l := [x0d; x0a; command; x03] ++ (len :: name) ++ [hi; lo; x0d; x0a] ++ payload).
  destruct (digest_decoded password digest l Hsha) as [Hpre Hdec].
  destruct (behind_digest (map toUint8 digest) l Hpre) as (Hi & _ & Hs).
  set (head := map toUint8 digest ++ [x0d; x0a; command; x03] ++ len :: name).
  assert (Hhead : Z.of_nat (length head) = 61 + Z.of_nat (length name)).
  { unfold head. rewrite length_app, Hpre. cbn [app length]. lia. }
  assert (Hbuf : map toUint8 digest ++ l = head ++ hi :: lo :: x0d :: x0a :: payload).
  { unfold head, l. cbn [app]. rewrite <- !app_assoc. reflexivity. }
  destruct (behind_field head payload hi lo) as (Hport & Hcr & Hlf & Hlength).
  cbv zeta in Hport, Hcr, Hlf, Hlength. rewrite <- Hbuf, Hhead in Hport, Hcr, Hlf, Hlength.
  assert (Hslice : slice (map toUint8 digest ++ l) (Int 61) (Int (61 + Z.of_nat (length name)))
                   = name).
  { change 61 with (56 + 5) at 1.
    replace (61 + Z.of_nat (length name)) with (56 + (5 + Z.of_nat (length name))) by lia.
    rewrite Hs by (unfold l; cbn [app length]; rewrite ?length_app; cbn [length]; lia).
    replace (Z.to_nat (5 + Z.of_nat (length name) - 5)) with (length name) by lia.
    change (Z.to_nat 5) with 5%nat. unfold l. cbn [app drop]. rewrite drop_0, take_app_length.
    reflexivity. }
  unfold Trojan.processTrojanHeader. cbv zeta.
  rewrite Hdec, Hsha. cbn [Trojan.sameHash]. rewrite eqb_refl. cbn [negb].
  rewrite Hlength. cbn [num_lt].
  rewrite (proj2 (Z.ltb_ge _ 58)) by lia.
  assert (H56 : index (map toUint8 digest ++ l) 56 = Some x0d) by (apply (Hi 0); lia).
  assert (H57 : index (map toUint8 digest ++ l) 57 = Some x0a) by (apply (Hi 1); lia).
  assert (H58 : index (map toUint8 digest ++ l) 58 = Some command) by (apply (Hi 2); lia).
  assert (H59 : index (map toUint8 digest ++ l) 59 = Some x03) by (apply (Hi 3); lia).
  assert (H60 : index (map toUint8 digest ++ l) 60 = Some len) by (apply (Hi 4); lia).
  rewrite H56, H57, H58, H59, H60.
  change (Trojan.differs (Some x0d) 13 || Trojan.differs (Some x0a) 10) with false.
  replace (Trojan.differs (Some command) TROJAN_CMD_TCP
           && Trojan.differs (Some command) TROJAN_CMD_UDP) with false
    by (cbn [Trojan.differs]; unfold TROJAN_CMD_TCP, TROJAN_CMD_UDP;
        destruct Hc as [-> | ->]; reflexivity).
  cbv iota. change (option_map u8 (Some x03)) with (Some 3). cbv iota.
  cbn [Trojan.toNumber num_add num_lt]. rewrite Hlen.
  rewrite (proj2 (Z.ltb_ge _ (61 + Z.of_nat (length name) + 2))) by lia.
  cbn [mbind completion_bind cbind num_add num_lt].
  rewrite (proj2 (Z.ltb_ge _ (61 + Z.of_nat (length name) + 2))) by lia.
  rewrite Hport. cbn [mbind completion_bind cbind num_add num_lt indexNum].
  rewrite (proj2 (Z.ltb_ge _ (61 + Z.of_nat (length name) + 2 + 2))) by lia.
  rewrite Hcr, Hlf.
  change (Trojan.differs (Some x0d) 13 || Trojan.differs (Some x0a) 10) with false.
  cbv iota.
  rewrite !Hslice.
  destruct (textDecode name) eqn:E; [reflexivity|].
  cbn [Trojan.toNumber toInteger]. change (u8 x03 =? 3) with true. cbv iota.
  replace (Z.of_nat (S (length name))) with (1 + Z.of_nat (length name)) by lia.
  replace (61 + Z.of_nat (length name) + 2 + 2) with (64 + (1 + Z.of_nat (length name))) by lia.
  replace (negb (Trojan.differs (Some command) TROJAN_CMD_UDP)) with (u8 command =? 3)
    by (cbn [Trojan.differs]; unfold TROJAN_CMD_UDP; rewrite negb_involutive; reflexivity).
  reflexivity.
Qed.

Lemma getUint16_app_l (l post : list byte) (k v : Z) :
  getUint16 l (Int k) = Return v -> getUint16 (l ++ post) (Int k) = Return v.
Proof.
  unfold getUint16, toInteger. destruct (k <? 0); [discriminate|].
  destruct (l !! Z.to_nat k) as [hi|] eqn:Ehi; [|discriminate].
  destruct (l !! S (Z.to_nat k)) as [lo|] eqn:Elo; [|discriminate].
  intros H. rewrite (lookup_app_l_Some _ _ _ _ Ehi), (lookup_app_l_Some _ _ _ _ Elo). exact H.
Qed.

Lemma trojan_readGroups_groupBytes (pre post : list byte) (groups : list Z) :
  Forall (fun g => 0 <= g < 65536) groups ->
  forall (ixs : list nat) (gs : list Z),
    Forall2 (fun i g => groups !! i = Some g) ixs gs ->
    Trojan.readGroups (pre ++ groupBytes groups ++ post) (Int (Z.of_nat (length pre)))
      (map Z.of_nat ixs)
    = Return (map (toStringRadix 16) gs).
Proof.
  intros Hall. induction 1 as [|i g ixs gs Hi _ IH]; [reflexivity|].
  cbn [map Trojan.readGroups num_add]. rewrite getUint16_app_r by lia.
  rewrite (getUint16_app_l _ _ _ g).
  2:{ apply groupBytes_word; [exact Hi|]. rewrite Forall_lookup in Hall. exact (Hall i g Hi). }
  cbn [mbind completion_bind cbind]. rewrite IH. reflexivity.
Qed.

Lemma trojan_ipv6_parses (password digest : jsstring) (command hi lo : byte)
    (groups : list Z) (payload : list byte) :
  Crypto.sha224 password = Some digest ->
  u8 command = 1 \/ u8 command = 3 ->
  length groups = 8%nat -> Forall (fun g => 0 <= g < 65536) groups ->
  Trojan.processTrojanHeader
    (map toUint8 digest ++ [x0d; x0a; command; x04]
     ++ groupBytes groups ++ [hi; lo; x0d; x0a] ++ payload) password
  = Return (Success {| addressRemote := join (str ":") (map (toStringRadix 16) groups);
                       addressType := 4;
                       portRemote := u8 hi * 256 + u8 lo;
                       rawDataIndex := Int (64 + 16);
                       protocolVersion := None; isUDP := (u8 command =? 3) |}).
Proof.
  intros Hsha Hc Hg Hr.
  pose proof (groupBytes_length groups) as Hgb. rewrite Hg in Hgb.
  set (l := [x0d; x0a; command; x04] ++ groupBytes groups ++ [hi; lo; x0d; x0a] ++ payload).
  destruct (digest_decoded password digest l Hsha) as [Hpre Hdec].
  destruct (behind_digest (map toUint8 digest) l Hpre) as (Hi & _ & _).
  set (head := map toUint8 digest ++ [x0d; x0a; command; x04] ++ groupBytes groups).
  assert (Hhead : Z.of_nat (length head) = 76).
  { unfold head. rewrite !length_app, Hpre, Hgb. cbn [length]. lia. }
  assert (Hbuf : map toUint8 digest ++ l = head ++ hi :: lo :: x0d :: x0a :: payload).
  { unfold head, l. cbn [app]. rewrite <- !app_assoc. reflexivity. }
  destruct (behind_field head payload hi lo) as (Hport & Hcr & Hlf & Hlength).
  cbv zeta in Hport, Hcr, Hlf, Hlength. rewrite <- Hbuf, Hhead in Hport, Hcr, Hlf, Hlength.
  assert (Hread : Trojan.readGroups (map toUint8 digest ++ l) (Int 60) [0; 1; 2; 3; 4; 5; 6; 7]
                  = Return (map (toStringRadix 16) groups)).
  { pose proof (trojan_readGroups_groupBytes (map toUint8 digest ++ [x0d; x0a; command; x04])
                  ([hi; lo; x0d; x0a] ++ payload) groups Hr
                  [0; 1; 2; 3; 4; 5; 6; 7]%nat groups) as H.
    rewrite length_app, Hpre in H. unfold l. rewrite app_assoc. apply H.
    clear -Hg. explode groups. repeat (constructor; [reflexivity|]). constructor. }
  unfold Trojan.processTrojanHeader. cbv zeta.
  rewrite Hdec, Hsha. cbn [Trojan.sameHash]. rewrite eqb_refl. cbn [negb].
  rewrite Hlength. cbn [num_lt].
  rewrite (proj2 (Z.ltb_ge _ 58)) by lia.
  assert (H56 : index (map toUint8 digest ++ l) 56 = Some x0d) by (apply (Hi 0); lia).
  assert (H57 : index (map toUint8 digest ++ l) 57 = Some x0a) by (apply (Hi 1); lia).
  assert (H58 : index (map toUint8 digest ++ l) 58 = Some command) by (apply (Hi 2); lia).
  assert (H59 : index (map toUint8 digest ++ l) 59 = Some x04) by (apply (Hi 3); lia).
  rewrite H56, H57, H58, H59.
  change (Trojan.differs (Some x0d) 13 || Trojan.differs (Some x0a) 10) with false.
  replace (Trojan.differs (Some command) TROJAN_CMD_TCP
           && Trojan.differs (Some command) TROJAN_CMD_UDP) with false
    by (cbn [Trojan.differs]; unfold TROJAN_CMD_TCP, TROJAN_CMD_UDP;
        destruct Hc as [-> | ->]; reflexivity).
  cbv iota. change (option_map u8 (Some x04)) with (Some 4). cbv iota.
  cbn [num_add num_lt].
  rewrite (proj2 (Z.ltb_ge _ (60 + 16 + 2))) by lia.
  rewrite Hread.
  cbn [mbind completion_bind cbind num_add num_lt].
  rewrite (proj2 (Z.ltb_ge _ (60 + 16 + 2))) by lia.
  change (60 + 16) with 76.
  rewrite Hport. cbn [mbind completion_bind cbind num_add num_lt indexNum].
  rewrite (proj2 (Z.ltb_ge _ (76 + 2 + 2))) by lia.
  rewrite Hcr, Hlf.
  change (Trojan.differs (Some x0d) 13 || Trojan.differs (Some x0a) 10) with false.
  cbv iota.
  destruct (join _ _) eqn:E.
  { exfalso. revert E. apply join_nonempty; [discriminate|rewrite length_map; lia]. }
  replace (negb (Trojan.differs (Some command) TROJAN_CMD_UDP)) with (u8 command =? 3)
    by (cbn [Trojan.differs]; unfold TROJAN_CMD_UDP; rewrite negb_involutive; reflexivity).
  reflexivity.
Qed.

Lemma trojan_ipv4_parses (password digest : jsstring) (command hi lo o1 o2 o3 o4 : byte)
    (payload : list byte) :
  Crypto.sha224 password = Some digest ->
  u8 command = 1 \/ u8 command = 3 ->
  Trojan.processTrojanHeader
    (map toUint8 digest ++ [x0d; x0a; command; x01]
     ++ [o1; o2; o3; o4] ++ [hi; lo; x0d; x0a] ++ payload) password
  = Return (Success {| addressRemote := joinBytes (str ".") [o1; o2; o3; o4];
                       addressType := 1;
                       portRemote := u8 hi * 256 + u8 lo;
                       rawDataIndex := Int (64 + 4);
                       protocolVersion := None; isUDP := (u8 command =? 3) |}).
Proof.
  intros Hsha Hc.
  set (l := [x0d; x0a; command; x01] ++ [o1; o2; o3; o4] ++ [hi; lo; x0d; x0a] ++ payload).
  destruct (digest_decoded password digest l Hsha) as [Hpre Hdec].
  destruct (behind_digest (map toUint8 digest) l Hpre) as (Hi & _ & Hs).
  set (head := map toUint8 digest ++ [x0d; x0a; command; x01] ++ [o1; o2; o3; o4]).
  assert (Hhead : Z.of_nat (length head) = 64).
  { unfold head. rewrite !length_app, Hpre. cbn [length]. lia. }
  assert (Hbuf : map toUint8 digest ++ l = head ++ hi :: lo :: x0d :: x0a :: payload).
  { unfold head, l. cbn [app]. rewrite <- !app_assoc. reflexivity. }
  destruct (behind_field head payload hi lo) as (Hport & Hcr & Hlf & Hlength).
  cbv zeta in Hport, Hcr, Hlf, Hlength. rewrite <- Hbuf, Hhead in Hport, Hcr, Hlf, Hlength.
  assert (Hslice : slice (map toUint8 digest ++ l) (Int 60) (Int (60 + 4)) = [o1; o2; o3; o4]).
  { change 60 with (56 + 4) at 1. change (60 + 4) with (56 + 8).
    rewrite Hs by (unfold l; cbn [app length]; lia). reflexivity. }
  unfold Trojan.processTrojanHeader. cbv zeta.
  rewrite Hdec, Hsha. cbn [Trojan.sameHash]. rewrite eqb_refl. cbn [negb].
  rewrite Hlength. cbn [num_lt].
  rewrite (proj2 (Z.ltb_ge _ 58)) by lia.
  assert (H56 : index (map toUint8 digest ++ l) 56 = Some x0d) by (apply (Hi 0); lia).
  assert (H57 : index (map toUint8 digest ++ l) 57 = Some x0a) by (apply (Hi 1); lia).
  assert (H58 : index (map toUint8 digest ++ l) 58 = Some command) by (apply (Hi 2); lia).
  assert (H59 : index (map toUint8 digest ++ l) 59 = Some x01) by (apply (Hi 3); lia).
  rewrite H56, H57, H58, H59.
  change (Trojan.differs (Some x0d) 13 || Trojan.differs (Some x0a) 10) with false.
  replace (Trojan.differs (Some command) TROJAN_CMD_TCP
           && Trojan.differs (Some command) TROJAN_CMD_UDP) with false
    by (cbn [Trojan.differs]; unfold TROJAN_CMD_TCP, TROJAN_CMD_UDP;
        destruct Hc as [-> | ->]; reflexivity).
  cbv iota. change (option_map u8 (Some x01)) with (Some 1). cbv iota.
  cbn [num_add num_lt].
  rewrite (proj2 (Z.ltb_ge _ (60 + 4 + 2))) by lia.
  rewrite !Hslice.
  cbn [mbind completion_bind cbind num_add num_lt].
  rewrite (proj2 (Z.ltb_ge _ (60 + 4 + 2))) by lia.
  change (60 + 4) with 64.
  rewrite Hport. cbn [mbind completion_bind cbind num_add num_lt indexNum].
  rewrite (proj2 (Z.ltb_ge _ (64 + 2 + 2))) by lia.
  rewrite Hcr, Hlf.
  change (Trojan.differs (Some x0d) 13 || Trojan.differs (Some x0a) 10) with false.
  cbv iota.
  destruct (joinBytes _ _) eqn:E.
  { exfalso. revert E. apply join_nonempty; [discriminate|cbn; lia]. }
  replace (negb (Trojan.differs (Some command) TROJAN_CMD_UDP)) with (u8 command =? 3)
    by (cbn [Trojan.differs]; unfold TROJAN_CMD_UDP; rewrite negb_involutive; reflexivity).
  reflexivity.
Qed.

(** ** What an accepted buffer looks like *)

Lemma bytes_of_u8 (bs : list byte) : map toUint8 (map u8 bs) = bs.
Proof.
  rewrite map_map. rewrite <- (map_id bs) at 2. apply map_ext. intros b. apply toUint8_u8.
Qed.

Lemma u8_eq (b : byte) (v : Z) : u8 b = v -> b = toUint8 v.
Proof. intros <-. symmetry. apply toUint8_u8. Qed.

(** Any 2k bytes are the bytes of k groups. *)
Lemma groups_of_bytes (k : nat) :
  forall bs : list byte, length bs = (2 * k)%nat ->
    exists groups, bs = groupBytes groups /\ length groups = k
                   /\ Forall (fun g => 0 <= g < 65536) groups.
Proof.
  induction k as [|k IH]; intros bs Hlen.
  - destruct bs; [|discriminate]. exists []. repeat split. constructor.
  - destruct bs as [|hi [|lo bs]]; cbn [length] in Hlen; try lia.
    destruct (IH bs ltac:(lia)) as (gs & -> & Hk & Hr).
    exists ((u8 hi * 256 + u8 lo) :: gs). rewrite groupBytes_pair.
    split; [reflexivity|]. split; [cbn [length]; lia|].
    constructor; [|exact Hr]. pose proof (u8_range hi). pose proof (u8_range lo). lia.
Qed.

(** A list from an index on, element by element. *)
Lemma drop_lookup (l : list byte) (i : nat) (x : byte) :
  l !! i = Some x -> drop i l = x :: drop (S i) l.
Proof. apply drop_S. Qed.

Lemma index_Some (l : list byte) (k : Z) (x : byte) :
  index l k = Some x -> 0 <= k /\ l !! Z.to_nat k = Some x.
Proof.
  unfold index. destruct (Z.ltb_spec k 0); [discriminate|]. intros Hx. split; [lia|exact Hx].
Qed.

(** The buffer behind the digest when the parser comes to the address. *)
(** A length check that the run has passed. *)
Ltac pass_check H :=
  match type of H with
  | context [(?a <? ?b)] => destruct (Z.ltb_spec a b); [discriminate H|]; cbv beta iota in H
  end.

Lemma trojan_success_shape (buffer : list byte) (password : jsstring) (h : header) :
  Trojan.processTrojanHeader buffer password = Return (Success h) ->
  exists (digest : jsstring) (command t hi lo : byte) (field payload : list byte),
    Crypto.sha224 password = Some digest
    /\ buffer = map toUint8 digest ++ [x0d; x0a; command; t] ++ field
                ++ [hi; lo; x0d; x0a] ++ payload
    /\ (u8 command = 1 \/ u8 command = 3)
    /\ ((u8 t = 1 /\ length field = 4%nat)
        \/ (u8 t = 3 /\ exists name, field = toUint8 (Z.of_nat (length name)) :: name
                                     /\ (length name <= 255)%nat)
        \/ (u8 t = 4 /\ length field = 16%nat)).
Proof.
  unfold Trojan.processTrojanHeader. unfold num_lt at 1.
  destruct (Z.ltb_spec (Z.of_nat (length buffer)) 58) as [Hshort|Hlen]; [discriminate|].
  destruct (Trojan.sameHash _ _) eqn:Ehash; cbn [negb]; [|discriminate].
  destruct (Crypto.sha224 password) as [digest|] eqn:Hsha; [|discriminate].
  cbn [Trojan.sameHash] in Ehash. apply eqb_eq in Ehash.
  destruct (sha224_hex _ _ Hsha) as [Hdl Hhex].
  assert (Hpre : take 56 buffer = map toUint8 digest).
  { rewrite slice_inside in Ehash by lia. change (Z.to_nat (56 - 0)) with 56%nat in Ehash.
    change (Z.to_nat 0) with 0%nat in Ehash. rewrite drop_0 in Ehash.
    apply textDecode_ascii_inv in Ehash.
    - rewrite <- Ehash. symmetry. apply bytes_of_u8.
    - eapply Forall_impl; [exact Hhex|]. intros c Hc. apply lowerHex_ascii in Hc. lia.
    - rewrite length_take. lia. }
  destruct (_ || _) eqn:Ecrlf; [discriminate|].
  apply orb_false_iff in Ecrlf as [E56 E57].
  apply differs_false in E56 as (b56 & H56 & V56). apply differs_false in E57 as (b57 & H57 & V57).
  apply u8_eq in V56, V57. change (toUint8 13) with x0d in V56. change (toUint8 10) with x0a in V57.
  subst b56 b57.
  destruct (_ && _) eqn:Ecmd; [discriminate|].
  assert (Hcmd : exists command, index buffer 58 = Some command
                                 /\ (u8 command = 1 \/ u8 command = 3)).
  { apply andb_false_iff in Ecmd as [E|E]; apply differs_false in E as (c & Hc & Vc);
      exists c; (split; [exact Hc|]); unfold TROJAN_CMD_TCP, TROJAN_CMD_UDP in Vc; lia. }
  destruct Hcmd as (command & H58 & Hc). clear Ecmd.
  apply index_Some in H56 as [_ H56]. apply index_Some in H57 as [_ H57].
  apply index_Some in H58 as [_ H58].
  change (Z.to_nat 56) with 56%nat in H56. change (Z.to_nat 57) with 57%nat in H57.
  change (Z.to_nat 58) with 58%nat in H58.
  change 59 with (Z.of_nat 59). rewrite index_nat.
  destruct (buffer !! 59%nat) as [t|] eqn:H59; [|discriminate].
  cbn [option_map Trojan.toNumber toInteger].
  assert (Hhead : buffer = map toUint8 digest ++ [x0d; x0a; command; t] ++ drop 60 buffer).
  { rewrite <- (take_drop 56 buffer) at 1. rewrite Hpre. f_equal.
    rewrite (drop_S _ _ _ H56), (drop_S _ _ _ H57), (drop_S _ _ _ H58), (drop_S _ _ _ H59).
    reflexivity. }
  (* what the part after the address needs *)
  assert (Hk : forall flen : nat,
             Z.of_nat (length buffer) >= 60 + Z.of_nat flen + 4 ->
             index buffer (60 + Z.of_nat flen + 2) = Some x0d ->
             index buffer (60 + Z.of_nat flen + 2 + 1) = Some x0a ->
             exists hi lo field payload,
               drop 60 buffer = field ++ [hi; lo; x0d; x0a] ++ payload
               /\ length field = flen /\ field = take flen (drop 60 buffer)).
  { intros flen Hlong Hcr Hlf.
    apply index_Some in Hcr as [_ Hcr]. apply index_Some in Hlf as [_ Hlf].
    replace (Z.to_nat (60 + Z.of_nat flen + 2)) with (S (S (60 + flen))) in Hcr by lia.
    replace (Z.to_nat (60 + Z.of_nat flen + 2 + 1)) with (S (S (S (60 + flen)))) in Hlf by lia.
    destruct (lookup_lt_is_Some_2 buffer (60 + flen) ltac:(lia)) as [hi Hhi].
    destruct (lookup_lt_is_Some_2 buffer (S (60 + flen)) ltac:(lia)) as [lo Hlo].
    exists hi, lo, (take flen (drop 60 buffer)), (drop (S (S (S (S (60 + flen))))) buffer).
    split; [|split; [rewrite length_take, length_drop; lia|reflexivity]].
    rewrite <- (take_drop flen (drop 60 buffer)) at 1. f_equal.
    rewrite drop_drop.
    rewrite (drop_S _ _ _ Hhi), (drop_S _ _ _ Hlo), (drop_S _ _ _ Hcr), (drop_S _ _ _ Hlf).
    reflexivity. }
  intros H.
  assert (Hcases : u8 t = 1 \/ u8 t = 3 \/ u8 t = 4
                   \/ (u8 t <> 1 /\ u8 t <> 3 /\ u8 t <> 4)) by lia.
  destruct Hcases as [E|[E|[E|(E1 & E3 & E4)]]].
  - (* IPv4 *)
    rewrite E in H. cbn [num_add num_lt] in H.
    try pass_check H.
    cbn [mbind completion_bind cbind num_add num_lt] in H.
    try pass_check H.
    destruct (getUint16 buffer (Int (60 + 4))); [|discriminate].
    cbn [mbind completion_bind cbind num_add num_lt indexNum] in H.
    try pass_check H.
    destruct (_ || _) eqn:Ecrlf in H; [discriminate|].
    apply orb_false_iff in Ecrlf as [Ecr Elf].
    apply differs_false in Ecr as (bcr & Hcr & Vcr). apply differs_false in Elf as (blf & Hlf & Vlf).
    apply u8_eq in Vcr, Vlf. change (toUint8 13) with x0d in Vcr. change (toUint8 10) with x0a in Vlf.
    subst bcr blf.
    destruct (Hk 4%nat ltac:(lia) Hcr Hlf) as (hi & lo & field & payload & Hd & Hfl & _).
    exists digest, command, t, hi, lo, field, payload.
    split; [reflexivity|]. split; [rewrite Hhead at 1; rewrite Hd; reflexivity|].
    split; [exact Hc|]. left. auto.
  - (* a domain name *)
    rewrite E in H. rewrite !(index_nat buffer 60 : index buffer 60 = _) in H.
    destruct (buffer !! 60%nat) as [n|] eqn:Hn; cbn [Trojan.toNumber num_add num_lt] in H.
    + pose proof (u8_range n).
      try pass_check H.
      cbn [mbind completion_bind cbind num_add num_lt] in H.
      try pass_check H.
      destruct (getUint16 buffer (Int (61 + u8 n))); [|discriminate].
      cbn [mbind completion_bind cbind num_add num_lt indexNum] in H.
      try pass_check H.
      destruct (_ || _) eqn:Ecrlf in H; [discriminate|].
      apply orb_false_iff in Ecrlf as [Ecr Elf].
      apply differs_false in Ecr as (bcr & Hcr & Vcr).
      apply differs_false in Elf as (blf & Hlf & Vlf).
      apply u8_eq in Vcr, Vlf. change (toUint8 13) with x0d in Vcr.
      change (toUint8 10) with x0a in Vlf. subst bcr blf.
      set (flen := S (Z.to_nat (u8 n))).
      replace (61 + u8 n) with (60 + Z.of_nat flen) in Hcr, Hlf by (unfold flen; lia).
      destruct (Hk flen ltac:(unfold flen; lia) Hcr Hlf)
        as (hi & lo & field & payload & Hd & Hfl & Hfield).
      exists digest, command, t, hi, lo, field, payload.
      split; [reflexivity|]. split; [rewrite Hhead at 1; rewrite Hd; reflexivity|].
      split; [exact Hc|]. right. left. split; [exact E|].
      exists (take (Z.to_nat (u8 n)) (drop 61 buffer)).
      assert (Hnl : length (take (Z.to_nat (u8 n)) (drop 61 buffer)) = Z.to_nat (u8 n))
        by (rewrite length_take, length_drop; lia).
      rewrite Hnl. split; [|lia].
      rewrite Z2Nat.id by lia. rewrite toUint8_u8.
      rewrite Hfield. unfold flen. rewrite (drop_S _ _ _ Hn). reflexivity.
    + (* the length byte is missing *)
      exfalso. cbn [mbind completion_bind cbind num_add num_lt indexNum] in H.
      destruct (getUint16 buffer NaN); [|discriminate].
      cbn [mbind completion_bind cbind Trojan.differs orb] in H. discriminate.
  - (* IPv6 *)
    rewrite E in H. cbn [num_add num_lt] in H.
    try pass_check H.
    destruct (Trojan.readGroups buffer (Int 60) _); [|discriminate].
    cbn [mbind completion_bind cbind num_add num_lt] in H.
    try pass_check H.
    destruct (getUint16 buffer (Int (60 + 16))); [|discriminate].
    cbn [mbind completion_bind cbind num_add num_lt indexNum] in H.
    try pass_check H.
    destruct (_ || _) eqn:Ecrlf in H; [discriminate|].
    apply orb_false_iff in Ecrlf as [Ecr Elf].
    apply differs_false in Ecr as (bcr & Hcr & Vcr). apply differs_false in Elf as (blf & Hlf & Vlf).
    apply u8_eq in Vcr, Vlf. change (toUint8 13) with x0d in Vcr. change (toUint8 10) with x0a in Vlf.
    subst bcr blf.
    destruct (Hk 16%nat ltac:(lia) Hcr Hlf) as (hi & lo & field & payload & Hd & Hfl & _).
    exists digest, command, t, hi, lo, field, payload.
    split; [reflexivity|]. split; [rewrite Hhead at 1; rewrite Hd; reflexivity|].
    split; [exact Hc|]. right. right. auto.
  - (* any other address type *)
    exfalso.
    assert (Hdefault :
              forall (A : Type) (a b c d : A),
                match u8 t with 3 => a | 4 => b | 1 => c | _ => d end = d).
    { intros A a b c d. destruct (u8 t) as [|p|p] eqn:Eu; try reflexivity.
      destruct p as [[p|p|]|[p|[p|p|]|]|]; try reflexivity; lia. }
    rewrite Hdefault in H. cbn [mbind completion_bind cbind] in H. discriminate.
Qed.

Lemma x01_of_u8 (t : byte) : u8 t = 1 -> t = x01.
Proof. intros H. apply u8_eq in H. exact H. Qed.

Lemma x03_of_u8 (t : byte) : u8 t = 3 -> t = x03.
Proof. intros H. apply u8_eq in H. exact H. Qed.

Lemma x04_of_u8 (t : byte) : u8 t = 4 -> t = x04.
Proof. intros H. apply u8_eq in H. exact H. Qed.

(** The parser on a buffer of the shape of a request. *)
Lemma trojan_request_parses (password digest : jsstring) (command t hi lo : byte)
    (field payload : list byte) (text : jsstring) :
  Crypto.sha224 password = Some digest ->
  u8 command = 1 \/ u8 command = 3 ->
  trojanAddress (u8 t) field text ->
  Trojan.processTrojanHeader
    (map toUint8 digest ++ [x0d; x0a; command; t] ++ field ++ [hi; lo; x0d; x0a] ++ payload)
    password
  = match text with
    | [] => Return (Failure (str "Address value is empty, address type is 3"))
    | _ =>
        Return (Success {| addressRemote := text;
                           addressType := (if u8 t =? 3 then VLESS_ADDR_DOMAIN else u8 t);
                           portRemote := u8 hi * 256 + u8 lo;
                           rawDataIndex := Int (64 + Z.of_nat (length field));
                           protocolVersion := None;
                           isUDP := (u8 command =? TROJAN_CMD_UDP) |})
    end.
Proof.
  intros Hsha Hc Ha. inversion Ha as [o1 o2 o3 o4 Et|name Hn Et|groups Hg Hr Et]; subst.
  - symmetry in Et. apply x01_of_u8 in Et. subst t.
    rewrite trojan_ipv4_parses by assumption.
    destruct (joinBytes _ _) eqn:E; [|reflexivity].
    exfalso. revert E. apply join_nonempty; [discriminate|cbn; lia].
  - symmetry in Et. apply x03_of_u8 in Et. subst t.
    rewrite trojan_domain_parses by assumption. reflexivity.
  - symmetry in Et. apply x04_of_u8 in Et. subst t.
    rewrite trojan_ipv6_parses by assumption.
    rewrite groupBytes_length, Hg.
    destruct (join _ _) eqn:E; [|reflexivity].
    exfalso. revert E. apply join_nonempty; [discriminate|rewrite length_map; lia].
Qed.

Lemma trojan_success_request (buffer : list byte) (password : jsstring) (h : header) :
  Trojan.processTrojanHeader buffer password = Return (Success h) ->
  exists payload, trojanRequest buffer password h payload.
Proof.
  intros H.
  destruct (trojan_success_shape buffer password h H)
    as (digest & command & t & hi & lo & field & payload & Hsha & Hbuf & Hc & Hshape).
  assert (Ha : exists text, trojanAddress (u8 t) field text).
  { destruct Hshape as [[Et Hl]|[[Et (name & -> & Hn)]|[Et Hl]]]; rewrite Et.
    - clear -Hl. explode field. eexists. constructor.
    - eexists. constructor. exact Hn.
    - destruct (groups_of_bytes 8 field Hl) as (groups & -> & Hg & Hr).
      eexists. constructor; assumption. }
  destruct Ha as [text Ha].
  exists payload, digest, command, t, hi, lo, field, text.
  rewrite Hbuf in H. rewrite (trojan_request_parses _ _ _ _ _ _ _ _ text Hsha Hc Ha) in H.
  destruct text as [|c text]; [discriminate|]. injection H as <-.
  repeat split; try assumption; discriminate.
Qed.

Lemma trojanRequest_parsed (buffer : list byte) (password : jsstring) (h : header)
    (payload : list byte) :
  trojanRequest buffer password h payload ->
  Trojan.processTrojanHeader buffer password = Return (Success h).
Proof.
  intros (digest & command & t & hi & lo & field & text
          & Hsha & -> & Hc & Ha & Hne & ->).
  rewrite (trojan_request_parses _ _ _ _ _ _ _ _ text Hsha Hc Ha).
  destruct text; [congruence|reflexivity].
Qed.

(** [processTrojanHeader] returns a header exactly for the buffers that are a
    Trojan request: the 56 digits of the password's digest, CR LF, command
    1 or 3, an address type 1, 3 or 4 with its whole address field, the
    port, CR LF, and any payload; the header it returns is the one the
    request describes. *)
Theorem trojan_accepts_exactly_requests
    (buffer : list byte) (password : jsstring) (h : header) :
  Trojan.processTrojanHeader buffer password = Return (Success h)
  <-> exists payload, trojanRequest buffer password h payload.
Proof.
  split.
  - apply trojan_success_request.
  - intros [payload Hreq]. exact (trojanRequest_parsed buffer password h payload Hreq).
Qed.

Lemma trojanRequest_payload (buffer : list byte) (password : jsstring) (h : header)
    (payload : list byte) :
  trojanRequest buffer password h payload ->
  sliceFrom buffer (rawDataIndex h) = payload
  /\ exists k, rawDataIndex h = Int (Z.of_nat k) /\ take k buffer ++ payload = buffer.
Proof.
  intros (digest & command & t & hi & lo & field & text & Hsha & -> & Hc & Ha & Hne & ->).
  cbn [rawDataIndex]. destruct (sha224_hex _ _ Hsha) as [Hdl _].
  set (head := map toUint8 digest ++ [x0d; x0a; command; t] ++ field ++ [hi; lo; x0d; x0a]).
  assert (Hhead : length head = (64 + length field)%nat).
  { unfold head. rewrite !length_app, length_map, Hdl. cbn [length]. lia. }
  assert (Hbuf : map toUint8 digest ++ [x0d; x0a; command; t] ++ field
                 ++ [hi; lo; x0d; x0a] ++ payload = head ++ payload).
  { unfold head. rewrite <- !app_assoc. reflexivity. }
  rewrite Hbuf. split.
  - unfold sliceFrom. rewrite slice_inside by (rewrite length_app; lia).
    replace (Z.to_nat (64 + Z.of_nat (length field))) with (length head) by lia.
    rewrite drop_app_length. apply firstn_all2. rewrite length_app. lia.
  - exists (length head). split; [f_equal; lia|]. rewrite take_app_length. reflexivity.
Qed.

(** A request stays a request when its payload grows. *)
Lemma trojanRequest_extend (buffer : list byte) (password : jsstring) (h : header)
    (payload more : list byte) :
  trojanRequest buffer password h payload ->
  trojanRequest (buffer ++ more) password h (payload ++ more).
Proof.
  intros (digest & command & t & hi & lo & field & text
          & Hsha & -> & Hc & Ha & Hne & ->).
  exists digest, command, t, hi, lo, field, text.
  repeat split; try assumption. rewrite <- !app_assoc. reflexivity.
Qed.

(** What follows an accepted Trojan header does not matter: with more bytes
    appended the parser returns the same header, and the data behind the
    header is the old data followed by the new bytes. *)
Theorem trojan_parse_ignores_payload
    (buffer : list byte) (password : jsstring) (h : header) (more : list byte) :
  Trojan.processTrojanHeader buffer password = Return (Success h) ->
  Trojan.processTrojanHeader (buffer ++ more) password = Return (Success h)
  /\ sliceFrom (buffer ++ more) (rawDataIndex h) = sliceFrom buffer (rawDataIndex h) ++ more.
Proof.
  intros H. apply trojan_success_request in H as (payload & Hreq).
  pose proof (trojanRequest_extend _ _ _ _ more Hreq) as Hreq'.
  split.
  - exact (trojanRequest_parsed _ _ _ _ Hreq').
  - rewrite (proj1 (trojanRequest_payload _ _ _ _ Hreq)),
            (proj1 (trojanRequest_payload _ _ _ _ Hreq')). reflexivity.
Qed.

Lemma trojan_parse_ignores_payload_witness :
  Trojan.processTrojanHeader (trojanAbc ++ bytes [71; 69; 84]) (str "abc")
  = Return (Success headerAbc)
  /\ sliceFrom (trojanAbc ++ bytes [71; 69; 84]) (rawDataIndex headerAbc)
     = sliceFrom trojanAbc (rawDataIndex headerAbc) ++ bytes [71; 69; 84].
Proof.
  refine (trojan_parse_ignores_payload trojanAbc (str "abc") headerAbc (bytes [71; 69; 84]) _).
  vm_compute. reflexivity.
Defined.

(** An accepted Trojan buffer cut anywhere before its payload is answered
    with an error result, never with a header and never with an
    exception. *)
Theorem trojan_cut_short_rejected
    (buffer : list byte) (password : jsstring) (h : header) (k : Z) (n : nat) :
  Trojan.processTrojanHeader buffer password = Return (Success h) ->
  rawDataIndex h = Int k -> Z.of_nat n < k ->
  exists message,
    Trojan.processTrojanHeader (take n buffer) password = Return (Failure message).
Proof.
  intros H Hk Hn.
  destruct (processTrojanHeader_total (take n buffer) password) as ([message|h'] & Hr & Hs);
    [eauto|exfalso].
  destruct (trojan_success_request _ _ _ Hr) as [payload Hreq].
  pose proof (trojanRequest_parsed _ _ _ _
                (trojanRequest_extend _ _ _ _ (drop n buffer) Hreq)) as Hfull.
  rewrite take_drop, H in Hfull. injection Hfull as <-.
  destruct Hs as ((idx & Hidx & _ & Hle) & _). rewrite Hk in Hidx. injection Hidx as <-.
  rewrite length_take in Hle. lia.
Qed.

Lemma trojan_cut_short_rejected_witness :
  exists message,
    Trojan.processTrojanHeader (take 60 trojanAbc) (str "abc") = Return (Failure message).
Proof.
  refine (trojan_cut_short_rejected trojanAbc (str "abc") headerAbc 68 60 _ _ _).
  - vm_compute. reflexivity.
  - reflexivity.
  - reflexivity.
Defined.

(* ================================================================== *)
(** * The parsers on arbitrary buffers *)
(* ================================================================== *)

(** C8 (as amended): [processTrojanHeader] returns a result for every
    buffer and password: a success whose raw data index lies within the
    buffer, or an error whose message belongs to one of seven classes (the
    six of the specification and the empty address); an accepted buffer
    cut anywhere before its raw data index gets such an error.
    [processProtocolHeader]
    returns the error "invalid data" for every buffer shorter than 24
    bytes; on a longer buffer it throws a TypeError when bytes 1 to 16 do
    not print as a valid UUID, and returns the error "invalid user" when
    they do and the UUID is not among the credentials; every error it
    returns belongs to one of the seven classes, every success carries a
    non-empty address, and it throws no error of its own. *)
Theorem header_parsers_outcomes (buffer : list byte) (password userID : jsstring) :
  (exists r,
     Trojan.processTrojanHeader buffer password = Return r
     /\ match r with
        | Success h => trojanSuccess buffer h
        | Failure message => classify message <> None
        end)
  /\ (Z.of_nat (length buffer) < 24 ->
      Vless.processProtocolHeader buffer userID = Return (Failure (str "invalid data")))
  /\ (24 <= Z.of_nat (length buffer) ->
      isValidUUID (unsafeStringify (slice buffer (Int 1) (Int 17)) 0) = false ->
      Vless.processProtocolHeader buffer userID
      = Throw (TypeError "Stringified UUID is invalid"))
  /\ (24 <= Z.of_nat (length buffer) ->
      isValidUUID (unsafeStringify (slice buffer (Int 1) (Int 17)) 0) = true ->
      ~ In (unsafeStringify (slice buffer (Int 1) (Int 17)) 0)
           (map trim (credentials userID)) ->
      Vless.processProtocolHeader buffer userID = Return (Failure (str "invalid user")))
  /\ match Vless.processProtocolHeader buffer userID with
     | Return (Failure message) => classify message <> None
     | Return (Success h) => addressRemote h <> []
     | Throw (Error _) => False
     | Throw _ => True
     end
  /\ (forall (h : header) (k : Z) (n : nat),
        Trojan.processTrojanHeader buffer password = Return (Success h) ->
        rawDataIndex h = Int k -> Z.of_nat n < k ->
        exists message,
          Trojan.processTrojanHeader (take n buffer) password = Return (Failure message)
          /\ classify message <> None).
Proof.
  split; [apply processTrojanHeader_total|].
  destruct (vless_outcomes buffer userID) as ((H1 & H2 & H3) & H4).
  repeat (split; [assumption|]).
  intros h k n H Hk Hn.
  destruct (processTrojanHeader_total (take n buffer) password) as ([message|h'] & Hr & Hs);
    [eauto|exfalso].
  destruct (trojan_success_request _ _ _ Hr) as [payload Hreq].
  pose proof (trojanRequest_parsed _ _ _ _
                (trojanRequest_extend _ _ _ _ (drop n buffer) Hreq)) as Hfull.
  rewrite take_drop, H in Hfull. injection Hfull as <-.
  destruct Hs as ((idx & Hidx & _ & Hle) & _). rewrite Hk in Hidx. injection Hidx as <-.
  rewrite length_take in Hle. lia.
Qed.

(** Four bytes are too short; 24 zero bytes do not print as a UUID. *)
Lemma header_parsers_outcomes_witness :
  Vless.processProtocolHeader (bytes [0; 1; 2; 3]) (str "d342d11e-d424-4583-b36e-524ab1f0afa4")
  = Return (Failure (str "invalid data"))
  /\ Vless.processProtocolHeader (replicate 24 x00) (str "d342d11e-d424-4583-b36e-524ab1f0afa4")
     = Throw (TypeError "Stringified UUID is invalid").
Proof.
  split.
  - apply (proj1 (proj2 (header_parsers_outcomes (bytes [0; 1; 2; 3]) []
                            (str "d342d11e-d424-4583-b36e-524ab1f0afa4")))).
    vm_compute. reflexivity.
  - apply (proj1 (proj2 (proj2 (header_parsers_outcomes (replicate 24 x00) []
                                   (str "d342d11e-d424-4583-b36e-524ab1f0afa4"))))).
    + vm_compute. discriminate.
    + vm_compute. reflexivity.
Defined.

(** C8 as stated fails: 24 zero bytes make the VLESS parser throw, and a
    Trojan request with an empty domain name gets a message outside the six
    classes. *)
Lemma header_parsers_counterexample :
  Vless.processProtocolHeader (replicate 24 x00) (str "d342d11e-d424-4583-b36e-524ab1f0afa4")
  = Throw (TypeError "Stringified UUID is invalid")
  /\ Crypto.sha224 (str "abc") = Some digestAbc
  /\ Trojan.processTrojanHeader
       (map toUint8 digestAbc ++ bytes [13; 10; 1; 3; 0; 0; 80; 13; 10]) (str "abc")
     = Return (Failure (str "Address value is empty, address type is 3")).
Proof. split; [|split]; vm_compute; reflexivity. Qed.

(** Past the credential check the VLESS parser reads through the
    [DataView] without comparing lengths: an addons length that points
    past the end raises a RangeError, *)
Example vless_addons_length_beyond_buffer :
  Vless.processProtocolHeader
    (bytes [0; 211; 66; 209; 30; 212; 36; 69; 131; 179; 110; 82; 74; 177; 240; 175; 164;
            200; 1; 0; 80; 1; 1; 2])
    (str "d342d11e-d424-4583-b36e-524ab1f0afa4")
  = Throw (RangeError "Offset is outside the bounds of the DataView").
Proof. vm_compute. reflexivity. Qed.

(** and an IPv4 address cut short is taken from the bytes that are
    there. *)
Example vless_ipv4_cut_short :
  Vless.processProtocolHeader
    (bytes [0; 211; 66; 209; 30; 212; 36; 69; 131; 179; 110; 82; 74; 177; 240; 175; 164;
            0; 1; 0; 80; 1; 1; 2])
    (str "d342d11e-d424-4583-b36e-524ab1f0afa4")
  = Return (Success {| addressRemote := str "1.2"; addressType := 1; portRemote := 80;
                       rawDataIndex := Int 26; protocolVersion := Some [x00];
                       isUDP := false |}).
Proof. vm_compute. reflexivity. Qed.

(** The Trojan parser compares the length with 58 and then reads bytes 58
    and 59: on a buffer of 58 bytes the command is [undefined]. *)
Example trojan_command_beyond_buffer :
  Trojan.processTrojanHeader (map toUint8 digestAbc ++ bytes [13; 10]) (str "abc")
  = Return (Failure (str "Unsupported Trojan command: undefined")).
Proof. vm_compute. reflexivity. Qed.

(** A request passes the detection. *)
Lemma trojanRequest_detected (buffer : list byte) (password : jsstring) (h : header)
    (payload : list byte) :
  trojanRequest buffer password h payload ->
  Trojan.isTrojanProtocol buffer password = true.
Proof.
  intros (digest & command & t & hi & lo & field & text & Hsha & -> & _).
  destruct (sha224_hex _ _ Hsha) as [Hdl Hhex].
  apply isTrojanProtocol_true.
  assert (Hpre : length (map toUint8 digest) = 56%nat) by (rewrite length_map; exact Hdl).
  split; [rewrite length_app, Hpre; cbn [app length]; lia|].
  split; [rewrite lookup_app_r by lia; rewrite Hpre; reflexivity|].
  split; [rewrite lookup_app_r by lia; rewrite Hpre; reflexivity|].
  exists digest. split; [exact Hsha|]. split; [exact Hdl|]. split; [exact Hhex|].
  rewrite <- Hpre, take_app_length. rewrite map_map.
  rewrite <- (map_id digest) at 2. apply map_ext_Forall.
  eapply Forall_impl; [exact Hhex|]. intros c Hc. apply lowerHex_ascii in Hc.
  cbv beta. rewrite u8_toUint8, Z.mod_small by lia. reflexivity.
Qed.

(** Every buffer [processTrojanHeader] accepts also passes
    [isTrojanProtocol] with the same password. *)
Theorem trojan_success_is_detected
    (buffer : list byte) (password : jsstring) (h : header) :
  Trojan.processTrojanHeader buffer password = Return (Success h) ->
  Trojan.isTrojanProtocol buffer password = true.
Proof.
  intros H. destruct (trojan_success_request _ _ _ H) as [payload Hreq].
  exact (trojanRequest_detected _ _ _ _ Hreq).
Qed.

Lemma trojan_success_is_detected_witness :
  Trojan.isTrojanProtocol trojanAbc (str "abc") = true.
Proof.
  refine (trojan_success_is_detected trojanAbc (str "abc") headerAbc _).
  vm_compute. reflexivity.
Defined.

(** ** Requests the VLESS parser accepts *)

Lemma getUint8_app_l (l post : list byte) (k v : Z) :
  getUint8 l (Int k) = Return v -> getUint8 (l ++ post) (Int k) = Return v.
Proof.
  unfold getUint8, toInteger. destruct (k <? 0); [discriminate|].
  destruct (l !! Z.to_nat k) as [b|] eqn:Eb; [|discriminate].
  intros H. rewrite (lookup_app_l_Some _ _ _ _ Eb). exact H.
Qed.

(** The reads of the parser up to the address type, on a buffer laid out
    as a request. *)
Lemma vless_layout (version command hi lo t : byte) (uuidBytes addons rest : list byte) :
  let buffer := [version] ++ uuidBytes ++ [toUint8 (Z.of_nat (length addons))] ++ addons
                ++ [command; hi; lo; t] ++ rest in
  let a := Z.of_nat (length addons) in
  length uuidBytes = 16%nat -> (length addons <= 255)%nat ->
  getUint8 buffer (Int 0) = Return (u8 version)
  /\ slice buffer (Int 1) (Int 17) = uuidBytes
  /\ getUint8 buffer (Int 17) = Return a
  /\ getUint8 buffer (Int (18 + a)) = Return (u8 command)
  /\ getUint16 buffer (Int (18 + a + 1)) = Return (u8 hi * 256 + u8 lo)
  /\ getUint8 buffer (Int (18 + a + 1 + 2)) = Return (u8 t)
  /\ Z.of_nat (length buffer) = 22 + a + Z.of_nat (length rest)
  /\ (forall k, 0 <= k -> getUint8 buffer (Int (22 + a + k)) = getUint8 rest (Int k))
  /\ (forall k, 0 <= k -> getUint16 buffer (Int (22 + a + k)) = getUint16 rest (Int k))
  /\ (forall x y, 0 <= x <= y -> y <= Z.of_nat (length rest) ->
        slice buffer (Int (22 + a + x)) (Int (22 + a + y))
        = take (Z.to_nat (y - x)) (drop (Z.to_nat x) rest)).
Proof.
  cbv zeta. intros Hu Ha.
  pose (pre := [version] ++ uuidBytes ++ [toUint8 (Z.of_nat (length addons))] ++ addons).
  pose (mid := [command; hi; lo; t]).
  assert (Hpre : Z.of_nat (length pre) = 18 + Z.of_nat (length addons)).
  { unfold pre. rewrite !length_app, Hu. cbn [length]. lia. }
  assert (Hbuf : [version] ++ uuidBytes ++ [toUint8 (Z.of_nat (length addons))] ++ addons
                 ++ [command; hi; lo; t] ++ rest = pre ++ mid ++ rest).
  { unfold pre, mid. rewrite <- !app_assoc. reflexivity. }
  assert (Hbuf2 : pre ++ mid ++ rest = (pre ++ mid) ++ rest) by apply app_assoc.
  assert (Hpm : Z.of_nat (length (pre ++ mid)) = 22 + Z.of_nat (length addons)).
  { rewrite length_app. unfold mid. cbn [length]. lia. }
  split; [reflexivity|].
  split.
  { change ([version] ++ uuidBytes ++ ?x) with (version :: (uuidBytes ++ x)).
    rewrite slice_inside by (cbn [length]; rewrite ?length_app; lia).
    change (Z.to_nat 1) with 1%nat. change (Z.to_nat (17 - 1)) with 16%nat. cbn [drop].
    rewrite drop_0. rewrite <- Hu. apply take_app_length. }
  split.
  { change ([version] ++ uuidBytes ++ ?x) with (([version] ++ uuidBytes) ++ x).
    replace 17 with (Z.of_nat (length ([version] ++ uuidBytes)) + 0)
      by (rewrite length_app, Hu; reflexivity).
    rewrite getUint8_app_r by lia.
    cbn [app]. unfold getUint8, toInteger. change (0 <? 0) with false.
    change (Z.to_nat 0) with 0%nat. cbn [lookup list_lookup].
    rewrite u8_toUint8, Z.mod_small by lia. reflexivity. }
  rewrite Hbuf.
  split; [rewrite <- Hpre; rewrite <- (Z.add_0_r (Z.of_nat (length pre)));
          rewrite getUint8_app_r by lia; reflexivity|].
  split; [rewrite <- Hpre; rewrite getUint16_app_r by lia; reflexivity|].
  split; [rewrite <- Hpre;
          replace (Z.of_nat (length pre) + 1 + 2) with (Z.of_nat (length pre) + 3) by lia;
          rewrite getUint8_app_r by lia; reflexivity|].
  split; [rewrite !length_app; unfold mid; cbn [length]; lia|].
  rewrite Hbuf2, <- Hpm.
  split; [intros k Hk; apply getUint8_app_r; exact Hk|].
  split; [intros k Hk; apply getUint16_app_r; exact Hk|].
  intros x y Hxy Hy. apply slice_app_r; assumption.
Qed.

Lemma vless_readGroups_shift (buffer rest : list byte) (base : Z) :
  (forall k, 0 <= k -> getUint16 buffer (Int (base + k)) = getUint16 rest (Int k)) ->
  forall ixs : list nat,
    Vless.readGroups buffer base (map Z.of_nat ixs)
    = Vless.readGroups rest 0 (map Z.of_nat ixs).
Proof.
  intros Hw. induction ixs as [|i ixs IH]; [reflexivity|].
  cbn [map Vless.readGroups]. rewrite Hw by lia. rewrite IH. reflexivity.
Qed.

Lemma vless_readGroups_groupBytes (post : list byte) (groups : list Z) :
  Forall (fun g => 0 <= g < 65536) groups ->
  forall (ixs : list nat) (gs : list Z),
    Forall2 (fun i g => groups !! i = Some g) ixs gs ->
    Vless.readGroups (groupBytes groups ++ post) 0 (map Z.of_nat ixs)
    = Return (map (toStringRadix 16) gs).
Proof.
  intros Hall. induction 1 as [|i g ixs gs Hi _ IH]; [reflexivity|].
  cbn [map Vless.readGroups]. rewrite (getUint16_app_l _ _ _ g).
  2:{ change (0 + Z.of_nat i * 2) with (Z.of_nat i * 2).
      apply groupBytes_word; [exact Hi|]. rewrite Forall_lookup in Hall. exact (Hall i g Hi). }
  cbn [mbind completion_bind cbind]. rewrite IH. reflexivity.
Qed.

(** The parser on a buffer of the shape of a request. *)
Lemma vless_request_parses (version command hi lo t : byte)
    (uuidBytes addons field payload : list byte) (userID uuid text : jsstring) :
  let buffer := [version] ++ uuidBytes ++ [toUint8 (Z.of_nat (length addons))] ++ addons
                ++ [command; hi; lo; t] ++ field ++ payload in
  length uuidBytes = 16%nat -> (length addons <= 255)%nat ->
  stringify uuidBytes 0 = Return uuid ->
  In uuid (map trim (credentials userID)) ->
  u8 command = 1 \/ u8 command = 2 ->
  vlessAddress (u8 t) field text ->
  24 <= Z.of_nat (length buffer) ->
  Vless.processProtocolHeader buffer userID
  = match text with
    | [] => Return (Failure (str "addressValue is empty, addressType is " ++ toString (u8 t)))
    | _ =>
        Return (Success {| addressRemote := text;
                           addressType := u8 t;
                           portRemote := u8 hi * 256 + u8 lo;
                           rawDataIndex :=
                             Int (22 + Z.of_nat (length addons) + Z.of_nat (length field));
                           protocolVersion := Some [version];
                           isUDP := (u8 command =? 2) |})
    end.
Proof.
  cbv zeta. intros Hu Ha Hs Hin Hc Haddr Hlong.
  destruct (vless_layout version command hi lo t uuidBytes addons (field ++ payload) Hu Ha)
    as (H0 & Huuid & H17 & Hcmd & Hport & Htype & Hlength & H8 & H16 & Hslice).
  cbv zeta in *.
  set (buffer := [version] ++ uuidBytes ++ [toUint8 (Z.of_nat (length addons))] ++ addons
                 ++ [command; hi; lo; t] ++ field ++ payload) in *.
  set (a := Z.of_nat (length addons)) in *.
  unfold Vless.processProtocolHeader.
  rewrite (proj2 (Z.ltb_ge _ _) Hlong).
  rewrite H0. cbn [mbind completion_bind cbind].
  rewrite Huuid, Hs. cbn [mbind completion_bind cbind].
  fold (credentials userID).
  rewrite (proj2 (existsb_credentials _ _) Hin). cbn [negb].
  rewrite H17. cbn [mbind completion_bind cbind].
  rewrite Hcmd. cbn [mbind completion_bind cbind].
  replace (negb (u8 command =? 1) && negb (u8 command =? 2)) with false
    by (destruct Hc as [-> | ->]; reflexivity).
  cbv iota. rewrite Hport. cbn [mbind completion_bind cbind].
  rewrite Htype. cbn [mbind completion_bind cbind].
  rewrite toUint8_u8.
  replace (18 + a + 1 + 3) with (22 + a + 0) by lia.
  replace (18 + a + 1 + 4) with (22 + a + 1) by lia.
  inversion Haddr as [o1 o2 o3 o4 Et|name Hn Et|groups Hg Hr Et]; subst field text.
  - change (1 =? 1) with true. cbv iota.
    assert (Hf : slice buffer (Int (22 + a + 0)) (Int (22 + a + 0 + 4)) = [o1; o2; o3; o4]).
    { replace (22 + a + 0 + 4) with (22 + a + 4) by lia.
      rewrite Hslice by (try rewrite length_app; cbn [length]; lia). reflexivity. }
    rewrite Hf. cbn [mbind completion_bind cbind].
    destruct (joinBytes _ _) eqn:E.
    { exfalso. revert E. apply join_nonempty; [discriminate|cbn; lia]. }
    replace (22 + a + 0 + 4) with (22 + a + Z.of_nat (length [o1; o2; o3; o4]))
      by (cbn [length]; lia).
    reflexivity.
  - change (2 =? 1) with false. change (2 =? 2) with true. cbv iota.
    rewrite H8 by lia.
    assert (Hl : getUint8 ((toUint8 (Z.of_nat (length name)) :: name) ++ payload) (Int 0)
                 = Return (Z.of_nat (length name))).
    { cbn [app]. unfold getUint8, toInteger. change (0 <? 0) with false.
      change (Z.to_nat 0) with 0%nat. cbn [lookup list_lookup].
      rewrite u8_toUint8, Z.mod_small by lia. reflexivity. }
    rewrite Hl. cbn [mbind completion_bind cbind].
    assert (Hf : slice buffer (Int (22 + a + 1)) (Int (22 + a + 1 + Z.of_nat (length name)))
                 = name).
    { replace (22 + a + 1 + Z.of_nat (length name))
        with (22 + a + (1 + Z.of_nat (length name))) by lia.
      rewrite Hslice by (try rewrite length_app; cbn [length]; lia).
      replace (Z.to_nat (1 + Z.of_nat (length name) - 1)) with (length name) by lia.
      change (Z.to_nat 1) with 1%nat. cbn [app drop]. rewrite drop_0, take_app_length.
      reflexivity. }
    rewrite Hf.
    destruct (textDecode name) eqn:E; [reflexivity|].
    replace (22 + a + 1 + Z.of_nat (length name))
      with (22 + a + Z.of_nat (length (toUint8 (Z.of_nat (length name)) :: name)))
      by (cbn [length]; lia).
    reflexivity.
  - change (3 =? 1) with false. change (3 =? 2) with false. change (3 =? 3) with true.
    cbv iota.
    change [0; 1; 2; 3; 4; 5; 6; 7] with (map Z.of_nat [0; 1; 2; 3; 4; 5; 6; 7]%nat).
    replace (22 + a + 0) with (22 + a) by lia.
    rewrite (vless_readGroups_shift buffer (groupBytes groups ++ payload) (22 + a) H16).
    rewrite (vless_readGroups_groupBytes payload groups Hr _ groups).
    2:{ clear -Hg. explode groups. repeat (constructor; [reflexivity|]). constructor. }
    cbn [mbind completion_bind cbind].
    destruct (join _ _) eqn:E.
    { exfalso. revert E. apply join_nonempty; [discriminate|rewrite length_map; lia]. }
    rewrite groupBytes_length, Hg. reflexivity.
Qed.

(** ** What an accepted buffer looks like *)

Lemma getUint8_Some (buf : list byte) (k v : Z) :
  getUint8 buf (Int k) = Return v ->
  0 <= k /\ exists b, buf !! Z.to_nat k = Some b /\ v = u8 b.
Proof.
  unfold getUint8, toInteger. destruct (Z.ltb_spec k 0); [discriminate|].
  destruct (buf !! Z.to_nat k) as [b|]; [|discriminate].
  intros [= <-]. split; [lia|eauto].
Qed.

Lemma getUint16_Some (buf : list byte) (k v : Z) :
  getUint16 buf (Int k) = Return v ->
  0 <= k /\ exists hi lo, buf !! Z.to_nat k = Some hi /\ buf !! S (Z.to_nat k) = Some lo
                          /\ v = u8 hi * 256 + u8 lo.
Proof.
  unfold getUint16, toInteger. destruct (Z.ltb_spec k 0); [discriminate|].
  destruct (buf !! Z.to_nat k) as [hi|]; [|discriminate].
  destruct (buf !! S (Z.to_nat k)) as [lo|]; [|discriminate].
  intros [= <-]. split; [lia|eauto].
Qed.

Lemma vless_success_shape (buffer : list byte) (userID : jsstring) (h : header) (k : Z) :
  Vless.processProtocolHeader buffer userID = Return (Success h) ->
  rawDataIndex h = Int k -> k <= Z.of_nat (length buffer) ->
  exists (version command t hi lo : byte) (uuidBytes addons field payload : list byte)
         (uuid : jsstring),
    buffer = [version] ++ uuidBytes ++ [toUint8 (Z.of_nat (length addons))] ++ addons
             ++ [command; hi; lo; t] ++ field ++ payload
    /\ length uuidBytes = 16%nat /\ (length addons <= 255)%nat
    /\ stringify uuidBytes 0 = Return uuid
    /\ In uuid (map trim (credentials userID))
    /\ (u8 command = 1 \/ u8 command = 2)
    /\ ((u8 t = 1 /\ length field = 4%nat)
        \/ (u8 t = 2 /\ exists name, field = toUint8 (Z.of_nat (length name)) :: name
                                     /\ (length name <= 255)%nat)
        \/ (u8 t = 3 /\ length field = 16%nat)).
Proof.
  unfold Vless.processProtocolHeader.
  destruct (Z.ltb_spec (Z.of_nat (length buffer)) 24) as [|Hlen]; [discriminate|].
  destruct (getUint8 buffer (Int 0)) as [v0|] eqn:E0; [|discriminate].
  apply getUint8_Some in E0 as (_ & version & Hversion & ->).
  change (Z.to_nat 0) with 0%nat in Hversion.
  cbn [mbind completion_bind cbind].
  destruct (stringify _ 0) as [uuid|] eqn:Es; [|discriminate].
  cbn [mbind completion_bind cbind]. fold (credentials userID).
  destruct (_ || _) eqn:Euser; cbn [negb]; [|discriminate].
  apply existsb_credentials in Euser.
  destruct (getUint8 buffer (Int 17)) as [a|] eqn:E17; [|discriminate].
  apply getUint8_Some in E17 as (_ & b17 & H17 & ->).
  change (Z.to_nat 17) with 17%nat in H17.
  pose proof (u8_range b17) as Ha.
  cbn [mbind completion_bind cbind].
  destruct (getUint8 buffer (Int (18 + u8 b17))) as [c|] eqn:Ec; [|discriminate].
  apply getUint8_Some in Ec as (_ & command & Hcommand & ->).
  cbn [mbind completion_bind cbind].
  destruct (negb (u8 command =? 1) && negb (u8 command =? 2)) eqn:Ecmd; [discriminate|].
  assert (Hc : u8 command = 1 \/ u8 command = 2).
  { apply andb_false_iff in Ecmd as [E|E]; apply negb_false_iff, Z.eqb_eq in E; auto. }
  destruct (getUint16 buffer (Int (18 + u8 b17 + 1))) as [p|] eqn:Ep; [|discriminate].
  apply getUint16_Some in Ep as (_ & hi & lo & Hhi & Hlo & ->).
  cbn [mbind completion_bind cbind].
  destruct (getUint8 buffer (Int (18 + u8 b17 + 1 + 2))) as [ty|] eqn:Et; [|discriminate].
  apply getUint8_Some in Et as (_ & t & Ht & ->).
  set (n := Z.to_nat (u8 b17)).
  replace (Z.to_nat (18 + u8 b17)) with (18 + n)%nat in Hcommand by (unfold n; lia).
  replace (Z.to_nat (18 + u8 b17 + 1)) with (19 + n)%nat in Hhi by (unfold n; lia).
  replace (S (Z.to_nat (18 + u8 b17 + 1))) with (20 + n)%nat in Hlo by (unfold n; lia).
  replace (Z.to_nat (18 + u8 b17 + 1 + 2)) with (21 + n)%nat in Ht by (unfold n; lia).
  assert (Hlong : (22 + n <= length buffer)%nat)
    by (apply lookup_lt_Some in Ht; lia).
  (* the buffer up to the address *)
  assert (Hhead : buffer = [version] ++ take 16 (drop 1 buffer)
                           ++ [toUint8 (Z.of_nat (length (take n (drop 18 buffer))))]
                           ++ take n (drop 18 buffer)
                           ++ [command; hi; lo; t] ++ drop (22 + n) buffer).
  { rewrite length_take, length_drop. replace (n `min` (length buffer - 18))%nat with n by lia.
    unfold n at 1. rewrite Z2Nat.id by lia. rewrite toUint8_u8.
    rewrite <- (take_drop 1 buffer) at 1.
    rewrite (take_S_r _ 0 _ Hversion). cbn [take app]. f_equal.
    rewrite <- (take_drop 16 (drop 1 buffer)) at 1. f_equal.
    rewrite drop_drop. change (1 + 16)%nat with 17%nat.
    rewrite (drop_S _ _ _ H17). cbn [app]. f_equal.
    rewrite <- (take_drop n (drop 18 buffer)) at 1. f_equal.
    rewrite drop_drop.
    rewrite (drop_S _ _ _ Hcommand). change (S (18 + n)) with (19 + n)%nat.
    rewrite (drop_S _ _ _ Hhi). change (S (19 + n)) with (20 + n)%nat.
    rewrite (drop_S _ _ _ Hlo). change (S (20 + n)) with (21 + n)%nat.
    rewrite (drop_S _ _ _ Ht). reflexivity. }
  assert (Huuid : slice buffer (Int 1) (Int 17) = take 16 (drop 1 buffer)).
  { rewrite slice_inside by lia. reflexivity. }
  rewrite Huuid in Es.
  assert (Hk : forall flen : nat,
             22 + Z.of_nat n + Z.of_nat flen <= Z.of_nat (length buffer) ->
             exists field payload,
               drop (22 + n) buffer = field ++ payload
               /\ length field = flen /\ field = take flen (drop (22 + n) buffer)).
  { intros flen Hfl. exists (take flen (drop (22 + n) buffer)), (drop flen (drop (22 + n) buffer)).
    split; [symmetry; apply take_drop|]. split; [|reflexivity].
    rewrite length_take, length_drop. lia. }
  assert (Hshape : forall field payload,
             drop (22 + n) buffer = field ++ payload ->
             ((u8 t = 1 /\ length field = 4%nat)
              \/ (u8 t = 2 /\ exists name, field = toUint8 (Z.of_nat (length name)) :: name
                                           /\ (length name <= 255)%nat)
              \/ (u8 t = 3 /\ length field = 16%nat)) ->
             exists (version command t hi lo : byte)
                    (uuidBytes addons field payload : list byte) (uuid : jsstring),
               buffer = [version] ++ uuidBytes ++ [toUint8 (Z.of_nat (length addons))] ++ addons
                        ++ [command; hi; lo; t] ++ field ++ payload
               /\ length uuidBytes = 16%nat /\ (length addons <= 255)%nat
               /\ stringify uuidBytes 0 = Return uuid
               /\ In uuid (map trim (credentials userID))
               /\ (u8 command = 1 \/ u8 command = 2)
               /\ ((u8 t = 1 /\ length field = 4%nat)
                   \/ (u8 t = 2 /\ exists name,
                          field = toUint8 (Z.of_nat (length name)) :: name
                          /\ (length name <= 255)%nat)
                   \/ (u8 t = 3 /\ length field = 16%nat))).
  { intros field payload Hd Hsh.
    exists version, command, t, hi, lo, (take 16 (drop 1 buffer)), (take n (drop 18 buffer)),
      field, payload, uuid.
    split; [rewrite Hhead at 1; rewrite Hd; reflexivity|].
    split; [rewrite length_take, length_drop; lia|].
    split; [rewrite length_take, length_drop; unfold n; lia|].
    auto. }
  cbn [mbind completion_bind cbind].
  rewrite toUint8_u8.
  intros H Hraw Hbound.
  destruct (u8 t =? 1) eqn:E1.
  { apply Z.eqb_eq in E1. cbn [mbind completion_bind cbind] in H.
    destruct (joinBytes _ _); [discriminate|]. injection H as <-.
    cbn [rawDataIndex] in Hraw. injection Hraw as <-.
    destruct (Hk 4%nat ltac:(unfold n; lia)) as (field & payload & Hd & Hfl & _).
    apply (Hshape field payload Hd). left. auto. }
  destruct (u8 t =? 2) eqn:E2.
  { apply Z.eqb_eq in E2.
    destruct (getUint8 buffer (Int (18 + u8 b17 + 1 + 3))) as [al|] eqn:El; [|discriminate].
    apply getUint8_Some in El as (_ & bl & Hbl & ->).
    replace (Z.to_nat (18 + u8 b17 + 1 + 3)) with (22 + n)%nat in Hbl by (unfold n; lia).
    pose proof (u8_range bl).
    cbn [mbind completion_bind cbind] in H.
    destruct (textDecode _); [discriminate|]. injection H as <-.
    cbn [rawDataIndex] in Hraw. injection Hraw as <-.
    destruct (Hk (S (Z.to_nat (u8 bl))) ltac:(unfold n; lia)) as (field & payload & Hd & Hfl & Hf).
    apply (Hshape field payload Hd). right. left. split; [exact E2|].
    exists (take (Z.to_nat (u8 bl)) (drop (23 + n) buffer)).
    assert (Hnl : length (take (Z.to_nat (u8 bl)) (drop (23 + n) buffer)) = Z.to_nat (u8 bl))
      by (rewrite length_take, length_drop; unfold n; lia).
    rewrite Hnl. split; [|lia].
    rewrite Z2Nat.id by lia. rewrite toUint8_u8.
    rewrite Hf. rewrite (drop_S _ _ _ Hbl). reflexivity. }
  destruct (u8 t =? 3) eqn:E3.
  { apply Z.eqb_eq in E3.
    destruct (Vless.readGroups buffer _ _); [|discriminate].
    cbn [mbind completion_bind cbind] in H.
    destruct (join _ _); [discriminate|]. injection H as <-.
    cbn [rawDataIndex] in Hraw. injection Hraw as <-.
    destruct (Hk 16%nat ltac:(unfold n; lia)) as (field & payload & Hd & Hfl & _).
    apply (Hshape field payload Hd). right. right. auto. }
  cbn [mbind completion_bind cbind] in H. discriminate.
Qed.

Lemma textDecode_nil : textDecode [] = [].
Proof. reflexivity. Qed.

Lemma vlessAddress_long (t : Z) (field : list byte) (text : jsstring) :
  vlessAddress t field text -> text <> [] -> (2 <= length field)%nat.
Proof.
  intros Ha Hne. destruct Ha as [o1 o2 o3 o4|name Hn|groups Hg Hr].
  - cbn [length]. lia.
  - destruct name; [contradiction|]. cbn [length]. lia.
  - rewrite groupBytes_length. lia.
Qed.

Lemma vless_success_request (buffer : list byte) (userID : jsstring) (h : header) (k : Z) :
  Vless.processProtocolHeader buffer userID = Return (Success h) ->
  rawDataIndex h = Int k -> k <= Z.of_nat (length buffer) ->
  exists payload, vlessRequest buffer userID h payload.
Proof.
  intros H Hraw Hk.
  destruct (vless_success_shape buffer userID h k H Hraw Hk)
    as (version & command & t & hi & lo & uuidBytes & addons & field & payload & uuid
        & Hbuf & Hu & Hal & Hs & Hin & Hc & Hshape).
  assert (Ha : exists text, vlessAddress (u8 t) field text).
  { destruct Hshape as [[Et Hl]|[[Et (name & -> & Hn)]|[Et Hl]]]; rewrite Et.
    - clear -Hl. explode field. eexists. constructor.
    - eexists. constructor. exact Hn.
    - destruct (groups_of_bytes 8 field Hl) as (groups & -> & Hg & Hr).
      eexists. constructor; assumption. }
  destruct Ha as [text Ha].
  exists payload, version, command, t, hi, lo, uuidBytes, addons, field, uuid, text.
  assert (Hlong : 24 <= Z.of_nat (length buffer)).
  { revert H. unfold Vless.processProtocolHeader.
    destruct (Z.ltb_spec (Z.of_nat (length buffer)) 24); [discriminate|lia]. }
  pose proof (vless_request_parses version command hi lo t uuidBytes addons field payload
                userID uuid text Hu Hal Hs Hin Hc Ha) as Hp.
  cbv zeta in Hp. rewrite <- Hbuf in Hp. rewrite (Hp Hlong) in H.
  destruct text as [|c text]; [discriminate|]. injection H as <-.
  repeat split; try assumption; discriminate.
Qed.

Lemma vlessRequest_parsed (buffer : list byte) (userID : jsstring) (h : header)
    (payload : list byte) :
  vlessRequest buffer userID h payload ->
  Vless.processProtocolHeader buffer userID = Return (Success h)
  /\ exists k, rawDataIndex h = Int k /\ k <= Z.of_nat (length buffer).
Proof.
  intros (version & command & t & hi & lo & uuidBytes & addons & field & uuid & text
          & -> & Hu & Hal & Hs & Hin & Hc & Ha & Hne & ->).
  pose proof (vlessAddress_long _ _ _ Ha Hne) as Hfl.
  assert (Hlength : Z.of_nat (length ([version] ++ uuidBytes
                      ++ [toUint8 (Z.of_nat (length addons))] ++ addons
                      ++ [command; hi; lo; t] ++ field ++ payload))
                    = 22 + Z.of_nat (length addons) + Z.of_nat (length field)
                      + Z.of_nat (length payload)).
  { rewrite !length_app, Hu. cbn [length]. lia. }
  split.
  - pose proof (vless_request_parses version command hi lo t uuidBytes addons field payload
                  userID uuid text Hu Hal Hs Hin Hc Ha) as Hp.
    cbv zeta in Hp. rewrite Hp by lia. destruct text; [congruence|reflexivity].
  - eexists. split; [reflexivity|]. lia.
Qed.

(** [processProtocolHeader] returns a header whose data index lies inside
    the buffer exactly for the buffers that are a VLESS request: version,
    16 bytes that print as a UUID of the credential list, the addons behind
    their length, command 1 or 2, port, an address type 1, 2 or 3 with its
    whole address field, and any payload; the header it returns is the one
    the request describes. *)
Theorem vless_accepts_exactly_requests_in_bounds
    (buffer : list byte) (userID : jsstring) (h : header) :
  (Vless.processProtocolHeader buffer userID = Return (Success h)
   /\ exists k, rawDataIndex h = Int k /\ k <= Z.of_nat (length buffer))
  <-> exists payload, vlessRequest buffer userID h payload.
Proof.
  split.
  - intros (H & k & Hraw & Hk). exact (vless_success_request buffer userID h k H Hraw Hk).
  - intros [payload Hreq]. exact (vlessRequest_parsed buffer userID h payload Hreq).
Qed.

Lemma vlessRequest_payload (buffer : list byte) (userID : jsstring) (h : header)
    (payload : list byte) :
  vlessRequest buffer userID h payload -> sliceFrom buffer (rawDataIndex h) = payload.
Proof.
  intros (version & command & t & hi & lo & uuidBytes & addons & field & uuid & text
          & -> & Hu & Hal & Hs & Hin & Hc & Ha & Hne & ->).
  cbn [rawDataIndex].
  set (head := [version] ++ uuidBytes ++ [toUint8 (Z.of_nat (length addons))] ++ addons
               ++ [command; hi; lo; t] ++ field).
  assert (Hhead : Z.of_nat (length head)
                  = 22 + Z.of_nat (length addons) + Z.of_nat (length field)).
  { unfold head. rewrite !length_app, Hu. cbn [length]. lia. }
  assert (Hbuf : [version] ++ uuidBytes ++ [toUint8 (Z.of_nat (length addons))] ++ addons
                 ++ [command; hi; lo; t] ++ field ++ payload = head ++ payload).
  { unfold head. rewrite <- !app_assoc. reflexivity. }
  rewrite Hbuf, <- Hhead. unfold sliceFrom.
  rewrite slice_inside by (rewrite length_app; lia).
  rewrite Nat2Z.id, drop_app_length. apply firstn_all2. rewrite length_app. lia.
Qed.

(** A request stays a request when its payload grows. *)
Lemma vlessRequest_extend (buffer : list byte) (userID : jsstring) (h : header)
    (payload more : list byte) :
  vlessRequest buffer userID h payload ->
  vlessRequest (buffer ++ more) userID h (payload ++ more).
Proof.
  intros (version & command & t & hi & lo & uuidBytes & addons & field & uuid & text
          & -> & Hrest).
  exists version, command, t, hi, lo, uuidBytes, addons, field, uuid, text.
  split; [rewrite <- !app_assoc; reflexivity|exact Hrest].
Qed.

(** What follows an accepted VLESS header does not matter: when the data
    index lies inside the buffer, the parser returns the same header with
    more bytes appended, and the data behind the header is the old data
    followed by the new bytes. *)
Theorem vless_parse_ignores_payload
    (buffer : list byte) (userID : jsstring) (h : header) (k : Z) (more : list byte) :
  Vless.processProtocolHeader buffer userID = Return (Success h) ->
  rawDataIndex h = Int k -> k <= Z.of_nat (length buffer) ->
  Vless.processProtocolHeader (buffer ++ more) userID = Return (Success h)
  /\ sliceFrom (buffer ++ more) (rawDataIndex h) = sliceFrom buffer (rawDataIndex h) ++ more.
Proof.
  intros H Hraw Hk.
  destruct (vless_success_request buffer userID h k H Hraw Hk) as [payload Hreq].
  pose proof (vlessRequest_extend _ _ _ _ more Hreq) as Hreq'.
  split.
  - exact (proj1 (vlessRequest_parsed _ _ _ _ Hreq')).
  - rewrite (vlessRequest_payload _ _ _ _ Hreq), (vlessRequest_payload _ _ _ _ Hreq').
    reflexivity.
Qed.

Lemma vless_parse_ignores_payload_witness :
  Vless.processProtocolHeader (dnsFirstChunk [] ++ bytes [7; 7]) defaultUserID
  = Return (Success dnsHeader)
  /\ sliceFrom (dnsFirstChunk [] ++ bytes [7; 7]) (rawDataIndex dnsHeader)
     = sliceFrom (dnsFirstChunk []) (rawDataIndex dnsHeader) ++ bytes [7; 7].
Proof.
  refine (vless_parse_ignores_payload (dnsFirstChunk []) defaultUserID dnsHeader 26
            (bytes [7; 7]) _ _ _).
  - vm_compute. reflexivity.
  - reflexivity.
  - vm_compute. discriminate.
Defined.

(** ** The tunnel to the VLESS server *)

Lemma setArray_fits (target source : list byte) (offset : nat) :
  (offset + length source <= length target)%nat ->
  setArray target source (Z.of_nat offset)
  = Return (take offset target ++ source ++ drop (offset + length source) target).
Proof.
  intros Hfit. unfold setArray.
  rewrite (proj2 (Z.ltb_ge _ 0)) by lia. rewrite (proj2 (Z.ltb_ge _ _)) by lia.
  cbn [orb]. rewrite Nat2Z.id. reflexivity.
Qed.

Lemma firstPacket_concat (vlessHeader clientData : list byte) :
  VlessTunnel.firstPacket vlessHeader clientData = Return (vlessHeader ++ clientData).
Proof.
  unfold VlessTunnel.firstPacket, newUint8Array.
  replace (Z.to_nat (Z.of_nat (length vlessHeader) + Z.of_nat (length clientData)))
    with (length vlessHeader + length clientData)%nat by lia.
  rewrite (setArray_fits _ vlessHeader 0) by (rewrite length_replicate; lia).
  cbn [mbind completion_bind cbind Nat.add]. rewrite take_0. cbn [app].
  rewrite setArray_fits by (rewrite length_app, length_drop, length_replicate; lia).
  rewrite take_app_length. rewrite drop_app_ge by lia.
  rewrite drop_ge by (rewrite length_drop, length_replicate; lia).
  rewrite app_nil_r. reflexivity.
Qed.

(** After the first message the listener passes on what is not empty. *)
Lemma readable_stripped (messages : list (list byte)) :
  VlessTunnel.readable true messages
  = List.filter (fun c => (0 <? length c)%nat) messages.
Proof.
  induction messages as [|data rest IH]; [reflexivity|].
  cbn [VlessTunnel.readable VlessTunnel.onMessage negb List.filter].
  unfold VlessTunnel.enqueue. rewrite IH. destruct (0 <? length data)%nat; reflexivity.
Qed.

(** The readable side of the tunnel takes the response header (version,
    length of the additional information, that many bytes) off the first
    message of the server and passes on what follows it and every later
    message, leaving out what is empty. *)
Theorem tunnel_strips_response_header
    (version : byte) (addons first : list byte) (rest : list (list byte)) :
  (length addons <= 255)%nat ->
  VlessTunnel.readable false
    ((version :: toUint8 (Z.of_nat (length addons)) :: addons ++ first) :: rest)
  = List.filter (fun c => (0 <? length c)%nat) (first :: rest).
Proof.
  intros Ha. cbn [VlessTunnel.readable VlessTunnel.onMessage negb].
  cbn [length]. change (2 <=? S (S _))%nat with true. cbv iota.
  change (index (version :: toUint8 (Z.of_nat (length addons)) :: addons ++ first) 1)
    with (Some (toUint8 (Z.of_nat (length addons)))).
  cbv iota zeta. rewrite u8_toUint8, Z.mod_small by lia.
  rewrite length_app.
  destruct first as [|b first].
  - rewrite (proj2 (Z.ltb_ge _ _)) by (cbn [length]; lia).
    cbn [app List.filter length Nat.ltb Nat.leb]. rewrite readable_stripped. reflexivity.
  - rewrite (proj2 (Z.ltb_lt _ _)) by (cbn [length]; lia).
    rewrite readable_stripped.
    unfold VlessTunnel.enqueue, sliceFrom.
    rewrite slice_inside by (cbn [length]; rewrite length_app; cbn [length]; lia).
    replace (Z.to_nat (2 + Z.of_nat (length addons))) with (S (S (length addons))) by lia.
    cbn [drop]. rewrite drop_app_length.
    rewrite firstn_all2 by (cbn [length]; rewrite length_app; cbn [length]; lia).
    reflexivity.
Qed.

Lemma tunnel_strips_response_header_witness :
  VlessTunnel.readable false
    [bytes [0; 2; 7; 7; 65; 66]; []; bytes [67]]
  = [bytes [65; 66]; bytes [67]].
Proof.
  apply (tunnel_strips_response_header x00 (bytes [7; 7]) (bytes [65; 66]) [[]; bytes [67]]).
  cbn. lia.
Defined.

(** ** From the tunnel's first packet to the dispatcher *)

(** The header the builder makes, as the parser reads it. *)
Lemma built_header_parsed (command atype port : Z) (address uuid userID : jsstring) :
  command = 1 \/ command = 2 -> 0 <= port < 65536 ->
  canonicalAddress atype address ->
  isValidUUID uuid = true -> toLowerCase uuid = uuid ->
  In uuid (map trim (credentials userID)) ->
  exists vlessHeader rest,
    VlessOutbound.makeVlessRequestHeader command atype address port uuid = Return vlessHeader
    /\ vlessHeader = x00 :: rest
    /\ Vless.processProtocolHeader vlessHeader userID
       = Return (Success {| addressRemote := address; addressType := atype;
                            portRemote := port;
                            rawDataIndex := Int (Z.of_nat (length vlessHeader));
                            protocolVersion := Some [x00]; isUDP := (command =? 2) |}).
Proof.
  intros Hc Hp Ha Hv Hl Hin.
  destruct (uuid_decompose uuid Hv Hl) as (hs & Hlen & Hall & ->).
  pose proof (fun t => fixedPart_length hs command port t Hlen) as Hf.
  assert (Hx : forall t tail, exists rest, fixedPart hs command port t ++ tail = x00 :: rest)
    by (intros t tail; eexists; reflexivity).
  destruct Ha as [o1 o2 o3 o4|name Hne Hn Hascii|groups Hg Hr].
  - destruct (Hx 1 [o1; o2; o3; o4]) as [rest Hrest].
    eexists _, rest. split; [apply build_ipv4; assumption|]. split; [exact Hrest|].
    rewrite parse_ipv4 by assumption. rewrite length_app, Hf. reflexivity.
  - destruct (Hx 2 (toUint8 (Z.of_nat (length name)) :: map toUint8 name)) as [rest Hrest].
    eexists _, rest. split; [apply build_domain; assumption|]. split; [exact Hrest|].
    rewrite parse_domain by assumption. rewrite length_app, Hf. cbn [length].
    rewrite length_map. do 3 f_equal. f_equal. lia.
  - destruct (Hx 3 (groupBytes groups)) as [rest Hrest].
    eexists _, rest. split; [apply build_ipv6; assumption|]. split; [exact Hrest|].
    rewrite parse_ipv6 by assumption. rewrite length_app, Hf, groupBytes_length, Hg.
    reflexivity.
Qed.

(** A chunk that starts with a zero byte is not taken for Trojan. *)
Lemma zero_byte_not_trojan (rest : list byte) (password : jsstring) :
  Trojan.isTrojanProtocol (x00 :: rest) password = false.
Proof.
  destruct (Trojan.isTrojanProtocol _ _) eqn:E; [exfalso|reflexivity].
  apply isTrojanProtocol_true in E as (_ & _ & _ & digest & _ & _ & Hhex & Hd).
  cbn [take map] in Hd. subst digest. apply Forall_cons in Hhex as [H0 _].
  apply lowerHex_ascii in H0 as H1. unfold lowerHex, inRange in H0.
  change (u8 x00) with 0 in H0. discriminate.
Qed.

(** The first packet of the tunnel, the request header followed by the
    client's data, is a request this handler accepts when the UUID is one
    of its credentials: it starts the TCP or UDP outbound for the same
    address and port with the client's data and the response header
    [[0, 0]], or turns to the DNS mode or throws for UDP without a UDP
    outbound. *)
Theorem tunnel_first_packet_is_dispatched
    (command atype port : Z) (address uuid : jsstring)
    (cfg : WebSocket.config) (stored : bool) (clientData : list byte) :
  command = 1 \/ command = 2 -> 0 <= port < 65536 ->
  canonicalAddress atype address ->
  isValidUUID uuid = true -> toLowerCase uuid = uuid ->
  In uuid (map trim (credentials (WebSocket.userID cfg))) ->
  exists vlessHeader firstPacket,
    VlessOutbound.makeVlessRequestHeader command atype address port uuid = Return vlessHeader
    /\ VlessTunnel.firstPacket vlessHeader clientData = Return firstPacket
    /\ WebSocket.write cfg stored WebSocket.initialSession firstPacket
       = if command =? 1 then
           Return ({| WebSocket.isDns := false; WebSocket.remoteSocketWrapper := stored |},
                   [WebSocket.HandleTCPOutBound atype address port clientData
                      (Some [x00; x00])])
         else if WebSocket.canHandleUDP cfg then
           Return ({| WebSocket.isDns := false; WebSocket.remoteSocketWrapper := stored |},
                   [WebSocket.HandleUDPOutbound (Some [x00; x00]) atype address port
                      clientData])
         else if port =? 53 then
           Return ({| WebSocket.isDns := true; WebSocket.remoteSocketWrapper := false |}, [])
         else Throw (Error (str "UDP proxy requires VLESS outbound configuration")).
Proof.
  intros Hc Hp Ha Hv Hl Hin.
  destruct (built_header_parsed command atype port address uuid (WebSocket.userID cfg)
              Hc Hp Ha Hv Hl Hin) as (vlessHeader & rest & Hmake & Hzero & Hparse).
  exists vlessHeader, (vlessHeader ++ clientData).
  split; [exact Hmake|]. split; [apply firstPacket_concat|].
  destruct (vless_success_request vlessHeader _ _ _ Hparse eq_refl ltac:(lia))
    as [payload Hreq].
  pose proof (vlessRequest_extend _ _ _ _ clientData Hreq) as Hreq'.
  pose proof (proj1 (vlessRequest_parsed _ _ _ _ Hreq')) as Hfull.
  assert (Hslice : sliceFrom (vlessHeader ++ clientData)
                     (rawDataIndex {| addressRemote := address; addressType := atype;
                                      portRemote := port;
                                      rawDataIndex := Int (Z.of_nat (length vlessHeader));
                                      protocolVersion := Some [x00];
                                      isUDP := command =? 2 |})
                   = sliceFrom vlessHeader (Int (Z.of_nat (length vlessHeader)))
                     ++ clientData).
  { rewrite (vlessRequest_payload _ _ _ _ Hreq').
    pose proof (vlessRequest_payload _ _ _ _ Hreq) as Hpay. cbn [rawDataIndex] in Hpay.
    rewrite Hpay. reflexivity. }
  cbn [rawDataIndex] in Hslice.
  assert (Hempty : sliceFrom vlessHeader (Int (Z.of_nat (length vlessHeader))) = []).
  { unfold sliceFrom. rewrite slice_inside by lia. rewrite Z.sub_diag. reflexivity. }
  rewrite Hempty in Hslice. cbn [app] in Hslice.
  unfold WebSocket.write. cbn [WebSocket.initialSession WebSocket.isDns
                                 WebSocket.remoteSocketWrapper].
  assert (Hnt : Trojan.isTrojanProtocol (vlessHeader ++ clientData)
                  (WebSocket.trojanPassword cfg) = false)
    by (rewrite Hzero; apply zero_byte_not_trojan).
  unfold WebSocket.detect. rewrite Hnt.
  rewrite Hfull. cbn [mbind completion_bind cbind isUDP rawDataIndex addressType
                        addressRemote portRemote protocolVersion].
  rewrite Hslice.
  change (WebSocket.responseHeader WebSocket.vless _) with (Some [x00; x00]).
  destruct Hc as [-> | ->]; reflexivity.
Qed.

Lemma tunnel_first_packet_is_dispatched_witness :
  exists vlessHeader firstPacket,
    VlessOutbound.makeVlessRequestHeader 1 2 (str "example.com") 443 defaultUserID
    = Return vlessHeader
    /\ VlessTunnel.firstPacket vlessHeader (bytes [71; 69; 84]) = Return firstPacket
    /\ WebSocket.write dnsConfig true WebSocket.initialSession firstPacket
       = if 1 =? 1 then
           Return ({| WebSocket.isDns := false; WebSocket.remoteSocketWrapper := true |},
                   [WebSocket.HandleTCPOutBound 2 (str "example.com") 443 (bytes [71; 69; 84])
                      (Some [x00; x00])])
         else if WebSocket.canHandleUDP dnsConfig then
           Return ({| WebSocket.isDns := false; WebSocket.remoteSocketWrapper := true |},
                   [WebSocket.HandleUDPOutbound (Some [x00; x00]) 2 (str "example.com") 443
                      (bytes [71; 69; 84])])
         else if 443 =? 53 then
           Return ({| WebSocket.isDns := true; WebSocket.remoteSocketWrapper := false |}, [])
         else Throw (Error (str "UDP proxy requires VLESS outbound configuration")).
Proof.
  refine (tunnel_first_packet_is_dispatched 1 2 443 (str "example.com") defaultUserID
            dnsConfig true (bytes [71; 69; 84]) _ _ _ _ _ _).
  - left. reflexivity.
  - lia.
  - apply CanonicalDomain.
    + discriminate.
    + vm_compute. lia.
    + apply (bool_decide_unpack _). vm_compute. exact I.
  - reflexivity.
  - reflexivity.
  - left. reflexivity.
Defined.

(** ** The relays of the DNS and UDP paths *)

Lemma dns_relay_sends (answers : list (list byte * Z)) (header : option (list byte)) :
  Dns.relay answers header = map Dns.Send (Trace.withHeader header (arrivedOpen answers)).
Proof.
  revert header. induction answers as [|[chunk readyState] rest IH]; intros header.
  - destruct header; reflexivity.
  - cbn [Dns.relay]. unfold arrivedOpen. cbn [List.filter snd].
    destruct (readyState =? WS_READY_STATE_OPEN).
    + cbn [map fst]. destruct header as [h|].
      * rewrite IH. reflexivity.
      * rewrite IH. reflexivity.
    + apply IH.
Qed.

(** [handleDNSQuery] connects to 8.8.4.4 port 53, writes the chunk once,
    and sends the answers that arrive while the WebSocket is open, the
    response header before the first of them only; an answer that arrives
    while it is not open is skipped and the relay goes on. *)
Theorem dns_query_relays_answers_with_header_once
    (net : Dns.resolver) (udpChunk : list byte) (protocolResponseHeader : option (list byte)) :
  Dns.handleDNSQuery net udpChunk protocolResponseHeader
  = Dns.Connect (str "8.8.4.4") 53
    :: (if Dns.reachable net
        then Dns.Write udpChunk
             :: map Dns.Send (Trace.withHeader protocolResponseHeader
                                (arrivedOpen (Dns.answers net)))
        else []).
Proof.
  unfold Dns.handleDNSQuery. destruct (Dns.reachable net); [|reflexivity].
  rewrite dns_relay_sends. reflexivity.
Qed.

Lemma udp_pipe_sends (chunks : list (list byte * Z)) (header : option (list byte)) :
  UdpOutbound.pipe chunks header false
  = map UdpOutbound.Send (Trace.withHeader header (arrivedOpen chunks))
  /\ UdpOutbound.pipe chunks header true = map UdpOutbound.Send (arrivedOpen chunks)
  /\ UdpOutbound.pipe chunks None false = map UdpOutbound.Send (arrivedOpen chunks).
Proof.
  induction chunks as [|[data readyState] rest (IH1 & IH2 & IH3)].
  - destruct header; repeat split.
  - cbn [UdpOutbound.pipe]. unfold arrivedOpen in *. cbn [List.filter snd].
    destruct (readyState =? WS_READY_STATE_OPEN); cbn [negb map fst].
    + destruct header as [h|]; cbn [Trace.withHeader map].
      * rewrite IH2. repeat split. rewrite IH3. reflexivity.
      * rewrite IH3. destruct (map fst _); repeat split; rewrite IH2; reflexivity.
    + auto.
Qed.

(** [handleUDPOutbound] closes the WebSocket and returns null without a UDP
    outbound or a tunnel; otherwise it sends what the tunnel delivers while
    the WebSocket is open, the response header before the first of it only,
    and closes the WebSocket when the tunnel ends. *)
Theorem udp_outbound_relays_with_header_once
    (canHandleUDP : bool) (vlessResult : option (list (list byte * Z)))
    (protocolResponseHeader : option (list byte)) :
  UdpOutbound.handleUDPOutbound canHandleUDP vlessResult protocolResponseHeader
  = match canHandleUDP, vlessResult with
    | true, Some chunks =>
        (map UdpOutbound.Send (Trace.withHeader protocolResponseHeader (arrivedOpen chunks))
         ++ [UdpOutbound.SafeClose], true)
    | _, _ => ([UdpOutbound.SafeClose], false)
    end.
Proof.
  unfold UdpOutbound.handleUDPOutbound.
  destruct canHandleUDP; [|reflexivity]. destruct vlessResult as [chunks|]; [|reflexivity].
  cbn [negb]. rewrite (proj1 (udp_pipe_sends chunks protocolResponseHeader)). reflexivity.
Qed.

(** ** UUID bytes and UUID strings *)

Lemma byteToHex_digits (b : byte) : byteToHex (u8 b) = hexDigits b.
Proof. destruct b; vm_compute; reflexivity. Qed.

Lemma hexDigits_parse (b : byte) : numToUint8 (parseInt (hexDigits b) (Some 16)) = b.
Proof. destruct b; vm_compute; reflexivity. Qed.

Lemma digitChar_lowerHex (d : Z) : 0 <= d < 16 -> lowerHex (digitChar d).
Proof.
  intros Hd. apply hexChar_range. unfold digitChar.
  destruct (Z.ltb_spec d 10); lia.
Qed.

Lemma hexDigits_lowerHex (b : byte) : Forall lowerHex (hexDigits b).
Proof.
  pose proof (u8_range b). unfold hexDigits.
  repeat constructor; apply digitChar_lowerHex.
  - split; [apply Z.div_pos; lia|apply Z.div_lt_upper_bound; lia].
  - apply Z.mod_pos_bound. lia.
Qed.

Lemma hexDigits_all (bs : list byte) :
  Forall lowerHex (flat_map hexDigits bs)
  /\ length (flat_map hexDigits bs) = (2 * length bs)%nat
  /\ pairBytes (flat_map hexDigits bs) = bs.
Proof.
  induction bs as [|b bs (IH1 & IH2 & IH3)]; [repeat split; constructor|].
  cbn [flat_map]. split; [|split].
  - apply Forall_app. split; [apply hexDigits_lowerHex|exact IH1].
  - rewrite length_app, IH2. cbn [length hexDigits]. lia.
  - change (hexDigits b ++ ?l) with (digitChar (u8 b / 16) :: digitChar (u8 b mod 16) :: l).
    cbn [pairBytes]. rewrite IH3. fold (hexDigits b). rewrite hexDigits_parse. reflexivity.
Qed.

(** Sixteen bytes print as their 32 digits with the four dashes. *)
Lemma unsafeStringify_digits (bs : list byte) :
  length bs = 16%nat -> unsafeStringify bs 0 = dashed (flat_map hexDigits bs).
Proof.
  intros Hlen. destruct (hexDigits_all bs) as (Hall & _ & _).
  rewrite <- (toLowerCase_hex_dashed _ Hall). clear Hall.
  explode bs. unfold unsafeStringify. f_equal.
  unfold hexAt, index. cbn [Z.add Pos.add Pos.succ Z.ltb Z.compare].
  cbv -[u8 byteToHex hexDigits digitChar Z.div Z.modulo].
  rewrite !byteToHex_digits. reflexivity.
Qed.

Lemma hexClass_hi (b : byte) : hexClass (digitChar (u8 b / 16)) = true.
Proof. destruct b; reflexivity. Qed.

Lemma hexClass_lo (b : byte) : hexClass (digitChar (u8 b mod 16)) = true.
Proof. destruct b; reflexivity. Qed.

Lemma versionClass_hi (b : byte) :
  versionClass (digitChar (u8 b / 16)) = (16 <=? u8 b) && (u8 b <? 96).
Proof. destruct b; reflexivity. Qed.

Lemma variantClass_hi (b : byte) :
  variantClass (digitChar (u8 b / 16)) = (128 <=? u8 b) && (u8 b <? 192).
Proof. destruct b; reflexivity. Qed.

Lemma isValidUUID_digits (bs : list byte) (version variant : byte) :
  length bs = 16%nat -> bs !! 6%nat = Some version -> bs !! 8%nat = Some variant ->
  isValidUUID (dashed (flat_map hexDigits bs))
  = (16 <=? u8 version) && (u8 version <? 96)
    && ((128 <=? u8 variant) && (u8 variant <? 192)).
Proof.
  intros Hlen H6 H8. explode bs. cbn in H6, H8.
  injection H6 as ->. injection H8 as ->.
  unfold isValidUUID, dashed, hexDigits.
  cbn [flat_map app take drop uuidRegex replicate matchClasses].
  rewrite !hexClass_hi, !hexClass_lo, versionClass_hi, variantClass_hi.
  change (dashClass 45) with true. cbn [andb]. rewrite !andb_true_r. reflexivity.
Qed.

Lemma stringify_digits (bs : list byte) (version variant : byte) :
  length bs = 16%nat -> bs !! 6%nat = Some version -> bs !! 8%nat = Some variant ->
  stringify bs 0
  = (if (16 <=? u8 version) && (u8 version <? 96)
        && ((128 <=? u8 variant) && (u8 variant <? 192))
     then Return (dashed (flat_map hexDigits bs))
     else Throw (TypeError "Stringified UUID is invalid")).
Proof.
  intros Hlen H6 H8.
  unfold stringify. rewrite (unsafeStringify_digits bs Hlen).
  rewrite (isValidUUID_digits bs version variant Hlen H6 H8).
  destruct (_ && _); reflexivity.
Qed.

(** [stringify] accepts sixteen bytes exactly when the seventh is in
    0x10..0x5f and the ninth in 0x80..0xbf (a version digit 1-5 and a
    variant digit 8, 9, a or b); it then returns their 32 lower-case digits,
    dashed, from which the bytes can be read back; otherwise it throws the
    TypeError. *)
Theorem stringify_checks_version_and_variant (bs : list byte) (version variant : byte) :
  length bs = 16%nat -> bs !! 6%nat = Some version -> bs !! 8%nat = Some variant ->
  stringify bs 0
  = (if (16 <=? u8 version) && (u8 version <? 96)
        && ((128 <=? u8 variant) && (u8 variant <? 192))
     then Return (dashed (flat_map hexDigits bs))
     else Throw (TypeError "Stringified UUID is invalid"))
  /\ pairBytes (flat_map hexDigits bs) = bs
  /\ Forall lowerHex (flat_map hexDigits bs).
Proof.
  intros Hlen H6 H8. destruct (hexDigits_all bs) as (Hall & _ & Hpair).
  split; [|split; assumption].
  exact (stringify_digits bs version variant Hlen H6 H8).
Qed.

Lemma stringify_checks_version_and_variant_witness :
  stringify (pairBytes defaultDigits) 0
  = (if (16 <=? u8 x45) && (u8 x45 <? 96) && ((128 <=? u8 xb3) && (u8 xb3 <? 192))
     then Return (dashed (flat_map hexDigits (pairBytes defaultDigits)))
     else Throw (TypeError "Stringified UUID is invalid"))
  /\ pairBytes (flat_map hexDigits (pairBytes defaultDigits)) = pairBytes defaultDigits
  /\ Forall lowerHex (flat_map hexDigits (pairBytes defaultDigits)).
Proof.
  refine (stringify_checks_version_and_variant (pairBytes defaultDigits) x45 xb3 _ _ _).
  - reflexivity.
  - reflexivity.
  - reflexivity.
Defined.

(** The parser throws the TypeError exactly on a UUID field outside the
    version and variant ranges, whatever credential is configured. *)
Theorem vless_type_error_iff_uuid_form (buffer : list byte) (userID : jsstring)
    (version variant : byte) :
  24 <= Z.of_nat (length buffer) ->
  buffer !! 7%nat = Some version -> buffer !! 9%nat = Some variant ->
  ((exists message, Vless.processProtocolHeader buffer userID = Throw (TypeError message))
   <-> (16 <=? u8 version) && (u8 version <? 96)
       && ((128 <=? u8 variant) && (u8 variant <? 192)) = false)
  /\ ((16 <=? u8 version) && (u8 version <? 96)
       && ((128 <=? u8 variant) && (u8 variant <? 192)) = false ->
      Vless.processProtocolHeader buffer userID
      = Throw (TypeError "Stringified UUID is invalid")).
Proof.
  intros Hlen H7 H9.
  assert (Hs : slice buffer (Int 1) (Int 17) = take 16 (drop 1 buffer)).
  { rewrite slice_inside by lia. reflexivity. }
  assert (Hl : length (take 16 (drop 1 buffer)) = 16%nat).
  { rewrite length_take, length_drop. lia. }
  assert (H6' : take 16 (drop 1 buffer) !! 6%nat = Some version).
  { rewrite lookup_take_lt by lia. rewrite lookup_drop. exact H7. }
  assert (H8' : take 16 (drop 1 buffer) !! 8%nat = Some variant).
  { rewrite lookup_take_lt by lia. rewrite lookup_drop. exact H9. }
  pose proof (stringify_digits _ version variant Hl H6' H8') as Hstr.
  rewrite <- Hs in Hstr.
  assert (Hthrow : (16 <=? u8 version) && (u8 version <? 96)
       && ((128 <=? u8 variant) && (u8 variant <? 192)) = false ->
      Vless.processProtocolHeader buffer userID
      = Throw (TypeError "Stringified UUID is invalid")).
  { intros Hc. rewrite Hc in Hstr. unfold Vless.processProtocolHeader.
    rewrite (proj2 (Z.ltb_ge _ _)) by lia.
    destruct (getUint8 buffer (Int 0)) as [v|e] eqn:E0.
    2:{ unfold getUint8, toInteger in E0. change (0 <? 0) with false in E0.
        destruct buffer; [cbn in Hlen; lia|discriminate]. }
    cbn [mbind completion_bind cbind]. rewrite Hstr. reflexivity. }
  split; [|exact Hthrow]. split; [|eauto].
  intros [message Hm].
  destruct ((16 <=? u8 version) && (u8 version <? 96)
       && ((128 <=? u8 variant) && (u8 variant <? 192))) eqn:Hc; [|reflexivity].
  exfalso. revert Hm. unfold Vless.processProtocolHeader.
  rewrite (proj2 (Z.ltb_ge _ _)) by lia.
  destruct (getUint8 buffer (Int 0)) as [v|e] eqn:E0.
  2:{ cbn. intros [= ->]. destruct (getUint8_throws _ _ _ E0); discriminate. }
  cbn [mbind completion_bind cbind]. rewrite Hstr.
  cbn [mbind completion_bind cbind].
  destruct (negb _); [discriminate|].
  destruct (getUint8 buffer (Int 17)) as [n|e] eqn:E17.
  2:{ cbn. intros [= ->]. destruct (getUint8_throws _ _ _ E17); discriminate. }
  cbn [mbind completion_bind cbind].
  destruct (getUint8 buffer (Int (18 + n))) as [c|e] eqn:Ec.
  2:{ cbn. intros [= ->]. destruct (getUint8_throws _ _ _ Ec); discriminate. }
  cbn [mbind completion_bind cbind].
  destruct (negb (c =? 1) && negb (c =? 2)); [discriminate|].
  destruct (getUint16 buffer (Int (18 + n + 1))) as [p|e] eqn:Ep.
  2:{ cbn. intros [= ->]. destruct (getUint16_throws _ _ _ Ep); discriminate. }
  cbn [mbind completion_bind cbind].
  destruct (getUint8 buffer (Int (18 + n + 1 + 2))) as [t|e] eqn:Et.
  2:{ cbn. intros [= ->]. destruct (getUint8_throws _ _ _ Et); discriminate. }
  cbn [mbind completion_bind cbind].
  destruct (t =? 1).
  { cbn [mbind completion_bind cbind]. destruct (joinBytes _ _); discriminate. }
  destruct (t =? 2).
  { destruct (getUint8 buffer (Int (18 + n + 1 + 3))) as [l|e] eqn:El.
    2:{ cbn. intros [= ->]. destruct (getUint8_throws _ _ _ El); discriminate. }
    cbn [mbind completion_bind cbind]. destruct (textDecode _); discriminate. }
  destruct (t =? 3); [|discriminate].
  destruct (Vless.readGroups buffer (18 + n + 1 + 3) [0; 1; 2; 3; 4; 5; 6; 7]) as [gs|e] eqn:Eg.
  2:{ cbn. intros [= ->]. destruct (vless_readGroups_throws _ _ _ _ Eg); discriminate. }
  cbn [mbind completion_bind cbind]. destruct (join _ _); discriminate.
Qed.

Lemma vless_type_error_iff_uuid_form_witness :
  ((exists message,
       Vless.processProtocolHeader (dnsFirstChunk []) defaultUserID = Throw (TypeError message))
   <-> (16 <=? u8 x45) && (u8 x45 <? 96) && ((128 <=? u8 xb3) && (u8 xb3 <? 192)) = false)
  /\ ((16 <=? u8 x45) && (u8 x45 <? 96) && ((128 <=? u8 xb3) && (u8 xb3 <? 192)) = false ->
      Vless.processProtocolHeader (dnsFirstChunk []) defaultUserID
      = Throw (TypeError "Stringified UUID is invalid")).
Proof.
  refine (vless_type_error_iff_uuid_form (dnsFirstChunk []) defaultUserID x45 xb3 _ _ _).
  - vm_compute. discriminate.
  - reflexivity.
  - reflexivity.
Defined.

(** ** The digest of a password *)

Lemma packWords_None (s : jsstring) (i : Z) (words : list Z) :
  Crypto.packWords s i words = None <-> Exists (fun j => sar j 8 <> 0) s.
Proof.
  revert i words. induction s as [|j s IH]; intros i words; cbn [Crypto.packWords].
  - split; [discriminate|]. intros H. inversion H.
  - destruct (Z.eqb_spec (sar j 8) 0) as [E|E].
    + rewrite IH. split; [apply Exists_cons_tl|].
      intros H. inversion H; subst; [contradiction|assumption].
    + split; [intros _; apply Exists_cons_hd; exact E|reflexivity].
Qed.

Lemma padZeros_zeros (fuel : nat) (s : jsstring) :
  exists n, Crypto.padZeros fuel s = s ++ replicate n 0.
Proof.
  revert s. induction fuel as [|f IH]; intros s; cbn [Crypto.padZeros].
  - exists 0%nat. cbn. rewrite app_nil_r. reflexivity.
  - destruct (_ =? 0).
    + exists 0%nat. cbn. rewrite app_nil_r. reflexivity.
    + destruct (IH (s ++ [0])) as [n ->]. exists (S n). rewrite <- app_assoc. reflexivity.
Qed.

Lemma sar8_zero (j : Z) : 0 <= j < 65536 -> (sar j 8 <> 0 <-> 256 <= j).
Proof.
  intros Hj. rewrite sar_small by lia. change (2 ^ 8) with 256.
  split.
  - intros H. destruct (Z.lt_ge_cases j 256) as [Hlt|]; [|assumption].
    rewrite Z.div_small in H by lia. contradiction.
  - intros H E. assert (1 <= j / 256) by (apply Z.div_le_lower_bound; lia). lia.
Qed.

Lemma sha224_None (s : jsstring) :
  Forall (fun c => 0 <= c < 65536) s ->
  Crypto.sha224 s = None <-> Exists (fun c => 256 <= c) s.
Proof.
  intros Hs. unfold Crypto.sha224.
  destruct (padZeros_zeros 64 (s ++ [128])) as [n ->].
  destruct (Crypto.packWords _ 0 []) as [words|] eqn:E.
  - split; [discriminate|]. intros Hex. exfalso.
    assert (Hn : Crypto.packWords ((s ++ [128]) ++ replicate n 0) 0 [] = None);
      [|rewrite Hn in E; discriminate].
    apply packWords_None. rewrite <- app_assoc. apply Exists_app. left.
    apply Exists_exists in Hex as (c & Hin & Hc). apply Exists_exists. exists c.
    split; [assumption|]. apply sar8_zero; [|assumption].
    rewrite Forall_forall in Hs. apply Hs. assumption.
  - split; [|reflexivity]. intros _.
    apply packWords_None in E. rewrite <- app_assoc in E.
    apply Exists_app in E as [E|E].
    + apply Exists_exists in E as (c & Hin & Hc). apply Exists_exists. exists c.
      split; [assumption|]. apply sar8_zero; [|assumption].
      rewrite Forall_forall in Hs. apply Hs. assumption.
    + exfalso. apply Exists_exists in E as (c & Hin & Hc).
      apply elem_of_app in Hin as [Hin|Hin].
      * apply list_elem_of_singleton in Hin. subst c. apply Hc. reflexivity.
      * apply elem_of_replicate in Hin as [-> _]. apply Hc. reflexivity.
Qed.

(** The digest is undefined exactly for a password with a code unit above
    0xff, and such a password matches no request: detection answers false
    and the parser rejects every buffer. *)
Theorem trojan_password_outside_latin1_never_matches (password : jsstring) :
  Forall (fun c => 0 <= c < 65536) password ->
  (Crypto.sha224 password = None <-> Exists (fun c => 256 <= c) password)
  /\ (Exists (fun c => 256 <= c) password ->
      forall buffer,
        Trojan.isTrojanProtocol buffer password = false
        /\ Trojan.processTrojanHeader buffer password
           = Return (Failure (if Z.of_nat (length buffer) <? 58
                              then str "Invalid Trojan data: too short"
                              else str "Invalid Trojan password"))).
Proof.
  intros Hs. pose proof (sha224_None password Hs) as Hiff.
  split; [exact Hiff|]. intros Hex buffer. apply Hiff in Hex.
  unfold Trojan.isTrojanProtocol, Trojan.processTrojanHeader, num_lt.
  rewrite Hex. cbn [Trojan.sameHash negb].
  destruct (Z.of_nat (length buffer) <? 58); [split; reflexivity|].
  split; [|reflexivity]. destruct (_ || _); reflexivity.
Qed.

Lemma trojan_password_outside_latin1_never_matches_witness :
  (Crypto.sha224 [960] = None <-> Exists (fun c => 256 <= c) [960])
  /\ (Exists (fun c => 256 <= c) [960] ->
      forall buffer,
        Trojan.isTrojanProtocol buffer [960] = false
        /\ Trojan.processTrojanHeader buffer [960]
           = Return (Failure (if Z.of_nat (length buffer) <? 58
                              then str "Invalid Trojan data: too short"
                              else str "Invalid Trojan password"))).
Proof.
  refine (trojan_password_outside_latin1_never_matches [960] _).
  repeat constructor; lia.
Defined.

(** ** Detection for every password *)

(** The digest is defined for a password of code units up to 0xff. *)
Lemma sha224_latin1 (password : jsstring) :
  Forall (fun c => 0 <= c < 65536) password ->
  Forall (fun c => c < 256) password ->
  exists digest, Crypto.sha224 password = Some digest.
Proof.
  intros Hs Hl. destruct (Crypto.sha224 password) as [digest|] eqn:E; [eauto|].
  exfalso. apply (sha224_None password Hs) in E.
  apply Exists_exists in E as (c & Hin & Hc).
  rewrite Forall_forall in Hl. specialize (Hl c Hin). lia.
Qed.

(** C2 (as amended): for a password of code units up to 0xff the digest
    [sha224] returns is defined, 56 lower-case hexadecimal digits, and
    [isTrojanProtocol] is true exactly when the buffer has at least 58
    bytes, bytes 56 and 57 are CR LF and bytes 0 to 55 are those digits;
    for a password with a code unit above 0xff the digest is undefined and
    no buffer is detected.  A buffer shorter than 58 bytes is never
    detected; the handler parses the chunk as Trojan when the detection is
    true and as VLESS exactly when it is false.  [sha224] gives the digests
    of FIPS 180-4 for the empty message, "abc" and the 448-bit message. *)
Theorem trojan_detection_iff_hash_and_crlf
    (buffer : list byte) (password : jsstring) (cfg : WebSocket.config) :
  Forall (fun c => 0 <= c < 65536) password ->
  (Forall (fun c => c < 256) password ->
   exists digest,
     Crypto.sha224 password = Some digest
     /\ length digest = 56%nat /\ Forall lowerHex digest
     /\ (Trojan.isTrojanProtocol buffer password = true <->
         (58 <= length buffer)%nat
         /\ buffer !! 56%nat = Some x0d /\ buffer !! 57%nat = Some x0a
         /\ map u8 (take 56 buffer) = digest))
  /\ (Exists (fun c => 256 <= c) password ->
      Crypto.sha224 password = None
      /\ Trojan.isTrojanProtocol buffer password = false)
  /\ ((length buffer < 58)%nat -> Trojan.isTrojanProtocol buffer password = false)
  /\ (WebSocket.detect cfg buffer
      = if Trojan.isTrojanProtocol buffer (WebSocket.trojanPassword cfg)
        then (WebSocket.trojan,
              Trojan.processTrojanHeader buffer (WebSocket.trojanPassword cfg))
        else (WebSocket.vless,
              Vless.processProtocolHeader buffer (WebSocket.userID cfg)))
  /\ ((WebSocket.detect cfg buffer).1 = WebSocket.vless <->
      Trojan.isTrojanProtocol buffer (WebSocket.trojanPassword cfg) = false)
  /\ Crypto.sha224 [] = Some (str "d14a028c2a3a2bc9476102bb288234c415a2b01f828ea62ac5b3e42f")
  /\ Crypto.sha224 (str "abc") = Some digestAbc
  /\ Crypto.sha224 (str "abcdbcdecdefdefgefghfghighijhijkijkljklmklmnlmnomnopnopq")
     = Some (str "75388b16512776cc5dba5da1fd890150b0c6455cb4f58b1952522525").
Proof.
  intros Hs. split; [|split; [|split; [|split; [|split]]]].
  - intros Hl. destruct (sha224_latin1 password Hs Hl) as [digest Hd].
    destruct (sha224_hex _ _ Hd) as [Hlen Hhex].
    exists digest. split; [exact Hd|]. split; [exact Hlen|]. split; [exact Hhex|].
    rewrite isTrojanProtocol_true. split.
    + intros (H58 & Hcr & Hlf & digest' & Hd' & _ & _ & Hb).
      rewrite Hd in Hd'. injection Hd' as <-. auto.
    + intros (H58 & Hcr & Hlf & Hb). repeat (split; [assumption|]).
      exists digest. auto.
  - intros Hex. apply (sha224_None password Hs) in Hex. split; [exact Hex|].
    destruct (Trojan.isTrojanProtocol buffer password) eqn:E; [|reflexivity].
    apply isTrojanProtocol_true in E as (_ & _ & _ & digest & Hd & _).
    rewrite Hex in Hd. discriminate.
  - intros Hlen. unfold Trojan.isTrojanProtocol.
    rewrite (proj2 (Z.ltb_lt _ _)) by lia. reflexivity.
  - reflexivity.
  - unfold WebSocket.detect.
    destruct (Trojan.isTrojanProtocol buffer (WebSocket.trojanPassword cfg));
      cbn; split; congruence.
  - split; [|split]; vm_compute; reflexivity.
Qed.

(** The request of the password "abc" is detected. *)
Lemma trojan_detection_iff_hash_and_crlf_witness :
  Forall (fun c => 0 <= c < 65536) (str "abc")
  /\ Forall (fun c => c < 256) (str "abc")
  /\ Trojan.isTrojanProtocol trojanAbc (str "abc") = true.
Proof.
  assert (Hs : Forall (fun c => 0 <= c < 65536) (str "abc")) by (repeat constructor; lia).
  assert (Hl : Forall (fun c => c < 256) (str "abc")) by (repeat constructor; lia).
  split; [exact Hs|]. split; [exact Hl|].
  destruct (proj1 (trojan_detection_iff_hash_and_crlf trojanAbc (str "abc")
                     {| WebSocket.userID := []; WebSocket.trojanPassword := [];
                        WebSocket.canHandleUDP := false |} Hs) Hl)
    as (digest & Hd & _ & _ & Hiff).
  apply Hiff.
  assert (Habc : Crypto.sha224 (str "abc") = Some digestAbc) by (vm_compute; reflexivity).
  rewrite Habc in Hd. injection Hd as <-.
  vm_compute. repeat split; lia.
Defined.

(** C2 as stated fails for a password outside Latin-1: the buffer made of
    the SHA-224 digest of the password "π" (U+03C0, in UTF-8 the bytes CF
    80) and CR LF has 58 bytes, CR LF at 56 and 57 and the 56 hexadecimal
    digits in front, and is not detected; [sha224] returns undefined for
    that password. *)
Lemma trojan_detection_counterexample :
  Crypto.sha224 [207; 128] = Some digestPi
  /\ length (map toUint8 digestPi ++ bytes [13; 10]) = 58%nat
  /\ (map toUint8 digestPi ++ bytes [13; 10]) !! 56%nat = Some x0d
  /\ (map toUint8 digestPi ++ bytes [13; 10]) !! 57%nat = Some x0a
  /\ map u8 (take 56 (map toUint8 digestPi ++ bytes [13; 10])) = digestPi
  /\ Crypto.sha224 [960] = None
  /\ Trojan.isTrojanProtocol (map toUint8 digestPi ++ bytes [13; 10]) [960] = false.
Proof. vm_compute. repeat split; reflexivity. Qed.

(** ** The scenario and the address types *)

(** C10 (as amended): for a password of code units up to 0xff, the buffer
    made of the digest [sha224] returns, CR LF, command 1, address type 1,
    the bytes 1 2 3 4, port 80, CR LF and any payload parses to the address
    "1.2.3.4", port 80, TCP; and every buffer made of the digest, CR LF,
    command 1 or 3, an address type byte, the address field of that type
    with a non-empty text, a port, CR LF and any payload parses to a header
    whose address type is 2 for the byte 3 and the byte itself for 1 and 4.
    For a password with a code unit above 0xff every buffer is rejected.
    Whenever [processTrojanHeader] succeeds, byte 59 is 1, 3 or 4 and the
    returned address type is 2 for 3 and the byte itself for 1 and 4. *)
Theorem trojan_ipv4_scenario_and_address_types
    (password : jsstring) (payload buffer : list byte) (h : header) :
  Forall (fun c => 0 <= c < 65536) password ->
  (Forall (fun c => c < 256) password ->
   exists digest,
     Crypto.sha224 password = Some digest
     /\ length digest = 56%nat /\ Forall lowerHex digest
     /\ Trojan.processTrojanHeader
          (map toUint8 digest ++ bytes [13; 10; 1; 1; 1; 2; 3; 4; 0; 80; 13; 10] ++ payload)
          password
        = Return (Success {| addressRemote := str "1.2.3.4"; addressType := 1;
                             portRemote := 80; rawDataIndex := Int 68;
                             protocolVersion := None; isUDP := false |})
     /\ forall (command t hi lo : byte) (field : list byte) (text : jsstring),
          u8 command = TROJAN_CMD_TCP \/ u8 command = TROJAN_CMD_UDP ->
          trojanAddress (u8 t) field text ->
          text <> [] ->
          (u8 t = 1 \/ u8 t = 3 \/ u8 t = 4)
          /\ Trojan.processTrojanHeader
               (map toUint8 digest ++ [x0d; x0a; command; t] ++ field
                ++ [hi; lo; x0d; x0a] ++ payload)
               password
             = Return (Success {| addressRemote := text;
                                  addressType := (if u8 t =? 3 then VLESS_ADDR_DOMAIN
                                                  else u8 t);
                                  portRemote := u8 hi * 256 + u8 lo;
                                  rawDataIndex := Int (64 + Z.of_nat (length field));
                                  protocolVersion := None;
                                  isUDP := (u8 command =? TROJAN_CMD_UDP) |}))
  /\ (Exists (fun c => 256 <= c) password ->
      exists message, Trojan.processTrojanHeader buffer password = Return (Failure message))
  /\ (Trojan.processTrojanHeader buffer password = Return (Success h) ->
      exists t,
        buffer !! 59%nat = Some t
        /\ (u8 t = 1 \/ u8 t = 3 \/ u8 t = 4)
        /\ addressType h = (if u8 t =? 3 then VLESS_ADDR_DOMAIN else u8 t)).
Proof.
  intros Hs. split; [|split].
  - intros Hl. destruct (sha224_latin1 password Hs Hl) as [digest Hd].
    destruct (sha224_hex _ _ Hd) as [Hlen Hhex].
    exists digest. split; [exact Hd|]. split; [exact Hlen|]. split; [exact Hhex|].
    split; [apply trojan_ipv4_request; exact Hd|].
    intros command t hi lo field text Hc Ha Ht. split.
    + inversion Ha; auto.
    + rewrite (trojan_request_parses password digest command t hi lo field payload text Hd Hc Ha).
      destruct text; [contradiction|reflexivity].
  - intros Hex. apply (sha224_None password Hs) in Hex.
    unfold Trojan.processTrojanHeader, num_lt. rewrite Hex. cbn [Trojan.sameHash negb].
    destruct (Z.of_nat (length buffer) <? 58); eauto.
  - intros Hparse. destruct (processTrojanHeader_total buffer password) as (r & Hr & Hok).
    rewrite Hparse in Hr. injection Hr as <-.
    destruct Hok as (_ & _ & _ & t & Ht). exists t. exact Ht.
Qed.

(** The scenario for the password "abc", followed by "GET", and a request
    for the IPv6 address 0:0:0:0:0:0:0:1, port 443. *)
Lemma trojan_ipv4_scenario_and_address_types_witness :
  Forall (fun c => 0 <= c < 65536) (str "abc")
  /\ Forall (fun c => c < 256) (str "abc")
  /\ Trojan.processTrojanHeader
       (map toUint8 digestAbc ++ bytes [13; 10; 1; 1; 1; 2; 3; 4; 0; 80; 13; 10]
        ++ bytes [71; 69; 84])
       (str "abc")
     = Return (Success {| addressRemote := str "1.2.3.4"; addressType := 1;
                          portRemote := 80; rawDataIndex := Int 68;
                          protocolVersion := None; isUDP := false |})
  /\ Trojan.processTrojanHeader
       (map toUint8 digestAbc ++ [x0d; x0a; x01; x04] ++ groupBytes [0; 0; 0; 0; 0; 0; 0; 1]
        ++ [x01; xbb; x0d; x0a] ++ bytes [71; 69; 84])
       (str "abc")
     = Return (Success {| addressRemote := str "0:0:0:0:0:0:0:1"; addressType := 4;
                          portRemote := 443; rawDataIndex := Int 80;
                          protocolVersion := None; isUDP := false |}).
Proof.
  assert (Hs : Forall (fun c => 0 <= c < 65536) (str "abc")) by (repeat constructor; lia).
  assert (Hl : Forall (fun c => c < 256) (str "abc")) by (repeat constructor; lia).
  split; [exact Hs|]. split; [exact Hl|].
  destruct (proj1 (trojan_ipv4_scenario_and_address_types (str "abc") (bytes [71; 69; 84]) []
                     {| addressRemote := []; addressType := 0; portRemote := 0;
                        rawDataIndex := NaN; protocolVersion := None; isUDP := false |} Hs) Hl)
    as (digest & Hd & _ & _ & Hv4 & Hall).
  assert (Habc : Crypto.sha224 (str "abc") = Some digestAbc) by (vm_compute; reflexivity).
  rewrite Habc in Hd. injection Hd as <-.
  split; [exact Hv4|].
  assert (Hg : Forall (fun g => 0 <= g < 65536) [0; 0; 0; 0; 0; 0; 0; 1])
    by (repeat constructor; lia).
  exact (proj2 (Hall x01 x04 x01 xbb _ _ (or_introl eq_refl)
                  (TrojanIPv6 [0; 0; 0; 0; 0; 0; 0; 1] eq_refl Hg) ltac:(discriminate))).
Defined.

(** C10 as stated fails for a password outside Latin-1: the buffer of the
    scenario, built on the SHA-224 digest of the password "π" (U+03C0,
    UTF-8 bytes CF 80), is rejected for its password. *)
Lemma trojan_scenario_counterexample :
  Crypto.sha224 [207; 128] = Some digestPi
  /\ Trojan.processTrojanHeader
       (map toUint8 digestPi ++ bytes [13; 10; 1; 1; 1; 2; 3; 4; 0; 80; 13; 10]) [960]
     = Return (Failure (str "Invalid Trojan password")).
Proof. vm_compute. split; reflexivity. Qed.

(** * utils/proxyResolver.js: addresses, seed and cache *)

Section ResolverProofs.
Import ProxyResolver Pool.

Lemma startsWith_In (p s : jsstring) (c : Z) :
  startsWith p s = true -> In c p -> In c s.
Proof.
  revert s. induction p as [|x p IH]; intros s Hs Hin; [destruct Hin|].
  destruct s as [|y s]; [discriminate|]. cbn [startsWith] in Hs.
  apply andb_true_iff in Hs as [Hxy Hp]. apply Z.eqb_eq in Hxy. subst y.
  destruct Hin as [->|Hin]; [left; reflexivity|right; apply IH; assumption].
Qed.

Lemma includes_In (p s : jsstring) (c : Z) :
  p <> [] -> includes p s = true -> In c p -> In c s.
Proof.
  intros Hp. induction s as [|y s IH]; intros Hs Hin.
  - cbn [includes] in Hs. rewrite orb_false_r in Hs. destruct p; [congruence|discriminate].
  - cbn [includes] in Hs. apply orb_true_iff in Hs as [Hs|Hs].
    + exact (startsWith_In _ _ _ Hs Hin).
    + right. apply IH; assumption.
Qed.

Lemma includes_absent (p s : jsstring) (c : Z) :
  In c p -> without c s -> includes p s = false.
Proof.
  intros Hin Hs. destruct (includes p s) eqn:E; [|reflexivity]. exfalso.
  assert (Hp : p <> []) by (destruct p; [destruct Hin|discriminate]).
  pose proof (includes_In p s c Hp E Hin) as Hc.
  unfold without in Hs. rewrite List.Forall_forall in Hs. exact (Hs c Hc eq_refl).
Qed.

Lemma includes_present (c : Z) (a b : jsstring) : includes [c] (a ++ c :: b) = true.
Proof.
  induction a as [|x a IH]; cbn [app includes startsWith].
  - rewrite Z.eqb_refl. reflexivity.
  - rewrite IH. apply orb_true_r.
Qed.

Lemma lastIndexOf_go_without (c : Z) (s : jsstring) (i found : Z) :
  without c s -> lastIndexOf_go c s i found = found.
Proof.
  intros Hs. revert i. induction Hs as [|x s Hx _ IH]; intros i; [reflexivity|].
  cbn [lastIndexOf_go]. rewrite (proj2 (Z.eqb_neq x c)) by exact Hx. apply IH.
Qed.

Lemma lastIndexOf_go_last (c : Z) (a b : jsstring) (i found : Z) :
  without c b -> lastIndexOf_go c (a ++ c :: b) i found = i + Z.of_nat (length a).
Proof.
  intros Hb. revert i found. induction a as [|x a IH]; intros i found.
  - cbn [app lastIndexOf_go length]. rewrite Z.eqb_refl.
    rewrite lastIndexOf_go_without by exact Hb. cbn. lia.
  - cbn [app lastIndexOf_go]. rewrite IH. cbn [length]. lia.
Qed.

Lemma lastIndexOf_last (c : Z) (a b : jsstring) :
  without c b -> lastIndexOf c (a ++ c :: b) = Z.of_nat (length a).
Proof. intros Hb. unfold lastIndexOf. rewrite lastIndexOf_go_last by exact Hb. lia. Qed.

(** Decimal digits carry no sign, prefix or separator. *)
Lemma decimal_plain (n : Z) :
  0 <= n ->
  toString n <> [] /\ Forall (digitOf 10) (toString n)
  /\ without 58 (toString n) /\ without 93 (toString n).
Proof.
  intros Hn. destruct (toStringRadix_digits 10 n ltac:(lia) Hn) as (Hne & Hall & _).
  unfold toString. repeat split; try assumption.
  - eapply Forall_impl; [exact Hall|]. intros c Hc.
    apply (hexChar_plain c (digitOf_char 10 c ltac:(lia) Hc)).
  - eapply Forall_impl; [exact Hall|]. intros c Hc.
    apply (hexChar_plain c (digitOf_char 10 c ltac:(lia) Hc)).
Qed.

Lemma parseInt_decimal (s : jsstring) :
  s <> [] -> Forall (digitOf 10) s ->
  parseInt s (Some 10) = Int (digitsValue 10 (digitPrefix 10 s)).
Proof.
  intros Hne Hall.
  rewrite <- (parseInt_digits 10 None s) by auto.
  destruct s as [|c s]; [congruence|].
  inversion Hall as [|? ? Hc Hrest]; subst.
  pose proof (hexChar_plain c (digitOf_char 10 c ltac:(lia) Hc))
    as (Hws & Hminus & Hplus & _).
  unfold parseInt. cbn [trimStart]. rewrite Hws. cbv iota.
  match goal with
  | |- context [match ?m with (sign, s2) => _ end] =>
      assert (Hsign : m = (1, c :: s));
      [ destruct c as [|p|p]; try reflexivity;
        do 6 (destruct p as [p|p|]; try reflexivity); congruence
      | rewrite Hsign ]
  end.
  assert (Hx : has0x (c :: s) = false).
  { unfold has0x. destruct s as [|x s]; [destruct c as [|p|p]; try reflexivity;
      do 6 (destruct p as [p|p|]; try reflexivity)|].
    inversion Hrest as [|? ? Hxd _]; subst.
    pose proof (hexChar_plain x (digitOf_char 10 x ltac:(lia) Hxd))
      as (_ & _ & _ & Hx1 & Hx2 & _).
    replace ((x =? 120) || (x =? 88)) with false
      by (symmetry; apply orb_false_iff; split; apply Z.eqb_neq; assumption).
    destruct c as [|p|p]; try reflexivity.
    do 6 (destruct p as [p|p|]; try reflexivity). }
  rewrite Hx, andb_false_r. reflexivity.
Qed.

Lemma parsePortOr_decimal (n port : Z) :
  0 <= n -> parsePortOr (toString n) port = if n =? 0 then port else n.
Proof.
  intros Hn. destruct (toStringRadix_digits 10 n ltac:(lia) Hn) as (Hne & Hall & Hval).
  unfold parsePortOr, toString. rewrite parseInt_decimal by assumption. rewrite Hval.
  destruct n; reflexivity.
Qed.

Lemma without_app (c : Z) (a b : jsstring) : without c a -> without c b -> without c (a ++ b).
Proof. intros Ha Hb. apply Forall_app. split; assumption. Qed.

Lemma split_two_sep (x y : Z) (p rest : jsstring) :
  without x p ->
  split_go [x; y] 0 (p ++ x :: y :: rest) = p :: split_go [x; y] 0 rest.
Proof.
  induction 1 as [|c p Hc _ IH].
  - cbn [app split_go startsWith length]. rewrite !Z.eqb_refl. reflexivity.
  - cbn [app split_go startsWith]. rewrite (proj2 (Z.eqb_neq x c)) by congruence.
    cbn [andb]. rewrite IH. reflexivity.
Qed.

Lemma split_two_without (x y : Z) (p : jsstring) :
  without x p -> split_go [x; y] 0 p = [p].
Proof.
  induction 1 as [|c p Hc _ IH]; [reflexivity|].
  cbn [split_go startsWith]. rewrite (proj2 (Z.eqb_neq x c)) by congruence.
  cbn [andb]. rewrite IH. reflexivity.
Qed.

Lemma includes_two_present (x y : Z) (p rest : jsstring) :
  includes [x; y] (p ++ x :: y :: rest) = true.
Proof.
  induction p as [|c p IH]; cbn [app includes startsWith].
  - rewrite !Z.eqb_refl. reflexivity.
  - rewrite IH. apply orb_true_r.
Qed.

Lemma includes_two_at_end (x y : Z) (p : jsstring) :
  without x p -> includes [x; y] (p ++ [x]) = false.
Proof.
  induction 1 as [|c p Hc _ IH].
  - cbn. rewrite Z.eqb_refl. reflexivity.
  - cbn [app includes startsWith]. rewrite (proj2 (Z.eqb_neq x c)) by congruence.
    cbn [andb orb]. exact IH.
Qed.

Lemma parseAddressPort_host (host : jsstring) (port : Z) :
  without 58 host -> without 93 host -> without 91 host -> 0 <= port ->
  parseAddressPort (host ++ str ":" ++ toString port)
  = (host, if port =? 0 then 443 else port).
Proof.
  intros H58 H93 H91 Hport.
  destruct (decimal_plain port Hport) as (Hne & Hdig & Hd58 & Hd93).
  change (str ":") with [58]. cbn [app].
  unfold parseAddressPort.
  rewrite (includes_absent (str "]:") _ 93).
  2:{ left. reflexivity. }
  2:{ apply without_app; [assumption|]. constructor; [discriminate|assumption]. }
  change (str ":") with [58]. rewrite includes_present.
  assert (Hs : startsWith (str "[") (host ++ 58 :: toString port) = false).
  { change (str "[") with [91]. destruct H91 as [|c host Hc _]; [reflexivity|].
    cbn [app startsWith]. rewrite (proj2 (Z.eqb_neq 91 c)) by congruence. reflexivity. }
  rewrite Hs. cbn [andb negb].
  rewrite lastIndexOf_last by assumption.
  rewrite slice_prefix. f_equal.
  unfold sliceFrom. rewrite slice_inside by (rewrite length_app; cbn [length]; lia).
  replace (Z.to_nat (Z.of_nat (length host) + 1)) with (length host + 1)%nat by lia.
  rewrite <- drop_drop, drop_app_length. cbn [drop]. rewrite drop_0.
  rewrite take_ge by (rewrite length_app; cbn [length]; lia).
  apply parsePortOr_decimal. assumption.
Qed.

Lemma parseAddressPort_plain (host : jsstring) :
  without 58 host -> parseAddressPort host = (host, 443).
Proof.
  intros H58. unfold parseAddressPort.
  rewrite (includes_absent (str "]:") host 58) by (try assumption; right; left; reflexivity).
  rewrite (includes_absent (str ":") host 58) by (try assumption; left; reflexivity).
  reflexivity.
Qed.

Lemma parseAddressPort_bracket_port (a : jsstring) (port : Z) :
  without 93 a -> 0 <= port ->
  parseAddressPort (str "[" ++ a ++ str "]:" ++ toString port)
  = (str "[" ++ a ++ str "]", if port =? 0 then 443 else port).
Proof.
  intros H93 Hport.
  destruct (decimal_plain port Hport) as (Hne & Hdig & Hd58 & Hd93).
  change (str "[") with [91]. change (str "]:") with [93; 58]. change (str "]") with [93].
  cbn [app]. change (91 :: a ++ 93 :: 58 :: toString port)
    with ((91 :: a) ++ 93 :: 58 :: toString port).
  unfold parseAddressPort. change (str "]:") with [93; 58].
  rewrite (includes_two_present 93 58 (91 :: a)).
  unfold split. rewrite (split_two_sep 93 58 (91 :: a)) by (constructor; [discriminate|assumption]).
  rewrite split_two_without by assumption.
  cbn [nth lookup list_lookup]. change (str "]") with [93]. cbn [app]. f_equal.
  apply parsePortOr_decimal. assumption.
Qed.

Lemma parseAddressPort_bracket (a : jsstring) :
  without 93 a ->
  parseAddressPort (str "[" ++ a ++ str "]") = (str "[" ++ a ++ str "]", 443).
Proof.
  intros H93. change (str "[") with [91]. change (str "]") with [93]. cbn [app].
  change (91 :: a ++ [93]) with ((91 :: a) ++ [93]).
  unfold parseAddressPort. change (str "]:") with [93; 58].
  rewrite (includes_two_at_end 93 58 (91 :: a)) by (constructor; [discriminate|assumption]).
  change (str "[") with [91]. cbn [startsWith]. change (91 =? 91) with true.
  cbn [andb negb]. rewrite andb_false_r. reflexivity.
Qed.

(** [parseAddressPort] on the four forms of an address: [host:port] and
    [[ipv6]:port] give the address and the port, a missing port or a port
    of 0 gives 443. *)
Theorem parseAddressPort_splits_address_and_port (host a : jsstring) (port : Z) :
  without 58 host -> without 93 host -> without 91 host ->
  without 93 a -> 0 <= port < 2 ^ 53 ->
  parseAddressPort (host ++ str ":" ++ toString port)
  = (host, if port =? 0 then 443 else port)
  /\ parseAddressPort host = (host, 443)
  /\ parseAddressPort (str "[" ++ a ++ str "]:" ++ toString port)
     = (str "[" ++ a ++ str "]", if port =? 0 then 443 else port)
  /\ parseAddressPort (str "[" ++ a ++ str "]") = (str "[" ++ a ++ str "]", 443).
Proof.
  intros H58 H93 H91 Ha Hport. split; [|split; [|split]].
  - apply parseAddressPort_host; try assumption. lia.
  - apply parseAddressPort_plain; assumption.
  - apply parseAddressPort_bracket_port; try assumption. lia.
  - apply parseAddressPort_bracket; assumption.
Qed.

Lemma parseAddressPort_splits_address_and_port_witness :
  ProxyResolver.parseAddressPort (str "example.com" ++ str ":" ++ toString 8443)
  = (str "example.com", if 8443 =? 0 then 443 else 8443)
  /\ ProxyResolver.parseAddressPort (str "example.com") = (str "example.com", 443)
  /\ ProxyResolver.parseAddressPort (str "[" ++ str "2001:db8::1" ++ str "]:" ++ toString 8443)
     = (str "[" ++ str "2001:db8::1" ++ str "]", if 8443 =? 0 then 443 else 8443)
  /\ ProxyResolver.parseAddressPort (str "[" ++ str "2001:db8::1" ++ str "]")
     = (str "[" ++ str "2001:db8::1" ++ str "]", 443).
Proof.
  refine (parseAddressPort_splits_address_and_port (str "example.com") (str "2001:db8::1")
            8443 _ _ _ _ _).
  - apply (bool_decide_unpack _). vm_compute. exact I.
  - apply (bool_decide_unpack _). vm_compute. exact I.
  - apply (bool_decide_unpack _). vm_compute. exact I.
  - apply (bool_decide_unpack _). vm_compute. exact I.
  - lia.
Defined.

(** ** The cache *)

Lemma cacheHit_index (st : cache) (index : nat) (proxyIP : jsstring) :
  cacheHit (updateCachedProxyIndex st index) proxyIP = cacheHit st proxyIP.
Proof. reflexivity. Qed.

(** The cache holds [pool] for the specification [proxyIP]. *)
Lemma cached_resolve dohQuery localeCompare arraySort (st : cache)
    (proxyIP targetDomain userID : jsstring) (pool : list entry) :
  proxyIP <> [] ->
  cachedProxyIP st = Some proxyIP -> cachedProxyAddresses st = Some pool ->
  resolveProxyAddresses dohQuery localeCompare arraySort st proxyIP targetDomain userID
  = (pool, st).
Proof.
  intros Hne Hip Hpool. unfold resolveProxyAddresses, cacheHit. rewrite Hip, Hpool.
  destruct proxyIP as [|c ip]; [congruence|]. rewrite eqb_refl. reflexivity.
Qed.

Lemma resolve_caches dohQuery localeCompare arraySort (st st1 : cache)
    (proxyIP targetDomain userID : jsstring) (pool : list entry) :
  proxyIP <> [] ->
  resolveProxyAddresses dohQuery localeCompare arraySort st proxyIP targetDomain userID
  = (pool, st1) ->
  cachedProxyIP st1 = Some proxyIP /\ cachedProxyAddresses st1 = Some pool
  /\ cachedProxyIndex st1 = cachedProxyIndex st.
Proof.
  intros Hne. unfold resolveProxyAddresses.
  destruct (cacheHit st proxyIP) as [addresses|] eqn:Ehit.
  - intros [= <- <-]. unfold cacheHit in Ehit.
    destruct (cachedProxyIP st) as [[|c ip]|]; try discriminate.
    destruct (cachedProxyAddresses st) as [l|]; try discriminate.
    destruct (eqb (c :: ip) proxyIP) eqn:E; [|discriminate].
    apply eqb_eq in E. injection Ehit as <-. rewrite E. auto.
  - intros [= <- <-]. auto.
Qed.

Lemma rotate_keeps_spec connect st proxyAddresses initialData r st' effects :
  connectWithRotation connect st proxyAddresses initialData = Return (r, st', effects) ->
  cachedProxyIP st' = cachedProxyIP st.
Proof.
  unfold connectWithRotation.
  generalize 0%nat as i. generalize (cachedProxyIndex st) as start.
  revert r st' effects.
  induction (length proxyAddresses) as [|n IH]; intros r st' effects start i H.
  - injection H as <- <- <-. reflexivity.
  - cbn [rotate] in H.
    destruct (proxyAddresses !! _) as [[address port]|]; [|discriminate].
    destruct (connect i (address, port));
      try (destruct (rotate connect proxyAddresses initialData start n (S i) st)
             as [[[r0 st0] e0]|] eqn:E; [|discriminate];
           cbn in H; injection H as <- <- <-; eapply IH; exact E).
    injection H as <- <- <-. reflexivity.
Qed.

Lemma run_keeps localeCompare arraySort (proxyIP : jsstring) (pool : list entry)
    (ops : list operation) :
  proxyIP <> [] -> Forall (keeps proxyIP) ops ->
  forall st,
    cachedProxyIP st = Some proxyIP -> cachedProxyAddresses st = Some pool ->
    exists pools st2,
      run localeCompare arraySort st ops = (pools, st2)
      /\ Forall (fun p => p = pool) pools
      /\ cachedProxyIP st2 = Some proxyIP /\ cachedProxyAddresses st2 = Some pool.
Proof.
  intros Hne Hops. induction Hops as [|op ops Hop Hops IH]; intros st Hip Hpool.
  - exists [], st. cbn. auto.
  - destruct op as [dohQuery proxyIP' targetDomain userID| |index
                   |connect proxyAddresses initialData]; cbn [run keeps] in *.
    + subst proxyIP'. rewrite (cached_resolve _ _ _ st proxyIP _ _ pool Hne Hip Hpool).
      destruct (IH st Hip Hpool) as (pools & st2 & -> & Hall & H2).
      exists (pool :: pools), st2. split; [reflexivity|]. split; [constructor; auto|exact H2].
    + contradiction.
    + apply IH; assumption.
    + destruct (connectWithRotation connect st proxyAddresses initialData)
        as [[[r st1] effects]|] eqn:E; [|apply IH; assumption].
      apply IH.
      * rewrite (rotate_keeps_spec _ _ _ _ _ _ _ E). exact Hip.
      * rewrite (rotate_keeps_pool _ _ _ _ _ _ _ E). exact Hpool.
Qed.

(** Once a non-empty specification has been resolved, its pool stays in
    the cache as long as no other specification is resolved and the cache
    is not reset: through every sequence of resolves of the same
    specification, moves of the cursor and rotations, each resolve hands
    out the same pool, whatever the DNS answers, the target domain and the
    user then are, and leaves the state as it is; resolving never moves the
    cursor.  Resolving another specification replaces the entry, and a
    reset clears it. *)
Theorem resolved_pool_is_reused
    (dohQuery dohQuery' : jsstring -> jsstring -> list answer)
    (localeCompare : jsstring -> jsstring -> Z)
    (arraySort : forall S : Type, (S -> entry -> entry -> Z * S) -> S -> list entry -> list entry)
    (st st1 : cache) (proxyIP targetDomain userID targetDomain' userID' : jsstring)
    (pool : list entry) (index : nat) :
  proxyIP <> [] ->
  resolveProxyAddresses dohQuery localeCompare arraySort st proxyIP targetDomain userID
  = (pool, st1) ->
  (resolveProxyAddresses dohQuery' localeCompare arraySort
     (updateCachedProxyIndex st1 index) proxyIP targetDomain' userID'
   = (pool, updateCachedProxyIndex st1 index)
   /\ cachedProxyIndex st1 = cachedProxyIndex st)
  /\ (forall ops : list operation,
        Forall (keeps proxyIP) ops ->
        exists pools st2,
          run localeCompare arraySort st1 ops = (pools, st2)
          /\ Forall (fun p => p = pool) pools
          /\ resolveProxyAddresses dohQuery' localeCompare arraySort st2
               proxyIP targetDomain' userID'
             = (pool, st2))
  /\ (forall (other : jsstring) (pool' : list entry) (st2 : cache),
        other <> [] -> other <> proxyIP ->
        resolveProxyAddresses dohQuery' localeCompare arraySort st1
          other targetDomain' userID' = (pool', st2) ->
        cachedProxyIP st2 = Some other /\ cachedProxyAddresses st2 = Some pool'
        /\ cacheHit st2 proxyIP = None)
  /\ cacheHit (resetProxyCache st1) proxyIP = None.
Proof.
  intros Hne Hres.
  destruct (resolve_caches _ _ _ _ _ _ _ _ _ Hne Hres) as (Hip & Hpool & Hidx).
  split; [|split; [|split]].
  - split; [|exact Hidx]. apply cached_resolve; [exact Hne|exact Hip|exact Hpool].
  - intros ops Hops.
    destruct (run_keeps localeCompare arraySort proxyIP pool ops Hne Hops st1 Hip Hpool)
      as (pools & st2 & Hrun & Hall & Hip2 & Hpool2).
    exists pools, st2. split; [exact Hrun|]. split; [exact Hall|].
    apply cached_resolve; assumption.
  - intros other pool' st2 Hone Hdiff Hres'.
    destruct (resolve_caches _ _ _ _ _ _ _ _ _ Hone Hres') as (Hip2 & Hpool2 & _).
    split; [exact Hip2|]. split; [exact Hpool2|].
    unfold cacheHit. rewrite Hip2, Hpool2.
    destruct other as [|c ip]; [congruence|].
    destruct (eqb (c :: ip) proxyIP) eqn:E; [|reflexivity].
    apply eqb_eq in E. congruence.
  - reflexivity.
Qed.

Lemma resolved_pool_is_reused_witness :
  exists pools st2,
    Pool.run (fun _ _ => 0) (fun _ _ _ l => l)
      {| ProxyResolver.cachedProxyIP := Some (str "1.2.3.4:8443");
         ProxyResolver.cachedProxyAddresses := Some [(str "1.2.3.4", 8443)];
         ProxyResolver.cachedProxyIndex := 0 |}
      [Pool.UpdateIndex 5;
       Pool.Resolve (fun _ _ => [ProxyResolver.Answer 1 (str "9.9.9.9")])
         (str "1.2.3.4:8443") (str "example.net") (str "w");
       Pool.Rotate (fun _ _ => ProxyResolver.OpenFails) [(str "1.2.3.4", 8443)] (bytes [7])]
    = (pools, st2)
    /\ Forall (fun p => p = [(str "1.2.3.4", 8443)]) pools
    /\ ProxyResolver.resolveProxyAddresses
         (fun _ _ => [ProxyResolver.Answer 1 (str "9.9.9.9")])
         (fun _ _ => 0) (fun _ _ _ l => l) st2
         (str "1.2.3.4:8443") (str "example.org") (str "v")
       = ([(str "1.2.3.4", 8443)], st2).
Proof.
  refine (proj1 (proj2 (resolved_pool_is_reused (fun _ _ => []) _ (fun _ _ => 0)
                          (fun _ _ _ l => l) ProxyResolver.initialCache _
                          (str "1.2.3.4:8443") (str "example.com") (str "u")
                          (str "example.org") (str "v") [(str "1.2.3.4", 8443)] 5 _ _)) _ _).
  - discriminate.
  - vm_compute. reflexivity.
  - repeat constructor.
Defined.

(** ** The seed *)

Lemma includes_dot_join (p q : jsstring) (rest : list jsstring) :
  includes (str ".") (join (str ".") (p :: q :: rest)) = true.
Proof.
  change (join (str ".") (p :: q :: rest)) with (p ++ 46 :: join (str ".") (q :: rest)).
  apply includes_present.
Qed.

Lemma rootDomain_last_two (labels : list jsstring) (a b : jsstring) :
  Forall (without 46) (labels ++ [a; b]) ->
  join (str ".") (sliceFrom (split (str ".") (join (str ".") (labels ++ [a; b]))) (Int (-2)))
  = join (str ".") [a; b].
Proof.
  intros Hall. change (str ".") with [46].
  rewrite split_join by (try assumption; destruct labels; discriminate).
  f_equal. unfold sliceFrom, slice, relativeIndex, toInteger.
  change (-2 <? 0) with true. cbv iota.
  rewrite (proj2 (Z.ltb_ge _ _)) by lia.
  rewrite length_app. cbn [length].
  rewrite Z.min_l by lia. rewrite Z.max_l by lia.
  replace (Z.to_nat (Z.of_nat (length labels + 2) + -2)) with (length labels) by lia.
  rewrite drop_app_length. apply take_ge. cbn [length]. lia.
Qed.

(** The seed of a dotted domain is that of its last two labels: all
    subdomains of a domain give the same seed. *)
Theorem generateSeed_depends_on_last_two_labels
    (labels : list jsstring) (a b userID : jsstring) :
  Forall (without 46) (labels ++ [a; b]) ->
  generateSeed (join (str ".") (labels ++ [a; b])) userID
  = generateSeed (join (str ".") [a; b]) userID.
Proof.
  intros Hall. unfold generateSeed.
  assert (Hab : Forall (without 46) ([] ++ [a; b])).
  { apply Forall_app in Hall as [_ Hab]. exact Hab. }
  rewrite (rootDomain_last_two labels a b Hall).
  pose proof (rootDomain_last_two [] a b Hab) as Hroot. cbn [app] in Hroot.
  rewrite Hroot.
  assert (H1 : includes (str ".") (join (str ".") (labels ++ [a; b])) = true).
  { destruct labels as [|p [|q labels]]; cbn [app]; apply includes_dot_join. }
  rewrite H1, (includes_dot_join a b []). reflexivity.
Qed.

Lemma generateSeed_depends_on_last_two_labels_witness :
  ProxyResolver.generateSeed (join (str ".") ([str "www"] ++ [str "example"; str "com"])) (str "u")
  = ProxyResolver.generateSeed (join (str ".") [str "example"; str "com"]) (str "u").
Proof.
  refine (generateSeed_depends_on_last_two_labels [str "www"] (str "example") (str "com")
            (str "u") _).
  apply (bool_decide_unpack _). vm_compute. exact I.
Defined.

End ResolverProofs.

(** ** Two calls of the rotation *)

Section TwoRotations.
Import ProxyResolver Rotation.

(** After a call that connected, the next call starts at the candidate
    that worked: if it accepts the connection again, it is the only one
    tried, and the cursor stays. *)
Theorem rotation_resumes_at_last_success
    (connect connect' : nat -> entry -> attempt) (st st1 : cache)
    (proxyAddresses : list entry) (initialData initialData' : list byte)
    (s : socket) (index : nat) (effects : list effect) :
  connectWithRotation connect st proxyAddresses initialData
  = Return (Some (s, index), st1, effects) ->
  connect' 0%nat (hostname s, port s) = Established ->
  connectWithRotation connect' st1 proxyAddresses initialData'
  = Return (Some ({| hostname := hostname s; port := port s; madeBy := 0 |}, index), st1,
            [Connect index (hostname s) (port s); Write index initialData']).
Proof.
  unfold connectWithRotation. intros Hfirst Hagain.
  destruct (rotate_spec connect st proxyAddresses initialData (length proxyAddresses) 0%nat
              eq_refl) as (r & st' & effects' & k & Hrun & _ & _ & Hr).
  rewrite Hfirst in Hrun. injection Hrun as <- <- <-.
  destruct Hr as (j & address & p & _ & _ & _ & Hlk & _ & _ & -> & -> & _).
  cbn [hostname port] in *.
  assert (Hlt : (index < length proxyAddresses)%nat) by (apply lookup_lt_Some in Hlk; exact Hlk).
  destruct (length proxyAddresses) as [|n] eqn:En; [lia|].
  cbn [rotate updateCachedProxyIndex cachedProxyIndex].
  rewrite En, Nat.add_0_r, Nat.mod_small by lia.
  rewrite Hlk, Hagain. reflexivity.
Qed.

Lemma rotation_resumes_at_last_success_witness :
  ProxyResolver.connectWithRotation (fun _ _ => ProxyResolver.Established)
    (ProxyResolver.updateCachedProxyIndex ProxyResolver.initialCache 1)
    [(str "a", 1); (str "b", 2)] (bytes [7])
  = Return (Some ({| ProxyResolver.hostname := str "b"; ProxyResolver.port := 2;
                     ProxyResolver.madeBy := 0 |}, 1%nat),
            ProxyResolver.updateCachedProxyIndex ProxyResolver.initialCache 1,
            [ProxyResolver.Connect 1 (str "b") 2; ProxyResolver.Write 1 (bytes [7])]).
Proof.
  refine (rotation_resumes_at_last_success
            (fun _ e => if snd e =? 2 then ProxyResolver.Established
                        else ProxyResolver.OpenFails)
            (fun _ _ => ProxyResolver.Established)
            ProxyResolver.initialCache _ [(str "a", 1); (str "b", 2)] (bytes [1]) (bytes [7])
            {| ProxyResolver.hostname := str "b"; ProxyResolver.port := 2;
               ProxyResolver.madeBy := 1 |} 1%nat
            [ProxyResolver.Connect 0 (str "a") 1; ProxyResolver.Connect 1 (str "b") 2;
             ProxyResolver.Write 1 (bytes [1])] _ _).
  - reflexivity.
  - reflexivity.
Defined.

End TwoRotations.

(** ** Compressed IPv6 addresses in the request header *)

Lemma split_go_nonempty (sep : jsstring) (n : nat) (s : jsstring) : split_go sep n s <> [].
Proof.
  revert n. induction s as [|c s IH]; intros n; cbn [split_go]; [discriminate|].
  destruct n as [|n]; [|apply IH].
  destruct (startsWith sep (c :: s)); [discriminate|].
  destruct (split_go sep 0 s); discriminate.
Qed.

Lemma split_go_prefix (x y : Z) (p s : jsstring) :
  without x p ->
  split_go [x; y] 0 (p ++ s)
  = match split_go [x; y] 0 s with
    | h :: t => (p ++ h) :: t
    | [] => [p]
    end.
Proof.
  induction 1 as [|c p Hc _ IH].
  - cbn [app]. pose proof (split_go_nonempty [x; y] 0 s).
    destruct (split_go [x; y] 0 s); [congruence|reflexivity].
  - cbn [app split_go startsWith]. rewrite (proj2 (Z.eqb_neq x c)) by congruence.
    cbn [andb]. rewrite IH. destruct (split_go [x; y] 0 s); reflexivity.
Qed.

(** Groups joined by single colons, up to the end or a double colon. *)
Lemma split_double_colon (parts : list jsstring) (s : jsstring) :
  Forall (fun p => p <> [] /\ without 58 p) parts ->
  s = [] \/ (exists rest, s = 58 :: 58 :: rest) ->
  split_go [58; 58] 0 (join [58] parts ++ s)
  = match split_go [58; 58] 0 s with
    | h :: t => (join [58] parts ++ h) :: t
    | [] => [join [58] parts]
    end.
Proof.
  intros Hall Hs. induction Hall as [|p parts [Hne Hp] Hall IH].
  - cbn [join app]. pose proof (split_go_nonempty [58; 58] 0 s).
    destruct (split_go [58; 58] 0 s); [congruence|reflexivity].
  - destruct parts as [|q parts].
    + cbn [join]. apply split_go_prefix. exact Hp.
    + change (join [58] (p :: q :: parts)) with (p ++ 58 :: join [58] (q :: parts)).
      rewrite <- app_assoc. rewrite split_go_prefix by exact Hp.
      inversion Hall as [|? ? [Hqne Hq] _]; subst.
      destruct q as [|c q]; [congruence|].
      assert (Hc : c <> 58) by (inversion Hq; assumption).
      assert (Hj : exists tail, join [58] ((c :: q) :: parts) = c :: tail).
      { destruct parts; cbn [join app]; eauto. }
      destruct Hj as [tail Hj]. rewrite Hj in IH |- *.
      cbn [app] in IH |- *. cbn [split_go startsWith].
      rewrite Z.eqb_refl, (proj2 (Z.eqb_neq 58 c)) by congruence. cbn [andb].
      cbn [split_go startsWith] in IH.
      rewrite (proj2 (Z.eqb_neq 58 c)) in IH by congruence. cbn [andb] in IH.
      rewrite IH.
      destruct (split_go [58; 58] 0 s) as [|h t]; [reflexivity|].
      rewrite <- !app_assoc. reflexivity.
Qed.

Lemma split_join_or_empty (groups : list jsstring) :
  Forall (fun p => p <> [] /\ without 58 p) groups ->
  match join [58] groups with
  | c :: p => split (str ":") (c :: p)
  | [] => []
  end = groups.
Proof.
  intros Hall. destruct groups as [|g groups]; [reflexivity|].
  assert (Hne : join [58] (g :: groups) <> []).
  { inversion Hall as [|? ? [Hg _] _]; subst. destruct g; [congruence|].
    destruct groups; discriminate. }
  destruct (join [58] (g :: groups)) as [|c r] eqn:E; [congruence|].
  rewrite <- E. change (str ":") with [58]. apply split_join; [discriminate|].
  eapply Forall_impl; [exact Hall|]. intros p [_ Hp]. exact Hp.
Qed.

Lemma stripBrackets_wrapped (s : jsstring) :
  VlessOutbound.stripBrackets (str "[" ++ s ++ str "]") = s.
Proof.
  change (str "[") with [91]. change (str "]") with [93]. cbn [app].
  unfold VlessOutbound.stripBrackets. rewrite rev_app_distr. cbn [rev app].
  apply rev_involutive.
Qed.

Lemma build_ipv6_from_expanded (hs : jsstring) (command port : Z) (address : jsstring)
    (groups : list Z) :
  length hs = 32%nat -> Forall lowerHex hs ->
  length groups = 8%nat -> Forall (fun g => 0 <= g < 65536) groups ->
  VlessOutbound.expandIPv6 address
  = Return (join (str ":") (map (padStart0 4) (map (toStringRadix 16) groups))) ->
  VlessOutbound.makeVlessRequestHeader command 3 address port (dashed hs)
  = Return (fixedPart hs command port 3 ++ groupBytes groups).
Proof.
  intros Hlen Hall Hg Hr Hexp. unfold VlessOutbound.makeVlessRequestHeader.
  change (3 =? VLESS_ADDR_IPV4) with false. change (3 =? VLESS_ADDR_DOMAIN) with false.
  change (3 =? VLESS_ADDR_IPV6) with true.
  cbv iota. cbn [mbind completion_bind cbind].
  rewrite strip_dashed by assumption. cbv zeta.
  change (22 + 16) with (22 + Z.of_nat 16). rewrite fixedPart_written by exact Hlen.
  rewrite Hexp. cbn [mbind completion_bind cbind].
  change (str ":") with [58].
  set (parts := map (toStringRadix 16) groups).
  assert (Hparts : Forall (fun p => p <> [] /\ Forall lowerHex p) parts).
  { unfold parts. apply Forall_map. eapply Forall_impl; [exact Hr|].
    intros g Hgr. cbv beta in Hgr. apply toStringRadix_hex; lia. }
  rewrite split_join.
  2:{ unfold parts. destruct groups; discriminate. }
  2:{ apply Forall_map. eapply Forall_impl; [exact Hparts|]. intros p [Hp Hh].
      apply lowerHex_without; [lia|]. apply padStart0_hex; assumption. }
  f_equal. unfold parts. clear parts Hparts Hexp. explode groups.
  repeat match goal with
  | H : Forall _ (_ :: _) |- _ => apply Forall_cons in H as [? H]
  end.
  cbn [map VlessOutbound.writeGroups VlessOutbound.parseIntAt lookup list_lookup].
  rewrite !parseInt_padded by lia. cbn [toInteger].
  rewrite !store_rest by (try exact Hlen; lia). reflexivity.
Qed.

(** The body of [expandIPv6] behind the removal of the brackets. *)
Lemma expand_compressed (left right : list jsstring) :
  Forall (fun p => p <> [] /\ Forall lowerHex p) left ->
  Forall (fun p => p <> [] /\ Forall lowerHex p) right ->
  let a := join (str ":") left ++ str "::" ++ join (str ":") right in
  VlessOutbound.stripBrackets a = a
  /\ (VlessOutbound.stripBrackets a = a ->
      VlessOutbound.expandIPv6 a
      = (middle ← VlessOutbound.arrayFill0
                    (8 - Z.of_nat (length left) - Z.of_nat (length right));
         Return (join (str ":") (map (padStart0 4) (left ++ middle ++ right))))).
Proof.
  intros Hl Hr a.
  assert (Hl' : Forall (fun p => p <> [] /\ without 58 p) left).
  { eapply Forall_impl; [exact Hl|]. intros p [Hp Hh]. split; [exact Hp|].
    apply lowerHex_without; [lia|exact Hh]. }
  assert (Hr' : Forall (fun p => p <> [] /\ without 58 p) right).
  { eapply Forall_impl; [exact Hr|]. intros p [Hp Hh]. split; [exact Hp|].
    apply lowerHex_without; [lia|exact Hh]. }
  assert (Hplain : forall parts, Forall (fun p => p <> [] /\ Forall lowerHex p) parts ->
            Forall (fun c => c <> 91 /\ c <> 93) (join (str ":") parts)).
  { intros parts Hparts. apply join_Forall; [constructor; [split; discriminate|constructor]|].
    eapply Forall_impl; [exact Hparts|]. intros p [_ Hp].
    eapply Forall_impl; [exact Hp|]. intros c Hc. apply hexChar_plain in Hc. lia. }
  split.
  - apply stripBrackets_plain. unfold a. apply Forall_app. split; [apply Hplain; exact Hl|].
    apply Forall_app. split; [|apply Hplain; exact Hr].
    repeat constructor; discriminate.
  - intros Hstrip. unfold VlessOutbound.expandIPv6. rewrite Hstrip. unfold a.
    change (str ":") with [58]. change (str "::") with [58; 58]. cbn [app].
    rewrite includes_two_present.
    assert (Hsplit : split [58; 58] (join [58] left ++ 58 :: 58 :: join [58] right)
                     = [join [58] left; join [58] right]).
    { unfold split.
      rewrite (split_double_colon left (58 :: 58 :: join [58] right) Hl') by (right; eauto).
      cbn [split_go startsWith length]. change (58 =? 58) with true. cbn [andb].
      change (2 - 1)%nat with 1%nat.
      pose proof (split_double_colon right [] Hr' (or_introl eq_refl)) as Hsr.
      rewrite app_nil_r in Hsr. cbn [split_go] in Hsr. cbv beta iota. rewrite Hsr.
      rewrite !app_nil_r. reflexivity. }
    unfold VlessOutbound.splitPart. rewrite !Hsplit. cbn [lookup list_lookup].
    rewrite (split_join_or_empty left Hl'), (split_join_or_empty right Hr').
    reflexivity.
Qed.

Lemma expandIPv6_compressed (left right : list Z) (bracketed : bool) :
  Forall (fun g => 0 <= g < 65536) left -> Forall (fun g => 0 <= g < 65536) right ->
  let a := join (str ":") (map (toStringRadix 16) left) ++ str "::"
           ++ join (str ":") (map (toStringRadix 16) right) in
  VlessOutbound.expandIPv6 (if bracketed then str "[" ++ a ++ str "]" else a)
  = if (length left + length right <=? 8)%nat
    then Return (join (str ":") (map (padStart0 4) (map (toStringRadix 16)
                   (left ++ replicate (8 - length left - length right) 0 ++ right))))
    else Throw (RangeError "Invalid array length").
Proof.
  intros Hl Hr a.
  assert (Hhex : forall gs, Forall (fun g => 0 <= g < 65536) gs ->
            Forall (fun p => p <> [] /\ Forall lowerHex p) (map (toStringRadix 16) gs)).
  { intros gs Hgs. apply Forall_map. eapply Forall_impl; [exact Hgs|].
    intros g Hg. cbv beta in Hg. apply toStringRadix_hex; lia. }
  destruct (expand_compressed _ _ (Hhex left Hl) (Hhex right Hr)) as [Hstrip Hbody].
  fold a in Hstrip, Hbody. specialize (Hbody Hstrip).
  assert (Hsame : VlessOutbound.expandIPv6 (if bracketed then str "[" ++ a ++ str "]" else a)
                  = VlessOutbound.expandIPv6 a).
  { destruct bracketed; [|reflexivity]. unfold VlessOutbound.expandIPv6.
    rewrite stripBrackets_wrapped, Hstrip. reflexivity. }
  rewrite Hsame, Hbody. rewrite !length_map. unfold VlessOutbound.arrayFill0.
  destruct (Nat.leb_spec (length left + length right) 8) as [Hle|Hgt].
  - rewrite (proj2 (Z.ltb_ge _ _)) by lia. cbn [mbind completion_bind cbind].
    assert (Hmap : map (toStringRadix 16)
                     (left ++ replicate (8 - length left - length right) 0 ++ right)
                   = map (toStringRadix 16) left
                     ++ replicate (Z.to_nat (8 - Z.of_nat (length left)
                                             - Z.of_nat (length right))) (str "0")
                     ++ map (toStringRadix 16) right).
    { rewrite !map_app. do 2 f_equal.
      replace (Z.to_nat (8 - Z.of_nat (length left) - Z.of_nat (length right)))
        with (8 - length left - length right)%nat by lia.
      induction (8 - length left - length right)%nat as [|n IH]; [reflexivity|].
      cbn [replicate map]. rewrite IH. reflexivity. }
    rewrite Hmap. reflexivity.
  - rewrite (proj2 (Z.ltb_lt _ _)) by lia. reflexivity.
Qed.

(** An IPv6 address written with [::], bracketed or not, is written into
    the header as its eight groups, the gap filled with zeros; with more
    than eight groups around the [::] the builder throws a RangeError. *)
Theorem compressed_ipv6_request_header (hs : jsstring) (command port : Z)
    (left right : list Z) (bracketed : bool) :
  length hs = 32%nat -> Forall lowerHex hs ->
  Forall (fun g => 0 <= g < 65536) left -> Forall (fun g => 0 <= g < 65536) right ->
  let a := join (str ":") (map (toStringRadix 16) left) ++ str "::"
           ++ join (str ":") (map (toStringRadix 16) right) in
  VlessOutbound.makeVlessRequestHeader command 3
    (if bracketed then str "[" ++ a ++ str "]" else a) port (dashed hs)
  = if (length left + length right <=? 8)%nat
    then Return (fixedPart hs command port 3
                 ++ groupBytes (left ++ replicate (8 - length left - length right) 0 ++ right))
    else Throw (RangeError "Invalid array length").
Proof.
  intros Hlen Hall Hl Hr a.
  pose proof (expandIPv6_compressed left right bracketed Hl Hr) as Hexp.
  cbv zeta in Hexp. fold a in Hexp.
  destruct (Nat.leb_spec (length left + length right) 8) as [Hle|Hgt].
  - apply build_ipv6_from_expanded; try assumption.
    + rewrite !length_app, length_replicate. lia.
    + apply Forall_app. split; [exact Hl|]. apply Forall_app. split; [|exact Hr].
      apply Forall_replicate. lia.
  - unfold VlessOutbound.makeVlessRequestHeader.
    change (3 =? VLESS_ADDR_IPV4) with false. change (3 =? VLESS_ADDR_DOMAIN) with false.
    change (3 =? VLESS_ADDR_IPV6) with true.
    cbv iota. cbn [mbind completion_bind cbind]. cbv zeta.
    rewrite Hexp. reflexivity.
Qed.

Lemma compressed_ipv6_request_header_witness :
  VlessOutbound.makeVlessRequestHeader 1 3
    (if true
     then str "[" ++ (join (str ":") (map (toStringRadix 16) [0x2001; 0xdb8]) ++ str "::"
                      ++ join (str ":") (map (toStringRadix 16) [1])) ++ str "]"
     else join (str ":") (map (toStringRadix 16) [0x2001; 0xdb8]) ++ str "::"
          ++ join (str ":") (map (toStringRadix 16) [1]))
    443 (dashed defaultDigits)
  = if (length [0x2001; 0xdb8] + length [1] <=? 8)%nat
    then Return (fixedPart defaultDigits 1 443 3
                 ++ groupBytes ([0x2001; 0xdb8]
                                ++ replicate (8 - length [0x2001; 0xdb8] - length [1]) 0
                                ++ [1]))
    else Throw (RangeError "Invalid array length").
Proof.
  refine (compressed_ipv6_request_header defaultDigits 1 443 [0x2001; 0xdb8] [1] true
            _ _ _ _).
  - reflexivity.
  - apply (bool_decide_unpack _). vm_compute. exact I.
  - repeat constructor; lia.
  - repeat constructor; lia.
Defined.

(** * handlers/websocket.js: the two protocols in one session *)

(** A chunk that passes the Trojan detection has a UUID field of ASCII
    digits, which [stringify] refuses. *)
Lemma detected_uuid_refused (buffer : list byte) (password : jsstring) :
  Trojan.isTrojanProtocol buffer password = true ->
  24 <= Z.of_nat (length buffer)
  /\ stringify (slice buffer (Int 1) (Int 17)) 0
     = Throw (TypeError "Stringified UUID is invalid").
Proof.
  intros H. apply isTrojanProtocol_true in H as (Hlen & _ & _ & digest & _ & _ & Hhex & Hd).
  split; [lia|].
  assert (Hs : slice buffer (Int 1) (Int 17) = take 16 (drop 1 buffer)).
  { rewrite slice_inside by lia. reflexivity. }
  rewrite Hs.
  destruct (lookup_lt_is_Some_2 buffer 7) as [version H7]; [lia|].
  destruct (lookup_lt_is_Some_2 buffer 9) as [variant H9]; [lia|].
  rewrite (stringify_digits _ version variant).
  - assert (Hv : u8 variant < 128).
    { rewrite List.Forall_forall in Hhex.
      assert (Hin : In (u8 variant) digest).
      { rewrite <- Hd. apply in_map. apply list_elem_of_In.
        apply (list_elem_of_lookup_2 _ 9). rewrite lookup_take_lt by lia. exact H9. }
      apply Hhex, lowerHex_ascii in Hin. lia. }
    rewrite (proj2 (Z.leb_gt 128 (u8 variant))) by lia.
    rewrite andb_false_r. reflexivity.
  - rewrite length_take, length_drop. lia.
  - rewrite lookup_take_lt by lia. rewrite lookup_drop. exact H7.
  - rewrite lookup_take_lt by lia. rewrite lookup_drop. exact H9.
Qed.

Lemma detected_not_vless (buffer : list byte) (password userID : jsstring) :
  Trojan.isTrojanProtocol buffer password = true ->
  Vless.processProtocolHeader buffer userID
  = Throw (TypeError "Stringified UUID is invalid").
Proof.
  intros H. apply detected_uuid_refused in H as [Hlen Hs].
  unfold Vless.processProtocolHeader. rewrite (proj2 (Z.ltb_ge _ _)) by lia.
  destruct (getUint8 buffer (Int 0)) as [v|e] eqn:E0.
  2:{ unfold getUint8, toInteger in E0. change (0 <? 0) with false in E0.
      destruct buffer; [cbn in Hlen; lia|discriminate]. }
  cbn [mbind completion_bind cbind]. rewrite Hs. reflexivity.
Qed.

(** The two protocols never share a first chunk: on a chunk that passes
    the Trojan detection, with any password, the VLESS parser throws for
    every credential; so a chunk the VLESS parser answers, with success or
    with an error result, is not taken for Trojan. *)
Theorem trojan_detection_excludes_vless (buffer : list byte) (password userID : jsstring) :
  (Trojan.isTrojanProtocol buffer password = true ->
   Vless.processProtocolHeader buffer userID
   = Throw (TypeError "Stringified UUID is invalid"))
  /\ (forall r, Vless.processProtocolHeader buffer userID = Return r ->
      Trojan.isTrojanProtocol buffer password = false).
Proof.
  split; [apply detected_not_vless|].
  intros r Hr. destruct (Trojan.isTrojanProtocol buffer password) eqn:E; [|reflexivity].
  rewrite (detected_not_vless buffer password userID E) in Hr. discriminate.
Qed.

(** ** The calls of a session *)

Lemma writeAll_dns (cfg : WebSocket.config) (stored wrapper : bool) (chunks : list (list byte)) :
  WebSocket.writeAll cfg stored
    {| WebSocket.isDns := true; WebSocket.remoteSocketWrapper := wrapper |} chunks
  = map (fun chunk => WebSocket.HandleDNSQuery chunk None) chunks.
Proof.
  induction chunks as [|chunk rest IH]; [reflexivity|].
  cbn [WebSocket.writeAll map]. unfold WebSocket.write. cbn [WebSocket.isDns].
  cbn [app]. rewrite IH. reflexivity.
Qed.

Lemma writeAll_stored (cfg : WebSocket.config) (stored : bool) (chunks : list (list byte)) :
  WebSocket.writeAll cfg stored
    {| WebSocket.isDns := false; WebSocket.remoteSocketWrapper := true |} chunks
  = map WebSocket.WriteRemote chunks.
Proof.
  induction chunks as [|chunk rest IH]; [reflexivity|].
  cbn [WebSocket.writeAll map]. unfold WebSocket.write.
  cbn [WebSocket.isDns WebSocket.remoteSocketWrapper].
  cbn [app]. rewrite IH. reflexivity.
Qed.

(** What a session does once its first chunk is parsed. *)
Lemma session_after_header (cfg : WebSocket.config) (protocolType : WebSocket.protocol)
    (h : header) (first : list byte) (rest : list (list byte)) :
  WebSocket.detect cfg first = (protocolType, Return (Success h)) ->
  WebSocket.writeAll cfg true WebSocket.initialSession (first :: rest)
  = if isUDP h then
      if WebSocket.canHandleUDP cfg then
        WebSocket.HandleUDPOutbound (WebSocket.responseHeader protocolType h)
          (addressType h) (addressRemote h) (portRemote h) (sliceFrom first (rawDataIndex h))
        :: map WebSocket.WriteRemote rest
      else if portRemote h =? 53 then
        map (fun chunk => WebSocket.HandleDNSQuery chunk None) rest
      else []
    else
      WebSocket.HandleTCPOutBound (addressType h) (addressRemote h) (portRemote h)
        (sliceFrom first (rawDataIndex h)) (WebSocket.responseHeader protocolType h)
      :: map WebSocket.WriteRemote rest.
Proof.
  intros Hd. cbn [WebSocket.writeAll]. unfold WebSocket.write.
  cbn [WebSocket.initialSession WebSocket.isDns WebSocket.remoteSocketWrapper].
  rewrite Hd. cbn [mbind completion_bind cbind].
  destruct (isUDP h).
  - destruct (WebSocket.canHandleUDP cfg).
    + cbn [app]. rewrite writeAll_stored. reflexivity.
    + destruct (portRemote h =? 53); [|reflexivity].
      cbn [app]. apply writeAll_dns.
  - cbn [app]. rewrite writeAll_stored. reflexivity.
Qed.

(** A session that opens with a Trojan request: the payload behind the
    header goes to the outbound handler with no response header, and every
    later chunk is written to the stored stream as it is; a UDP request
    without a UDP outbound turns a request to port 53 into the DNS mode,
    where the first payload is dropped, and ends any other session. *)
Theorem trojan_session_calls (cfg : WebSocket.config) (h : header)
    (first payload : list byte) (rest : list (list byte)) :
  trojanRequest first (WebSocket.trojanPassword cfg) h payload ->
  WebSocket.writeAll cfg true WebSocket.initialSession (first :: rest)
  = if isUDP h then
      if WebSocket.canHandleUDP cfg then
        WebSocket.HandleUDPOutbound None (addressType h) (addressRemote h) (portRemote h) payload
        :: map WebSocket.WriteRemote rest
      else if portRemote h =? 53 then
        map (fun chunk => WebSocket.HandleDNSQuery chunk None) rest
      else []
    else
      WebSocket.HandleTCPOutBound (addressType h) (addressRemote h) (portRemote h) payload None
      :: map WebSocket.WriteRemote rest.
Proof.
  intros Hreq. pose proof (trojanRequest_detected _ _ _ _ Hreq) as Hdet.
  pose proof (trojanRequest_parsed _ _ _ _ Hreq) as Hparse.
  rewrite (session_after_header cfg WebSocket.trojan h).
  2:{ unfold WebSocket.detect. rewrite Hdet, Hparse. reflexivity. }
  rewrite (proj1 (trojanRequest_payload _ _ _ _ Hreq)). reflexivity.
Qed.

Lemma trojan_session_calls_witness :
  WebSocket.writeAll
    {| WebSocket.userID := defaultUserID; WebSocket.trojanPassword := str "abc";
       WebSocket.canHandleUDP := false |} true WebSocket.initialSession
    ((trojanAbc ++ bytes [71; 69; 84]) :: [bytes [1]; bytes [2]])
  = if isUDP headerAbc then
      if WebSocket.canHandleUDP
           {| WebSocket.userID := defaultUserID; WebSocket.trojanPassword := str "abc";
              WebSocket.canHandleUDP := false |} then
        WebSocket.HandleUDPOutbound None (addressType headerAbc) (addressRemote headerAbc)
          (portRemote headerAbc) (bytes [71; 69; 84])
        :: map WebSocket.WriteRemote [bytes [1]; bytes [2]]
      else if portRemote headerAbc =? 53 then
        map (fun chunk => WebSocket.HandleDNSQuery chunk None) [bytes [1]; bytes [2]]
      else []
    else
      WebSocket.HandleTCPOutBound (addressType headerAbc) (addressRemote headerAbc)
        (portRemote headerAbc) (bytes [71; 69; 84]) None
      :: map WebSocket.WriteRemote [bytes [1]; bytes [2]].
Proof.
  refine (trojan_session_calls
            {| WebSocket.userID := defaultUserID; WebSocket.trojanPassword := str "abc";
               WebSocket.canHandleUDP := false |} headerAbc
            (trojanAbc ++ bytes [71; 69; 84]) (bytes [71; 69; 84]) [bytes [1]; bytes [2]] _).
  exists digestAbc, x01, x01, x00, x50, (bytes [1; 2; 3; 4]), (str "1.2.3.4").
  split; [vm_compute; reflexivity|].
  split; [reflexivity|].
  split; [left; reflexivity|].
  split; [exact (TrojanIPv4 x01 x02 x03 x04)|].
  split; [discriminate|reflexivity].
Defined.

Lemma vlessRequest_version (buffer : list byte) (userID : jsstring) (h : header)
    (payload : list byte) :
  vlessRequest buffer userID h payload -> exists version, protocolVersion h = Some [version].
Proof.
  intros (version & command & t & hi & lo & uuidBytes & addons & field & uuid & text
          & _ & _ & _ & _ & _ & _ & _ & _ & ->).
  exists version. reflexivity.
Qed.

(** A session that opens with a VLESS request: the same, with the response
    header [[version, 0]] handed to the outbound handler. *)
Theorem vless_session_calls (cfg : WebSocket.config) (h : header)
    (first payload : list byte) (rest : list (list byte)) :
  vlessRequest first (WebSocket.userID cfg) h payload ->
  exists version,
    protocolVersion h = Some [version]
    /\ WebSocket.writeAll cfg true WebSocket.initialSession (first :: rest)
       = if isUDP h then
           if WebSocket.canHandleUDP cfg then
             WebSocket.HandleUDPOutbound (Some [version; x00]) (addressType h)
               (addressRemote h) (portRemote h) payload
             :: map WebSocket.WriteRemote rest
           else if portRemote h =? 53 then
             map (fun chunk => WebSocket.HandleDNSQuery chunk None) rest
           else []
         else
           WebSocket.HandleTCPOutBound (addressType h) (addressRemote h) (portRemote h)
             payload (Some [version; x00])
           :: map WebSocket.WriteRemote rest.
Proof.
  intros Hreq. pose proof (proj1 (vlessRequest_parsed _ _ _ _ Hreq)) as Hparse.
  destruct (vlessRequest_version _ _ _ _ Hreq) as [version Hv].
  exists version. split; [exact Hv|].
  assert (Hnt : Trojan.isTrojanProtocol first (WebSocket.trojanPassword cfg) = false).
  { destruct (Trojan.isTrojanProtocol first _) eqn:E; [|reflexivity].
    rewrite (detected_not_vless _ _ (WebSocket.userID cfg) E) in Hparse. discriminate. }
  rewrite (session_after_header cfg WebSocket.vless h).
  2:{ unfold WebSocket.detect. rewrite Hnt, Hparse. reflexivity. }
  rewrite (vlessRequest_payload _ _ _ _ Hreq).
  unfold WebSocket.responseHeader. rewrite Hv. reflexivity.
Qed.

Lemma vless_session_calls_witness :
  exists version,
    protocolVersion dnsHeader = Some [version]
    /\ WebSocket.writeAll dnsConfig true WebSocket.initialSession
         (dnsFirstChunk (bytes [7; 7]) :: [bytes [1]])
       = if isUDP dnsHeader then
           if WebSocket.canHandleUDP dnsConfig then
             WebSocket.HandleUDPOutbound (Some [version; x00]) (addressType dnsHeader)
               (addressRemote dnsHeader) (portRemote dnsHeader) (bytes [7; 7])
             :: map WebSocket.WriteRemote [bytes [1]]
           else if portRemote dnsHeader =? 53 then
             map (fun chunk => WebSocket.HandleDNSQuery chunk None) [bytes [1]]
           else []
         else
           WebSocket.HandleTCPOutBound (addressType dnsHeader) (addressRemote dnsHeader)
             (portRemote dnsHeader) (bytes [7; 7]) (Some [version; x00])
           :: map WebSocket.WriteRemote [bytes [1]].
Proof.
  refine (vless_session_calls dnsConfig dnsHeader (dnsFirstChunk (bytes [7; 7])) (bytes [7; 7])
            [bytes [1]] _).
  exists x00, x02, x01, x00, x35,
    (bytes [0xd3; 0x42; 0xd1; 0x1e; 0xd4; 0x24; 0x45; 0x83; 0xb3; 0x6e; 0x52; 0x4a; 0xb1;
            0xf0; 0xaf; 0xa4]), [], (bytes [8; 8; 8; 8]), defaultUserID, (str "8.8.8.8").
  split; [reflexivity|].
  split; [reflexivity|].
  split; [cbn; lia|].
  split; [vm_compute; reflexivity|].
  split; [left; reflexivity|].
  split; [right; reflexivity|].
  split; [exact (VlessIPv4 x08 x08 x08 x08)|].
  split; [discriminate|reflexivity].
Defined.

(** * The response header of a session *)

Section SessionHeader.
Import Trace Stream Tcp WebSocket.

(** The first call of the [write] handler once the chunk is parsed. *)
Lemma write_after_header (cfg : WebSocket.config) (stored : bool)
    (protocolType : protocol) (h : header) (first : list byte) :
  detect cfg first = (protocolType, Return (Success h)) ->
  write cfg stored initialSession first
  = if isUDP h then
      if canHandleUDP cfg then
        Return ({| isDns := false; remoteSocketWrapper := stored |},
                [HandleUDPOutbound (responseHeader protocolType h) (addressType h)
                   (addressRemote h) (portRemote h) (sliceFrom first (rawDataIndex h))])
      else if portRemote h =? 53 then
        Return ({| isDns := true; remoteSocketWrapper := false |}, [])
      else Throw (Error (str "UDP proxy requires VLESS outbound configuration"))
    else
      Return ({| isDns := false; remoteSocketWrapper := stored |},
              [HandleTCPOutBound (addressType h) (addressRemote h) (portRemote h)
                 (sliceFrom first (rawDataIndex h)) (responseHeader protocolType h)]).
Proof.
  intros Hd. unfold write. cbn [initialSession isDns remoteSocketWrapper].
  rewrite Hd. cbn [mbind completion_bind cbind]. reflexivity.
Qed.

Lemma vlessRequest_detect (cfg : WebSocket.config) (h : header)
    (first payload : list byte) :
  vlessRequest first (userID cfg) h payload ->
  detect cfg first = (vless, Return (Success h)).
Proof.
  intros Hreq. pose proof (proj1 (vlessRequest_parsed _ _ _ _ Hreq)) as Hparse.
  unfold detect.
  destruct (Trojan.isTrojanProtocol first (trojanPassword cfg)) eqn:E.
  - rewrite (detected_not_vless _ _ (userID cfg) E) in Hparse. discriminate.
  - rewrite Hparse. reflexivity.
Qed.

Lemma trojanRequest_detect (cfg : WebSocket.config) (h : header)
    (first payload : list byte) :
  trojanRequest first (trojanPassword cfg) h payload ->
  detect cfg first = (trojan, Return (Success h)).
Proof.
  intros Hreq. unfold detect.
  rewrite (trojanRequest_detected _ _ _ _ Hreq), (trojanRequest_parsed _ _ _ _ Hreq).
  reflexivity.
Qed.

Lemma vlessRequest_first (buffer : list byte) (userID : jsstring) (h : header)
    (payload : list byte) :
  vlessRequest buffer userID h payload ->
  exists version, buffer !! 0%nat = Some version /\ protocolVersion h = Some [version].
Proof.
  intros (version & command & t & hi & lo & uuidBytes & addons & field & uuid & text
          & -> & _ & _ & _ & _ & _ & _ & _ & ->).
  exists version. split; reflexivity.
Qed.

(** C5: the frames a relay sends are the chunks it forwards, the first
    one with the response header in front and the others as they are,
    followed by those of the retry function when it forwarded none; the
    frames of a whole run of [handleTCPOutBound] are the chunks that reach
    the WebSocket, the first with the header in front and the others as
    they are.  For a session that opens with a VLESS request the handler
    starts the outbound with the header [[version, 0]], [version] being
    byte 0 of the request, so the first frame is these two bytes followed
    by the first chunk; for a session that opens with a Trojan request the
    header is null and the frames are the chunks.  Whatever the first chunk
    is, a header handed to an outbound handler is null when the chunk is
    detected as Trojan and [[byte 0, 0]] otherwise. *)
Theorem response_header_on_first_chunk_only :
  (forall (sock : remote) (header : option (list byte)) (retry : option (list event)),
      frames (remoteSocketToWS sock header retry)
      = withHeader header (forwarded (chunks sock))
        ++ (if bool_decide (forwarded (chunks sock) = []) then frames (invoked retry) else []))
  /\ (forall (tcfg : Tcp.config) (net : network) (header : option (list byte)),
        frames (handleTCPOutBound tcfg net header) = withHeader header (delivered tcfg net))
  /\ (forall (cfg : WebSocket.config) (stored : bool) (h : header)
             (first payload : list byte),
        vlessRequest first (userID cfg) h payload ->
        exists version,
          first !! 0%nat = Some version
          /\ (isUDP h = false ->
              write cfg stored initialSession first
              = Return ({| isDns := false; remoteSocketWrapper := stored |},
                        [HandleTCPOutBound (addressType h) (addressRemote h) (portRemote h)
                           payload (Some [version; x00])])
              /\ forall (tcfg : Tcp.config) (net : network),
                   sessionFrames tcfg net (write cfg stored initialSession first)
                   = withHeader (Some [version; x00]) (delivered tcfg net))
          /\ (isUDP h = true -> canHandleUDP cfg = true ->
              write cfg stored initialSession first
              = Return ({| isDns := false; remoteSocketWrapper := stored |},
                        [HandleUDPOutbound (Some [version; x00]) (addressType h)
                           (addressRemote h) (portRemote h) payload])))
  /\ (forall (cfg : WebSocket.config) (stored : bool) (h : header)
             (first payload : list byte),
        trojanRequest first (trojanPassword cfg) h payload ->
        (isUDP h = false ->
         write cfg stored initialSession first
         = Return ({| isDns := false; remoteSocketWrapper := stored |},
                   [HandleTCPOutBound (addressType h) (addressRemote h) (portRemote h)
                      payload None])
         /\ forall (tcfg : Tcp.config) (net : network),
              sessionFrames tcfg net (write cfg stored initialSession first)
              = delivered tcfg net)
        /\ (isUDP h = true -> canHandleUDP cfg = true ->
            write cfg stored initialSession first
            = Return ({| isDns := false; remoteSocketWrapper := stored |},
                      [HandleUDPOutbound None (addressType h)
                         (addressRemote h) (portRemote h) payload])))
  /\ (forall (cfg : WebSocket.config) (stored : bool) (chunk : list byte),
        match write cfg stored initialSession chunk with
        | Return (_, calls) =>
            Forall (fun c => match c with
                             | HandleTCPOutBound _ _ _ _ protocolResponseHeader
                             | HandleUDPOutbound protocolResponseHeader _ _ _ _ =>
                                 protocolResponseHeader
                                 = (if Trojan.isTrojanProtocol chunk (trojanPassword cfg)
                                    then None
                                    else Some [nth 0 chunk x00; x00])
                             | _ => True
                             end) calls
        | Throw _ => True
        end).
Proof.
  split; [exact relay_frames|]. split; [exact handleTCPOutBound_delivers|].
  split; [|split].
  - intros cfg stored h first payload Hreq.
    destruct (vlessRequest_first _ _ _ _ Hreq) as (version & H0 & Hv).
    exists version. split; [exact H0|].
    pose proof (write_after_header cfg stored vless h first
                  (vlessRequest_detect cfg h first payload Hreq)) as Hw.
    rewrite (vlessRequest_payload _ _ _ _ Hreq) in Hw.
    unfold responseHeader in Hw. rewrite Hv in Hw. cbn [default nth] in Hw.
    change (toUint8 0) with x00 in Hw.
    split.
    + intros Hudp. rewrite Hudp in Hw. split; [exact Hw|].
      intros tcfg net. rewrite Hw. cbn [sessionFrames flat_map].
      rewrite app_nil_r. apply handleTCPOutBound_delivers.
    + intros Hudp Hcan. rewrite Hudp, Hcan in Hw. exact Hw.
  - intros cfg stored h first payload Hreq.
    pose proof (write_after_header cfg stored trojan h first
                  (trojanRequest_detect cfg h first payload Hreq)) as Hw.
    rewrite (proj1 (trojanRequest_payload _ _ _ _ Hreq)) in Hw.
    cbn [responseHeader] in Hw.
    split.
    + intros Hudp. rewrite Hudp in Hw. split; [exact Hw|].
      intros tcfg net. rewrite Hw. cbn [sessionFrames flat_map].
      rewrite app_nil_r. apply (handleTCPOutBound_delivers tcfg net None).
    + intros Hudp Hcan. rewrite Hudp, Hcan in Hw. exact Hw.
  - intros cfg stored chunk. apply write_tcp_header.
Qed.

(** A VLESS session for 1.2.3.4:80 whose outbound answers in two chunks:
    the first frame carries the two header bytes, the second is the chunk. *)
Lemma response_header_on_first_chunk_only_witness :
  vlessRequest (tcpFirstChunk (bytes [71; 69; 84])) (userID dnsConfig) tcpHeader
    (bytes [71; 69; 84])
  /\ sessionFrames standardMode
       (directOnly {| chunks := [(bytes [72; 84], 1); (bytes [84; 80], 1)]; ends := Closed |})
       (write dnsConfig true initialSession (tcpFirstChunk (bytes [71; 69; 84])))
     = [bytes [0; 0; 72; 84]; bytes [84; 80]].
Proof.
  assert (Hreq : vlessRequest (tcpFirstChunk (bytes [71; 69; 84])) (userID dnsConfig)
                   tcpHeader (bytes [71; 69; 84])).
  { exists x00, x01, x01, x00, x50,
      (bytes [0xd3; 0x42; 0xd1; 0x1e; 0xd4; 0x24; 0x45; 0x83; 0xb3; 0x6e; 0x52; 0x4a; 0xb1;
              0xf0; 0xaf; 0xa4]), [], (bytes [1; 2; 3; 4]), defaultUserID, (str "1.2.3.4").
    split; [reflexivity|].
    split; [reflexivity|].
    split; [cbn; lia|].
    split; [vm_compute; reflexivity|].
    split; [left; reflexivity|].
    split; [left; reflexivity|].
    split; [exact (VlessIPv4 x01 x02 x03 x04)|].
    split; [discriminate|reflexivity]. }
  split; [exact Hreq|].
  destruct (proj1 (proj2 (proj2 response_header_on_first_chunk_only))
              dnsConfig true tcpHeader (tcpFirstChunk (bytes [71; 69; 84]))
              (bytes [71; 69; 84]) Hreq) as (version & H0 & Htcp & _).
  injection H0 as <-.
  exact (proj2 (Htcp eq_refl) standardMode
           (directOnly {| chunks := [(bytes [72; 84], 1); (bytes [84; 80], 1)];
                          ends := Closed |})).
Defined.

End SessionHeader.

(** * proxy/http.js: the HTTP CONNECT tunnel *)

Section HttpProofs.
Import HttpConnect.

(** ** Outcomes *)

(** Every run that gets past [connect] starts with it and then writes, in
    this order, the request and the initial data, or a prefix of the two;
    a socket is returned only behind the request and is not closed, and
    when [undefined] is returned the socket is closed, once and last; empty
    initial data is never written. *)
Theorem http_connect_closes_exactly_on_failure
    (net : proxy) (addressRemote : jsstring) (portRemote : Z)
    (username password : option jsstring) (hostname : jsstring) (port : Z)
    (initialData : list byte) :
  match httpConnect net addressRemote portRemote username password hostname port initialData with
  | None => connectThrows net = true
  | Some (socket, effects) =>
      connectThrows net = false
      /\ exists (request : list byte) (written : list (list byte)),
           effects = Connect hostname port :: map Write written
                     ++ match socket with Some _ => [] | None => [Close] end
           /\ (written = [] \/ written = [request]
               \/ (written = [request; initialData] /\ initialData <> []))
           /\ (socket <> None -> written <> [] /\ acceptsRequest net = true)
  end.
Proof.
  unfold httpConnect. destruct (connectThrows net); [reflexivity|]. cbv zeta.
  destruct (if Tcp.truthy username && Tcp.truthy password then _ else _) as [auth|].
  2:{ split; [reflexivity|]. exists [], []. repeat split; auto; congruence. }
  set (request := textEncode _).
  assert (Hfail : false = false
            /\ exists (req : list byte) (written : list (list byte)),
                 Connect hostname port :: [Write request] ++ [Close]
                 = Connect hostname port :: map Write written ++ [Close]
                 /\ (written = [] \/ written = [req]
                     \/ (written = [req; initialData] /\ initialData <> []))
                 /\ (@None (list (list byte)) <> None
                     -> written <> [] /\ acceptsRequest net = true)).
  { split; [reflexivity|]. exists request, [request]. repeat split; auto; congruence. }
  destruct (acceptsRequest net) eqn:Ew; cbn [negb].
  2:{ destruct Hfail as [_ (req & written & H1 & H2 & H3)]. split; [reflexivity|].
      exists req, written. repeat split; auto; congruence. }
  destruct (readHeader (reads net) []) as [[[responseBuffer headerEndIndex] rest]|];
    [|exact Hfail].
  destruct (statusMatch _) as [digits|]; [|exact Hfail].
  destruct (_ || _); [exact Hfail|].
  destruct initialData as [|b initialData]; cbn [length Nat.ltb Nat.leb].
  - split; [reflexivity|]. exists request, [request]. repeat split; auto; discriminate.
  - destruct (acceptsInitial net); (split; [reflexivity|]).
    + exists request, [request; b :: initialData].
      split; [reflexivity|]. split; [|split; [discriminate|reflexivity]].
      right. right. split; [reflexivity|discriminate].
    + exists request, [request; b :: initialData].
      split; [reflexivity|]. split; [|intros H; congruence].
      right. right. split; [reflexivity|discriminate].
Qed.

(** ** The end of the header *)

Lemma holds_u8 (o : option byte) (v : Z) :
  holds o v = match o with Some b => u8 b =? v | None => false end.
Proof. reflexivity. Qed.

Lemma isHeaderEnd_startsBlank (pre suf : list byte) :
  isHeaderEnd (pre ++ suf) (Z.of_nat (length pre)) = startsBlank suf.
Proof.
  unfold isHeaderEnd.
  replace (Z.of_nat (length pre) + 1) with (Z.of_nat (length pre + 1)) by lia.
  replace (Z.of_nat (length pre) + 2) with (Z.of_nat (length pre + 2)) by lia.
  replace (Z.of_nat (length pre) + 3) with (Z.of_nat (length pre + 3)) by lia.
  rewrite !index_nat, length_app.
  rewrite !lookup_app_r by lia.
  replace (length pre - length pre)%nat with 0%nat by lia.
  replace (length pre + 1 - length pre)%nat with 1%nat by lia.
  replace (length pre + 2 - length pre)%nat with 2%nat by lia.
  replace (length pre + 3 - length pre)%nat with 3%nat by lia.
  destruct suf as [|a [|b [|c [|d suf]]]]; cbn [lookup list_lookup holds startsBlank length].
  - rewrite !andb_false_r. reflexivity.
  - rewrite !andb_false_r. reflexivity.
  - rewrite !andb_false_r. reflexivity.
  - rewrite !andb_false_r. reflexivity.
  - rewrite (proj2 (Z.ltb_lt _ _)) by lia. reflexivity.
Qed.

Lemma findIndex_blankLine (pre suf : list byte) :
  findIndex (isHeaderEnd (pre ++ suf)) (length suf) (Z.of_nat (length pre))
  = match blankLine suf with
    | Some k => Z.of_nat (length pre + k)
    | None => -1
    end.
Proof.
  revert pre. induction suf as [|b suf IH]; intros pre; [reflexivity|].
  cbn [length findIndex blankLine]. rewrite isHeaderEnd_startsBlank.
  destruct (startsBlank (b :: suf)); [f_equal; lia|].
  specialize (IH (pre ++ [b])). rewrite <- app_assoc in IH. cbn [app] in IH.
  rewrite length_app in IH. cbn [length] in IH.
  replace (Z.of_nat (length pre) + 1) with (Z.of_nat (length pre + 1)) by lia.
  rewrite IH. destruct (blankLine suf) as [k|]; cbn [option_map]; [f_equal; lia|reflexivity].
Qed.

Lemma startsBlank_app (a b : list byte) :
  (4 <= length a)%nat -> startsBlank (a ++ b) = startsBlank a.
Proof.
  destruct a as [|x [|y [|z [|w a]]]]; cbn [length]; try lia. reflexivity.
Qed.

Lemma blankLine_length (a : list byte) (k : nat) :
  blankLine a = Some k -> (k + 4 <= length a)%nat.
Proof.
  revert k. induction a as [|x a IH]; intros k; [discriminate|].
  cbn [blankLine]. destruct (startsBlank (x :: a)) eqn:E.
  - intros [= <-]. destruct a as [|y [|z [|w a]]]; try discriminate. cbn [length]. lia.
  - destruct (blankLine a) as [j|]; [|discriminate]. intros [= <-].
    specialize (IH j eq_refl). cbn [length]. lia.
Qed.

Lemma blankLine_app (a b : list byte) (k : nat) :
  blankLine a = Some k -> blankLine (a ++ b) = Some k.
Proof.
  revert k. induction a as [|x a IH]; intros k; [discriminate|].
  intros H. pose proof (blankLine_length _ _ H) as Hlen. revert H.
  cbn [app blankLine]. change (x :: a ++ b) with ((x :: a) ++ b).
  rewrite startsBlank_app by lia.
  destruct (startsBlank (x :: a)); [auto|].
  destruct (blankLine a) as [j|]; [|discriminate]. intros [= <-].
  rewrite (IH j eq_refl). reflexivity.
Qed.

Lemma blankLine_prefix (a b : list byte) : blankLine (a ++ b) = None -> blankLine a = None.
Proof.
  intros H. destruct (blankLine a) as [k|] eqn:E; [|reflexivity].
  rewrite (blankLine_app a b k E) in H. discriminate.
Qed.

(** The loop reads up to the first value that completes a blank line. *)
Lemma readHeader_finds (cs : list (list byte)) (last : list byte) (later : list (list byte))
    (k : nat) :
  forall responseBuffer : list byte,
    Z.of_nat (length (responseBuffer ++ concat cs)) < 8192 ->
    blankLine (responseBuffer ++ concat cs) = None ->
    blankLine (responseBuffer ++ concat cs ++ last) = Some k ->
    readHeader (cs ++ last :: later) responseBuffer
    = Some (responseBuffer ++ concat cs ++ last, Z.of_nat k + 4, later).
Proof.
  induction cs as [|c cs IH]; intros responseBuffer Hlen Hnone Hsome.
  - cbn [concat app] in *. rewrite app_nil_r in Hlen, Hnone. cbn [readHeader].
    rewrite (proj2 (Z.ltb_lt _ _)) by lia.
    pose proof (findIndex_blankLine [] (responseBuffer ++ last)) as Hf.
    cbn [app length] in Hf. change (Z.of_nat 0) with 0 in Hf.
    rewrite Hf, Hsome. cbn [Nat.add].
    rewrite (proj2 (Z.eqb_neq _ _)) by lia. reflexivity.
  - cbn [concat app] in *. cbn [readHeader].
    rewrite (proj2 (Z.ltb_lt _ _)) by (rewrite !length_app in Hlen; lia).
    pose proof (findIndex_blankLine [] (responseBuffer ++ c)) as Hf.
    cbn [app length] in Hf. change (Z.of_nat 0) with 0 in Hf.
    rewrite Hf. rewrite (app_assoc responseBuffer c (concat cs)) in Hnone.
    rewrite (blankLine_prefix _ _ Hnone). cbn [Z.eqb negb].
    rewrite (IH (responseBuffer ++ c)).
    + rewrite <- !app_assoc. reflexivity.
    + rewrite <- app_assoc. exact Hlen.
    + exact Hnone.
    + rewrite <- !app_assoc. rewrite <- app_assoc in Hsome. exact Hsome.
Qed.

(** ** The status line *)

Lemma decimal_isDigit (n : Z) :
  0 <= n -> toString n <> [] /\ Forall (fun c => isDigit c = true) (toString n).
Proof.
  intros Hn. destruct (toStringRadix_digits 10 n ltac:(lia) Hn) as (Hne & Hall & _).
  split; [exact Hne|]. eapply Forall_impl; [exact Hall|].
  intros c (d & Hd & ->). unfold isDigit, digitChar.
  rewrite (proj2 (Z.ltb_lt d 10)) by lia. apply inRange_spec. lia.
Qed.

Lemma isDigit_plain (c : Z) :
  isDigit c = true -> isSpace c = false /\ c <> 13 /\ 0 <= c < 128.
Proof.
  intros H. apply inRange_spec in H.
  destruct (hexChar_plain c) as (Hws & _ & _ & _ & _ & _ & _ & _ & _ & Hr).
  { apply hexChar_range. lia. }
  repeat split; try assumption; lia.
Qed.

Lemma takeWhile_run (p : Z -> bool) (run rest : jsstring) :
  Forall (fun c => p c = true) run ->
  match rest with c :: _ => p c = false | [] => True end ->
  takeWhile p (run ++ rest) = run /\ dropWhile p (run ++ rest) = rest.
Proof.
  intros Hrun Hrest. induction Hrun as [|c run Hc _ [IH1 IH2]].
  - destruct rest as [|c rest]; [split; reflexivity|]. cbn. rewrite Hrest. split; reflexivity.
  - cbn [app takeWhile dropWhile]. rewrite Hc, IH1, IH2. split; reflexivity.
Qed.

Lemma statusMatch_head (s digits : jsstring) :
  matchAt s = Some digits -> statusMatch s = Some digits.
Proof. intros H. destruct s; cbn [statusMatch]; rewrite H; reflexivity. Qed.

(** The first part of a split is a prefix of the string. *)
Lemma split_head_prefix (x y : Z) (s : jsstring) :
  exists h t r, split_go [x; y] 0 s = h :: t /\ s = h ++ r.
Proof.
  induction s as [|c s (h & t & r & IH & Hs)].
  - exists [], [], []. split; reflexivity.
  - cbn [split_go]. destruct (startsWith [x; y] (c :: s)).
    + exists [], (split_go [x; y] (length [x; y] - 1) s), (c :: s). split; reflexivity.
    + rewrite IH. exists (c :: h), t, r. split; [reflexivity|]. rewrite Hs. reflexivity.
Qed.

Lemma status_line_matched (d1 d2 code : Z) (tail : jsstring) :
  isDigit d1 = true -> isDigit d2 = true -> 0 <= code ->
  match tail with c :: _ => isDigit c = false | [] => True end ->
  statusMatch (nth 0 (split crlf (str "HTTP/" ++ [d1; 46; d2; 32] ++ toString code ++ tail)) [])
  = Some (toString code).
Proof.
  intros H1 H2 Hcode Htail.
  destruct (decimal_isDigit code Hcode) as [Hne Hdig].
  set (digits := toString code) in *.
  assert (Hp : without 13 (str "HTTP/" ++ [d1; 46; d2; 32] ++ digits)).
  { apply isDigit_plain in H1 as (_ & H1 & _). apply isDigit_plain in H2 as (_ & H2 & _).
    change (str "HTTP/" ++ [d1; 46; d2; 32] ++ digits)
      with (72 :: 84 :: 84 :: 80 :: 47 :: d1 :: 46 :: d2 :: 32 :: digits).
    repeat (constructor; [first [assumption|discriminate]|]).
    eapply Forall_impl; [exact Hdig|]. intros c Hc. apply isDigit_plain in Hc. tauto. }
  unfold split, crlf.
  replace (str "HTTP/" ++ [d1; 46; d2; 32] ++ digits ++ tail)
    with ((str "HTTP/" ++ [d1; 46; d2; 32] ++ digits) ++ tail)
    by (rewrite <- !app_assoc; reflexivity).
  rewrite (split_go_prefix 13 10 _ tail Hp).
  destruct (split_head_prefix 13 10 tail) as (h & t & r & -> & Hr).
  cbn [nth]. apply statusMatch_head.
  change ((str "HTTP/" ++ [d1; 46; d2; 32] ++ digits) ++ h)
    with (72 :: 84 :: 84 :: 80 :: 47 :: d1 :: 46 :: d2 :: 32 :: digits ++ h).
  cbn [matchAt]. rewrite H1, H2. cbn [andb].
  assert (Hh : match h with c :: _ => isDigit c = false | [] => True end).
  { destruct h as [|c h]; [exact I|]. rewrite Hr in Htail. exact Htail. }
  destruct (takeWhile_run isDigit digits h Hdig Hh) as [Ht Hd].
  destruct digits as [|c0 digits'] eqn:Ed; [congruence|].
  assert (Hc0 : isSpace c0 = false).
  { inversion Hdig as [|? ? Hc _]; subst. apply isDigit_plain in Hc. tauto. }
  cbn [takeWhile dropWhile app]. change (isSpace 32) with true. cbv iota.
  cbn [takeWhile dropWhile app]. rewrite Hc0.
  change (c0 :: digits' ++ h) with ((c0 :: digits') ++ h). rewrite Ht. reflexivity.
Qed.

(** With a complete response header whose status line is
    [HTTP/d.d code ...], in ASCII, the status decides alone: a code from
    200 to 299 returns the socket, with the initial data written behind
    the request when there is any, and every other code closes the socket
    with nothing written but the request.  The values read up to the blank
    line are used up: what they hold behind the blank line is not in the
    socket that is returned. *)
Theorem http_connect_status_decides
    (net : proxy) (addressRemote : jsstring) (portRemote : Z)
    (hostname : jsstring) (port : Z) (initialData : list byte)
    (cs : list (list byte)) (last : list byte) (later : list (list byte))
    (k : nat) (d1 d2 code : Z) (tail : jsstring) :
  connectThrows net = false -> acceptsRequest net = true -> acceptsInitial net = true ->
  reads net = cs ++ last :: later ->
  Z.of_nat (length (concat cs)) < 8192 ->
  blankLine (concat cs) = None ->
  blankLine (concat cs ++ last) = Some k ->
  take (k + 4) (concat cs ++ last)
  = map toUint8 (str "HTTP/" ++ [d1; 46; d2; 32] ++ toString code ++ tail) ->
  isDigit d1 = true -> isDigit d2 = true -> 0 <= code < 2 ^ 53 ->
  Forall (fun c => 0 <= c < 128) tail ->
  match tail with c :: _ => isDigit c = false | [] => True end ->
  httpConnect net addressRemote portRemote None None hostname port initialData
  = Some (if (200 <=? code) && (code <? 300) then Some later else None,
          Connect hostname port
          :: Write (textEncode (connectRequest addressRemote portRemote))
          :: (if (200 <=? code) && (code <? 300)
              then if (0 <? length initialData)%nat then [Write initialData] else []
              else [Close])).
Proof.
  intros Hconnect Hrequest Hinitial Hreads Hlen Hnone Hsome Htext H1 H2 Hcode Hascii Htail.
  unfold httpConnect. rewrite Hconnect, Hrequest, Hinitial, Hreads. cbv zeta.
  cbn [Tcp.truthy andb negb].
  rewrite (readHeader_finds cs last later k []) by assumption.
  cbn [app].
  pose proof (blankLine_length _ _ Hsome) as Hk.
  rewrite slice_inside by lia. rewrite drop_0, Z.sub_0_r.
  replace (Z.to_nat (Z.of_nat k + 4)) with (k + 4)%nat by lia.
  rewrite Htext.
  destruct (decimal_isDigit code ltac:(lia)) as [_ Hdig].
  rewrite textDecode_toUint8.
  2:{ destruct (isDigit_plain d1 H1) as (_ & _ & Hr1).
      destruct (isDigit_plain d2 H2) as (_ & _ & Hr2).
      change (str "HTTP/" ++ [d1; 46; d2; 32] ++ toString code ++ tail)
        with (72 :: 84 :: 84 :: 80 :: 47 :: d1 :: 46 :: d2 :: 32 :: toString code ++ tail).
      repeat (constructor; [lia|]). apply Forall_app. split; [|exact Hascii].
      eapply Forall_impl; [exact Hdig|]. intros c Hc. apply isDigit_plain in Hc. tauto. }
  rewrite (status_line_matched d1 d2 code tail H1 H2 ltac:(lia) Htail).
  rewrite parseInt_toString by lia. cbn [num_lt num_ge].
  fold (connectRequest addressRemote portRemote).
  destruct (Z.ltb_spec code 200), (Z.leb_spec 300 code), (Z.leb_spec 200 code),
    (Z.ltb_spec code 300); try lia; cbn [orb andb]; try reflexivity.
  destruct (0 <? length initialData)%nat; reflexivity.
Qed.

Lemma http_connect_status_decides_witness :
  HttpConnect.httpConnect okProxy (str "example.com") 443 None None (str "10.0.0.1") 8080
    (bytes [71; 69; 84])
  = Some (if (200 <=? 200) && (200 <? 300) then Some [bytes [1; 2; 3]] else None,
          HttpConnect.Connect (str "10.0.0.1") 8080
          :: HttpConnect.Write (textEncode (connectRequest (str "example.com") 443))
          :: (if (200 <=? 200) && (200 <? 300)
              then if (0 <? length (bytes [71; 69; 84]%Z))%nat
                   then [HttpConnect.Write (bytes [71; 69; 84])] else []
              else [HttpConnect.Close])).
Proof.
  refine (http_connect_status_decides okProxy (str "example.com") 443 (str "10.0.0.1") 8080
            (bytes [71; 69; 84]) [] okResponse [bytes [1; 2; 3]] 15 49 49 200
            (str " OK" ++ [13; 10; 13; 10]) _ _ _ _ _ _ _ _ _ _ _ _ _).
  - reflexivity.
  - reflexivity.
  - reflexivity.
  - reflexivity.
  - cbn. lia.
  - reflexivity.
  - vm_compute. reflexivity.
  - vm_compute. reflexivity.
  - reflexivity.
  - reflexivity.
  - lia.
  - apply (bool_decide_unpack _). vm_compute. exact I.
  - reflexivity.
Defined.

(** ** No header *)

Lemma readHeader_gives_up (cs later : list (list byte)) :
  forall responseBuffer : list byte,
    blankLine (responseBuffer ++ concat cs) = None ->
    later = [] \/ 8192 <= Z.of_nat (length (responseBuffer ++ concat cs)) ->
    readHeader (cs ++ later) responseBuffer = None.
Proof.
  induction cs as [|c cs IH]; intros responseBuffer Hnone Hend.
  - cbn [concat app] in *. rewrite app_nil_r in Hend.
    destruct later as [|value later]; cbn [readHeader].
    + destruct (_ <? 8192); reflexivity.
    + destruct Hend as [Hend|Hend]; [discriminate|].
      rewrite (proj2 (Z.ltb_ge _ _)) by lia. reflexivity.
  - cbn [concat app] in *. cbn [readHeader].
    destruct (_ <? 8192); [|reflexivity].
    pose proof (findIndex_blankLine [] (responseBuffer ++ c)) as Hf.
    cbn [app length] in Hf. change (Z.of_nat 0) with 0 in Hf.
    rewrite Hf. rewrite (app_assoc responseBuffer c (concat cs)) in Hnone, Hend.
    rewrite (blankLine_prefix _ _ Hnone). cbn [Z.eqb negb].
    apply IH; assumption.
Qed.

(** Without a blank line the tunnel is not made: when the proxy ends the
    stream before one arrives, or has sent 8192 bytes or more without one,
    the function returns [undefined] with the socket closed and nothing
    written but the request, whatever arrives later. *)
Theorem http_connect_needs_blank_line_within_limit
    (net : proxy) (addressRemote : jsstring) (portRemote : Z)
    (hostname : jsstring) (port : Z) (initialData : list byte)
    (cs later : list (list byte)) :
  connectThrows net = false ->
  reads net = cs ++ later ->
  blankLine (concat cs) = None ->
  later = [] \/ 8192 <= Z.of_nat (length (concat cs)) ->
  httpConnect net addressRemote portRemote None None hostname port initialData
  = Some (None, [Connect hostname port;
                 Write (textEncode (connectRequest addressRemote portRemote));
                 Close]).
Proof.
  intros Hconnect Hreads Hnone Hend.
  unfold httpConnect. rewrite Hconnect, Hreads. cbv zeta. cbn [Tcp.truthy andb].
  rewrite (readHeader_gives_up cs later []) by assumption.
  destruct (acceptsRequest net); reflexivity.
Qed.

Lemma http_connect_needs_blank_line_within_limit_witness :
  HttpConnect.httpConnect
    {| HttpConnect.connectThrows := false; HttpConnect.acceptsRequest := true;
       HttpConnect.reads := [map toUint8 (str "HTTP/1.1 200 OK" ++ [13; 10])] ++ [];
       HttpConnect.acceptsInitial := true |}
    (str "example.com") 443 None None (str "10.0.0.1") 8080 (bytes [71; 69; 84])
  = Some (None, [HttpConnect.Connect (str "10.0.0.1") 8080;
                 HttpConnect.Write (textEncode (connectRequest (str "example.com") 443));
                 HttpConnect.Close]).
Proof.
  refine (http_connect_needs_blank_line_within_limit
            {| HttpConnect.connectThrows := false; HttpConnect.acceptsRequest := true;
               HttpConnect.reads := [map toUint8 (str "HTTP/1.1 200 OK" ++ [13; 10])] ++ [];
               HttpConnect.acceptsInitial := true |}
            (str "example.com") 443 (str "10.0.0.1") 8080 (bytes [71; 69; 84])
            [map toUint8 (str "HTTP/1.1 200 OK" ++ [13; 10])] [] _ _ _ _).
  - reflexivity.
  - reflexivity.
  - vm_compute. reflexivity.
  - left. reflexivity.
Defined.

End HttpProofs.
